(** * SP-1200 / SND codecs of mpc3000-snd-player: a shallow embedding

    The TypeScript sources embedded here are
    - [app/lib/sp1200.ts] (constants, [SP1200DiskBuilderImpl], [parseWavHeader],
      [validateWavFormat], [convertWavToSP1200Format], [getSample],
      [convert12BitTo16Bit], [createSP1200SampleFile], [parseSP1200File],
      [parseSP1200Disk], [createSP1200File]);
    - [app/lib/sp1200Player.ts] ([SP1200Player]: the loading of a disk
      image);
    - [app/api/sp1200/route.ts] ([createSP1200Header], [createWavHeader],
      [findWavDataChunk], [convert12BitTo16Bit]);
    - [lib/akaiSnd.ts] ([parseSndFile], [createSndFile]);
    - [lib/akaiPgm.ts] ([parsePgmFile]);
    - [lib/fileUtils.ts] ([sanitizeFileName]);
    - [lib/audioConverter.ts] ([convertToSnd]);
    - [components/SndPlayer.tsx] (what [loadSndFile] decodes).

    Conventions.  Integer-valued JavaScript numbers (offsets, lengths, header
    fields) are [Z]; numbers that go through fractional arithmetic are IEEE
    binary64 values ([PrimFloat.float]).  An [ArrayBuffer] is its length and
    its contents as a function from offsets to bytes; a [Uint8Array] given
    by its elements is the list of them; every [DataView] and
    typed-array access checks its bounds and throws [RangeError] as the
    runtime does.  A JavaScript string is the list of its UTF-16 code units.
    A thrown exception is the [Throw] branch of [result].

    The class [SP1200DiskBuilderImpl] is embedded twice.  In [SP1200] a
    method takes the builder's state as a value and returns the state it
    leaves.  In [Heap] the same methods run on a store of objects, with
    references, allocation and writes in place; the statements about what
    a build leaves untouched are made there, and the two embeddings are
    proved to agree on what a build returns. *)

From Stdlib Require Import String Ascii ZArith List Bool Lia.
From Stdlib Require Import Permutation Sorted DecimalString.
From Stdlib Require DecimalZ QArith.
From Stdlib Require Import Floats Uint63.
Import ListNotations.
Open Scope Z_scope.

(* ================================================================== *)
(** ** The JavaScript runtime pieces the sources rely on *)
(* ================================================================== *)

Module JS.

(** Exceptions: the runtime's [RangeError] (out-of-bounds [DataView] or
    typed-array access) and the [new Error(message)] of the sources. *)
Inductive exn : Type :=
| RangeError
| Error (message : string).

Inductive result (A : Type) : Type :=
| Ok (a : A)
| Throw (e : exn).
Arguments Ok {A} a.
Arguments Throw {A} e.

Definition bind {A B} (r : result A) (k : A -> result B) : result B :=
  match r with
  | Ok a => k a
  | Throw e => Throw e
  end.

(** A JavaScript string: its UTF-16 code units. *)
Definition jsstring : Type := list Z.

(** Code units of an ASCII literal (used for the examples). *)
Definition str (s : string) : jsstring :=
  map (fun c => Z.of_nat (nat_of_ascii c)) (list_ascii_of_string s).

(** [s.slice(0, n)] for [0 <= n]. *)
Definition slice0 (n : nat) (s : jsstring) : jsstring := firstn n s.

(** Template rendering of an integer-valued number: [`${n}`]. *)
Definition decimal (n : Z) : string := NilZero.string_of_int (Z.to_int n).

(** *** 32-bit integer operators ([&], [|], [~], [<<], [>>]) *)

Definition ToInt32 (z : Z) : Z :=
  let m := z mod 2 ^ 32 in
  if m <? 2 ^ 31 then m else m - 2 ^ 32.

Definition bitand (a b : Z) : Z := ToInt32 (Z.land (ToInt32 a) (ToInt32 b)).
Definition bitor (a b : Z) : Z := ToInt32 (Z.lor (ToInt32 a) (ToInt32 b)).
Definition bitnot (a : Z) : Z := ToInt32 (Z.lnot (ToInt32 a)).
Definition shl (a n : Z) : Z := ToInt32 (Z.shiftl (ToInt32 a) (n mod 32)).
Definition sar (a n : Z) : Z := Z.shiftr (ToInt32 a) (n mod 32).

(** *** ArrayBuffer, DataView, Uint8Array *)

Record ArrayBuffer : Type := mkBuffer {
  byteLength : Z;
  byteAt : Z -> Z
}.

(** [new ArrayBuffer(n)]: zero-filled. *)
Definition alloc (n : Z) : ArrayBuffer :=
  {| byteLength := n; byteAt := fun _ => 0 |}.

(** A [Uint8Array] given by its elements, seen as a buffer. *)
Definition of_bytes (l : list Z) : ArrayBuffer :=
  {| byteLength := Z.of_nat (length l);
     byteAt := fun i => if i <? 0 then 0 else nth (Z.to_nat i) l 0 |}.

Definition in_bounds (b : ArrayBuffer) (off size : Z) : bool :=
  (0 <=? off) && (off + size <=? byteLength b).

Definition store (b : ArrayBuffer) (off v : Z) : ArrayBuffer :=
  {| byteLength := byteLength b;
     byteAt := fun i => if i =? off then v else byteAt b i |}.

(** [bytes.fill(v, start, stop)]; indices are clamped to the length. *)
Definition fill (b : ArrayBuffer) (v start stop : Z) : ArrayBuffer :=
  {| byteLength := byteLength b;
     byteAt := fun i =>
       if (start <=? i) && (i <? Z.min stop (byteLength b)) then v mod 256
       else byteAt b i |}.

(** [bytes.set(src, off)]: throws when the source does not fit. *)
Definition Uint8Array_set (b : ArrayBuffer) (src : list Z) (off : Z)
  : result ArrayBuffer :=
  if in_bounds b off (Z.of_nat (length src)) then
    Ok {| byteLength := byteLength b;
          byteAt := fun i =>
            if (off <=? i) && (i <? off + Z.of_nat (length src))
            then nth (Z.to_nat (i - off)) src 0
            else byteAt b i |}
  else Throw RangeError.

(** The byte at an offset.  The contents stand for bytes modulo 256, so
    that every function of this type denotes a buffer and every read is
    in 0..255. *)
Definition byte (b : ArrayBuffer) (i : Z) : Z := byteAt b i mod 256.

Definition getUint8 (b : ArrayBuffer) (off : Z) : result Z :=
  if in_bounds b off 1 then Ok (byte b off) else Throw RangeError.

Definition getUint16 (b : ArrayBuffer) (off : Z) (littleEndian : bool)
  : result Z :=
  if in_bounds b off 2 then
    Ok (if littleEndian
        then byte b off + 256 * byte b (off + 1)
        else 256 * byte b off + byte b (off + 1))
  else Throw RangeError.

Definition getInt16 (b : ArrayBuffer) (off : Z) (littleEndian : bool)
  : result Z :=
  bind (getUint16 b off littleEndian)
       (fun u => Ok (if u <? 32768 then u else u - 65536)).

Definition getUint32 (b : ArrayBuffer) (off : Z) (littleEndian : bool)
  : result Z :=
  if in_bounds b off 4 then
    Ok (if littleEndian
        then byte b off + 256 * byte b (off + 1)
             + 65536 * byte b (off + 2) + 16777216 * byte b (off + 3)
        else 16777216 * byte b off + 65536 * byte b (off + 1)
             + 256 * byte b (off + 2) + byte b (off + 3))
  else Throw RangeError.

Definition setUint8 (b : ArrayBuffer) (off v : Z) : result ArrayBuffer :=
  if in_bounds b off 1 then Ok (store b off (v mod 256))
  else Throw RangeError.

Definition setUint16 (b : ArrayBuffer) (off v : Z) (littleEndian : bool)
  : result ArrayBuffer :=
  if in_bounds b off 2 then
    let w := v mod 65536 in
    Ok (if littleEndian
        then store (store b off (w mod 256)) (off + 1) (w / 256)
        else store (store b off (w / 256)) (off + 1) (w mod 256))
  else Throw RangeError.

Definition setUint32 (b : ArrayBuffer) (off v : Z) (littleEndian : bool)
  : result ArrayBuffer :=
  if in_bounds b off 4 then
    let w := v mod 4294967296 in
    let b0 := w mod 256 in
    let b1 := (w / 256) mod 256 in
    let b2 := (w / 65536) mod 256 in
    let b3 := w / 16777216 in
    Ok (if littleEndian
        then store (store (store (store b off b0) (off + 1) b1)
                          (off + 2) b2) (off + 3) b3
        else store (store (store (store b off b3) (off + 1) b2)
                          (off + 2) b1) (off + 3) b0)
  else Throw RangeError.

(** The bytes [off .. off+n-1] read one [getUint8] at a time, as the
    [for] loops of the parsers do. *)
Fixpoint readBytes (b : ArrayBuffer) (off : Z) (n : nat)
  : result (list Z) :=
  match n with
  | O => Ok []
  | S n' =>
      bind (getUint8 b off) (fun x =>
      bind (readBytes b (off + 1) n') (fun xs => Ok (x :: xs)))
  end.

(** *** [TextEncoder.encode]: UTF-8 of a sequence of UTF-16 code units.
    A lone surrogate is encoded as U+FFFD. *)

Definition utf8_of_code_point (c : Z) : list Z :=
  if c <? 128 then [c]
  else if c <? 2048 then [192 + c / 64; 128 + c mod 64]
  else if c <? 65536 then
    [224 + c / 4096; 128 + (c / 64) mod 64; 128 + c mod 64]
  else [240 + c / 262144; 128 + (c / 4096) mod 64;
        128 + (c / 64) mod 64; 128 + c mod 64].

Definition is_high_surrogate (c : Z) : bool := (55296 <=? c) && (c <=? 56319).
Definition is_low_surrogate (c : Z) : bool := (56320 <=? c) && (c <=? 57343).

Fixpoint TextEncoder_encode (s : jsstring) : list Z :=
  match s with
  | [] => []
  | c :: rest =>
      if is_high_surrogate c then
        match rest with
        | d :: rest' =>
            if is_low_surrogate d
            then utf8_of_code_point
                   (65536 + (c - 55296) * 1024 + (d - 56320))
                 ++ TextEncoder_encode rest'
            else utf8_of_code_point 65533 ++ TextEncoder_encode rest
        | [] => utf8_of_code_point 65533
        end
      else if is_low_surrogate c
           then utf8_of_code_point 65533 ++ TextEncoder_encode rest
           else utf8_of_code_point c ++ TextEncoder_encode rest
  end.

(** *** [String.prototype.trim] on strings of code units below 256
    (what [String.fromCharCode(byte)] produces): the white space and line
    terminators in that range are TAB, LF, VT, FF, CR, SP and NBSP. *)

Definition is_space (c : Z) : bool :=
  ((9 <=? c) && (c <=? 13)) || (c =? 32) || (c =? 160).

Fixpoint trimStart (s : jsstring) : jsstring :=
  match s with
  | [] => []
  | c :: rest => if is_space c then trimStart rest else s
  end.

Definition trim (s : jsstring) : jsstring :=
  rev (trimStart (rev (trimStart s))).

(** *** [Array.prototype.sort] with a comparator

    The sort is stable, and for a consistent comparator every stable sort
    returns the same array; insertion from the right is one. *)

Section Sort.
Context {A : Type} (compareFn : A -> A -> Z).

Fixpoint insert (x : A) (l : list A) : list A :=
  match l with
  | [] => [x]
  | y :: l' => if compareFn x y <=? 0 then x :: l else y :: insert x l'
  end.

Definition sort (l : list A) : list A := fold_right insert [] l.
End Sort.

(** *** [Map<string, V>]: insertion-ordered; [set] on a present key keeps
    its position. *)

Section Map.
Context {V : Type}.
Definition Map : Type := list (string * V).

Fixpoint Map_get (m : Map) (k : string) : option V :=
  match m with
  | [] => None
  | (k', v) :: m' => if String.eqb k' k then Some v else Map_get m' k
  end.

Fixpoint Map_set (m : Map) (k : string) (v : V) : Map :=
  match m with
  | [] => [(k, v)]
  | (k', v') :: m' =>
      if String.eqb k' k then (k', v) :: m'
      else (k', v') :: Map_set m' k v
  end.

Fixpoint Map_delete (m : Map) (k : string) : Map :=
  match m with
  | [] => []
  | (k', v') :: m' =>
      if String.eqb k' k then m' else (k', v') :: Map_delete m' k
  end.

Definition Map_values (m : Map) : list V := map snd m.
Definition Map_size (m : Map) : Z := Z.of_nat (length m).
End Map.
Arguments Map V : clear implicits.

End JS.

Import JS.

Declare Scope js_scope.
Delimit Scope js_scope with js.
Notation "x <- c1 ;; c2" := (JS.bind c1 (fun x => c2))
  (at level 61, c1 at next level, right associativity) : js_scope.
Open Scope js_scope.

(* ================================================================== *)
(** ** app/lib/sp1200.ts: constants and data model *)
(* ================================================================== *)

Module SP1200.

Definition SP1200_MAGIC : Z := 0x1200.
Definition SP1200_SAMPLE_RATE : Z := 26040.
Definition SP1200_DISK_SIZE : Z := 824576.
Definition SP1200_PAD_TABLE_OFFSET : Z := 0x800.
Definition SP1200_PAD_ENTRY_SIZE : Z := 32.
Definition SP1200_SAMPLE_DATA_OFFSET : Z := 0x1000.
Definition SP1200_SAMPLE_ALIGN : Z := 256.
Definition SP1200_END_MARKER : Z := 0x8000.
Definition SP1200_MAX_PADS : Z := 32.
Definition SP1200_VOLUME_MAX : Z := 255.
Definition SP1200_BLOCK_SIZE : Z := 256.

(** [type SP1200Bank = 'A' | 'B' | 'C' | 'D'] *)
Inductive SP1200Bank : Type := A | B | C | D.

Definition bank_letter (b : SP1200Bank) : string :=
  match b with A => "A" | B => "B" | C => "C" | D => "D" end.

Definition bank_eqb (x y : SP1200Bank) : bool :=
  match x, y with
  | A, A | B, B | C, C | D, D => true
  | _, _ => false
  end.

(** [interface SP1200SampleMetadata]: every field is optional. *)
Record SP1200SampleMetadata : Type := {
  tuning : option Z;
  volume : option Z;
  loop : option bool;
  loopStart : option Z;
  loopEnd : option Z;
  truncStart : option Z;
  truncEnd : option Z
}.

(** [interface SP1200PadAssignment], as a caller hands it to [addSample]:
    the bank is whatever string the caller cast to [SP1200Bank].  The pad
    number is an integer, as the callers of [addSample] give it: the
    upload route reads it with [parseInt], the page takes it from its
    pad selector.  A fraction such as 1.5, which the test of
    [isValidPad] would let through as well, is not a value of this
    type. *)
Record PadAssignmentArg : Type := {
  arg_bank : string;
  arg_padNumber : Z;
  arg_name : jsstring;
  arg_data : list Z;
  arg_metadata : option SP1200SampleMetadata
}.

(** [interface SP1200PadAssignment], as the builder stores it: the type
    guard [isValidBank] has narrowed the bank. *)
Record SP1200PadAssignment : Type := {
  bank : SP1200Bank;
  padNumber : Z;
  name : jsstring;
  data : list Z;
  metadata : option SP1200SampleMetadata
}.

(** [interface SP1200Sample].  [parseSP1200Disk] fills [bank] with
    [['A','B','C','D'][bankIndex] as SP1200Bank], which is [undefined]
    for an index above 3: hence the option. *)
Record SP1200Sample : Type := {
  s_name : jsstring;
  s_bank : option SP1200Bank;
  s_padNumber : Z;
  s_data : list Z;
  s_sampleRate : Z;
  s_bitsPerSample : Z;
  s_length : Z;
  s_metadata : option SP1200SampleMetadata
}.

Record SP1200Sequence : Type := {
  seq_name : jsstring;
  seq_tempo : Z;
  seq_steps : list (list Z)
}.

Record SP1200Disk : Type := {
  samples : list SP1200Sample;
  sequences : list SP1200Sequence
}.

(** [isValidBank]: a type guard, so it returns the narrowed bank. *)
Definition isValidBank (bank : string) : option SP1200Bank :=
  if String.eqb bank "A" then Some A
  else if String.eqb bank "B" then Some B
  else if String.eqb bank "C" then Some C
  else if String.eqb bank "D" then Some D
  else None.

Definition isValidPad (pad : Z) : bool := (pad >=? 1) && (pad <=? 8).

(* ---------------------------------------------------------------- *)
(** ** class SP1200DiskBuilderImpl *)
(* ---------------------------------------------------------------- *)

(** The object's only field: [padAssignments]. *)
Definition Builder : Type := Map SP1200PadAssignment.

(** A method: runs on [this], returns or throws, and leaves a state. *)
Definition Method (R : Type) : Type := Builder -> result R * Builder.

Definition new_builder : Builder := [].

Definition getPadKey (bank : SP1200Bank) (padNumber : Z) : string :=
  (bank_letter bank ++ decimal padNumber)%string.

Definition bankOffset (bank : SP1200Bank) : Z :=
  match bank with A => 0 | B => 8 | C => 16 | D => 24 end.

Definition getPadIndex (bank : SP1200Bank) (pad : Z) : Z :=
  bankOffset bank + (pad - 1).

Definition addSample (assignment : PadAssignmentArg) : Method unit :=
  fun this =>
    match isValidBank (arg_bank assignment) with
    | None => (Throw (Error "Invalid bank. Must be A, B, C, or D"), this)
    | Some bank =>
        if negb (isValidPad (arg_padNumber assignment)) then
          (Throw (Error "Invalid pad number. Must be between 1 and 8"), this)
        else
          let key := getPadKey bank (arg_padNumber assignment) in
          (Ok tt,
           Map_set this key
             {| bank := bank;
                padNumber := arg_padNumber assignment;
                name := slice0 12 (arg_name assignment);
                data := arg_data assignment;
                metadata := arg_metadata assignment |})
    end.

Definition removeSample (bank : SP1200Bank) (padNumber : Z) : Method unit :=
  fun this => (Ok tt, Map_delete this (getPadKey bank padNumber)).

Definition getSample (bank : SP1200Bank) (padNumber : Z)
  : Method (option SP1200PadAssignment) :=
  fun this => (Ok (Map_get this (getPadKey bank padNumber)), this).

Definition getPadAssignments : Method (list SP1200PadAssignment) :=
  fun this => (Ok (Map_values this), this).

Definition clear : Method unit := fun _ => (Ok tt, []).

(** The comparator of [createDiskImage]: [localeCompare] on two bank
    letters orders them A < B < C < D. *)
Definition bankIndex (bank : SP1200Bank) : Z :=
  match bank with A => 0 | B => 1 | C => 2 | D => 3 end.

Definition localeCompare (a b : SP1200Bank) : Z :=
  match bankIndex a ?= bankIndex b with
  | Lt => -1
  | Eq => 0
  | Gt => 1
  end.

Definition compareAssignments (a b : SP1200PadAssignment) : Z :=
  let bankCompare := localeCompare (bank a) (bank b) in
  if negb (bankCompare =? 0) then bankCompare
  else padNumber a - padNumber b.

(** [(x + SP1200_SAMPLE_ALIGN - 1) & ~(SP1200_SAMPLE_ALIGN - 1)] *)
Definition alignUp (x : Z) : Z :=
  bitand (x + SP1200_SAMPLE_ALIGN - 1) (bitnot (SP1200_SAMPLE_ALIGN - 1)).

(** [v || d] on an optional number: [undefined] and [0] are falsy. *)
Definition orDefault (v : option Z) (d : Z) : Z :=
  match v with
  | Some x => if x =? 0 then d else x
  | None => d
  end.

(** The metadata block of a pad entry (lines 193-210). *)
Definition writeMetadata (view : ArrayBuffer) (padEntryOffset : Z)
           (metadata : option SP1200SampleMetadata) : result ArrayBuffer :=
  match metadata with
  | Some m =>
      let tuningValue := match tuning m with Some t => t | None => 0 end in
      view <- setUint8 view (padEntryOffset + 0x18)
                (bitand (tuningValue + 12) 0xFF) ;;
      view <- setUint8 view (padEntryOffset + 0x19)
                (orDefault (volume m) SP1200_VOLUME_MAX) ;;
      view <- setUint8 view (padEntryOffset + 0x1A)
                (match loop m with Some true => 1 | _ => 0 end) ;;
      view <- setUint16 view (padEntryOffset + 0x1B)
                (orDefault (loopStart m) 0) true ;;
      view <- setUint16 view (padEntryOffset + 0x1D)
                (orDefault (loopEnd m) 0) true ;;
      view <- setUint16 view (padEntryOffset + 0x1F)
                (orDefault (truncStart m) 0) true ;;
      setUint16 view (padEntryOffset + 0x21)
                (orDefault (truncEnd m) 0) true
  | None =>
      setUint8 view (padEntryOffset + 0x19) SP1200_VOLUME_MAX
  end.

(** One iteration of the [for (const sample of sortedAssignments)] loop,
    on the buffer and [currentDataOffset]. *)
Definition writeSample (st : ArrayBuffer * Z) (sample : SP1200PadAssignment)
  : result (ArrayBuffer * Z) :=
  let '(buffer, currentDataOffset) := st in
  let padIndex := getPadIndex (bank sample) (padNumber sample) in
  let padEntryOffset :=
    SP1200_PAD_TABLE_OFFSET + padIndex * SP1200_PAD_ENTRY_SIZE in
  let nameBytes := TextEncoder_encode (slice0 12 (name sample)) in
  buffer <- Uint8Array_set buffer nameBytes padEntryOffset ;;
  let numWords := Z.of_nat (length (data sample)) / 2 in
  buffer <- setUint32 buffer (padEntryOffset + 0x0C) numWords true ;;
  buffer <- setUint32 buffer (padEntryOffset + 0x10) currentDataOffset true ;;
  buffer <- setUint8 buffer (padEntryOffset + 0x14) (bankIndex (bank sample)) ;;
  buffer <- setUint8 buffer (padEntryOffset + 0x15) (padNumber sample - 1) ;;
  buffer <- writeMetadata buffer padEntryOffset (metadata sample) ;;
  let currentDataOffset :=
    if negb (currentDataOffset mod SP1200_SAMPLE_ALIGN =? 0)
    then alignUp currentDataOffset
    else currentDataOffset in
  buffer <- Uint8Array_set buffer (data sample) currentDataOffset ;;
  let endMarkerOffset := currentDataOffset + Z.of_nat (length (data sample)) in
  buffer <- setUint16 buffer endMarkerOffset SP1200_END_MARKER true ;;
  Ok (buffer, alignUp endMarkerOffset).

Fixpoint writeSamples (st : ArrayBuffer * Z)
         (sortedAssignments : list SP1200PadAssignment)
  : result (ArrayBuffer * Z) :=
  match sortedAssignments with
  | [] => Ok st
  | sample :: rest =>
      st <- writeSample st sample ;;
      writeSamples st rest
  end.

(** The header and the zeroed pad table (lines 140-159). *)
Definition writeHeader (numSamples : Z) : result ArrayBuffer :=
  let buffer := alloc SP1200_DISK_SIZE in
  let buffer := fill buffer 0 0 (byteLength buffer) in
  buffer <- setUint16 buffer 0 SP1200_MAGIC true ;;
  buffer <- setUint16 buffer 2 numSamples true ;;
  buffer <- setUint16 buffer 4 0 true ;;
  Ok (fill buffer 0 SP1200_PAD_TABLE_OFFSET
           (SP1200_PAD_TABLE_OFFSET + SP1200_MAX_PADS * SP1200_PAD_ENTRY_SIZE)).

Definition createDiskImage : Method ArrayBuffer :=
  fun this =>
    let numSamples := Map_size this in
    match getPadAssignments this with
    | (Throw e, this) => (Throw e, this)
    | (Ok assignments, this) =>
        let sortedAssignments := sort compareAssignments assignments in
        (buffer <- writeHeader numSamples ;;
         st <- writeSamples (buffer, SP1200_SAMPLE_DATA_OFFSET)
                            sortedAssignments ;;
         let '(buffer, currentDataOffset) := st in
         if currentDataOffset >? SP1200_DISK_SIZE
         then Throw (Error "Disk image exceeds maximum size")
         else Ok buffer,
         this)
    end.

(* ---------------------------------------------------------------- *)
(** ** Single-sample files and disk parsing *)
(* ---------------------------------------------------------------- *)

Definition createSP1200SampleFile (sample : SP1200Sample)
  : result ArrayBuffer :=
  let buffer := alloc SP1200_DISK_SIZE in
  let buffer := fill buffer 0 0 (byteLength buffer) in
  buffer <- setUint16 buffer 0 SP1200_MAGIC true ;;
  buffer <- setUint16 buffer 2 1 true ;;
  buffer <- setUint16 buffer 4 0 true ;;
  let padEntryOffset := SP1200_PAD_TABLE_OFFSET in
  let nameBytes := TextEncoder_encode (slice0 12 (s_name sample)) in
  buffer <- Uint8Array_set buffer nameBytes padEntryOffset ;;
  let numWords := Z.of_nat (length (s_data sample)) / 2 in
  buffer <- setUint32 buffer (padEntryOffset + 0x0C) numWords true ;;
  buffer <- setUint32 buffer (padEntryOffset + 0x10)
              SP1200_SAMPLE_DATA_OFFSET true ;;
  Uint8Array_set buffer (s_data sample) SP1200_SAMPLE_DATA_OFFSET.

(** The name loop shared by the parsers: up to 12 bytes, stopping at the
    first zero byte; a read past the buffer throws. *)
Fixpoint readName (view : ArrayBuffer) (off : Z) (n : nat)
  : result jsstring :=
  match n with
  | O => Ok []
  | S n' =>
      char <- getUint8 view off ;;
      if char =? 0 then Ok []
      else (rest <- readName view (off + 1) n' ;; Ok (char :: rest))
  end.

Definition parseSP1200File (fileData : ArrayBuffer) : result SP1200Sample :=
  magic <- getUint16 fileData 0 true ;;
  if negb (magic =? bitand SP1200_MAGIC 0xFFFF) then
    Throw (Error "Invalid SP-1200 file: wrong magic number")
  else
    let padEntryOffset := SP1200_PAD_TABLE_OFFSET in
    name <- readName fileData padEntryOffset 12 ;;
    numWords <- getUint32 fileData (padEntryOffset + 0x0C) true ;;
    sampleOffset <- getUint32 fileData (padEntryOffset + 0x10) true ;;
    sampleData <- readBytes fileData sampleOffset (Z.to_nat (numWords * 2)) ;;
    Ok {| s_name := trim name;
          s_bank := Some A;
          s_padNumber := 1;
          s_data := sampleData;
          s_sampleRate := SP1200_SAMPLE_RATE;
          s_bitsPerSample := 12;
          s_length := numWords;
          s_metadata := None |}.

(** One iteration of the sample loop of [parseSP1200Disk]. *)
Definition parseEntry (view : ArrayBuffer) (i : Z) : result SP1200Sample :=
  let padEntryOffset := SP1200_PAD_TABLE_OFFSET + i * SP1200_PAD_ENTRY_SIZE in
  name <- readName view padEntryOffset 12 ;;
  numWords <- getUint32 view (padEntryOffset + 0x0C) true ;;
  sampleOffset <- getUint32 view (padEntryOffset + 0x10) true ;;
  bankIndex <- getUint8 view (padEntryOffset + 0x14) ;;
  padByte <- getUint8 view (padEntryOffset + 0x15) ;;
  let padNumber := padByte + 1 in
  sampleData <- readBytes view sampleOffset (Z.to_nat (numWords * 2)) ;;
  Ok {| s_name := trim name;
        s_bank := nth_error [A; B; C; D] (Z.to_nat bankIndex);
        s_padNumber := padNumber;
        s_data := sampleData;
        s_sampleRate := SP1200_SAMPLE_RATE;
        s_bitsPerSample := 12;
        s_length := numWords;
        s_metadata := None |}.

Fixpoint parseEntries (view : ArrayBuffer) (i : Z) (n : nat)
  : result (list SP1200Sample) :=
  match n with
  | O => Ok []
  | S n' =>
      s <- parseEntry view i ;;
      rest <- parseEntries view (i + 1) n' ;;
      Ok (s :: rest)
  end.

Definition parseSP1200Disk (diskData : ArrayBuffer) : result SP1200Disk :=
  magic <- getUint16 diskData 0 true ;;
  if negb (magic =? bitand SP1200_MAGIC 0xFFFF) then
    Throw (Error "Invalid SP-1200 disk: wrong magic number")
  else
    numSamples <- getUint16 diskData 2 true ;;
    numSequences <- getUint16 diskData 4 true ;;
    samples <- parseEntries diskData 0 (Z.to_nat numSamples) ;;
    Ok {| samples := samples; sequences := [] |}.

End SP1200.

(* ================================================================== *)
(** ** Numbers that go through fractional arithmetic *)
(* ================================================================== *)

Module Number.

Definition number : Type := float.

(** The number of an integer; exact below 2^53. *)
Definition of_Z (z : Z) : number :=
  if z <? 0 then PrimFloat.opp (PrimFloat.of_uint63 (Uint63.of_Z (- z)))
  else PrimFloat.of_uint63 (Uint63.of_Z z).

Definition NaN : number := PrimFloat.nan.
Definition isNaN (x : number) : bool := negb (PrimFloat.eqb x x).

Definition is_negative_zero (x : number) : bool :=
  match Prim2SF x with
  | S754_zero true => true
  | _ => false
  end.

(** The integer [floor (x + k/2)] of a finite number, computed exactly
    from its mantissa and exponent: [k = 0] gives the floor, [k = 1] the
    rounding of [Math.round] (ties go up). *)
Definition floor_plus_half (k : Z) (x : number) : option Z :=
  match Prim2SF x with
  | S754_zero _ => Some 0
  | S754_finite s m e =>
      let n := if s then Z.neg m else Z.pos m in
      Some (if 0 <=? e then n * 2 ^ e + k / 2
            else (2 * n + k * 2 ^ (- e)) / 2 ^ (- e + 1))
  | _ => None
  end.

(** The integer part of a finite number (rounding toward zero). *)
Definition truncate (x : number) : option Z :=
  match Prim2SF x with
  | S754_zero _ => Some 0
  | S754_finite s m e =>
      let n := if s then Z.neg m else Z.pos m in
      Some (if 0 <=? e then n * 2 ^ e else Z.quot n (2 ^ (- e)))
  | _ => None
  end.

(** A number with a non-negative exponent is an integer already; the
    others are below 2^53 in magnitude, where [of_Z] is exact. *)
Definition Math_floor (x : number) : number :=
  match Prim2SF x, floor_plus_half 0 x with
  | S754_finite _ _ e, Some z => if 0 <=? e then x else of_Z z
  | _, _ => x
  end.

Definition Math_round (x : number) : number :=
  match Prim2SF x, floor_plus_half 1 x with
  | S754_finite s _ e, Some z =>
      if 0 <=? e then x
      else if (z =? 0) && s then PrimFloat.opp (of_Z 0)
      else of_Z z
  | _, _ => x
  end.

Definition Math_abs (x : number) : number := PrimFloat.abs x.

Definition Math_min (a b : number) : number :=
  if isNaN a || isNaN b then NaN
  else if PrimFloat.ltb a b then a
  else if PrimFloat.ltb b a then b
  else if is_negative_zero a then a else b.

Definition Math_max (a b : number) : number :=
  if isNaN a || isNaN b then NaN
  else if PrimFloat.ltb a b then b
  else if PrimFloat.ltb b a then a
  else if is_negative_zero a then b else a.

(** [Math.pow]: the language fixes the result for a NaN or zero exponent
    and leaves the rest to an implementation-approximated function. *)
Definition Math_pow (pow_approx : number -> number -> number)
           (base exponent : number) : number :=
  if isNaN exponent then NaN
  else if PrimFloat.eqb exponent (of_Z 0) then of_Z 1
  else pow_approx base exponent.

(** [ToInt32] of a number, as applied by [&]. *)
Definition ToInt32 (x : number) : Z :=
  match truncate x with
  | Some z => JS.ToInt32 z
  | None => 0
  end.

(** The integer a number stands for where one is expected (a length, a
    loop bound, a [DataView] value): its integer part, 0 for NaN. *)
Definition integer_of_number (x : number) : Z :=
  match truncate x with
  | Some z => z
  | None => 0
  end.

(** The array index a number is, if any: a non-negative integer.  (The
    index of [-0] is 0; NaN, the infinities and fractions are none.) *)
Definition index_of (k : number) : option Z :=
  match truncate k with
  | Some z => if (0 <=? z) && PrimFloat.eqb k (of_Z z) then Some z else None
  | None => None
  end.

(** [arr[k]] for a number [k]: the element at that index, [undefined]
    when there is none (NaN once it enters arithmetic). *)
Definition element (arr : list number) (k : number) : number :=
  match index_of k with
  | Some z => nth (Z.to_nat z) arr NaN
  | None => NaN
  end.

End Number.

(* ================================================================== *)
(** ** app/lib/sp1200.ts: WAV ingestion and conversion *)
(* ================================================================== *)

Module Wav.
Import SP1200 Number.

(** The descriptor returned by [parseWavHeader]. *)
Record WavHeader : Type := {
  audioFormat : Z;
  channels : Z;
  sampleRate : Z;
  bitsPerSample : Z;
  dataOffset : Z;
  dataLength : Z
}.

Fixpoint jsstring_eqb (a b : jsstring) : bool :=
  match a, b with
  | [], [] => true
  | x :: a', y :: b' => (x =? y) && jsstring_eqb a' b'
  | _, _ => false
  end.

(** [String.fromCharCode] of the four bytes at [off]. *)
Definition fourCharCode (view : ArrayBuffer) (off : Z) : result jsstring :=
  c0 <- getUint8 view off ;;
  c1 <- getUint8 view (off + 1) ;;
  c2 <- getUint8 view (off + 2) ;;
  c3 <- getUint8 view (off + 3) ;;
  Ok [c0; c1; c2; c3].

(** The variables of the chunk loop. *)
Record ScanState : Type := {
  offset : Z;
  foundFmt : bool;
  st_audioFormat : Z;
  st_channels : Z;
  st_sampleRate : Z;
  st_bitsPerSample : Z;
  st_dataOffset : Z;
  st_dataLength : Z
}.

(** One iteration of the [while] loop (lines 281-324). *)
Definition scanChunk (buffer : ArrayBuffer) (st : ScanState)
  : result ScanState :=
  chunkId <- fourCharCode buffer (offset st) ;;
  chunkSize <- getUint32 buffer (offset st + 4) true ;;
  st <- (if jsstring_eqb chunkId (str "fmt ") then
           audioFormat <- getUint16 buffer (offset st + 8) true ;;
           channels <- getUint16 buffer (offset st + 10) true ;;
           sampleRate <- getUint32 buffer (offset st + 12) true ;;
           bitsPerSample <-
             (if offset st + 22 + 2 <=? byteLength buffer
              then getUint16 buffer (offset st + 22) true
              else Ok 16) ;;
           Ok {| offset := offset st; foundFmt := true;
                 st_audioFormat := audioFormat; st_channels := channels;
                 st_sampleRate := sampleRate;
                 st_bitsPerSample := bitsPerSample;
                 st_dataOffset := st_dataOffset st;
                 st_dataLength := st_dataLength st |}
         else if jsstring_eqb chunkId (str "data") then
           Ok {| offset := offset st; foundFmt := foundFmt st;
                 st_audioFormat := st_audioFormat st;
                 st_channels := st_channels st;
                 st_sampleRate := st_sampleRate st;
                 st_bitsPerSample := st_bitsPerSample st;
                 st_dataOffset := offset st + 8;
                 st_dataLength := chunkSize |}
         else Ok st) ;;
  let offset' := offset st + (8 + chunkSize) in
  let offset' := if negb (chunkSize mod 2 =? 0) then offset' + 1
                 else offset' in
  Ok {| offset := offset'; foundFmt := foundFmt st;
        st_audioFormat := st_audioFormat st; st_channels := st_channels st;
        st_sampleRate := st_sampleRate st;
        st_bitsPerSample := st_bitsPerSample st;
        st_dataOffset := st_dataOffset st;
        st_dataLength := st_dataLength st |}.

(** The [while (offset < buffer.byteLength - 8)] loop.  Every iteration
    moves [offset] forward by at least 8, so the loop ends within
    [byteLength] iterations; [None] is the loop still running when the
    fuel is spent. *)
Fixpoint scanChunks (fuel : nat) (buffer : ArrayBuffer) (st : ScanState)
  : option (result ScanState) :=
  if offset st <? byteLength buffer - 8 then
    match fuel with
    | O => None
    | S fuel' =>
        match scanChunk buffer st with
        | Ok st' => scanChunks fuel' buffer st'
        | Throw e => Some (Throw e)
        end
    end
  else Some (Ok st).

Definition scanStart : ScanState :=
  {| offset := 12; foundFmt := false; st_audioFormat := 0;
     st_channels := 0; st_sampleRate := 0; st_bitsPerSample := 0;
     st_dataOffset := 0; st_dataLength := 0 |}.

Definition parseWavHeader (buffer : ArrayBuffer) : result WavHeader :=
  if byteLength buffer <? 44 then
    Throw (Error "Invalid WAV: file too small")
  else
    riff <- fourCharCode buffer 0 ;;
    if negb (jsstring_eqb riff (str "RIFF")) then
      Throw (Error "Invalid WAV: RIFF header not found")
    else
      wave <- fourCharCode buffer 8 ;;
      if negb (jsstring_eqb wave (str "WAVE")) then
        Throw (Error "Invalid WAV: WAVE format not found")
      else
        match scanChunks (Z.to_nat (byteLength buffer)) buffer scanStart with
        | Some (Ok st) =>
            if negb (foundFmt st) then
              Throw (Error "Invalid WAV: fmt chunk not found")
            else if st_dataOffset st =? 0 then
              Throw (Error "Invalid WAV: data chunk not found")
            else
              Ok {| audioFormat := st_audioFormat st;
                    channels := st_channels st;
                    sampleRate := st_sampleRate st;
                    bitsPerSample := st_bitsPerSample st;
                    dataOffset := st_dataOffset st;
                    dataLength := st_dataLength st |}
        | Some (Throw _) =>
            (* the [catch] around the loop *)
            Throw (Error "Invalid WAV: error parsing header")
        | None =>
            (* not reached: the fuel is enough, see [scanChunks_fuel] *)
            Throw (Error "Invalid WAV: error parsing header")
        end.

(** The reason of a rejection: the template string of the source with
    the values it interpolates. *)
Inductive ValidationMessage : Type :=
| UnsupportedAudioFormat (audioFormat : Z)
| InvalidSampleRate (sampleRate : Z)
| UnsupportedBitsPerSample (bitsPerSample : Z)
| UnsupportedChannelCount (channels : Z)
| SampleTooShort (numSamples : number) (minSamples : Z).

Record Validation : Type := {
  isValid : bool;
  error : option ValidationMessage
}.

Definition invalid (m : ValidationMessage) : Validation :=
  {| isValid := false; error := Some m |}.

(** [wav.dataLength / bytesPerSample / wav.channels] with
    [bytesPerSample = wav.bitsPerSample / 8]. *)
Definition sampleCount (wav : WavHeader) : number :=
  let bytesPerSample := (of_Z (bitsPerSample wav) / of_Z 8)%float in
  (of_Z (dataLength wav) / bytesPerSample / of_Z (channels wav))%float.

Definition validateWavFormat (wav : WavHeader) : Validation :=
  if negb (audioFormat wav =? 1) then
    invalid (UnsupportedAudioFormat (audioFormat wav))
  else if (sampleRate wav <? 8000) || (sampleRate wav >? 192000) then
    invalid (InvalidSampleRate (sampleRate wav))
  else if negb (existsb (Z.eqb (bitsPerSample wav)) [8; 16; 24]) then
    invalid (UnsupportedBitsPerSample (bitsPerSample wav))
  else if (channels wav <? 1) || (channels wav >? 2) then
    invalid (UnsupportedChannelCount (channels wav))
  else
    let minSamples := 100 in
    let numSamples := sampleCount wav in
    if PrimFloat.ltb numSamples (of_Z minSamples) then
      invalid (SampleTooShort numSamples minSamples)
    else {| isValid := true; error := None |}.

(** One channel's sample at a byte offset, by bit depth; a read outside
    the buffer throws. *)
Definition readSample (view : ArrayBuffer) (wav : WavHeader) (off : Z)
  : result number :=
  if bitsPerSample wav =? 8 then
    v <- getUint8 view off ;; Ok ((of_Z (v - 128)) / of_Z 128)%float
  else if bitsPerSample wav =? 16 then
    v <- getInt16 view off true ;; Ok (of_Z v / of_Z 32768)%float
  else if bitsPerSample wav =? 24 then
    b1 <- getUint8 view off ;;
    b2 <- getUint8 view (off + 1) ;;
    b3 <- getUint8 view (off + 2) ;;
    let value :=
      sar (shl (bitor b1 (bitor (shl b2 8) (shl b3 16))) 8) 8 in
    Ok (of_Z value / of_Z 8388608)%float
  else Ok (of_Z 0).

(** [getSample].  [bytesPerSample] is [bitsPerSample / 8], an integer for
    the depths 8, 16 and 24 that validation lets through. *)
Definition getSample (index : Z) (view : ArrayBuffer) (wav : WavHeader)
  : number :=
  let bytesPerSample := bitsPerSample wav / 8 in
  let sampleOffset := dataOffset wav + index * bytesPerSample * channels wav in
  if sampleOffset >=? byteLength view then of_Z 0
  else
    match
      (sample <- readSample view wav sampleOffset ;;
       if channels wav =? 2 then
         let rightSampleOffset := sampleOffset + bytesPerSample in
         rightSample <- readSample view wav rightSampleOffset ;;
         Ok ((sample + rightSample) / of_Z 2)%float
       else Ok sample)
    with
    | Ok sample => sample
    | Throw _ => of_Z 0  (* the [catch] *)
    end.

(** The 12-bit word of one sample (lines 469-471). *)
Definition sample12bit (sample normalizationFactor : number) : Z :=
  bitand
    (Number.ToInt32
       (Math_min (of_Z 4095)
          (Math_max (of_Z 0)
             (Math_round
                ((sample + of_Z 32768) * normalizationFactor / of_Z 16)%float))))
    0x0FFF.

(** [for (i = start; ...; i += step) body], on [count] iterations. *)
Fixpoint forRange (count : nat) (i step : Z)
         (body : Z -> ArrayBuffer -> result ArrayBuffer)
         (view : ArrayBuffer) : result ArrayBuffer :=
  match count with
  | O => Ok view
  | S count' =>
      view <- body i view ;;
      forRange count' (i + step) step body view
  end.

Section Convert.
(** The implementation-approximated part of [Math.pow]. *)
Variable pow_approx : number -> number -> number.

(** The sizes computed before the output is allocated (lines 423-445).
    [numInputSamples] and [numOutputSamples] are the numbers of the
    source; from there on the values are integers below 2^53 and the
    arithmetic ([* 2], [/ 256] and [Math.ceil] of it, [* 256]) is
    exact, so it is done on [Z]. *)
Definition targetSampleRate (tuning : Z) : number :=
  let pitchRatio := Math_pow pow_approx (of_Z 2) (of_Z tuning / of_Z 12)%float in
  (of_Z SP1200_SAMPLE_RATE * pitchRatio)%float.

Definition numInputSamples (wav : WavHeader) : number :=
  Math_floor (sampleCount wav).

Definition maxSamples : number :=
  Math_floor (of_Z SP1200_SAMPLE_RATE * 2.5)%float.

Definition numOutputSamples (wav : WavHeader) (tuning : Z) : number :=
  Math_min
    (Math_floor (numInputSamples wav
                 * (targetSampleRate tuning / of_Z (sampleRate wav)))%float)
    maxSamples.

Definition inputIndex (wav : WavHeader) (tuning : Z) (i : Z) : number :=
  Math_floor (of_Z i * of_Z (sampleRate wav) / targetSampleRate tuning)%float.

(** From the allocation of the output on, the values are integers
    below 2^53, on which [* 2], [/ 256] followed by [Math.ceil], and
    [* 256] are exact: they are computed on [Z].  [numInputSamples] is
    finite for a validated descriptor; [numOutputSamples] is NaN, minus
    infinity (for which the allocation throws) or an integer.  The
    argument limit of [Math.max(...)] is an engine's and is not
    modelled. *)
Definition convertWavToSP1200Format (wavBuffer : ArrayBuffer) (tuning : Z)
  : result ArrayBuffer :=
  wav <- parseWavHeader wavBuffer ;;
  let validation := validateWavFormat wav in
  if negb (isValid validation) then
    Throw (Error "Invalid WAV file")
  else
    let nIn := integer_of_number (numInputSamples wav) in
    let nOut := integer_of_number (numOutputSamples wav tuning) in
    let numBytes := nOut * 2 in
    let numBlocks := - ((- numBytes) / SP1200_BLOCK_SIZE) in
    let outputBytes := numBlocks * SP1200_BLOCK_SIZE in
    if PrimFloat.eqb (numOutputSamples wav tuning) PrimFloat.neg_infinity
       || (outputBytes <? 0)
    then Throw RangeError
    else
      let output := alloc outputBytes in
      let inputSamples :=
        map (fun i => getSample (Z.of_nat i) wavBuffer wav)
            (seq 0 (Z.to_nat nIn)) in
      let peakValue :=
        fold_left Math_max (map Math_abs inputSamples)
                  PrimFloat.neg_infinity in
      let normalizationFactor :=
        if PrimFloat.ltb (of_Z 0) peakValue
        then (of_Z 4095 / peakValue)%float else of_Z 1 in
      output <-
        forRange (Z.to_nat nOut) 0 1
          (fun i output =>
             let sample :=
               element inputSamples
                 (Math_min (inputIndex wav tuning i)
                           (numInputSamples wav - of_Z 1)%float) in
             let position := i * 2 in
             setUint16 output position
                       (sample12bit sample normalizationFactor) true)
          output ;;
      forRange (Z.to_nat ((outputBytes - nOut * 2 + 1) / 2)) (nOut * 2) 2
        (fun i output => setUint16 output i SP1200_END_MARKER true)
        output.
End Convert.

End Wav.

(* ================================================================== *)
(** ** app/api/sp1200/route.ts: the WAV header writer *)
(* ================================================================== *)

Module Route.
Import Number.

(** [createWavHeader(dataLength, sampleRate = 26040, bitsPerSample = 16)]:
    a 44-byte mono PCM header. *)
Definition createWavHeader (dataLength sampleRate bitsPerSample : Z)
  : result ArrayBuffer :=
  let headerLength := 44 in
  let view := alloc headerLength in
  view <- setUint8 view 0 0x52 ;;
  view <- setUint8 view 1 0x49 ;;
  view <- setUint8 view 2 0x46 ;;
  view <- setUint8 view 3 0x46 ;;
  view <- setUint32 view 4 (dataLength + 36) true ;;
  view <- setUint8 view 8 0x57 ;;
  view <- setUint8 view 9 0x41 ;;
  view <- setUint8 view 10 0x56 ;;
  view <- setUint8 view 11 0x45 ;;
  view <- setUint8 view 12 0x66 ;;
  view <- setUint8 view 13 0x6D ;;
  view <- setUint8 view 14 0x74 ;;
  view <- setUint8 view 15 0x20 ;;
  view <- setUint32 view 16 16 true ;;
  view <- setUint16 view 20 1 true ;;
  view <- setUint16 view 22 1 true ;;
  view <- setUint32 view 24 sampleRate true ;;
  view <- setUint32 view 28
            (integer_of_number
               (of_Z sampleRate * (of_Z bitsPerSample / of_Z 8))%float) true ;;
  view <- setUint16 view 32
            (integer_of_number (of_Z bitsPerSample / of_Z 8)%float) true ;;
  view <- setUint16 view 34 bitsPerSample true ;;
  view <- setUint8 view 36 0x64 ;;
  view <- setUint8 view 37 0x61 ;;
  view <- setUint8 view 38 0x74 ;;
  view <- setUint8 view 39 0x61 ;;
  setUint32 view 40 dataLength true.

(** The bytes of a buffer, and a file made of a header and its data. *)
Definition bytes_of (b : ArrayBuffer) : list Z :=
  map (fun i => byte b (Z.of_nat i)) (seq 0 (Z.to_nat (byteLength b))).

Definition wavFile (header : result ArrayBuffer) (data : list Z)
  : ArrayBuffer :=
  match header with
  | Ok h => of_bytes (bytes_of h ++ data)
  | Throw _ => of_bytes data
  end.

(** One second of 16-bit mono silence at 44.1 kHz. *)
Definition silence44100 : ArrayBuffer :=
  wavFile (createWavHeader 88200 44100 16) (repeat 0 (Z.to_nat 88200)).

End Route.

(* ================================================================== *)
(** ** lib/audioConverter.ts: conversion to an S3000/MPC3000 SND file *)
(* ================================================================== *)

Module Snd.
Import Number.

(** [Math.fround]: the value a [Float32Array] keeps of a number. *)
Definition Math_fround (x : number) : number :=
  match Prim2SF x with
  | S754_finite s m e => SF2Prim (binary_round 24 128 s m e)
  | _ => x
  end.

(** A decoded [AudioBuffer]: its rate, its channel count and the
    [Float32Array] of each channel. *)
Record AudioBuffer : Type := {
  sampleRate : Z;
  numberOfChannels : Z;
  channelData : list (list number)
}.

Definition getChannelData (audioBuffer : AudioBuffer) (k : nat)
  : list number :=
  nth k (channelData audioBuffer) [].

(** [left[i]] of a [Float32Array]: [undefined] past the end, NaN once it
    enters arithmetic. *)
Definition at_index (a : list number) (i : nat) : number := nth i a NaN.

(** Lines 113-123: the mono mix, each mean stored in a [Float32Array]. *)
Definition monoData (audioBuffer : AudioBuffer) : list number :=
  if numberOfChannels audioBuffer =? 2 then
    let left := getChannelData audioBuffer 0 in
    let right := getChannelData audioBuffer 1 in
    map (fun i => Math_fround
                    ((at_index left i + at_index right i) / of_Z 2)%float)
        (seq 0 (length left))
  else getChannelData audioBuffer 0.

(** The value an [Int16Array] keeps of a number: NaN and the infinities
    give 0, the others their integer part modulo 2^16, signed. *)
Definition ToInt16 (x : number) : Z :=
  match truncate x with
  | Some z => let m := z mod 65536 in if m <? 32768 then m else m - 65536
  | None => 0
  end.

(** Lines 126-130. *)
Definition pcmData (audioBuffer : AudioBuffer) : list Z :=
  map (fun sample =>
         let s := Math_max (of_Z (-1)) (Math_min (of_Z 1) sample) in
         ToInt16 (if PrimFloat.ltb s (of_Z 0)
                  then (s * of_Z 0x8000)%float
                  else (s * of_Z 0x7FFF)%float))
      (monoData audioBuffer).

(** [name.replace(/\.[^/.]+$/, '')]: the match is the last dot with what
    follows it, when that is not empty and has no slash. *)
Fixpoint lastDot (s : jsstring) : option (jsstring * jsstring) :=
  match s with
  | [] => None
  | c :: rest =>
      match lastDot rest with
      | Some (before, after) => Some (c :: before, after)
      | None => if c =? 46 then Some ([], rest) else None
      end
  end.

Definition removeExtension (name : jsstring) : jsstring :=
  match lastDot name with
  | Some (before, after) =>
      if negb (Nat.eqb (length after) 0) && forallb (fun c => negb (c =? 47)) after
      then before else name
  | None => name
  end.

(** [s.padEnd(n, ' ')] *)
Definition padEnd (n : nat) (s : jsstring) : jsstring :=
  s ++ repeat 32 (n - length s).

(** [for (i = 0; i < n; i++) body i], on a [DataView]. *)
Fixpoint forEach (indices : list Z)
         (body : Z -> ArrayBuffer -> result ArrayBuffer)
         (view : ArrayBuffer) : result ArrayBuffer :=
  match indices with
  | [] => Ok view
  | i :: rest => view <- body i view ;; forEach rest body view
  end.

(** [view.setInt8(off, v)] stores the same byte as [setUint8]. *)
Definition setInt8 (view : ArrayBuffer) (off v : Z) : result ArrayBuffer :=
  setUint8 view off v.

(** Lines 133-197: the 192-byte header. *)
Definition sndHeader (fileName : jsstring) (audioBuffer : AudioBuffer)
           (pcmLength : Z) : result ArrayBuffer :=
  let view := alloc 192 in
  view <- setUint8 view 0 3 ;;
  view <- setUint8 view 1 (if sampleRate audioBuffer =? 44100 then 1 else 0) ;;
  view <- setUint8 view 2 60 ;;
  let filename := padEnd 12 (slice0 12 (removeExtension fileName)) in
  view <- forEach [0; 1; 2; 3; 4; 5; 6; 7; 8; 9; 10; 11]
            (fun i view => setUint8 view (3 + i) (nth (Z.to_nat i) filename 0))
            view ;;
  view <- setUint8 view 15 128 ;;
  view <- setUint8 view 16 0 ;;
  view <- setUint8 view 17 0 ;;
  view <- setUint8 view 18 0 ;;
  view <- setUint8 view 19 2 ;;
  view <- setInt8 view 20 0 ;;
  view <- setInt8 view 21 0 ;;
  view <- setUint8 view 22 0 ;;
  view <- setUint8 view 23 8 ;;
  view <- setUint8 view 24 2 ;;
  view <- setUint8 view 25 0 ;;
  view <- setUint32 view 26 pcmLength false ;;
  view <- setUint32 view 30 0 false ;;
  view <- setUint32 view 34 pcmLength false ;;
  view <- forEach [0; 1; 2; 3; 4; 5; 6]
            (fun i view =>
               let offset := 38 + (i * 12) in
               view <- setUint32 view offset 0 false ;;
               view <- setUint16 view (offset + 4) 0 false ;;
               view <- setUint32 view (offset + 6) 0 false ;;
               setUint16 view (offset + 10) 0 false)
            view ;;
  view <- setUint8 view 182 0 ;;
  view <- setUint8 view 183 0 ;;
  view <- setUint8 view 184 255 ;;
  view <- setUint8 view 185 255 ;;
  view <- setUint16 view 186 (sampleRate audioBuffer) false ;;
  view <- setInt8 view 188 0 ;;
  forEach [189; 190; 191] (fun i view => setUint8 view i 0) view.

(** The two bytes an [Int16Array] element occupies in its buffer: the
    byte order is the host's (the agent's [[LittleEndian]]). *)
Definition Int16Array_bytes (hostLittleEndian : bool) (v : Z) : list Z :=
  let u := v mod 65536 in
  if hostLittleEndian then [u mod 256; u / 256] else [u / 256; u mod 256].

(** [convertToSnd], from the decoded buffer on: the bytes of
    [new Blob([header, pcmData.buffer])]. *)
Definition convertToSnd (hostLittleEndian : bool) (fileName : jsstring)
           (audioBuffer : AudioBuffer) : result (list Z) :=
  let pcm := pcmData audioBuffer in
  header <- sndHeader fileName audioBuffer (Z.of_nat (length pcm)) ;;
  Ok (Route.bytes_of header
      ++ flat_map (Int16Array_bytes hostLittleEndian) pcm).

(** 16-bit signed big-endian, the encoding the specification names. *)
Definition int16_big_endian (v : Z) : list Z :=
  let u := v mod 65536 in [u / 256; u mod 256].

End Snd.

(* ================================================================== *)
(** ** app/lib/sp1200.ts: the remaining functions *)
(* ================================================================== *)

Module SP1200Codec.
Import SP1200.

(** A [Uint8Array] as a view: its buffer, where it starts in it and how
    many elements it has. *)
Record Uint8Array : Type := {
  buffer : ArrayBuffer;
  byteOffset : Z;
  length : Z
}.

(** The value an [Int16Array] keeps of an integer. *)
Definition ToInt16 (z : Z) : Z :=
  let m := z mod 65536 in if m <? 32768 then m else m - 65536.

(** [output[i] = v] on an [Int16Array]: a write past the end is
    ignored. *)
Fixpoint Int16Array_store (output : list Z) (i : nat) (v : Z) : list Z :=
  match output, i with
  | [], _ => []
  | _ :: rest, O => ToInt16 v :: rest
  | x :: rest, S i' => x :: Int16Array_store rest i' v
  end.

(** The loop of [convert12BitTo16Bit] (lines 553-560), [count]
    iterations from [i]. *)
Fixpoint convertWords (count : nat) (i : Z) (view : ArrayBuffer)
         (output : list Z) : result (list Z) :=
  match count with
  | O => Ok output
  | S count' =>
      word <- getUint16 view (i * 2) true ;;
      let value := bitand word 0x0FFF in
      let output :=
        if i <? 0 then output
        else Int16Array_store output (Z.to_nat i)
               (bitand ((value - 2048) * 16) 0xFFFF) in
      convertWords count' (i + 1) view output
  end.

(** [convert12BitTo16Bit].  [numSamples] is [data.length / 2], a
    fraction when the length is odd: the [Int16Array] then has
    [floor numSamples] elements while the loop, which runs while
    [i < numSamples], makes one iteration more.  The [DataView] is on
    the whole of [data.buffer], from its first byte. *)
Definition convert12BitTo16Bit (data : Uint8Array) : result (list Z) :=
  let output := repeat 0 (Z.to_nat (length data / 2)) in
  let view := buffer data in
  convertWords (Z.to_nat ((length data + 1) / 2)) 0 view output.

Definition createSP1200File (sample : SP1200Sample) : result ArrayBuffer :=
  createSP1200SampleFile sample.

End SP1200Codec.

(* ================================================================== *)
(** ** app/lib/sp1200Player.ts: class SP1200Player, the disk reader *)
(* ================================================================== *)

Module Player.
Import SP1200 Number.

Definition SP1200_MIN_DISK_SIZE : Z := 0x1000.

Record SP1200SampleInfo : Type := {
  name : jsstring;
  volume : number;
  hasSample : bool
}.

(** The two maps of the object ([samples] holds a [Float32Array] per
    pad); the audio context plays no part in loading. *)
Record SP1200Player : Type := {
  samples : Map (list number);
  sampleInfo : Map SP1200SampleInfo
}.

Definition Method (R : Type) : Type :=
  SP1200Player -> result R * SP1200Player.

Definition getPadKey (bank : SP1200Bank) (padNumber : Z) : string :=
  (bank_letter bank ++ decimal padNumber)%string.

Definition getPadIndex (bank : SP1200Bank) (pad : Z) : Z :=
  bankOffset bank + (pad - 1).

(** The pads in the order of the two nested loops: A1..A8, B1..B8, ... *)
Definition banks : list SP1200Bank := [A; B; C; D].
Definition pads : list Z := [1; 2; 3; 4; 5; 6; 7; 8].
Definition allPads : list (SP1200Bank * Z) := list_prod banks pads.

Definition emptyInfo : SP1200SampleInfo :=
  {| name := []; volume := of_Z 1; hasSample := false |}.

Definition initializeEmptyPads (this : SP1200Player) : SP1200Player :=
  fold_left
    (fun this bp =>
       {| samples := samples this;
          sampleInfo := Map_set (sampleInfo this)
                          (getPadKey (fst bp) (snd bp)) emptyInfo |})
    allPads this.

(** [new SP1200Player()] *)
Definition new_player : SP1200Player :=
  initializeEmptyPads {| samples := []; sampleInfo := [] |}.

(** Lines 805-811: the words of a sample as numbers in -1..1, each kept
    by a [Float32Array]. *)
Fixpoint readSamples (view : ArrayBuffer) (sampleOffset i : Z) (n : nat)
  : result (list number) :=
  match n with
  | O => Ok []
  | S n' =>
      word <- getUint16 view (sampleOffset + i * 2) true ;;
      let value := bitand word 0x0FFF in
      rest <- readSamples view sampleOffset (i + 1) n' ;;
      Ok (Snd.Math_fround (of_Z (value - 2048) / of_Z 2048)%float :: rest)
  end.

(** What one pad entry gives: nothing for an empty pad or for data
    outside the buffer, else the name read, the volume and the sample. *)
Definition readPad (view : ArrayBuffer) (bank : SP1200Bank) (pad : Z)
  : result (option (jsstring * number * list number)) :=
  let padIndex := getPadIndex bank pad in
  let entryOffset :=
    SP1200_PAD_TABLE_OFFSET + padIndex * SP1200_PAD_ENTRY_SIZE in
  name <- readName view entryOffset 12 ;;
  numWords <- getUint32 view (entryOffset + 0x0C) true ;;
  sampleOffset <- getUint32 view (entryOffset + 0x10) true ;;
  volumeByte <- getUint8 view (entryOffset + 0x19) ;;
  let volume := (of_Z volumeByte / of_Z SP1200_VOLUME_MAX)%float in
  if (numWords =? 0) || (sampleOffset =? 0) then Ok None
  else
    let sampleLength := numWords * 2 in
    if sampleOffset + sampleLength >? byteLength view then Ok None
    else
      sampleData <- readSamples view sampleOffset 0 (Z.to_nat numWords) ;;
      Ok (Some (name, volume, sampleData)).

(** [name.trim() || `Sample ${bank}${pad}`] *)
Definition displayName (name : jsstring) (bank : SP1200Bank) (pad : Z)
  : jsstring :=
  match trim name with
  | [] => str ("Sample " ++ bank_letter bank ++ decimal pad)
  | trimmed => trimmed
  end.

(** The body of the two nested loops (lines 772-818) for one pad. *)
Definition loadPad (view : ArrayBuffer) (bank : SP1200Bank) (pad : Z)
  : Method unit :=
  fun this =>
    let padKey := getPadKey bank pad in
    match readPad view bank pad with
    | Throw e => (Throw e, this)
    | Ok None => (Ok tt, this)
    | Ok (Some (name, volume, sampleData)) =>
        (Ok tt,
         {| samples := Map_set (samples this) padKey sampleData;
            sampleInfo :=
              Map_set (sampleInfo this) padKey
                {| name := displayName name bank pad;
                   volume := volume;
                   hasSample := true |} |})
    end.

Fixpoint forEachPad (l : list (SP1200Bank * Z))
         (body : SP1200Bank -> Z -> Method unit) : Method unit :=
  fun this =>
    match l with
    | [] => (Ok tt, this)
    | (bank, pad) :: rest =>
        match body bank pad this with
        | (Ok _, this) => forEachPad rest body this
        | (Throw e, this) => (Throw e, this)
        end
    end.

Definition loadDiskImage (buffer : ArrayBuffer) : Method unit :=
  fun this =>
    if byteLength buffer <? SP1200_MIN_DISK_SIZE then
      (Throw (Error "Invalid disk image: file too small"), this)
    else
      match getUint16 buffer 0 true with
      | Throw e => (Throw e, this)
      | Ok magic =>
          if negb (magic =? bitand SP1200_MAGIC 0xFFFF) then
            (Throw (Error "Invalid disk image: wrong magic number"), this)
          else
            let this := {| samples := []; sampleInfo := sampleInfo this |} in
            let this := initializeEmptyPads this in
            forEachPad allPads (loadPad buffer) this
      end.

(** [this.sampleInfo.get(padKey) || null] *)
Definition getSampleInfo (bank : SP1200Bank) (padNumber : Z)
           (this : SP1200Player) : option SP1200SampleInfo :=
  Map_get (sampleInfo this) (getPadKey bank padNumber).

End Player.

(* ================================================================== *)
(** ** app/api/sp1200/route.ts: the other helpers *)
(* ================================================================== *)

Module RouteHelpers.
Import Wav.

Definition SP1200_HEADER_SIZE : Z := 128.
Definition SP1200_MAGIC : Z := 0x1200.
Definition SP1200_SAMPLE_RATE : Z := 26040.

(** [createSP1200Header(sampleName, sampleLength)]: a 128-byte header. *)
Definition createSP1200Header (sampleName : jsstring) (sampleLength : Z)
  : result ArrayBuffer :=
  let header := alloc SP1200_HEADER_SIZE in
  let header := fill header 0 0 (byteLength header) in
  header <- setUint16 header 0 SP1200_MAGIC true ;;
  header <- setUint32 header 2 sampleLength true ;;
  let nameBytes := TextEncoder_encode (slice0 12 sampleName) in
  header <- Uint8Array_set header nameBytes 6 ;;
  header <- setUint32 header 20 SP1200_SAMPLE_RATE true ;;
  header <- setUint16 header 24 12 true ;;
  setUint16 header 26 1 true.

Record DataChunk : Type := {
  dataOffset : Z;
  dataLength : Z
}.

(** The [while (offset < buffer.byteLength)] loop of [findWavDataChunk].
    Every iteration that does not return moves [offset] forward by 8
    or more; [None] is the loop still running when the fuel is
    spent. *)
Fixpoint findChunk (fuel : nat) (view : ArrayBuffer) (offset : Z)
  : option (result DataChunk) :=
  if offset <? byteLength view then
    match fuel with
    | O => None
    | S fuel' =>
        match (chunkId <- fourCharCode view offset ;;
               chunkSize <- getUint32 view (offset + 4) true ;;
               Ok (chunkId, chunkSize)) with
        | Throw e => Some (Throw e)
        | Ok (chunkId, chunkSize) =>
            if jsstring_eqb chunkId (str "data") then
              Some (Ok {| dataOffset := offset + 8;
                          dataLength := chunkSize |})
            else
              let offset := offset + (8 + chunkSize) in
              let offset :=
                if negb (offset mod 2 =? 0) then offset + 1 else offset in
              findChunk fuel' view offset
        end
    end
  else Some (Throw (Error "No data chunk found in WAV file")).

Definition findWavDataChunk (buffer : ArrayBuffer) : result DataChunk :=
  match findChunk (Z.to_nat (byteLength buffer)) buffer 12 with
  | Some r => r
  | None =>
      (* not reached: the fuel is enough *)
      Throw (Error "No data chunk found in WAV file")
  end.

(** [output[j] = v] on a [Uint8Array]: the value modulo 256; a write
    past the end is ignored. *)
Fixpoint Uint8Array_store (output : list Z) (j : nat) (v : Z) : list Z :=
  match output, j with
  | [], _ => []
  | _ :: rest, O => v mod 256 :: rest
  | x :: rest, S j' => x :: Uint8Array_store rest j' v
  end.

(** One iteration of the loop of [convert12BitTo16Bit] (lines 107-129),
    at an index [i] that is a multiple of 3 with [i + 2] inside [data].
    [32768 / 2048] is 16 and the products are integers, which
    [Math.floor] leaves as they are. *)
Definition unpackTriple (data : list Z) (i : nat) (output : list Z)
  : list Z :=
  let byte1 := nth i data 0 in
  let byte2 := nth (i + 1) data 0 in
  let byte3 := nth (i + 2) data 0 in
  let sample1 := bitor (shl (bitand byte2 0x0F) 8) byte1 in
  let sample2 := bitor (shl byte3 4) (sar byte2 4) in
  let sample1_16bit := (sample1 - 2048) * 16 in
  let sample2_16bit := (sample2 - 2048) * 16 in
  let j := (i / 3 * 4)%nat in
  let output := Uint8Array_store output j (bitand sample1_16bit 0xFF) in
  let output :=
    Uint8Array_store output (j + 1) (bitand (sar sample1_16bit 8) 0xFF) in
  let output := Uint8Array_store output (j + 2) (bitand sample2_16bit 0xFF) in
  Uint8Array_store output (j + 3) (bitand (sar sample2_16bit 8) 0xFF).

(** [for (i = start; i < data.length - 2; i += 3)], [count] iterations. *)
Fixpoint unpackFrom (count : nat) (i : nat) (data output : list Z)
  : list Z :=
  match count with
  | O => output
  | S count' => unpackFrom count' (i + 3) data (unpackTriple data i output)
  end.

(** [convert12BitTo16Bit]: two 12-bit samples packed in three bytes
    become two little-endian 16-bit samples.  The loop runs for
    [i = 0, 3, ...] below [data.length - 2], which is [data.length / 3]
    times. *)
Definition convert12BitTo16Bit (data : list Z) : list Z :=
  let numSamples := (List.length data * 2 / 3)%nat in
  let output := repeat 0 (numSamples * 2) in
  unpackFrom (List.length data / 3) 0 data output.

End RouteHelpers.

(* ================================================================== *)
(** ** lib/akaiSnd.ts: the 24-byte SND container *)
(* ================================================================== *)

Module AkaiSnd.

(** [interface SndSample]; [data] is an [Int16Array]. *)
Record SndSample : Type := {
  name : jsstring;
  sampleRate : Z;
  bitDepth : Z;
  channels : Z;
  data : list Z
}.

(** [buffer.slice(begin, end)] for non-negative bounds: both are
    clamped to the length. *)
Definition slice (b : ArrayBuffer) (begin end_ : Z) : list Z :=
  let first := Z.min begin (byteLength b) in
  let final := Z.min end_ (byteLength b) in
  map (fun i => byte b (first + Z.of_nat i))
      (seq 0 (Z.to_nat (final - first))).

(** The 16-bit signed value of two bytes in the byte order of the
    host. *)
Definition int16_of_bytes (hostLittleEndian : bool) (b0 b1 : Z) : Z :=
  let u := if hostLittleEndian then b0 + 256 * b1 else 256 * b0 + b1 in
  if u <? 32768 then u else u - 65536.

Fixpoint int16_elements (hostLittleEndian : bool) (bytes : list Z)
  : list Z :=
  match bytes with
  | b0 :: b1 :: rest =>
      int16_of_bytes hostLittleEndian b0 b1
      :: int16_elements hostLittleEndian rest
  | _ => []
  end.

(** [new Int16Array(arrayBuffer)]: throws when the byte length is
    odd. *)
Definition Int16Array_of (hostLittleEndian : bool) (bytes : list Z)
  : result (list Z) :=
  if Nat.even (List.length bytes)
  then Ok (int16_elements hostLittleEndian bytes)
  else Throw RangeError.

Definition parseSndFile (hostLittleEndian : bool) (buffer : ArrayBuffer)
  : result SndSample :=
  magic <- getUint32 buffer 0 false ;;
  if negb (magic =? 0x2E736E64) then
    Throw (Error "Invalid SND file: wrong magic number")
  else
    headerSize <- getUint32 buffer 4 false ;;
    dataSize <- getUint32 buffer 8 false ;;
    format <- getUint32 buffer 12 false ;;
    sampleRate <- getUint32 buffer 16 false ;;
    channels <- getUint32 buffer 20 false ;;
    data <- Int16Array_of hostLittleEndian
              (slice buffer headerSize (headerSize + dataSize)) ;;
    Ok {| name := str "sample";
          sampleRate := sampleRate;
          bitDepth := if format =? 1 then 16 else 8;
          channels := channels;
          data := data |}.

(** [createSndFile]: the six big-endian header words, then the samples
    through an [Int16Array] on the same buffer, so in the byte order of
    the host. *)
Definition createSndFile (hostLittleEndian : bool) (sample : SndSample)
  : result ArrayBuffer :=
  let headerSize := 24 in
  let dataSize := 2 * Z.of_nat (List.length (data sample)) in
  let buffer := alloc (headerSize + dataSize) in
  buffer <- setUint32 buffer 0 0x2E736E64 false ;;
  buffer <- setUint32 buffer 4 headerSize false ;;
  buffer <- setUint32 buffer 8 dataSize false ;;
  buffer <- setUint32 buffer 12 (if bitDepth sample =? 16 then 1 else 0)
              false ;;
  buffer <- setUint32 buffer 16 (sampleRate sample) false ;;
  buffer <- setUint32 buffer 20 (channels sample) false ;;
  Uint8Array_set buffer
    (flat_map (Snd.Int16Array_bytes hostLittleEndian) (data sample))
    headerSize.

End AkaiSnd.

(* ================================================================== *)
(** ** lib/akaiPgm.ts: MPC 3000 program files *)
(* ================================================================== *)

Module AkaiPgm.

Record PgmPad : Type := {
  padNumber : Z;
  sampleName : jsstring;
  tuning : option Z;
  volume : option Z;
  pan : option Z
}.

Record PgmProgram : Type := {
  name : jsstring;
  pads : list PgmPad
}.

(** [bytes[i]]: [undefined] outside the array. *)
Definition at_index (bytes : list Z) (i : Z) : option Z :=
  if i <? 0 then None else nth_error bytes (Z.to_nat i).

(** [bytes[i] < 0x20]: false for [undefined]. *)
Definition below_0x20 (x : option Z) : bool :=
  match x with
  | Some b => b <? 0x20
  | None => false
  end.

(** [TextDecoder('ascii')]: the label names the windows-1252 decoder,
    one code unit per byte, the identity except on 0x80..0x9F. *)
Definition windows1252 (b : Z) : Z :=
  nth (Z.to_nat (b - 0x80))
      [0x20AC; 0x81; 0x201A; 0x0192; 0x201E; 0x2026; 0x2020; 0x2021;
       0x02C6; 0x2030; 0x0160; 0x2039; 0x0152; 0x8D; 0x017D; 0x8F;
       0x90; 0x2018; 0x2019; 0x201C; 0x201D; 0x2022; 0x2013; 0x2014;
       0x02DC; 0x2122; 0x0161; 0x203A; 0x0153; 0x9D; 0x017E; 0x0178]
      b.

Definition decode (bytes : list Z) : jsstring :=
  map (fun b => if (0x80 <=? b) && (b <=? 0x9F) then windows1252 b else b)
      bytes.

Definition is_pad_byte (b : Z) : bool := (b =? 0x00) || (b =? 0x20).

(** The two [while] loops that strip NUL and space from both ends. *)
Fixpoint stripStart (bytes : list Z) : list Z :=
  match bytes with
  | [] => []
  | b :: rest => if is_pad_byte b then stripStart rest else bytes
  end.

Definition stripEnd (bytes : list Z) : list Z :=
  rev (stripStart (rev bytes)).

(** One iteration of the pad loop. *)
Definition parsePad (bytes : list Z) (offset : Z) (i : Z) : PgmPad :=
  let padCount := 32 in
  let nameStart := offset + i * 16 in
  let nameBytes := firstn 16 (skipn (Z.to_nat nameStart) bytes) in
  let nameBytes := stripStart nameBytes in
  let nameBytes := stripEnd nameBytes in
  let sampleName := decode nameBytes in
  let tuningOffset := offset + padCount * 16 + i * 4 in
  let volumeOffset := tuningOffset + 1 in
  let panOffset := volumeOffset + 1 in
  {| padNumber := i + 1;
     sampleName := sampleName;
     tuning := at_index bytes tuningOffset;
     volume := at_index bytes volumeOffset;
     pan := at_index bytes panOffset |}.

Definition parsePgmFile (buffer : list Z) : PgmProgram :=
  let bytes := buffer in
  let offset :=
    if below_0x20 (at_index bytes 0) && below_0x20 (at_index bytes 1)
    then 2 else 0 in
  let pads :=
    map (fun i => parsePad bytes offset (Z.of_nat i)) (seq 0 32) in
  {| name := str "MPC3000 Program";
     pads := filter (fun pad => (0 <? Z.of_nat (List.length (sampleName pad))))
                    pads |}.

End AkaiPgm.

(* ================================================================== *)
(** ** lib/fileUtils.ts *)
(* ================================================================== *)

Module FileUtils.

Section SanitizeFileName.
(** [String.prototype.toUpperCase], the Unicode case mapping. *)
Variable toUpperCase : jsstring -> jsstring.

(** [A-Z0-9] *)
Definition isUpperAlnum (c : Z) : bool :=
  ((65 <=? c) && (c <=? 90)) || ((48 <=? c) && (c <=? 57)).

Definition sanitizeFileName (name : jsstring) : jsstring :=
  let baseName := Snd.removeExtension name in
  let upperName := toUpperCase baseName in
  let sanitized :=
    map (fun c => if isUpperAlnum c then c else 95) upperName in
  let truncated := slice0 12 sanitized in
  match truncated with
  | [] => str "SAMPLE"
  | _ => truncated
  end.
End SanitizeFileName.

End FileUtils.

(* ================================================================== *)
(** ** components/SndPlayer.tsx: what [loadSndFile] decodes *)
(* ================================================================== *)

Module SndPlayer.

(** The values read from the header (lines 61-67). *)
Record SndHeader : Type := {
  format : Z;
  sampleRateFlag : Z;
  midiRootNote : Z;
  filename : jsstring;
  numSamples : Z;
  sampleRate : Z
}.

(** [loadSndFile], lines 57-83: the header fields and the PCM data it
    decodes before it hands them to the audio context.  An exception
    ends in the [catch] of the function, which logs it. *)
Definition loadSndFile (hostLittleEndian : bool) (arrayBuffer : ArrayBuffer)
  : result (SndHeader * list Z) :=
  format <- getUint8 arrayBuffer 0 ;;
  sampleRateFlag <- getUint8 arrayBuffer 1 ;;
  midiRootNote <- getUint8 arrayBuffer 2 ;;
  let filenameBytes := AkaiSnd.slice arrayBuffer 3 15 in
  let filename := filter (fun c => negb (c =? 0)) filenameBytes in
  numSamples <- getUint32 arrayBuffer 26 true ;;
  let sampleRate := if sampleRateFlag =? 1 then 44100 else 22050 in
  pcmData <- AkaiSnd.Int16Array_of hostLittleEndian
               (AkaiSnd.slice arrayBuffer 192 (byteLength arrayBuffer)) ;;
  Ok ({| format := format; sampleRateFlag := sampleRateFlag;
         midiRootNote := midiRootNote; filename := filename;
         numSamples := numSamples; sampleRate := sampleRate |},
      pcmData).

End SndPlayer.

(* ================================================================== *)
(** ** Vocabulary of the statements *)
(* ================================================================== *)

Module Props.
Import SP1200.

(** The builder states a program can produce: a fresh builder, and what
    any method leaves behind. *)
Inductive reachable : Builder -> Prop :=
| reach_new : reachable new_builder
| reach_addSample a this :
    reachable this -> reachable (snd (addSample a this))
| reach_removeSample b p this :
    reachable this -> reachable (snd (removeSample b p this))
| reach_getSample b p this :
    reachable this -> reachable (snd (getSample b p this))
| reach_getPadAssignments this :
    reachable this -> reachable (snd (getPadAssignments this))
| reach_clear this :
    reachable this -> reachable (snd (clear this))
| reach_createDiskImage this :
    reachable this -> reachable (snd (createDiskImage this)).

(** The two errors of [addSample]. *)
Definition ValidationError (e : exn) : Prop :=
  e = Error "Invalid bank. Must be A, B, C, or D" \/
  e = Error "Invalid pad number. Must be between 1 and 8".

(** The error of the size check that ends [createDiskImage]. *)
Definition CapacityError : exn := Error "Disk image exceeds maximum size".

(** What [addSample] stores for an accepted argument. *)
Definition stored (a : PadAssignmentArg) (b : SP1200Bank)
  : SP1200PadAssignment :=
  {| bank := b;
     padNumber := arg_padNumber a;
     name := firstn 12 (arg_name a);
     data := arg_data a;
     metadata := arg_metadata a |}.

Definition padOf (a : SP1200PadAssignment) : SP1200Bank * Z :=
  (bank a, padNumber a).

(** At most one assignment per key, and per (bank, pad). *)
Definition one_per_key (this : Builder) : Prop :=
  NoDup (map fst this) /\ NoDup (map padOf (Map_values this)).

(** Every entry sits under the key of its own bank and pad, and its pad
    is one of the eight. *)
Definition entry_ok (kv : string * SP1200PadAssignment) : Prop :=
  fst kv = getPadKey (bank (snd kv)) (padNumber (snd kv)) /\
  1 <= padNumber (snd kv) <= 8.

Definition builder_inv (this : Builder) : Prop :=
  NoDup (map fst this) /\ Forall entry_ok this.

(** The SND file as the specification words it: the header followed by
    the samples as 16-bit signed big-endian PCM. *)
Definition bigEndianSnd (fileName : jsstring)
           (audioBuffer : Snd.AudioBuffer) : result (list Z) :=
  let pcm := Snd.pcmData audioBuffer in
  header <- Snd.sndHeader fileName audioBuffer (Z.of_nat (length pcm)) ;;
  Ok (Route.bytes_of header ++ flat_map Snd.int16_big_endian pcm).

(** *** Inputs of the examples *)

(** A pad assignment without metadata, as handed to [addSample]. *)
Definition padArg (b : string) (p : Z) (n : string) (d : list Z)
  : PadAssignmentArg :=
  {| arg_bank := b; arg_padNumber := p; arg_name := str n;
     arg_data := d; arg_metadata := None |}.

(** The builder after [addSample] of each argument in turn. *)
Definition builderOf (l : list PadAssignmentArg) : Builder :=
  fold_left (fun this a => snd (addSample a this)) l new_builder.

(** A sample at the native rate and depth. *)
Definition sampleOf (n : jsstring) (b : SP1200Bank) (p : Z) (d : list Z)
           (words : Z) : SP1200Sample :=
  {| s_name := n; s_bank := Some b; s_padNumber := p; s_data := d;
     s_sampleRate := SP1200_SAMPLE_RATE; s_bitsPerSample := 12;
     s_length := words; s_metadata := None |}.

(** A decoded buffer of one mono sample, 1.0, which becomes the PCM value
    32767. *)
Definition oneSample : Snd.AudioBuffer :=
  {| Snd.sampleRate := 44100; Snd.numberOfChannels := 1;
     Snd.channelData := [[Number.of_Z 1]] |}.

(** [p] holds at [i], [i + 1], ..., [n] of them. *)
Fixpoint all_from (n : nat) (i : Z) (p : Z -> bool) : bool :=
  match n with
  | O => true
  | S n' => p i && all_from n' (i + 1) p
  end.

End Props.

(* ================================================================== *)
(** ** Further vocabulary *)
(* ================================================================== *)

Module Terms.
Import SP1200 Number Wav.

(** The messages of the errors [parseWavHeader] throws. *)
Definition parseWavHeader_messages : list string :=
  ["Invalid WAV: file too small";
   "Invalid WAV: RIFF header not found";
   "Invalid WAV: WAVE format not found";
   "Invalid WAV: error parsing header";
   "Invalid WAV: fmt chunk not found";
   "Invalid WAV: data chunk not found"]%string.

(** A buffer of 44 bytes with a "fmt " chunk cut short by its end:
    "RIFF", four bytes, "WAVE", a chunk "junk" of 14 bytes, and at
    offset 34 the chunk "fmt ", of which only the first two bytes of
    the fields are there. *)
Definition cutShortFmt : ArrayBuffer :=
  of_bytes (str "RIFF" ++ [36; 0; 0; 0] ++ str "WAVE"
            ++ str "junk" ++ [14; 0; 0; 0] ++ repeat 0 14
            ++ str "fmt " ++ [16; 0; 0; 0] ++ [1; 0]).

(** What holds of the variables of the chunk loop of [parseWavHeader]
    at the head of every iteration. *)
Definition scan_ok (buffer : ArrayBuffer) (st : ScanState) : Prop :=
  12 <= offset st /\ Z.even (offset st) = true /\
  0 <= st_audioFormat st < 65536 /\ 0 <= st_channels st < 65536 /\
  0 <= st_sampleRate st < 4294967296 /\
  0 <= st_bitsPerSample st < 65536 /\
  0 <= st_dataLength st < 4294967296 /\
  (st_dataOffset st = 0 \/
   (20 <= st_dataOffset st < byteLength buffer /\
    Z.even (st_dataOffset st) = true)).

(** A short file for the examples: 100 samples of 8-bit mono silence
    (the byte 128) at 8000 Hz, under the header [createWavHeader]
    writes. *)
Definition silence8000 : ArrayBuffer :=
  Route.wavFile (Route.createWavHeader 100 8000 8) (repeat 128 100).

(** *** The layout of a built image *)

(** The table slot and the table entry of an assignment. *)
Definition slot (a : SP1200PadAssignment) : Z :=
  getPadIndex (bank a) (padNumber a).

Definition entryOffset (a : SP1200PadAssignment) : Z :=
  SP1200_PAD_TABLE_OFFSET + slot a * SP1200_PAD_ENTRY_SIZE.

(** The volume byte [createDiskImage] stores for an assignment. *)
Definition volumeByte (a : SP1200PadAssignment) : Z :=
  match metadata a with
  | Some m => orDefault (volume m) SP1200_VOLUME_MAX mod 256
  | None => SP1200_VOLUME_MAX
  end.

(** An assignment as the application makes them: an ASCII name without
    NUL, data that are bytes, and truncation points that fit the 31
    bytes the entry has before the next one starts (the application
    passes 0 for both).  [addSample] has cut the name to 12. *)
Definition plain (a : SP1200PadAssignment) : Prop :=
  (List.length (name a) <= 12)%nat /\
  Forall (fun c => 1 <= c <= 127) (name a) /\
  Forall (fun b => 0 <= b < 256) (data a) /\
  match metadata a with
  | None => True
  | Some m =>
      orDefault (truncStart m) 0 mod 65536 < 256 /\
      orDefault (truncEnd m) 0 mod 65536 = 0
  end.

(** What the readers find in the image for an assignment whose data
    were written at [d]: the name, the word count, the data offset, the
    bank and pad bytes, the volume byte, and the data. *)
Definition entry_reads (image : ArrayBuffer) (a : SP1200PadAssignment)
           (d : Z) : Prop :=
  readName image (entryOffset a) 12 = Ok (name a) /\
  getUint32 image (entryOffset a + 0x0C) true
  = Ok (Z.of_nat (List.length (data a)) / 2) /\
  getUint32 image (entryOffset a + 0x10) true = Ok d /\
  getUint8 image (entryOffset a + 0x14) = Ok (bankIndex (bank a)) /\
  getUint8 image (entryOffset a + 0x15) = Ok (padNumber a - 1) /\
  getUint8 image (entryOffset a + 0x19) = Ok (volumeByte a) /\
  readBytes image d (List.length (data a)) = Ok (data a).

(** Every byte from table slot [k] to the start of the data region is
    zero. *)
Definition zero_from (image : ArrayBuffer) (k : Z) : Prop :=
  forall j, SP1200_PAD_TABLE_OFFSET + k * SP1200_PAD_ENTRY_SIZE <= j
            < SP1200_SAMPLE_DATA_OFFSET ->
            byte image j = 0.

(** *** What the player makes of an image *)

(** The little-endian 16-bit words of sample data; a last odd byte
    belongs to no word. *)
Fixpoint sampleWords (data : list Z) : list Z :=
  match data with
  | lo :: hi :: rest => (lo + 256 * hi) :: sampleWords rest
  | _ => []
  end.

(** The number the player makes of a word: its low 12 bits, unsigned
    with a bias of 2048, scaled to -1..1. *)
Definition playerSample (word : Z) : number :=
  Snd.Math_fround
    (of_Z (bitand word 0x0FFF - 2048) / of_Z 2048)%float.

(** What [loadDiskImage] leaves for a pad: the outcome of reading its
    table entry, as the two maps show it. *)
Definition padInfo (view : ArrayBuffer) (bank : SP1200Bank) (pad : Z)
  : Player.SP1200SampleInfo :=
  match Player.readPad view bank pad with
  | Ok (Some (name, volume, _)) =>
      {| Player.name := Player.displayName name bank pad;
         Player.volume := volume;
         Player.hasSample := true |}
  | _ => Player.emptyInfo
  end.

Definition padSamples (view : ArrayBuffer) (bank : SP1200Bank) (pad : Z)
  : option (list number) :=
  match Player.readPad view bank pad with
  | Ok (Some (_, _, sampleData)) => Some sampleData
  | _ => None
  end.

(** *** What [parseSP1200Disk] makes of an assignment *)

(** The sample an entry is read as: the name trimmed, the whole words of
    the data, the native rate and depth, no metadata. *)
Definition parsedSample (a : SP1200PadAssignment) : SP1200Sample :=
  let numWords := Z.of_nat (List.length (data a)) / 2 in
  {| s_name := trim (name a);
     s_bank := Some (bank a);
     s_padNumber := padNumber a;
     s_data := firstn (Z.to_nat (numWords * 2)) (data a);
     s_sampleRate := SP1200_SAMPLE_RATE;
     s_bitsPerSample := 12;
     s_length := numWords;
     s_metadata := None |}.

(** *** The helpers of the conversion route *)

(** What a run of the chunk loop of [findWavDataChunk] from [offset]
    ends with. *)
Definition chunk_outcome (view : ArrayBuffer) (offset : Z)
           (r : result RouteHelpers.DataChunk) : Prop :=
  match r with
  | Ok c =>
      offset + 8 <= RouteHelpers.dataOffset c <= byteLength view /\
      Z.even (RouteHelpers.dataOffset c) = true /\
      map (byte view)
          [RouteHelpers.dataOffset c - 8; RouteHelpers.dataOffset c - 7;
           RouteHelpers.dataOffset c - 6; RouteHelpers.dataOffset c - 5]
      = str "data" /\
      getUint32 view (RouteHelpers.dataOffset c - 4) true
      = Ok (RouteHelpers.dataLength c)
  | Throw RangeError => offset < byteLength view
  | Throw (Error message) =>
      message = "No data chunk found in WAV file"%string
  end.

(** The four bytes the packed decoder writes for the group of three
    bytes number [t]. *)
Definition quad (data output : list Z) (t : nat) : Prop :=
  let v1 := (nth (3 * t) data 0 + 256 * (nth (3 * t + 1) data 0 mod 16)
             - 2048) * 16 in
  let v2 := (16 * nth (3 * t + 2) data 0 + nth (3 * t + 1) data 0 / 16
             - 2048) * 16 in
  nth (4 * t) output 0 = v1 mod 256 /\
  nth (4 * t + 1) output 0 = (v1 / 256) mod 256 /\
  nth (4 * t + 2) output 0 = v2 mod 256 /\
  nth (4 * t + 3) output 0 = (v2 / 256) mod 256.

(** *** File names *)

(** [toUpperCase] as it acts on ASCII strings. *)
Definition asciiUpper (s : jsstring) : jsstring :=
  map (fun c => if (97 <=? c) && (c <=? 122) then c - 32 else c) s.

(** *** SND files *)

(** A 32-bit value with its four bytes in the opposite order. *)
Definition byteSwap32 (w : Z) : Z :=
  w / 16777216 + 256 * ((w / 65536) mod 256)
  + 65536 * ((w / 256) mod 256) + 16777216 * (w mod 256).

End Terms.

(* ================================================================== *)
(** ** Vocabulary of the sample-count test *)
(* ================================================================== *)

Module SampleCountDefs.
Import SP1200 Wav.

(** A number that is positive and whose exponent, as a binary64 value
    [m * 2^e], is [k] or more; the positive infinity counts. *)
Definition at_least_2pow (k : Z) (x : spec_float) : Prop :=
  match x with
  | S754_finite false _ e => k <= e
  | S754_infinity false => True
  | _ => False
  end.

Import QArith.QArith_base.

(** The sample count of a descriptor in exact arithmetic, as a
    rational number: [dataLength / (bitsPerSample / 8) / channels]. *)
Definition exactSampleCount (wav : WavHeader) : Q :=
  (inject_Z (dataLength wav) / (inject_Z (bitsPerSample wav) / inject_Z 8)
   / inject_Z (channels wav))%Q.
End SampleCountDefs.

(* ================================================================== *)
(** ** The disk builder on the heap *)
(* ================================================================== *)

(** The methods of [SP1200] pass the builder's state from call to call as
    a value.  Here the same class runs on a store of objects, where a
    copy and a write in place are different things: the [Map] of the
    builder holds references to assignment objects, an assignment object
    holds references to its [data] array and to its [metadata] object
    (both are the caller's own objects: [addSample] copies the fields of
    its argument, not what they refer to), [getPadAssignments] makes a new
    array of the references, [sort] reorders that array where it is, and
    [createDiskImage] writes, through its two views, into the
    [ArrayBuffer] it has made.  Objects that a call makes and only reads
    afterwards (the views, the encoded name, the literal that maps a bank to
    its index) are values. *)

Module Heap.
Import SP1200.

(** A reference: the place of an object in the store. *)
Definition ref : Type := nat.

(** [interface SP1200PadAssignment] as an object. *)
Record AssignmentObject : Type := {
  o_bank : SP1200Bank;
  o_padNumber : Z;
  o_name : jsstring;
  o_data : ref;
  o_metadata : option ref
}.

Inductive object : Type :=
| Assignment (fields : AssignmentObject)
| Metadata (fields : SP1200SampleMetadata)
| Uint8Array (elements : list Z)
| Array (elements : list ref)
| Buffer (contents : ArrayBuffer).

(** The store, and the field [padAssignments] of the builder. *)
Record heap : Type := {
  objects : list object;
  padAssignments : Map ref
}.

Fixpoint replace (l : list object) (r : ref) (o : object) : list object :=
  match l, r with
  | [], _ => []
  | _ :: l', O => o :: l'
  | x :: l', S r' => x :: replace l' r' o
  end.

(** A piece of code: it runs on a store, returns or throws, and leaves a
    store; what it wrote before it threw stays written. *)
Definition M (A : Type) : Type := heap -> result A * heap.

Definition ret {A} (a : A) : M A := fun h => (Ok a, h).

Definition throw {A} (e : exn) : M A := fun h => (Throw e, h).

Definition bindM {A B} (m : M A) (k : A -> M B) : M B :=
  fun h =>
    match m h with
    | (Ok a, h') => k a h'
    | (Throw e, h') => (Throw e, h')
    end.

Declare Scope heap_scope.
Delimit Scope heap_scope with heap.
Notation "x <- c1 ;; c2" := (bindM c1 (fun x => c2))
  (at level 61, c1 at next level, right associativity) : heap_scope.
Local Open Scope heap_scope.

(** The error of a read through a reference that leads to no object, or
    to one of another class.  No store of a running program has such a
    reference. *)
Definition badReference : exn := Error "TypeError".

(** [new]: the object takes the next free place. *)
Definition allocate (o : object) : M ref :=
  fun h =>
    (Ok (length (objects h)),
     {| objects := objects h ++ [o];
        padAssignments := padAssignments h |}).

Definition deref (r : ref) : M object :=
  fun h =>
    match nth_error (objects h) r with
    | Some o => (Ok o, h)
    | None => (Throw badReference, h)
    end.

(** A write in place. *)
Definition assign (r : ref) (o : object) : M unit :=
  fun h =>
    (Ok tt,
     {| objects := replace (objects h) r o;
        padAssignments := padAssignments h |}).

Definition assignmentOf (r : ref) : M AssignmentObject :=
  o <- deref r ;;
  match o with Assignment a => ret a | _ => throw badReference end.

Definition metadataOf (r : ref) : M SP1200SampleMetadata :=
  o <- deref r ;;
  match o with Metadata m => ret m | _ => throw badReference end.

Definition elementsOf (r : ref) : M (list Z) :=
  o <- deref r ;;
  match o with Uint8Array l => ret l | _ => throw badReference end.

Definition arrayOf (r : ref) : M (list ref) :=
  o <- deref r ;;
  match o with Array l => ret l | _ => throw badReference end.

Definition bufferOf (r : ref) : M ArrayBuffer :=
  o <- deref r ;;
  match o with Buffer b => ret b | _ => throw badReference end.

(** A write through a view of the [ArrayBuffer] at [buffer]: [write] is
    what it does to the contents.  A write that throws has written
    nothing. *)
Definition through (buffer : ref)
           (write : ArrayBuffer -> result ArrayBuffer) : M unit :=
  b <- bufferOf buffer ;;
  match write b with
  | Ok b' => assign buffer (Buffer b')
  | Throw e => throw e
  end.

Definition view_setUint8 (view : ref) (off v : Z) : M unit :=
  through view (fun b => setUint8 b off v).

Definition view_setUint16 (view : ref) (off v : Z) (littleEndian : bool)
  : M unit :=
  through view (fun b => setUint16 b off v littleEndian).

Definition view_setUint32 (view : ref) (off v : Z) (littleEndian : bool)
  : M unit :=
  through view (fun b => setUint32 b off v littleEndian).

(** [bytes.fill(v, start, stop)] *)
Definition bytes_fill (bytes : ref) (v start stop : Z) : M unit :=
  through bytes (fun b => Ok (fill b v start stop)).

(** [bytes.fill(v)] *)
Definition bytes_fill_all (bytes : ref) (v : Z) : M unit :=
  through bytes (fun b => Ok (fill b v 0 (byteLength b))).

(** [bytes.set(src, off)] for a source given by its elements. *)
Definition bytes_set_elements (bytes : ref) (src : list Z) (off : Z)
  : M unit :=
  through bytes (fun b => Uint8Array_set b src off).

(** [bytes.set(src, off)] for a source in the store: it is read, the
    buffer behind [bytes] is written. *)
Definition bytes_set (bytes : ref) (src : ref) (off : Z) : M unit :=
  elements <- elementsOf src ;;
  bytes_set_elements bytes elements off.

Fixpoint mapM {A B} (f : A -> M B) (l : list A) : M (list B) :=
  match l with
  | [] => ret []
  | x :: l' =>
      y <- f x ;;
      ys <- mapM f l' ;;
      ret (y :: ys)
  end.

(** [array.sort(compareFn)] on an array of assignments: the array is
    reordered where it is, and returned.  The comparator is handed the
    objects. *)
Definition Array_sort (array : ref)
           (compareFn : AssignmentObject -> AssignmentObject -> Z)
  : M ref :=
  elements <- arrayOf array ;;
  operands <- mapM (fun r => a <- assignmentOf r ;; ret (r, a)) elements ;;
  _ <- assign array
         (Array (map fst
                   (sort (fun x y => compareFn (snd x) (snd y)) operands))) ;;
  ret array.

(* ---------------------------------------------------------------- *)
(** *** class SP1200DiskBuilderImpl *)
(* ---------------------------------------------------------------- *)

(** [addSample(assignment)], on the fields of its argument.  What is
    stored, [{...assignment, name: ...}], is a new object with the
    fields of the argument: the same references to [data] and to
    [metadata], not copies of what they lead to. *)
Definition addSample (bank : string) (padNumber : Z) (name : jsstring)
           (data : ref) (metadata : option ref) : M unit :=
  match isValidBank bank with
  | None => throw (Error "Invalid bank. Must be A, B, C, or D")
  | Some bank =>
      if negb (isValidPad padNumber) then
        throw (Error "Invalid pad number. Must be between 1 and 8")
      else
        let key := getPadKey bank padNumber in
        stored <- allocate (Assignment {| o_bank := bank;
                                          o_padNumber := padNumber;
                                          o_name := slice0 12 name;
                                          o_data := data;
                                          o_metadata := metadata |}) ;;
        fun h =>
          (Ok tt,
           {| objects := objects h;
              padAssignments := Map_set (padAssignments h) key stored |})
  end.

Definition removeSample (bank : SP1200Bank) (padNumber : Z) : M unit :=
  fun h =>
    (Ok tt,
     {| objects := objects h;
        padAssignments :=
          Map_delete (padAssignments h) (getPadKey bank padNumber) |}).

Definition clear : M unit :=
  fun h => (Ok tt, {| objects := objects h; padAssignments := [] |}).

Definition getSample (bank : SP1200Bank) (padNumber : Z)
  : M (option ref) :=
  fun h => (Ok (Map_get (padAssignments h) (getPadKey bank padNumber)), h).

(** [Array.from(this.padAssignments.values())] *)
Definition getPadAssignments : M ref :=
  fun h => allocate (Array (Map_values (padAssignments h))) h.

(** [this.padAssignments.size] *)
Definition size : M Z :=
  fun h => (Ok (Map_size (padAssignments h)), h).

Definition compareAssignments (a b : AssignmentObject) : Z :=
  let bankCompare := localeCompare (o_bank a) (o_bank b) in
  if negb (bankCompare =? 0) then bankCompare
  else o_padNumber a - o_padNumber b.

Definition writeMetadata (view : ref) (padEntryOffset : Z)
           (metadata : option ref) : M unit :=
  match metadata with
  | Some metadata =>
      m <- metadataOf metadata ;;
      let tuningValue := match tuning m with Some t => t | None => 0 end in
      _ <- view_setUint8 view (padEntryOffset + 0x18)
             (bitand (tuningValue + 12) 0xFF) ;;
      _ <- view_setUint8 view (padEntryOffset + 0x19)
             (orDefault (volume m) SP1200_VOLUME_MAX) ;;
      _ <- view_setUint8 view (padEntryOffset + 0x1A)
             (match loop m with Some true => 1 | _ => 0 end) ;;
      _ <- view_setUint16 view (padEntryOffset + 0x1B)
             (orDefault (loopStart m) 0) true ;;
      _ <- view_setUint16 view (padEntryOffset + 0x1D)
             (orDefault (loopEnd m) 0) true ;;
      _ <- view_setUint16 view (padEntryOffset + 0x1F)
             (orDefault (truncStart m) 0) true ;;
      view_setUint16 view (padEntryOffset + 0x21)
             (orDefault (truncEnd m) 0) true
  | None =>
      view_setUint8 view (padEntryOffset + 0x19) SP1200_VOLUME_MAX
  end.

(** One iteration of the loop over [sortedAssignments]: [buffer] is the
    [ArrayBuffer] behind [view] and [bytes], [sample] the element. *)
Definition writeSample (buffer : ref) (currentDataOffset : Z)
           (sample : ref) : M Z :=
  s <- assignmentOf sample ;;
  let padIndex := getPadIndex (o_bank s) (o_padNumber s) in
  let padEntryOffset :=
    SP1200_PAD_TABLE_OFFSET + padIndex * SP1200_PAD_ENTRY_SIZE in
  let nameBytes := TextEncoder_encode (slice0 12 (o_name s)) in
  _ <- bytes_set_elements buffer nameBytes padEntryOffset ;;
  data <- elementsOf (o_data s) ;;
  let numWords := Z.of_nat (length data) / 2 in
  _ <- view_setUint32 buffer (padEntryOffset + 0x0C) numWords true ;;
  _ <- view_setUint32 buffer (padEntryOffset + 0x10) currentDataOffset true ;;
  _ <- view_setUint8 buffer (padEntryOffset + 0x14) (bankIndex (o_bank s)) ;;
  _ <- view_setUint8 buffer (padEntryOffset + 0x15) (o_padNumber s - 1) ;;
  _ <- writeMetadata buffer padEntryOffset (o_metadata s) ;;
  let currentDataOffset :=
    if negb (currentDataOffset mod SP1200_SAMPLE_ALIGN =? 0)
    then alignUp currentDataOffset
    else currentDataOffset in
  _ <- bytes_set buffer (o_data s) currentDataOffset ;;
  data <- elementsOf (o_data s) ;;
  let endMarkerOffset := currentDataOffset + Z.of_nat (length data) in
  _ <- view_setUint16 buffer endMarkerOffset SP1200_END_MARKER true ;;
  ret (alignUp endMarkerOffset).

Fixpoint writeSamples (buffer : ref) (currentDataOffset : Z)
         (sortedAssignments : list ref) : M Z :=
  match sortedAssignments with
  | [] => ret currentDataOffset
  | sample :: rest =>
      currentDataOffset <- writeSample buffer currentDataOffset sample ;;
      writeSamples buffer currentDataOffset rest
  end.

Definition createDiskImage : M ref :=
  buffer <- allocate (Buffer (alloc SP1200_DISK_SIZE)) ;;
  _ <- bytes_fill_all buffer 0 ;;
  _ <- view_setUint16 buffer 0 SP1200_MAGIC true ;;
  numSamples <- size ;;
  _ <- view_setUint16 buffer 2 numSamples true ;;
  _ <- view_setUint16 buffer 4 0 true ;;
  _ <- bytes_fill buffer 0 SP1200_PAD_TABLE_OFFSET
         (SP1200_PAD_TABLE_OFFSET + SP1200_MAX_PADS * SP1200_PAD_ENTRY_SIZE) ;;
  array <- getPadAssignments ;;
  sortedAssignments <- Array_sort array compareAssignments ;;
  samples <- arrayOf sortedAssignments ;;
  currentDataOffset <-
    writeSamples buffer SP1200_SAMPLE_DATA_OFFSET samples ;;
  if currentDataOffset >? SP1200_DISK_SIZE
  then throw (Error "Disk image exceeds maximum size")
  else ret buffer.

End Heap.

(** *** Vocabulary of the statements about the heap *)

Module HeapProps.
Import SP1200 Heap.

(** The assignment, as a value, that an assignment object stands for in
    a store: its own fields, the elements of its [data] array and the
    fields of its [metadata] object.  Two objects may share an array. *)
Definition holds (store : list object) (s : AssignmentObject)
           (a : SP1200PadAssignment) : Prop :=
  bank a = o_bank s /\ padNumber a = o_padNumber s /\ name a = o_name s /\
  nth_error store (o_data s) = Some (Uint8Array (data a)) /\
  match o_metadata s with
  | Some m =>
      exists fields,
        nth_error store m = Some (Metadata fields) /\
        metadata a = Some fields
  | None => metadata a = None
  end.

Definition denotes (store : list object) (r : ref)
           (a : SP1200PadAssignment) : Prop :=
  exists s, nth_error store r = Some (Assignment s) /\ holds store s a.

(** A store whose builder is, as a value, [this]: key by key, the [Map]
    holds a reference to an object that stands for the assignment. *)
Definition abstracts (h : heap) (this : Builder) : Prop :=
  Forall2 (fun kr ka => fst kr = fst ka /\
                        denotes (objects h) (snd kr) (snd ka))
          (padAssignments h) this.

(** The elements of the array that [getPadAssignments] returns. *)
Definition returnedAssignments (h : heap) : option (list ref) :=
  match Heap.getPadAssignments h with
  | (Ok array, h') =>
      match nth_error (objects h') array with
      | Some (Array elements) => Some elements
      | _ => None
      end
  | (Throw _, _) => None
  end.

(** A store with the [ArrayBuffer] of a build at the place after
    [before]. *)
Definition during (before after : list object) (b : ArrayBuffer)
           (pa : Map ref) : heap :=
  {| objects := before ++ Buffer b :: after; padAssignments := pa |}.

(** How a write through a view goes on. *)
Definition andThen {A} (r : result ArrayBuffer) (k : ArrayBuffer -> result A * heap)
           (h : heap) : result A * heap :=
  match r with
  | Ok b => k b
  | Throw e => (Throw e, h)
  end.

End HeapProps.

Module HeapTerms.
Import SP1200 Heap.

(** A store of three objects: a [data] array and two assignments that
    share it, B3 added before A1. *)
Definition sharedData : heap :=
  {| objects :=
       [Uint8Array [1; 2; 3; 4];
        Assignment {| o_bank := A; o_padNumber := 1; o_name := str "kick";
                      o_data := 0%nat; o_metadata := None |};
        Assignment {| o_bank := B; o_padNumber := 3; o_name := str "snare";
                      o_data := 0%nat; o_metadata := None |}];
     padAssignments := [("B3"%string, 2%nat); ("A1"%string, 1%nat)] |}.

(** The same builder as a value. *)
Definition sharedDataBuilder : Builder :=
  [("B3"%string,
    {| bank := B; padNumber := 3; name := str "snare";
       data := [1; 2; 3; 4]; metadata := None |});
   ("A1"%string,
    {| bank := A; padNumber := 1; name := str "kick";
       data := [1; 2; 3; 4]; metadata := None |})].
End HeapTerms.

(* ================================================================== *)
(** * Properties *)
(* ================================================================== *)

(** ** Facts about the runtime model *)

Module JSFacts.

Lemma bind_Ok {A B} (r : result A) (k : A -> result B) (y : B) :
  bind r k = Ok y -> exists a, r = Ok a /\ k a = Ok y.
Proof. destruct r as [a|e]; cbn; [eauto | discriminate]. Qed.

(** Injectivity of [Ok] that leaves both sides as they are written. *)
Lemma Ok_inj {A} (x y : A) : Ok x = Ok y -> x = y.
Proof. congruence. Qed.

Lemma bind_Throw {A B} (r : result A) (k : A -> result B) (e : exn) :
  bind r k = Throw e ->
  r = Throw e \/ exists a, r = Ok a /\ k a = Throw e.
Proof. destruct r as [a|e']; cbn; [eauto | intros [= <-]; auto]. Qed.

Lemma in_bounds_spec b off size :
  in_bounds b off size = true <-> 0 <= off /\ off + size <= byteLength b.
Proof. unfold in_bounds. rewrite andb_true_iff, !Z.leb_le. tauto. Qed.

Lemma ToInt32_small z : - 2 ^ 31 <= z < 2 ^ 31 -> ToInt32 z = z.
Proof.
  intros Hz. unfold ToInt32.
  destruct (Z.ltb_spec (z mod 2 ^ 32) (2 ^ 31)) as [H|H];
    destruct (Z_lt_le_dec z 0).
  - rewrite <- (Z.mod_add z 1 (2 ^ 32)) in H by lia.
    rewrite Z.mod_small in H; lia.
  - rewrite Z.mod_small; lia.
  - rewrite <- (Z.mod_add z 1 (2 ^ 32)) by lia. rewrite Z.mod_small; lia.
  - rewrite Z.mod_small in H; lia.
Qed.

(** Each write either throws [RangeError] or keeps the length. *)

Lemma setUint8_Ok b off v b' :
  setUint8 b off v = Ok b' ->
  byteLength b' = byteLength b /\ 0 <= off /\ off + 1 <= byteLength b.
Proof.
  unfold setUint8. destruct (in_bounds b off 1) eqn:E; [|discriminate].
  intros [= <-]. apply in_bounds_spec in E. cbn. lia.
Qed.

Lemma setUint16_Ok b off v le b' :
  setUint16 b off v le = Ok b' ->
  byteLength b' = byteLength b /\ 0 <= off /\ off + 2 <= byteLength b.
Proof.
  unfold setUint16. destruct (in_bounds b off 2) eqn:E; [|discriminate].
  intros [= <-]. apply in_bounds_spec in E. destruct le; cbn; lia.
Qed.

Lemma setUint32_Ok b off v le b' :
  setUint32 b off v le = Ok b' ->
  byteLength b' = byteLength b /\ 0 <= off /\ off + 4 <= byteLength b.
Proof.
  unfold setUint32. destruct (in_bounds b off 4) eqn:E; [|discriminate].
  intros [= <-]. apply in_bounds_spec in E. destruct le; cbn; lia.
Qed.

Lemma Uint8Array_set_Ok b src off b' :
  Uint8Array_set b src off = Ok b' ->
  byteLength b' = byteLength b /\ 0 <= off /\
  off + Z.of_nat (length src) <= byteLength b.
Proof.
  unfold Uint8Array_set.
  destruct (in_bounds b off (Z.of_nat (length src))) eqn:E; [|discriminate].
  intros [= <-]. apply in_bounds_spec in E. cbn. lia.
Qed.

Lemma setUint8_Throw b off v e : setUint8 b off v = Throw e -> e = RangeError.
Proof. unfold setUint8. destruct in_bounds; congruence. Qed.

Lemma setUint16_Throw b off v le e :
  setUint16 b off v le = Throw e -> e = RangeError.
Proof. unfold setUint16. destruct in_bounds; congruence. Qed.

Lemma setUint32_Throw b off v le e :
  setUint32 b off v le = Throw e -> e = RangeError.
Proof. unfold setUint32. destruct in_bounds; congruence. Qed.

Lemma Uint8Array_set_Throw b src off e :
  Uint8Array_set b src off = Throw e -> e = RangeError.
Proof. unfold Uint8Array_set. destruct in_bounds; congruence. Qed.

(** *** The insertion-ordered map *)

Section MapFacts.
Context {V : Type}.
Implicit Types (m : Map V) (k : string) (v : V).

Lemma Map_get_set_same m k v : Map_get (Map_set m k v) k = Some v.
Proof.
  induction m as [|[k' v'] m IH]; cbn.
  - now rewrite String.eqb_refl.
  - destruct (String.eqb k' k) eqn:E; cbn; rewrite E; auto.
Qed.

Lemma Map_get_set_other m k v k' :
  k' <> k -> Map_get (Map_set m k v) k' = Map_get m k'.
Proof.
  intros Hne. induction m as [|[k0 v0] m IH]; cbn.
  - destruct (String.eqb k k') eqn:E; auto.
    apply String.eqb_eq in E. congruence.
  - destruct (String.eqb k0 k) eqn:E; cbn.
    + apply String.eqb_eq in E. subst k0.
      destruct (String.eqb k k') eqn:E'; auto.
      apply String.eqb_eq in E'. congruence.
    + now rewrite IH.
Qed.

Lemma Map_set_In m k v k' v' :
  In (k', v') (Map_set m k v) -> (k' = k /\ v' = v) \/ In (k', v') m.
Proof.
  induction m as [|[k0 v0] m IH]; cbn.
  - intros [[= <- <-]|[]]. auto.
  - destruct (String.eqb k0 k) eqn:E; cbn.
    + apply String.eqb_eq in E. subst k0.
      intros [[= <- <-]|H]; auto.
    + intros [H|H]; auto. destruct (IH H); auto.
Qed.

Lemma Map_set_keys m k v :
  map fst (Map_set m k v) = map fst m \/
  (~ In k (map fst m) /\ map fst (Map_set m k v) = map fst m ++ [k]).
Proof.
  induction m as [|[k0 v0] m IH]; cbn.
  - right. auto.
  - destruct (String.eqb k0 k) eqn:E; cbn; auto.
    destruct IH as [->|[Hn ->]]; auto.
    right. split; auto. intros [->|H]; auto.
    now rewrite String.eqb_refl in E.
Qed.

Lemma Map_set_NoDup m k v :
  NoDup (map fst m) -> NoDup (map fst (Map_set m k v)).
Proof.
  intros Hnd. destruct (Map_set_keys m k v) as [->|[Hn ->]]; auto.
  apply NoDup_rev in Hnd. rewrite <- (rev_involutive (_ ++ _)).
  apply NoDup_rev. rewrite rev_app_distr. cbn. constructor; auto.
  now rewrite <- in_rev.
Qed.

Lemma Map_delete_incl m k : incl (Map_delete m k) m.
Proof.
  induction m as [|[k0 v0] m IH]; cbn; [easy|].
  destruct (String.eqb k0 k).
  - now apply incl_tl.
  - intros x [<-|H]; [now left | right; auto].
Qed.

Lemma Map_delete_NoDup m k :
  NoDup (map fst m) -> NoDup (map fst (Map_delete m k)).
Proof.
  induction m as [|[k0 v0] m IH]; cbn; [easy|].
  intros Hnd. inversion Hnd as [|? ? Hn Hnd']; subst.
  destruct (String.eqb k0 k); auto.
  cbn. constructor; auto.
  intros Hin. apply Hn. apply in_map_iff in Hin as [[k1 v1] [<- Hin]].
  apply Map_delete_incl in Hin. apply in_map_iff. now exists (k1, v1).
Qed.

Lemma Map_get_In m k v :
  NoDup (map fst m) -> (In (k, v) m <-> Map_get m k = Some v).
Proof.
  induction m as [|[k0 v0] m IH]; cbn; [intros _; split; easy|].
  intros Hnd. inversion Hnd as [|? ? Hn Hnd']; subst.
  destruct (String.eqb k0 k) eqn:E.
  - apply String.eqb_eq in E. subst k0. split.
    + intros [[= ->]|H]; auto.
      exfalso. apply Hn. apply in_map_iff. now exists (k, v).
    + intros [= ->]. auto.
  - rewrite <- IH by assumption. split; auto.
    intros [[= -> ->]|H]; auto. now rewrite String.eqb_refl in E.
Qed.
End MapFacts.

(** *** Sorting with a comparator that is a total preorder *)

Section SortFacts.
Context {A : Type} (cmp : A -> A -> Z).
Let le (x y : A) : Prop := cmp x y <= 0.
Hypothesis le_total : forall x y, le x y \/ le y x.
Hypothesis le_trans : forall x y z, le x y -> le y z -> le x z.

Lemma insert_Permutation x l : Permutation (insert cmp x l) (x :: l).
Proof.
  induction l as [|y l IH]; cbn; auto.
  destruct (cmp x y <=? 0); auto.
  rewrite IH. apply perm_swap.
Qed.

Lemma sort_Permutation l : Permutation (sort cmp l) l.
Proof.
  induction l as [|x l IH]; cbn; auto.
  rewrite insert_Permutation. now constructor.
Qed.

Lemma insert_sorted x l :
  StronglySorted le l -> StronglySorted le (insert cmp x l).
Proof.
  induction 1 as [|y l Hs IH Hall]; cbn.
  - repeat constructor.
  - destruct (Z.leb_spec (cmp x y) 0) as [Hxy|Hxy].
    + constructor; [now constructor|].
      constructor; auto.
      eapply Forall_impl; [|exact Hall]. intros z Hz. now apply (le_trans x y z).
    + constructor; auto.
      assert (Hyx : le y x) by (destruct (le_total x y); [unfold le in *; lia | auto]).
      eapply Permutation_Forall.
      * symmetry. apply insert_Permutation.
      * now constructor.
Qed.

Lemma sort_sorted l : StronglySorted le (sort cmp l).
Proof.
  induction l as [|x l IH]; cbn; [constructor | now apply insert_sorted].
Qed.

Lemma sorted_Permutation_eq l1 l2 :
  (forall x y, In x l1 -> In y l1 -> le x y -> le y x -> x = y) ->
  StronglySorted le l1 -> StronglySorted le l2 ->
  Permutation l1 l2 -> l1 = l2.
Proof.
  intros Hanti Hs1. revert l2.
  induction Hs1 as [|a l1 Hs1 IH Ha]; intros l2 Hs2 Hp.
  - now apply Permutation_nil in Hp.
  - destruct Hs2 as [|b l2 Hs2 Hb].
    + symmetry in Hp. now apply Permutation_nil in Hp.
    + assert (a = b) as <-.
      { assert (Hin_a : In a (b :: l2))
          by (eapply Permutation_in; [exact Hp | now left]).
        assert (Hin_b : In b (a :: l1))
          by (eapply Permutation_in; [symmetry; exact Hp | now left]).
        destruct Hin_a as [->|Hin_a]; auto.
        destruct Hin_b as [->|Hin_b]; auto.
        rewrite Forall_forall in Ha, Hb.
        apply Hanti; auto; [now left | now right]. }
      f_equal. apply IH; auto.
      * intros x y Hx Hy. apply Hanti; now right.
      * now apply Permutation_cons_inv in Hp.
Qed.

Lemma sort_unique l1 l2 :
  (forall x y, In x l1 -> In y l1 -> le x y -> le y x -> x = y) ->
  Permutation l1 l2 -> sort cmp l1 = sort cmp l2.
Proof.
  intros Hanti Hp.
  apply sorted_Permutation_eq; try apply sort_sorted.
  - intros x y Hx Hy. apply Hanti;
      eapply Permutation_in; try eassumption; apply sort_Permutation.
  - rewrite !sort_Permutation. exact Hp.
Qed.
End SortFacts.

Lemma NoDup_map_inj_on {A B} (f : A -> B) (l : list A) x y :
  NoDup (map f l) -> In x l -> In y l -> f x = f y -> x = y.
Proof.
  induction l as [|a l IH]; cbn; [easy|].
  intros Hnd. inversion Hnd as [|? ? Hn Hnd']; subst.
  intros [->|Hx] [->|Hy] Hf; auto.
  - exfalso. apply Hn. rewrite Hf. now apply in_map.
  - exfalso. apply Hn. rewrite <- Hf. now apply in_map.
Qed.

Lemma NoDup_map_factor {A B C} (f : A -> B) (g : B -> C) (l : list A) :
  NoDup (map (fun a => g (f a)) l) -> NoDup (map f l).
Proof.
  induction l as [|a l IH]; cbn; [constructor|].
  intros Hnd. inversion Hnd as [|? ? Hn Hnd']; subst.
  constructor; auto.
  intros Hin. apply Hn. apply in_map_iff in Hin as [a' [E Hin]].
  apply in_map_iff. exists a'. split; [now rewrite E | assumption].
Qed.

Lemma decimal_inj (x y : Z) : decimal x = decimal y -> x = y.
Proof.
  unfold decimal. intros H.
  assert (R : forall d,
             option_map Z.of_int
               (NilZero.int_of_string (NilZero.string_of_int d))
             = Some (Z.of_int d)).
  { intros [u|u]; destruct u;
      try (rewrite NilZero.isi by discriminate; reflexivity).
    - now rewrite NilZero.isi_posnil.
    - now rewrite NilZero.isi_negnil. }
  pose proof (R (Z.to_int x)) as Hx. pose proof (R (Z.to_int y)) as Hy.
  rewrite H in Hx. rewrite Hx in Hy.
  rewrite !DecimalZ.of_to in Hy. congruence.
Qed.

End JSFacts.

(** ** The disk builder *)

Module BuilderFacts.
Import SP1200 Props JSFacts.

Lemma isValidBank_Some s b : isValidBank s = Some b <-> s = bank_letter b.
Proof.
  unfold isValidBank. split.
  - destruct (String.eqb_spec s "A") as [->|?]; [now intros [= <-]|].
    destruct (String.eqb_spec s "B") as [->|?]; [now intros [= <-]|].
    destruct (String.eqb_spec s "C") as [->|?]; [now intros [= <-]|].
    destruct (String.eqb_spec s "D") as [->|?]; [now intros [= <-]|].
    intros [=].
  - intros ->. now destruct b.
Qed.

Lemma isValidBank_None s :
  isValidBank s = None <-> ~ In s ["A"; "B"; "C"; "D"]%string.
Proof.
  split.
  - intros H [<-|[<-|[<-|[<-|[]]]]]; discriminate.
  - intros H. destruct (isValidBank s) as [b|] eqn:E; [|reflexivity].
    apply isValidBank_Some in E. subst s.
    exfalso. apply H. destruct b; cbn; auto.
Qed.

Lemma isValidPad_spec p : isValidPad p = true <-> 1 <= p <= 8.
Proof. unfold isValidPad. rewrite andb_true_iff, Z.geb_le, Z.leb_le. lia. Qed.

Lemma getPadKey_inj b p b' p' :
  getPadKey b p = getPadKey b' p' -> b = b' /\ p = p'.
Proof.
  unfold getPadKey.
  destruct b, b'; cbn; intros [= H]; auto using decimal_inj.
Qed.

(** *** The invariant of the builder *)

Lemma addSample_inv a this :
  builder_inv this -> builder_inv (snd (addSample a this)).
Proof.
  intros [Hnd Hok]. unfold addSample.
  destruct (isValidBank (arg_bank a)) as [b|]; [|now split].
  destruct (isValidPad (arg_padNumber a)) eqn:Hp; cbn; [|now split].
  split; [now apply Map_set_NoDup|].
  apply Forall_forall. intros [k v] Hin.
  apply Map_set_In in Hin as [[-> ->]|Hin].
  - split; cbn; [reflexivity | now apply isValidPad_spec].
  - rewrite Forall_forall in Hok. now apply Hok.
Qed.

Lemma removeSample_inv b p this :
  builder_inv this -> builder_inv (snd (removeSample b p this)).
Proof.
  intros [Hnd Hok]. cbn. split; [now apply Map_delete_NoDup|].
  rewrite Forall_forall in *. intros kv Hin.
  apply Hok. now apply Map_delete_incl in Hin.
Qed.

Lemma createDiskImage_state this : snd (createDiskImage this) = this.
Proof. reflexivity. Qed.

Lemma reachable_inv this : reachable this -> builder_inv this.
Proof.
  induction 1; auto using addSample_inv, removeSample_inv.
  - split; constructor.
  - split; constructor.
Qed.

Lemma builder_inv_keys this :
  Forall entry_ok this ->
  map fst this = map (fun a => getPadKey (fst (padOf a)) (snd (padOf a)))
                     (Map_values this).
Proof.
  unfold Map_values. induction 1 as [|[k v] l [Hk _] _ IH]; cbn; [easy|].
  cbn in Hk. now rewrite Hk, IH.
Qed.

Lemma builder_inv_one_per_key this : builder_inv this -> one_per_key this.
Proof.
  intros [Hnd Hok]. split; [assumption|].
  rewrite (builder_inv_keys _ Hok) in Hnd.
  exact (NoDup_map_factor padOf
           (fun bp => getPadKey (fst bp) (snd bp)) _ Hnd).
Qed.

(** *** The comparator is the lexicographic order on (bank, pad) *)

Lemma compareAssignments_le a b :
  compareAssignments a b <= 0 <->
  bankIndex (bank a) < bankIndex (bank b) \/
  (bankIndex (bank a) = bankIndex (bank b) /\ padNumber a <= padNumber b).
Proof.
  unfold compareAssignments, localeCompare.
  destruct (Z.compare_spec (bankIndex (bank a)) (bankIndex (bank b)));
    cbn; lia.
Qed.

Lemma bankIndex_inj x y : bankIndex x = bankIndex y -> x = y.
Proof. destruct x, y; cbn; congruence || lia. Qed.

Lemma sort_assignments_unique l1 l2 :
  NoDup (map padOf l1) -> Permutation l1 l2 ->
  sort compareAssignments l1 = sort compareAssignments l2.
Proof.
  intros Hnd Hp. apply sort_unique; auto.
  - intros x y. rewrite !compareAssignments_le. lia.
  - intros x y z. rewrite !compareAssignments_le. lia.
  - intros x y Hx Hy. rewrite !compareAssignments_le. intros H1 H2.
    apply (NoDup_map_inj_on padOf l1); auto.
    unfold padOf. f_equal; [apply bankIndex_inj|]; lia.
Qed.

(** *** What a build can return *)

Ltac bind_inv H :=
  let x := fresh "buf" in
  let E := fresh "E" in
  apply bind_Ok in H as (x & E & H).

Lemma writeMetadata_Ok view off m view' :
  writeMetadata view off m = Ok view' -> byteLength view' = byteLength view.
Proof.
  unfold writeMetadata. destruct m as [m|]; intros H.
  - do 6 bind_inv H.
    repeat match goal with
           | E : setUint8 _ _ _ = Ok _ |- _ => apply setUint8_Ok in E
           | E : setUint16 _ _ _ _ = Ok _ |- _ => apply setUint16_Ok in E
           end.
    lia.
  - apply setUint8_Ok in H. lia.
Qed.

Lemma writeMetadata_Throw view off m e :
  writeMetadata view off m = Throw e -> e = RangeError.
Proof.
  unfold writeMetadata. destruct m as [m|]; intros H.
  - repeat (apply bind_Throw in H as [H|(? & _ & H)];
            [first [now apply setUint8_Throw in H
                   | now apply setUint16_Throw in H]|]).
    now apply setUint16_Throw in H.
  - now apply setUint8_Throw in H.
Qed.

Lemma alignUp_spec x :
  0 <= x < 2 ^ 31 - 256 -> alignUp x = 256 * ((x + 255) / 256).
Proof.
  intros Hx. unfold alignUp, bitand, SP1200_SAMPLE_ALIGN.
  change (bitnot (256 - 1)) with (Z.lnot (Z.ones 8)).
  change (ToInt32 (Z.lnot (Z.ones 8))) with (Z.lnot (Z.ones 8)).
  rewrite (ToInt32_small (x + 256 - 1)) by lia.
  rewrite <- Z.ldiff_land, Z.ldiff_ones_r by lia.
  rewrite Z.shiftr_div_pow2, Z.shiftl_mul_pow2 by lia.
  replace (x + 256 - 1) with (x + 255) by lia.
  change (2 ^ 8) with 256.
  assert (0 <= (x + 255) / 256 * 256 <= x + 255).
  { pose proof (Z.mul_div_le (x + 255) 256).
    pose proof (Z.div_pos (x + 255) 256). lia. }
  rewrite ToInt32_small by lia. lia.
Qed.

(** A cursor that is already on a 256-byte boundary stays where it is:
    the cursor after a sample whose end marker starts on a boundary is
    the offset of that marker. *)
Lemma alignUp_aligned x :
  0 <= x < 2 ^ 31 - 256 -> x mod 256 = 0 -> alignUp x = x.
Proof.
  intros Hx Hm. rewrite alignUp_spec by assumption.
  Z.div_mod_to_equations. lia.
Qed.

Lemma writeSample_Ok buffer cur sample buffer' cur' :
  writeSample (buffer, cur) sample = Ok (buffer', cur') ->
  byteLength buffer = SP1200_DISK_SIZE ->
  byteLength buffer' = SP1200_DISK_SIZE /\ cur' <= SP1200_DISK_SIZE.
Proof.
  unfold writeSample. intros H Hlen.
  do 8 bind_inv H. injection H as <- <-.
  repeat match goal with
         | E : setUint8 _ _ _ = Ok _ |- _ => apply setUint8_Ok in E
         | E : setUint16 _ _ _ _ = Ok _ |- _ => apply setUint16_Ok in E
         | E : setUint32 _ _ _ _ = Ok _ |- _ => apply setUint32_Ok in E
         | E : Uint8Array_set _ _ _ = Ok _ |- _ => apply Uint8Array_set_Ok in E
         | E : writeMetadata _ _ _ = Ok _ |- _ => apply writeMetadata_Ok in E
         end.
  unfold SP1200_DISK_SIZE in *.
  split; [lia|].
  rewrite alignUp_spec by lia.
  match goal with |- 256 * (?e / 256) <= _ =>
    assert (e / 256 < 3222) by (apply Z.div_lt_upper_bound; lia) end.
  lia.
Qed.

Lemma writeSample_Throw st sample e :
  writeSample st sample = Throw e -> e = RangeError.
Proof.
  destruct st as [buffer cur]. unfold writeSample. intros H.
  repeat (apply bind_Throw in H as [H|(? & _ & H)];
          [first [now apply setUint8_Throw in H
                 | now apply setUint16_Throw in H
                 | now apply setUint32_Throw in H
                 | now apply Uint8Array_set_Throw in H
                 | now apply writeMetadata_Throw in H]|]).
  discriminate.
Qed.

Lemma writeSamples_Ok l buffer cur buffer' cur' :
  writeSamples (buffer, cur) l = Ok (buffer', cur') ->
  byteLength buffer = SP1200_DISK_SIZE -> cur <= SP1200_DISK_SIZE ->
  byteLength buffer' = SP1200_DISK_SIZE /\ cur' <= SP1200_DISK_SIZE.
Proof.
  revert buffer cur. induction l as [|s l IH]; cbn; intros buffer cur H Hlen Hc.
  - now injection H as <- <-.
  - apply bind_Ok in H as ([b1 c1] & E & H).
    apply writeSample_Ok in E as [? ?]; eauto.
Qed.

Lemma writeSamples_Throw l st e :
  writeSamples st l = Throw e -> e = RangeError.
Proof.
  revert st. induction l as [|s l IH]; cbn; intros st H; [discriminate|].
  apply bind_Throw in H as [H|(? & _ & H)]; eauto using writeSample_Throw.
Qed.

Lemma writeHeader_Ok n :
  exists buffer, writeHeader n = Ok buffer /\
                 byteLength buffer = SP1200_DISK_SIZE.
Proof. eexists. split; reflexivity. Qed.

(** A build returns a buffer of the disk size or throws [RangeError], the
    error of the write that left the buffer: by the time the size check
    runs, every write has succeeded, so the cursor is within the disk and
    the check cannot fire. *)
Lemma createDiskImage_outcome this :
  (exists buffer, fst (createDiskImage this) = Ok buffer /\
                  byteLength buffer = SP1200_DISK_SIZE) \/
  fst (createDiskImage this) = Throw RangeError.
Proof.
  unfold createDiskImage, getPadAssignments. cbn [fst].
  destruct (writeHeader_Ok (Map_size this)) as (b0 & -> & Hlen). cbn [bind].
  destruct (writeSamples _ _) as [[b1 c1]|e] eqn:E; cbn [bind].
  - apply writeSamples_Ok in E as [Hlen' Hc]; [|assumption|cbv; congruence].
    destruct (Z.gtb_spec c1 SP1200_DISK_SIZE); [lia|]. left. eauto.
  - right. f_equal. eauto using writeSamples_Throw.
Qed.

Lemma createDiskImage_never_CapacityError this :
  fst (createDiskImage this) <> Throw CapacityError.
Proof.
  destruct (createDiskImage_outcome this) as [(b & -> & _)| ->]; discriminate.
Qed.

End BuilderFacts.

(** ** Statements about the disk builder *)

Module DiskBuilder.
Import SP1200 Props JSFacts BuilderFacts.

Lemma builderOf_reachable l : reachable (builderOf l).
Proof.
  unfold builderOf. generalize reach_new. generalize new_builder.
  induction l as [|a l IH]; cbn; intros this H; [assumption|].
  apply IH. now constructor.
Qed.

(** C9.  [addSample] throws exactly when the bank is not one of A, B, C, D
    or the pad is outside 1..8, and then it throws one of its two
    validation errors and leaves the builder as it was.  Otherwise it
    returns, the builder then holds under that bank and pad the argument
    with its name cut to 12 characters (whatever was there before), every
    other bank and pad reads as before, and the builder holds at most one
    assignment per key, before the call and after it. *)
Theorem addSample_spec (this : Builder) (a : PadAssignmentArg) :
  reachable this ->
  let valid :=
    In (arg_bank a) ["A"; "B"; "C"; "D"]%string /\ 1 <= arg_padNumber a <= 8 in
  let this' := snd (addSample a this) in
  ((exists e, fst (addSample a this) = Throw e) <-> ~ valid) /\
  (forall e, fst (addSample a this) = Throw e ->
             ValidationError e /\ this' = this) /\
  (valid ->
   exists b, arg_bank a = bank_letter b /\
     fst (addSample a this) = Ok tt /\
     fst (getSample b (arg_padNumber a) this') = Ok (Some (stored a b)) /\
     forall b' p', (b', p') <> (b, arg_padNumber a) ->
                   fst (getSample b' p' this') = fst (getSample b' p' this)) /\
  one_per_key this /\ one_per_key this'.
Proof.
  intros Hr valid this'.
  assert (Hinv : builder_inv this) by now apply reachable_inv.
  assert (Hinv' : builder_inv this') by now apply addSample_inv.
  apply builder_inv_one_per_key in Hinv, Hinv'.
  assert (Hvalid : valid <->
            exists b, isValidBank (arg_bank a) = Some b /\
                      isValidPad (arg_padNumber a) = true).
  { subst valid. rewrite <- isValidPad_spec. split.
    - intros [Hb Hp]. destruct (isValidBank (arg_bank a)) as [b|] eqn:E.
      + eauto.
      + apply isValidBank_None in E. tauto.
    - intros (b & Hb & Hp). split; [|assumption].
      destruct (isValidBank_None (arg_bank a)) as [_ H].
      destruct (in_dec string_dec (arg_bank a) ["A"; "B"; "C"; "D"]%string);
        [assumption | rewrite H in Hb; [discriminate | assumption]]. }
  clearbody valid. subst this'. unfold addSample in *.
  destruct (isValidBank (arg_bank a)) as [b|] eqn:Hb;
    [destruct (isValidPad (arg_padNumber a)) eqn:Hp|];
    cbn [negb fst snd] in *.
  - (* accepted *)
    assert (Hv : valid) by (apply Hvalid; eauto).
    split; [|split; [|split; [|split]]]; try assumption.
    + split; [intros [e [=]] | tauto].
    + intros e [=].
    + intros _. exists b. apply isValidBank_Some in Hb.
      split; [assumption|]. split; [reflexivity|]. split.
      * unfold getSample. cbn. now rewrite Map_get_set_same.
      * intros b' p' Hne. unfold getSample. cbn.
        rewrite Map_get_set_other; auto.
        intros Hk. apply getPadKey_inj in Hk as [-> ->]. now apply Hne.
  - (* bad pad *)
    assert (Hv : ~ valid).
    { rewrite Hvalid. intros (b' & _ & [=]). }
    split; [|split; [|split; [|split]]]; try assumption; try tauto.
    + split; eauto.
    + intros e [= <-]. split; [now right | reflexivity].
  - (* bad bank *)
    assert (Hv : ~ valid).
    { rewrite Hvalid. intros (b' & [=] & _). }
    split; [|split; [|split; [|split]]]; try assumption; try tauto.
    + split; eauto.
    + intros e [= <-]. split; [now left | reflexivity].
Qed.

(** The statement above at a builder that already holds pad A1: a second
    [addSample] on A1 replaces it. *)
Lemma addSample_spec_witness :
  reachable (builderOf [padArg "A" 1 "kick" [1; 2]]) /\
  fst (getSample A 1
         (snd (addSample (padArg "A" 1 "a-very-long-snare" [3; 4])
                         (builderOf [padArg "A" 1 "kick" [1; 2]]))))
  = Ok (Some {| bank := A; padNumber := 1; name := str "a-very-long-";
                data := [3; 4]; metadata := None |}).
Proof.
  split; [apply builderOf_reachable|].
  destruct (addSample_spec (builderOf [padArg "A" 1 "kick" [1; 2]])
              (padArg "A" 1 "a-very-long-snare" [3; 4])
              (builderOf_reachable _)) as (_ & _ & H & _).
  destruct H as (b & Hb & _ & Hget & _).
  - cbn. split; [auto | lia].
  - destruct b; try discriminate Hb. exact Hget.
Defined.

(** C6.  Two builders that hold the same assignments, in whatever order
    they were added, build the same image (or throw the same error). *)
Theorem createDiskImage_order_independent (this1 this2 : Builder) :
  reachable this1 -> reachable this2 ->
  Permutation (Map_values this1) (Map_values this2) ->
  fst (createDiskImage this1) = fst (createDiskImage this2).
Proof.
  intros H1 H2 Hp.
  apply reachable_inv, builder_inv_one_per_key in H1 as [_ Hnd].
  unfold createDiskImage, getPadAssignments. cbn [fst].
  rewrite (sort_assignments_unique _ _ Hnd Hp).
  unfold Map_size, Map_values in *.
  apply Permutation_length in Hp. rewrite !length_map in Hp.
  now rewrite Hp.
Qed.

(** Pads A1 and B3 added in the two orders. *)
Lemma createDiskImage_order_independent_witness :
  fst (createDiskImage
         (builderOf [padArg "A" 1 "kick" [1; 2]; padArg "B" 3 "snare" [3; 4]]))
  = fst (createDiskImage
         (builderOf [padArg "B" 3 "snare" [3; 4]; padArg "A" 1 "kick" [1; 2]])).
Proof.
  apply createDiskImage_order_independent;
    [apply builderOf_reachable | apply builderOf_reachable | apply perm_swap].
Defined.

End DiskBuilder.

(** ** The built image at three inputs *)

Module DiskImage.
Import SP1200 Props DiskBuilder.

(** C1.  A builder that holds the single pad B3 (name "kick", two data
    bytes) builds an image whose pad entry sits in table slot 10;
    [parseSP1200Disk] reads the sample count 1 and then table slot 0,
    which is empty, so it returns one sample named "" on bank A, pad 1,
    with no data, and not the pad B3 that was stored. *)
Theorem parseSP1200Disk_of_single_B3 :
  bind (fst (createDiskImage (builderOf [padArg "B" 3 "kick" [1; 2]])))
       parseSP1200Disk
  = Ok {| samples :=
            [{| s_name := []; s_bank := Some A; s_padNumber := 1;
                s_data := []; s_sampleRate := 26040; s_bitsPerSample := 12;
                s_length := 0; s_metadata := None |}];
          sequences := [] |}.
Proof. vm_compute. reflexivity. Qed.

(** C2.  Pad A1 holds 256 data bytes and pad A2 holds the two bytes 3, 4.
    A1's data fills 0x1000..0x10FF and its end marker is written at
    0x1100; the cursor for A2 is then [alignUp 0x1100 = 0x1100], so A2's
    data is copied over the marker: in the built image A2's entry points
    at 0x1100 and the word there is 0x0403, not 0x8000. *)
Theorem createDiskImage_end_marker_overwritten :
  bind (fst (createDiskImage
               (builderOf [padArg "A" 1 "one" (repeat 17 256);
                           padArg "A" 2 "two" [3; 4]])))
       (fun image =>
          a2_offset <- getUint32 image (0x800 + 32 + 0x10) true ;;
          word <- getUint16 image 0x1100 true ;;
          Ok (a2_offset, word))
  = Ok (0x1100, 0x0403).
Proof. vm_compute. reflexivity. Qed.

(** C5.  Two builds that run out of disk.  Seven pads of 130,304 bytes
    each (the longest output of [convertWavToSP1200Format]) need more
    than the 820,480 bytes of the data region: the build throws the
    runtime's [RangeError] when [bytes.set] copies the seventh, and never
    reaches the size check.  One pad of 820,480 bytes fills the image up
    to its last byte: the final cursor would be 824,576, which does not
    exceed the disk size, yet the build throws [RangeError] from
    [setUint16], because the end marker no longer fits. *)
Theorem createDiskImage_overflow_RangeError :
  fst (createDiskImage
         (builderOf
            (map (fun p => padArg "A" p "long" (repeat 0 (Z.to_nat 130304)))
                 [1; 2; 3; 4; 5; 6; 7])))
  = Throw RangeError /\
  fst (createDiskImage
         (builderOf [padArg "A" 1 "full" (repeat 0 (Z.to_nat 820480))]))
  = Throw RangeError.
Proof. split; vm_compute; reflexivity. Qed.

(** When the occupied pads are the first ones of the table, the image
    reads back: pads A1 and A2. *)
Lemma parseSP1200Disk_of_A1_A2 :
  bind (fst (createDiskImage
               (builderOf [padArg "A" 2 "snare" [3; 4];
                           padArg "A" 1 "kick" [1; 2]])))
       parseSP1200Disk
  = Ok {| samples := [sampleOf (str "kick") A 1 [1; 2] 1;
                      sampleOf (str "snare") A 2 [3; 4] 1];
          sequences := [] |}.
Proof. vm_compute. reflexivity. Qed.

End DiskImage.

(** ** Reading back what was written *)

Module ByteFacts.
Import SP1200 JSFacts.

(** Deciding a comparison between offsets. *)
Ltac bool_lia :=
  lazymatch goal with
  | |- andb _ _ = true => apply andb_true_intro; split; bool_lia
  | |- andb _ _ = false =>
      apply andb_false_iff; first [left; bool_lia | right; bool_lia]
  | |- (_ <=? _) = true => apply Z.leb_le; lia
  | |- (_ <=? _) = false => apply Z.leb_gt; lia
  | |- (_ <? _) = true => apply Z.ltb_lt; lia
  | |- (_ <? _) = false => apply Z.ltb_ge; lia
  | |- (_ =? _) = true => apply Z.eqb_eq; lia
  | |- (_ =? _) = false => apply Z.eqb_neq; lia
  end.

Ltac decide_ifs :=
  repeat match goal with
         | |- context [if ?c then _ else _] =>
             first [ replace c with true by (symmetry; bool_lia)
                   | replace c with false by (symmetry; bool_lia) ]
         end.

Lemma Uint8Array_set_fits b src off :
  0 <= off -> off + Z.of_nat (length src) <= byteLength b ->
  Uint8Array_set b src off =
  Ok {| byteLength := byteLength b;
        byteAt := fun i =>
          if (off <=? i) && (i <? off + Z.of_nat (length src))
          then nth (Z.to_nat (i - off)) src 0
          else byteAt b i |}.
Proof.
  intros H1 H2. unfold Uint8Array_set.
  now replace (in_bounds b off (Z.of_nat (length src))) with true
    by (symmetry; apply in_bounds_spec; lia).
Qed.

Lemma readBytes_spec view data off :
  0 <= off -> off + Z.of_nat (length data) <= byteLength view ->
  (forall j, 0 <= j < Z.of_nat (length data) ->
             byte view (off + j) = nth (Z.to_nat j) data 0) ->
  readBytes view off (length data) = Ok data.
Proof.
  revert off. induction data as [|x data IH]; intros off H0 Hlen Hb; [reflexivity|].
  cbn [readBytes length]. cbn [length] in Hlen, Hb.
  unfold getUint8.
  replace (in_bounds view off 1) with true by (symmetry; apply in_bounds_spec; lia).
  cbn [bind]. rewrite IH; try lia.
  - cbn [bind]. f_equal. f_equal. specialize (Hb 0). rewrite Z.add_0_r in Hb.
    apply Hb. lia.
  - intros j Hj. replace (off + 1 + j) with (off + (j + 1)) by lia.
    rewrite Hb by lia. replace (Z.to_nat (j + 1)) with (S (Z.to_nat j)) by lia.
    reflexivity.
Qed.

Lemma readName_spec view name : forall off n,
  0 <= off -> off + Z.of_nat n <= byteLength view ->
  (length name <= n)%nat ->
  Forall (fun c => c <> 0) name ->
  (forall j, 0 <= j < Z.of_nat (length name) ->
             byte view (off + j) = nth (Z.to_nat j) name 0) ->
  ((length name < n)%nat -> byte view (off + Z.of_nat (length name)) = 0) ->
  readName view off n = Ok name.
Proof.
  induction name as [|c name IH]; intros off n H0 Hlen Hn Hnz Hb Hz.
  - destruct n as [|n]; [reflexivity|]. cbn [readName].
    unfold getUint8.
    replace (in_bounds view off 1) with true by (symmetry; apply in_bounds_spec; lia).
    cbn [bind]. cbn [length] in Hz. rewrite Z.add_0_r in Hz. rewrite Hz by lia.
    reflexivity.
  - destruct n as [|n]; [cbn in Hn; lia|]. cbn [readName].
    unfold getUint8.
    replace (in_bounds view off 1) with true by (symmetry; apply in_bounds_spec; lia).
    cbn [bind]. cbn [length] in *.
    pose proof (Hb 0 ltac:(lia)) as Hc. rewrite Z.add_0_r in Hc. cbn in Hc.
    rewrite Hc. apply Forall_cons_iff in Hnz as [Hc0 Hnz'].
    replace (c =? 0) with false by (symmetry; now apply Z.eqb_neq).
    rewrite IH; try lia; auto.
    + intros j Hj. replace (off + 1 + j) with (off + (j + 1)) by lia.
      rewrite Hb by lia. replace (Z.to_nat (j + 1)) with (S (Z.to_nat j)) by lia.
      reflexivity.
    + intros Hl. replace (off + 1 + Z.of_nat (length name))
        with (off + Z.of_nat (S (length name))) by lia.
      apply Hz. lia.
Qed.

Lemma TextEncoder_encode_ascii s :
  Forall (fun c => 1 <= c <= 127) s -> TextEncoder_encode s = s.
Proof.
  intros H. induction H as [|c l Hc Hl IH]; [reflexivity|].
  cbn [TextEncoder_encode].
  unfold is_high_surrogate, is_low_surrogate, utf8_of_code_point.
  decide_ifs. cbn. now rewrite IH.
Qed.

Lemma setUint16_fits b off v le :
  0 <= off -> off + 2 <= byteLength b ->
  setUint16 b off v le =
  Ok (if le
      then store (store b off (v mod 65536 mod 256))
                 (off + 1) (v mod 65536 / 256)
      else store (store b off (v mod 65536 / 256))
                 (off + 1) (v mod 65536 mod 256)).
Proof.
  intros H1 H2. unfold setUint16.
  now replace (in_bounds b off 2) with true
    by (symmetry; apply in_bounds_spec; lia).
Qed.

Lemma setUint32_le_fits b off v :
  0 <= off -> off + 4 <= byteLength b ->
  setUint32 b off v true =
  Ok (store (store (store (store b off (v mod 4294967296 mod 256))
                          (off + 1) ((v mod 4294967296 / 256) mod 256))
                   (off + 2) ((v mod 4294967296 / 65536) mod 256))
            (off + 3) (v mod 4294967296 / 16777216)).
Proof.
  intros H1 H2. unfold setUint32.
  now replace (in_bounds b off 4) with true
    by (symmetry; apply in_bounds_spec; lia).
Qed.

Lemma setUint8_fits b off v :
  0 <= off -> off + 1 <= byteLength b ->
  setUint8 b off v = Ok (store b off (v mod 256)).
Proof.
  intros H1 H2. unfold setUint8.
  now replace (in_bounds b off 1) with true
    by (symmetry; apply in_bounds_spec; lia).
Qed.

Lemma setUint32_be_fits b off v :
  0 <= off -> off + 4 <= byteLength b ->
  setUint32 b off v false =
  Ok (store (store (store (store b off (v mod 4294967296 / 16777216))
                          (off + 1) ((v mod 4294967296 / 65536) mod 256))
                   (off + 2) ((v mod 4294967296 / 256) mod 256))
            (off + 3) (v mod 4294967296 mod 256)).
Proof.
  intros H1 H2. unfold setUint32.
  now replace (in_bounds b off 4) with true
    by (symmetry; apply in_bounds_spec; lia).
Qed.

Lemma getUint32_be_fits b off :
  0 <= off -> off + 4 <= byteLength b ->
  getUint32 b off false =
  Ok (16777216 * byte b off + 65536 * byte b (off + 1)
      + 256 * byte b (off + 2) + byte b (off + 3)).
Proof.
  intros H1 H2. unfold getUint32.
  now replace (in_bounds b off 4) with true
    by (symmetry; apply in_bounds_spec; lia).
Qed.

Lemma uint32_bytes_be w :
  0 <= w < 4294967296 ->
  16777216 * ((w / 16777216) mod 256)
  + 65536 * (((w / 65536) mod 256) mod 256)
  + 256 * (((w / 256) mod 256) mod 256) + (w mod 256) mod 256 = w.
Proof. intros H. Z.div_mod_to_equations. lia. Qed.

Lemma getUint16_le_fits b off :
  0 <= off -> off + 2 <= byteLength b ->
  getUint16 b off true = Ok (byte b off + 256 * byte b (off + 1)).
Proof.
  intros H1 H2. unfold getUint16.
  now replace (in_bounds b off 2) with true
    by (symmetry; apply in_bounds_spec; lia).
Qed.

Lemma getUint32_le_fits b off :
  0 <= off -> off + 4 <= byteLength b ->
  getUint32 b off true =
  Ok (byte b off + 256 * byte b (off + 1)
      + 65536 * byte b (off + 2) + 16777216 * byte b (off + 3)).
Proof.
  intros H1 H2. unfold getUint32.
  now replace (in_bounds b off 4) with true
    by (symmetry; apply in_bounds_spec; lia).
Qed.

Lemma uint32_bytes w :
  0 <= w < 4294967296 ->
  (w mod 256) mod 256 + 256 * (((w / 256) mod 256) mod 256)
  + 65536 * (((w / 65536) mod 256) mod 256)
  + 16777216 * ((w / 16777216) mod 256) = w.
Proof. intros H. Z.div_mod_to_equations. lia. Qed.

Lemma nth_byte (l : list Z) (j : Z) (lo : Z) :
  0 <= lo ->
  Forall (fun b => lo <= b < 256) l -> 0 <= j < Z.of_nat (length l) ->
  nth (Z.to_nat j) l 0 mod 256 = nth (Z.to_nat j) l 0.
Proof.
  intros Hlo Hall Hj. apply Z.mod_small.
  rewrite Forall_forall in Hall.
  assert (In (nth (Z.to_nat j) l 0) l) by (apply nth_In; lia).
  specialize (Hall _ H). lia.
Qed.

End ByteFacts.

(** ** Single-sample files *)

Module SampleFile.
Import SP1200 Props JSFacts ByteFacts.

(** C7 (as amended).  Take a sample whose name has at most 12 characters,
    all of them ASCII other than NUL, with no white space at either end;
    whose data are bytes, of even length, at most 820,480 of them; and
    whose [length] field is half the number of data bytes.  Encoding it
    and decoding the file returns a sample with the same name, data and
    length; its bank, pad, rate and depth are 'A', 1, 26040 and 12 and it
    has no metadata, whatever the original had. *)
Theorem sample_file_round_trip (s : SP1200Sample) :
  (length (s_name s) <= 12)%nat ->
  Forall (fun c => 1 <= c <= 127) (s_name s) ->
  trim (s_name s) = s_name s ->
  Forall (fun b => 0 <= b < 256) (s_data s) ->
  Z.of_nat (length (s_data s)) = 2 * s_length s ->
  Z.of_nat (length (s_data s)) <= SP1200_DISK_SIZE - SP1200_SAMPLE_DATA_OFFSET ->
  bind (createSP1200SampleFile s) parseSP1200File
  = Ok {| s_name := s_name s; s_bank := Some A; s_padNumber := 1;
          s_data := s_data s; s_sampleRate := SP1200_SAMPLE_RATE;
          s_bitsPerSample := 12; s_length := s_length s;
          s_metadata := None |}.
Proof.
  intros Hn Hascii Htrim Hbytes Hlen Hfit.
  unfold createSP1200SampleFile, SP1200_DISK_SIZE, SP1200_SAMPLE_DATA_OFFSET,
    SP1200_PAD_TABLE_OFFSET, SP1200_MAGIC in *.
  unfold slice0. rewrite firstn_all2 by lia.
  rewrite TextEncoder_encode_ascii by assumption.
  replace (Z.of_nat (length (s_data s)) / 2) with (s_length s)
    by (rewrite Hlen; symmetry; rewrite Z.mul_comm; apply Z.div_mul; lia).
  rewrite setUint16_fits by (cbn [byteLength store fill alloc]; lia). cbn [bind].
  rewrite setUint16_fits by (cbn [byteLength store fill alloc]; lia). cbn [bind].
  rewrite setUint16_fits by (cbn [byteLength store fill alloc]; lia). cbn [bind].
  rewrite Uint8Array_set_fits by (cbn [byteLength store fill alloc]; lia). cbn [bind].
  rewrite setUint32_le_fits by (cbn [byteLength store fill alloc]; lia). cbn [bind].
  rewrite setUint32_le_fits by (cbn [byteLength store fill alloc]; lia). cbn [bind].
  rewrite Uint8Array_set_fits by (cbn [byteLength store fill alloc]; lia). cbn [bind].
  match goal with |- parseSP1200File ?b = _ => set (buf := b) end.
  assert (Hbl : byteLength buf = 824576) by reflexivity.
  assert (Hmagic : byte buf 0 + 256 * byte buf (0 + 1) = 4608).
  { unfold byte. subst buf. cbn [byteAt store fill alloc byteLength].
    decide_ifs. reflexivity. }
  assert (Hname : forall j, 0 <= j < Z.of_nat (length (s_name s)) ->
            byte buf (2048 + j) = nth (Z.to_nat j) (s_name s) 0).
  { intros j Hj. unfold byte. subst buf.
    cbn [byteAt store fill alloc byteLength]. decide_ifs.
    replace (2048 + j - 2048) with j by lia.
    apply (nth_byte _ _ 1); [lia | | assumption].
    eapply Forall_impl; [|exact Hascii]. cbn. lia. }
  assert (Hzero : (length (s_name s) < 12)%nat ->
            byte buf (2048 + Z.of_nat (length (s_name s))) = 0).
  { intros Hj. unfold byte. subst buf.
    cbn [byteAt store fill alloc byteLength]. decide_ifs. reflexivity. }
  assert (Hwords : byte buf (2048 + 12) + 256 * byte buf (2048 + 12 + 1)
                   + 65536 * byte buf (2048 + 12 + 2)
                   + 16777216 * byte buf (2048 + 12 + 3) = s_length s).
  { unfold byte. subst buf. cbn [byteAt store fill alloc byteLength].
    decide_ifs. rewrite (Z.mod_small (s_length s)) by lia.
    apply uint32_bytes. lia. }
  assert (Hoff : byte buf (2048 + 16) + 256 * byte buf (2048 + 16 + 1)
                 + 65536 * byte buf (2048 + 16 + 2)
                 + 16777216 * byte buf (2048 + 16 + 3) = 4096).
  { unfold byte. subst buf. cbn [byteAt store fill alloc byteLength].
    decide_ifs. reflexivity. }
  assert (Hdata : forall j, 0 <= j < Z.of_nat (length (s_data s)) ->
            byte buf (4096 + j) = nth (Z.to_nat j) (s_data s) 0).
  { intros j Hj. unfold byte. subst buf.
    cbn [byteAt store fill alloc byteLength]. decide_ifs.
    replace (4096 + j - 4096) with j by lia.
    now apply (nth_byte _ _ 0). }
  clearbody buf.
  unfold parseSP1200File, SP1200_PAD_TABLE_OFFSET.
  rewrite getUint16_le_fits, Hmagic by lia. cbn [bind].
  change (negb (4608 =? bitand SP1200_MAGIC 65535)) with false. cbv iota.
  rewrite (readName_spec buf (s_name s)); try lia; auto.
  2:{ eapply Forall_impl; [|exact Hascii]. cbn. lia. }
  cbn [bind].
  rewrite getUint32_le_fits, Hwords by lia. cbn [bind].
  rewrite getUint32_le_fits, Hoff by lia. cbn [bind].
  replace (Z.to_nat (s_length s * 2)) with (length (s_data s)) by lia.
  rewrite readBytes_spec; try lia; auto.
  cbn [bind]. now rewrite Htrim.
Qed.

(** The theorem at the sample "kick" of two words, which is returned
    whole. *)
Lemma sample_file_round_trip_witness :
  bind (createSP1200SampleFile (sampleOf (str "kick") A 1 [1; 2; 3; 4] 2))
       parseSP1200File
  = Ok (sampleOf (str "kick") A 1 [1; 2; 3; 4] 2).
Proof.
  apply (sample_file_round_trip (sampleOf (str "kick") A 1 [1; 2; 3; 4] 2)).
  - cbn. lia.
  - cbn. repeat constructor; lia.
  - reflexivity.
  - cbn. repeat constructor; lia.
  - reflexivity.
  - cbn. lia.
Defined.

(** What decoding returns for four samples whose names have at most 12
    characters and whose word count is 1: a name with a trailing space
    comes back trimmed; a sample of pad B3 comes back on pad A1; three
    data bytes come back as two; and the one-character name U+00E9 comes
    back as its two UTF-8 bytes. *)
Lemma sample_file_decoded :
  (bind (createSP1200SampleFile (sampleOf (str "kick ") A 1 [1; 2] 1))
        parseSP1200File
   = Ok (sampleOf (str "kick") A 1 [1; 2] 1)) /\
  (bind (createSP1200SampleFile (sampleOf (str "kick") B 3 [1; 2] 1))
        parseSP1200File
   = Ok (sampleOf (str "kick") A 1 [1; 2] 1)) /\
  (bind (createSP1200SampleFile (sampleOf (str "kick") A 1 [1; 2; 3] 1))
        parseSP1200File
   = Ok (sampleOf (str "kick") A 1 [1; 2] 1)) /\
  (bind (createSP1200SampleFile (sampleOf [233] A 1 [1; 2] 1))
        parseSP1200File
   = Ok (sampleOf [195; 169] A 1 [1; 2] 1)).
Proof. repeat split; vm_compute; reflexivity. Qed.

(** C7 (as stated) fails: none of those four samples is what decoding its
    encoding returns. *)
Lemma sample_file_round_trip_counterexample :
  (bind (createSP1200SampleFile (sampleOf (str "kick ") A 1 [1; 2] 1))
        parseSP1200File
   <> Ok (sampleOf (str "kick ") A 1 [1; 2] 1)) /\
  (bind (createSP1200SampleFile (sampleOf (str "kick") B 3 [1; 2] 1))
        parseSP1200File
   <> Ok (sampleOf (str "kick") B 3 [1; 2] 1)) /\
  (bind (createSP1200SampleFile (sampleOf (str "kick") A 1 [1; 2; 3] 1))
        parseSP1200File
   <> Ok (sampleOf (str "kick") A 1 [1; 2; 3] 1)) /\
  (bind (createSP1200SampleFile (sampleOf [233] A 1 [1; 2] 1))
        parseSP1200File
   <> Ok (sampleOf [233] A 1 [1; 2] 1)).
Proof. repeat split; vm_compute; intros [=]. Qed.

End SampleFile.

(** ** WAV ingestion *)

Module WavFacts.
Import SP1200 Number Wav Route JSFacts.

Lemma byte_range b i : 0 <= byte b i < 256.
Proof. unfold byte. apply Z.mod_pos_bound. lia. Qed.

Lemma getUint32_range b off le v :
  getUint32 b off le = Ok v -> 0 <= v < 4294967296.
Proof.
  unfold getUint32. destruct (in_bounds b off 4); [|discriminate].
  pose proof (byte_range b off). pose proof (byte_range b (off + 1)).
  pose proof (byte_range b (off + 2)). pose proof (byte_range b (off + 3)).
  destruct le; intros E;
    match type of E with Ok ?x = Ok _ => assert (v = x) by congruence end;
    lia.
Qed.

(** An iteration of the chunk loop moves the offset forward by 8 or
    more. *)
Lemma scanChunk_progress buffer st st' :
  scanChunk buffer st = Ok st' -> offset st + 8 <= offset st'.
Proof.
  unfold scanChunk. intros H.
  apply bind_Ok in H as (chunkId & _ & H).
  apply bind_Ok in H as (chunkSize & Hsize & H).
  apply bind_Ok in H as (st1 & Hst1 & H).
  apply getUint32_range in Hsize.
  assert (Hoff : offset st1 = offset st).
  { destruct (jsstring_eqb chunkId (str "fmt ")).
    - repeat (apply bind_Ok in Hst1 as (? & _ & Hst1)).
      now injection Hst1 as <-.
    - destruct (jsstring_eqb chunkId (str "data")); now injection Hst1 as <-. }
  apply Ok_inj in H. subst st'. cbn [offset]. rewrite Hoff.
  destruct (negb (chunkSize mod 2 =? 0)); lia.
Qed.

(** The chunk loop of [parseWavHeader] ends before its fuel does. *)
Lemma scanChunks_fuel fuel buffer st :
  byteLength buffer - offset st <= Z.of_nat fuel ->
  scanChunks fuel buffer st <> None.
Proof.
  revert st. induction fuel as [|fuel IH]; intros st Hfuel; cbn [scanChunks].
  - destruct (Z.ltb_spec (offset st) (byteLength buffer - 8)); [lia|discriminate].
  - destruct (Z.ltb_spec (offset st) (byteLength buffer - 8)); [|discriminate].
    destruct (scanChunk buffer st) as [st'|e] eqn:E; [|discriminate].
    apply IH. apply scanChunk_progress in E. lia.
Qed.

Lemma parseWavHeader_fuel buffer :
  scanChunks (Z.to_nat (byteLength buffer)) buffer scanStart <> None.
Proof. apply scanChunks_fuel. cbn [offset scanStart]. lia. Qed.

(** The tests of [validateWavFormat], one by one: it answers valid
    exactly when the format is 1, the channel count is 1 or 2, the depth
    is 8, 16 or 24, the rate is between 8000 and 192000 and the test
    [numSamples < minSamples] on the derived count fails.  A verdict is
    valid with no error or invalid with a reason. *)
Lemma validateWavFormat_tests (buffer : ArrayBuffer) (wav : WavHeader) :
  parseWavHeader buffer = Ok wav ->
  (isValid (validateWavFormat wav) = true <->
   audioFormat wav = 1 /\
   (channels wav = 1 \/ channels wav = 2) /\
   (bitsPerSample wav = 8 \/ bitsPerSample wav = 16 \/
    bitsPerSample wav = 24) /\
   8000 <= sampleRate wav <= 192000 /\
   PrimFloat.ltb (sampleCount wav) (of_Z 100) = false) /\
  (validateWavFormat wav = {| isValid := true; error := None |} \/
   exists reason,
     validateWavFormat wav = {| isValid := false; error := Some reason |}).
Proof.
  intros _. unfold validateWavFormat, invalid. cbn [existsb].
  assert (Hbits : forall b, (b =? 8) || ((b =? 16) || ((b =? 24) || false))
                             = true <-> (b = 8 \/ b = 16 \/ b = 24)).
  { intros b. rewrite !orb_true_iff, !Z.eqb_eq. intuition discriminate. }
  destruct (Z.eqb_spec (audioFormat wav) 1) as [Hf|Hf]; cbn [negb].
  2:{ split; [split; [discriminate | tauto] | eauto]. }
  destruct (Z.ltb_spec (sampleRate wav) 8000) as [Hr|Hr]; cbn [orb].
  1:{ split; [split; [discriminate | intros (_ & _ & _ & ? & _); lia]
             | eauto]. }
  destruct (Z.gtb_spec (sampleRate wav) 192000) as [Hr'|Hr'].
  1:{ split; [split; [discriminate | intros (_ & _ & _ & ? & _); lia]
             | eauto]. }
  destruct ((bitsPerSample wav =? 8) || _) eqn:Hb; cbn [negb].
  2:{ split; [split; [discriminate | intros (_ & _ & Hb' & _)] | eauto].
      apply Hbits in Hb'. congruence. }
  apply Hbits in Hb.
  destruct (Z.ltb_spec (channels wav) 1) as [Hc|Hc]; cbn [orb].
  1:{ split; [split; [discriminate | intros (_ & ? & _); lia] | eauto]. }
  destruct (Z.gtb_spec (channels wav) 2) as [Hc'|Hc'].
  1:{ split; [split; [discriminate | intros (_ & ? & _); lia] | eauto]. }
  destruct (PrimFloat.ltb (sampleCount wav) (of_Z 100)) eqn:Hn; cbn [isValid].
  - split; [split; [discriminate | intros (_ & _ & _ & _ & [=])] | eauto].
  - split; [|auto]. split; [intros _ | reflexivity].
    repeat split; auto; lia.
Qed.

End WavFacts.

(** ** Conversion to the SP-1200 format *)

Module ConvertFacts.
Import SP1200 Number Wav Route Props JSFacts ByteFacts.

(** A loop that writes consecutive little-endian words: what it leaves
    at each position, and that it leaves the rest alone. *)
Lemma forRange_words (pos val : Z -> Z) (step : Z) :
  (forall i, pos (i + step) = pos i + 2) ->
  forall n view i,
    0 <= pos i -> pos i + 2 * Z.of_nat n <= byteLength view ->
    exists view',
      forRange n i step
        (fun i out => setUint16 out (pos i) (val i) true) view = Ok view' /\
      byteLength view' = byteLength view /\
      (forall k, 0 <= k < Z.of_nat n ->
                 getUint16 view' (pos i + 2 * k) true
                 = Ok (val (i + k * step) mod 65536)) /\
      (forall j, j < pos i \/ pos i + 2 * Z.of_nat n <= j ->
                 byteAt view' j = byteAt view j).
Proof.
  intros Hpos. induction n as [|n IH]; intros view i H0 Hfit.
  - exists view. cbn [forRange]. repeat split; auto. intros k Hk. lia.
  - cbn [forRange]. rewrite setUint16_fits by lia. cbn [bind].
    set (w := val i mod 65536).
    set (v1 := store (store view (pos i) (w mod 256)) (pos i + 1) (w / 256)).
    destruct (IH v1 (i + step)) as (view' & Hrun & Hlen & Hwords & Hframe).
    { rewrite Hpos. lia. }
    { rewrite Hpos. subst v1. cbn [byteLength store]. lia. }
    exists view'. rewrite Hrun. split; [reflexivity|].
    split; [rewrite Hlen; reflexivity|]. split.
    + intros k Hk. destruct (Z.eq_dec k 0) as [->|Hk0].
      * rewrite Z.mul_0_r, Z.add_0_r, Z.mul_0_l, Z.add_0_r.
        rewrite getUint16_le_fits
          by (rewrite ?Hlen; subst v1; cbn [byteLength store]; lia).
        unfold byte. rewrite !Hframe by (rewrite Hpos; lia).
        subst v1. cbn [byteAt store]. decide_ifs.
        assert (0 <= w < 65536) by (apply Z.mod_pos_bound; lia).
        f_equal. Z.div_mod_to_equations. lia.
      * specialize (Hwords (k - 1) ltac:(lia)).
        rewrite Hpos in Hwords.
        replace (pos i + 2 + 2 * (k - 1)) with (pos i + 2 * k) in Hwords by lia.
        replace (i + step + (k - 1) * step) with (i + k * step) in Hwords by lia.
        exact Hwords.
    + intros j Hj. rewrite Hframe by (rewrite Hpos; lia).
      subst v1. cbn [byteAt store]. decide_ifs. reflexivity.
Qed.

(** Two words read the same from buffers that agree on their bytes. *)
Lemma getUint16_ext view view' off le :
  byteLength view' = byteLength view ->
  byteAt view' off = byteAt view off ->
  byteAt view' (off + 1) = byteAt view (off + 1) ->
  getUint16 view' off le = getUint16 view off le.
Proof.
  intros Hl H0 H1. unfold getUint16, in_bounds, byte. now rewrite Hl, H0, H1.
Qed.

Lemma fold_Math_max_zeros n :
  fold_left Math_max (repeat (of_Z 0) n) (of_Z 0) = of_Z 0.
Proof. induction n as [|n IH]; [reflexivity | exact IH]. Qed.

Lemma all_from_spec n i p :
  all_from n i p = true ->
  forall k, i <= k < i + Z.of_nat n -> p k = true.
Proof.
  revert i. induction n as [|n IH]; intros i H k Hk; [lia|].
  cbn [all_from] in H. apply andb_true_iff in H as [Hi Hrest].
  destruct (Z.eq_dec k i) as [->|Hne]; [assumption|].
  apply (IH (i + 1)); [assumption | lia].
Qed.

End ConvertFacts.

Module Conversion.
Import SP1200 Number Wav Route Props JSFacts ByteFacts ConvertFacts.

Section Silence.
(** The implementation-approximated part of [Math.pow]; with a tuning of
    0 the exponent is 0 and the language fixes the result, 1. *)
Variable pow_approx : number -> number -> number.

(** Every sample read from a data chunk of zero bytes is 0. *)
Lemma silence_getSample wavBuffer off i :
  0 <= off -> off + 88200 <= byteLength wavBuffer ->
  (forall j, off <= j < off + 88200 -> byte wavBuffer j = 0) ->
  0 <= i < 44100 ->
  getSample i wavBuffer
    {| audioFormat := 1; channels := 1; sampleRate := 44100;
       bitsPerSample := 16; dataOffset := off; dataLength := 88200 |}
  = of_Z 0.
Proof.
  intros H0 Hfit Hz Hi. unfold getSample, readSample.
  cbn [bitsPerSample channels dataOffset].
  change (16 / 8) with 2. change (16 =? 8) with false. change (16 =? 16) with true.
  change (1 =? 2) with false. cbv iota.
  replace (off + i * 2 * 1 >=? byteLength wavBuffer) with false
    by (symmetry; rewrite Z.geb_leb; apply Z.leb_gt; lia).
  unfold getInt16. rewrite getUint16_le_fits by lia.
  rewrite !Hz by lia. reflexivity.
Qed.

Lemma map_seq_const {A} (f : nat -> A) (c : A) n : forall s,
  (forall i, (s <= i < s + n)%nat -> f i = c) -> map f (seq s n) = repeat c n.
Proof.
  induction n as [|n IH]; intros s H; cbn; [reflexivity|].
  rewrite H by lia. f_equal. apply IH. intros i Hi. apply H. lia.
Qed.

Lemma nth_repeat_lt {A} (a d : A) n m :
  (n < m)%nat -> nth n (repeat a m) d = a.
Proof.
  revert n. induction m as [|m IH]; intros [|n] H; cbn; try lia; auto.
  apply IH. lia.
Qed.

Lemma fold_Math_max_silence n :
  fold_left Math_max (repeat (of_Z 0) (S n)) neg_infinity = of_Z 0.
Proof.
  cbn [repeat fold_left].
  replace (Math_max neg_infinity (of_Z 0)) with (of_Z 0)
    by (vm_compute; reflexivity).
  apply fold_Math_max_zeros.
Qed.

(** For each of the 26040 output samples of the scenario, the index the
    resampling loop reads is one of the 44100 input samples: checked by
    running the index computation for each of them. *)
Lemma silence_indices_in_range off :
  all_from (Z.to_nat 26040) 0
    (fun i =>
       match index_of
               (Math_min
                  (inputIndex pow_approx
                     {| audioFormat := 1; channels := 1; sampleRate := 44100;
                        bitsPerSample := 16; dataOffset := off;
                        dataLength := 88200 |} 0 i)
                  (of_Z 44100 - of_Z 1)%float) with
       | Some z => (0 <=? z) && (z <? 44100)
       | None => false
       end) = true.
Proof. vm_compute. reflexivity. Qed.

(** C8.  Take a WAV buffer that [parseWavHeader] reads as PCM, mono,
    44100 Hz, 16 bits, with 88200 data bytes (one second), all of them
    zero and all inside the buffer.  Converted with tuning 0 it gives an
    output of 52224 bytes, the 256-byte multiple above 2 * 26040, where
    26040 is [numOutputSamples]; each of the first 26040 little-endian
    words is 2048, and each word from there to the end is the end marker
    0x8000. *)
Theorem silence_conversion (wavBuffer : ArrayBuffer) (wav : WavHeader) :
  parseWavHeader wavBuffer = Ok wav ->
  audioFormat wav = 1 -> channels wav = 1 -> sampleRate wav = 44100 ->
  bitsPerSample wav = 16 -> dataLength wav = 88200 ->
  0 <= dataOffset wav -> dataOffset wav + 88200 <= byteLength wavBuffer ->
  (forall j, dataOffset wav <= j < dataOffset wav + 88200 ->
             byte wavBuffer j = 0) ->
  exists output,
    convertWavToSP1200Format pow_approx wavBuffer 0 = Ok output /\
    numOutputSamples pow_approx wav 0 = of_Z 26040 /\
    byteLength output = 52224 /\
    (forall i, 0 <= i < 26040 -> getUint16 output (i * 2) true = Ok 2048) /\
    (forall i, 26040 <= i < 26112 ->
               getUint16 output (i * 2) true = Ok SP1200_END_MARKER).
Proof.
  intros Hparse Hf Hc Hr Hb Hl H0 Hfit Hz.
  destruct wav as [af ch sr bits off len]. cbn in Hf, Hc, Hr, Hb, Hl, H0, Hfit, Hz.
  subst af ch sr bits len.
  set (wav := {| audioFormat := 1; channels := 1; sampleRate := 44100;
                 bitsPerSample := 16; dataOffset := off; dataLength := 88200 |}) in *.
  assert (Hvalid : isValid (validateWavFormat wav) = true) by (vm_compute; reflexivity).
  assert (HnIn : numInputSamples wav = of_Z 44100) by (vm_compute; reflexivity).
  assert (HnOut : numOutputSamples pow_approx wav 0 = of_Z 26040) by (vm_compute; reflexivity).
  unfold convertWavToSP1200Format. rewrite Hparse. cbn [bind].
  rewrite Hvalid. cbn [negb]. cbv zeta.
  rewrite HnOut, HnIn.
  replace (integer_of_number (of_Z 26040)) with 26040
    by (vm_compute; reflexivity).
  replace (integer_of_number (of_Z 44100)) with 44100
    by (vm_compute; reflexivity).
  replace (- (- (26040 * 2) / SP1200_BLOCK_SIZE) * SP1200_BLOCK_SIZE)
    with 52224 by (vm_compute; reflexivity).
  replace ((of_Z 26040 =? neg_infinity)%float || (52224 <? 0)) with false
    by (vm_compute; reflexivity).
  cbv iota.
  replace (Z.to_nat ((52224 - 26040 * 2 + 1) / 2)) with 72%nat
    by (vm_compute; reflexivity).
  replace (26040 * 2) with 52080 by (vm_compute; reflexivity).
  rewrite (map_seq_const _ (of_Z 0))
    by (intros i Hi; apply silence_getSample; auto; lia).
  rewrite map_repeat.
  replace (Math_abs (of_Z 0)) with (of_Z 0) by (vm_compute; reflexivity).
  assert (Hpeak : fold_left Math_max (repeat (of_Z 0) (Z.to_nat 44100))
                            neg_infinity = of_Z 0).
  { replace (Z.to_nat 44100) with (S (Z.to_nat 44099)) by lia.
    apply fold_Math_max_silence. }
  rewrite Hpeak.
  replace (of_Z 0 <? of_Z 0)%float with false by (vm_compute; reflexivity).
  cbv iota.
  (* the resampling loop *)
  destruct (forRange_words (fun i => i * 2)
              (fun i => sample12bit
                          (element (repeat (of_Z 0) (Z.to_nat 44100))
                             (Math_min (inputIndex pow_approx wav 0 i)
                                       (of_Z 44100 - of_Z 1)%float))
                          (of_Z 1))
              1 ltac:(intros; cbv beta; lia) (Z.to_nat 26040) (alloc 52224) 0)
    as (out1 & Hrun1 & Hlen1 & Hwords1 & _).
  { lia. }
  { cbn [byteLength alloc]. lia. }
  rewrite Hrun1. cbn [bind].
  (* the end markers *)
  destruct (forRange_words (fun i => i) (fun _ => SP1200_END_MARKER)
              2 ltac:(intros; cbv beta; lia) 72%nat out1 52080)
    as (out2 & Hrun2 & Hlen2 & Hwords2 & Hframe2).
  { lia. }
  { rewrite Hlen1. cbn [byteLength alloc]. lia. }
  exists out2. split; [exact Hrun2|]. split; [reflexivity|].
  split; [rewrite Hlen2, Hlen1; reflexivity|]. split.
  - intros i Hi.
    rewrite (getUint16_ext out1) by (rewrite ?Hframe2 by lia; auto).
    specialize (Hwords1 i ltac:(lia)).
    replace (0 * 2 + 2 * i) with (i * 2) in Hwords1 by lia.
    rewrite Hwords1. f_equal.
    replace (0 + i * 1) with i by lia.
    pose proof (all_from_spec _ _ _ (silence_indices_in_range off) i
                  ltac:(lia)) as Hz'.
    cbv beta in Hz'. fold wav in Hz'. unfold element.
    destruct (index_of _) as [z|]; [|discriminate Hz'].
    apply andb_true_iff in Hz' as [Hz1 Hz2].
    apply Z.leb_le in Hz1. apply Z.ltb_lt in Hz2.
    rewrite nth_repeat_lt by lia. vm_compute. reflexivity.
  - intros i Hi.
    specialize (Hwords2 (i - 26040) ltac:(lia)).
    replace (52080 + 2 * (i - 26040)) with (i * 2) in Hwords2 by lia.
    exact Hwords2.
Qed.
End Silence.

Lemma silence44100_data j : 44 <= j < 44 + 88200 -> byte silence44100 j = 0.
Proof.
  intros Hj. unfold silence44100, wavFile.
  destruct (createWavHeader 88200 44100 16) as [h|e] eqn:E;
    [|vm_compute in E; discriminate E].
  assert (Hlen : length (bytes_of h) = 44%nat).
  { vm_compute in E. apply Ok_inj in E. subst h. reflexivity. }
  unfold byte, of_bytes. cbn [byteAt].
  replace (j <? 0) with false by (symmetry; apply Z.ltb_ge; lia).
  rewrite app_nth2 by lia. rewrite nth_repeat. reflexivity.
Qed.

(** The theorem at [silence44100], a file made of the header that
    [createWavHeader] writes and 88200 zero bytes. *)
Lemma silence_conversion_witness :
  exists output,
    convertWavToSP1200Format (fun _ _ => NaN) silence44100 0 = Ok output /\
    numOutputSamples (fun _ _ => NaN)
      {| audioFormat := 1; channels := 1; sampleRate := 44100;
         bitsPerSample := 16; dataOffset := 44; dataLength := 88200 |} 0
    = of_Z 26040 /\
    byteLength output = 52224 /\
    (forall i, 0 <= i < 26040 -> getUint16 output (i * 2) true = Ok 2048) /\
    (forall i, 26040 <= i < 26112 ->
               getUint16 output (i * 2) true = Ok SP1200_END_MARKER).
Proof.
  apply (silence_conversion (fun _ _ => NaN) silence44100
           {| audioFormat := 1; channels := 1; sampleRate := 44100;
              bitsPerSample := 16; dataOffset := 44; dataLength := 88200 |}).
  - vm_compute. reflexivity.
  - reflexivity.
  - reflexivity.
  - reflexivity.
  - reflexivity.
  - reflexivity.
  - cbn. lia.
  - vm_compute. discriminate.
  - exact silence44100_data.
Defined.

End Conversion.

(** ** The SND file *)

Module SndFacts.
Import Number Snd Route Props JSFacts ByteFacts.

(** The header is always written, and holds the fixed fields and the
    sample count. *)
Lemma sndHeader_Ok fileName audioBuffer n :
  exists header,
    sndHeader fileName audioBuffer n = Ok header /\
    byteLength header = 192 /\
    byte header 0 = 3 /\ byte header 15 = 128 /\ byte header 19 = 2 /\
    byte header 22 = 0 /\ byte header 23 = 8 /\ byte header 24 = 2 /\
    byte header 25 = 0 /\
    16777216 * byte header 26 + 65536 * byte header 27
    + 256 * byte header 28 + byte header 29 = n mod 4294967296.
Proof.
  eexists. split.
  - cbv [sndHeader setInt8 setUint8 setUint16 setUint32 forEach bind
         in_bounds alloc byteLength andb Z.leb Z.add Z.mul Z.compare
         Pos.compare Pos.compare_cont Pos.add Pos.succ Pos.mul Pos.add_carry].
    reflexivity.
  - split; [reflexivity|].
    cbv [byte byteAt store Z.eqb Pos.eqb Z.add Pos.add Pos.succ Pos.add_carry].
    repeat (split; [reflexivity|]).
    apply uint32_bytes_be. apply Z.mod_pos_bound. lia.
Qed.

Lemma nth_bytes_of header rest k :
  (k < Z.to_nat (byteLength header))%nat ->
  nth k (bytes_of header ++ rest) 0 = byte header (Z.of_nat k).
Proof.
  intros Hk. unfold bytes_of.
  rewrite app_nth1 by (rewrite length_map, length_seq; exact Hk).
  rewrite (nth_indep _ 0 (byte header (Z.of_nat 0)))
    by (rewrite length_map, length_seq; exact Hk).
  rewrite (map_nth (fun i => byte header (Z.of_nat i))).
  now rewrite seq_nth.
Qed.

Lemma length_bytes_of header :
  length (bytes_of header) = Z.to_nat (byteLength header).
Proof. unfold bytes_of. now rewrite length_map, length_seq. Qed.

Lemma length_Int16Array_bytes le pcm :
  length (flat_map (Int16Array_bytes le) pcm) = (2 * length pcm)%nat.
Proof.
  induction pcm as [|v pcm IH]; [reflexivity|].
  cbn [flat_map]. rewrite length_app, IH.
  unfold Int16Array_bytes. destruct le; cbn [length]; lia.
Qed.

(** C3 (as amended).  For every decoded buffer, [convertToSnd] returns
    192 header bytes followed by two bytes per mono sample: byte 0 is 3,
    byte 15 is 128, byte 19 is 2, bytes 22-25 are 0, 8, 2, 0, bytes 26-29
    are the sample count as a big-endian 32-bit number, and the samples
    follow as 16-bit signed values in the byte order of the host, since
    the buffer of the [Int16Array] is appended as it is.  On a big-endian
    host that is the big-endian file of the specification. *)
Theorem convertToSnd_layout (hostLittleEndian : bool) (fileName : jsstring)
        (audioBuffer : AudioBuffer) :
  exists out,
    convertToSnd hostLittleEndian fileName audioBuffer = Ok out /\
    length (pcmData audioBuffer) = length (monoData audioBuffer) /\
    length out = (192 + 2 * length (pcmData audioBuffer))%nat /\
    nth 0 out 0 = 3 /\ nth 15 out 0 = 128 /\ nth 19 out 0 = 2 /\
    nth 22 out 0 = 0 /\ nth 23 out 0 = 8 /\ nth 24 out 0 = 2 /\
    nth 25 out 0 = 0 /\
    16777216 * nth 26 out 0 + 65536 * nth 27 out 0
    + 256 * nth 28 out 0 + nth 29 out 0
    = Z.of_nat (length (pcmData audioBuffer)) mod 4294967296 /\
    skipn 192 out
    = flat_map (Int16Array_bytes hostLittleEndian) (pcmData audioBuffer) /\
    (hostLittleEndian = false ->
     Ok out = bigEndianSnd fileName audioBuffer).
Proof.
  destruct (sndHeader_Ok fileName audioBuffer
              (Z.of_nat (length (pcmData audioBuffer))))
    as (header & Hh & Hlen & H0 & H15 & H19 & H22 & H23 & H24 & H25 & Hn).
  assert (Hl : length (bytes_of header) = 192%nat)
    by (rewrite length_bytes_of, Hlen; reflexivity).
  assert (Hnth : forall k, (k < 192)%nat ->
            nth k (bytes_of header
                   ++ flat_map (Int16Array_bytes hostLittleEndian)
                               (pcmData audioBuffer)) 0
            = byte header (Z.of_nat k)).
  { intros k Hk. apply nth_bytes_of. rewrite Hlen. lia. }
  eexists. unfold convertToSnd. rewrite Hh. cbn [bind].
  split; [reflexivity|].
  split; [unfold pcmData; now rewrite length_map|].
  split; [rewrite length_app, Hl, length_Int16Array_bytes; reflexivity|].
  rewrite !Hnth by lia.
  repeat (split; [assumption|]).
  split.
  - rewrite skipn_app, Hl, skipn_all2 by lia. reflexivity.
  - intros ->. unfold bigEndianSnd. rewrite Hh. reflexivity.
Qed.

(** C3 (as stated) fails on a little-endian host: the sample 32767 is
    written as the bytes 0xFF, 0x7F, where the big-endian file has 0x7F,
    0xFF. *)
Lemma convertToSnd_big_endian_counterexample :
  convertToSnd true (str "one.wav") oneSample
  <> bigEndianSnd (str "one.wav") oneSample.
Proof. vm_compute. intros [=]. Qed.

Lemma convertToSnd_little_endian_bytes :
  bind (convertToSnd true (str "one.wav") oneSample)
       (fun out => Ok (skipn 192 out)) = Ok [255; 127] /\
  bind (bigEndianSnd (str "one.wav") oneSample)
       (fun out => Ok (skipn 192 out)) = Ok [127; 255].
Proof. split; vm_compute; reflexivity. Qed.

End SndFacts.
(** ** Laws of the builder's pad map *)

Module BuilderLaws.
Import SP1200 Props JSFacts BuilderFacts DiskBuilder.

Section MapLaws.
Context {V : Type}.
Implicit Types (m : Map V) (k : string) (v : V).

Lemma Map_get_None_keys m k : Map_get m k = None <-> ~ In k (map fst m).
Proof.
  induction m as [|[k0 v0] m IH]; cbn; [tauto|].
  destruct (String.eqb_spec k0 k) as [->|Hne].
  - split; [discriminate | intros H; exfalso; auto].
  - rewrite IH. tauto.
Qed.

Lemma Map_delete_absent m k : Map_get m k = None -> Map_delete m k = m.
Proof.
  induction m as [|[k0 v0] m IH]; cbn; [reflexivity|].
  destruct (String.eqb k0 k); [discriminate|].
  intros H. now rewrite IH.
Qed.

Lemma Map_get_delete_same m k :
  NoDup (map fst m) -> Map_get (Map_delete m k) k = None.
Proof.
  induction m as [|[k0 v0] m IH]; cbn; [reflexivity|].
  intros Hnd. inversion Hnd as [|? ? Hn Hnd']; subst.
  destruct (String.eqb_spec k0 k) as [->|Hne].
  - now apply Map_get_None_keys.
  - cbn. destruct (String.eqb_spec k0 k); [contradiction | auto].
Qed.

Lemma Map_get_delete_other m k k' :
  k' <> k -> Map_get (Map_delete m k) k' = Map_get m k'.
Proof.
  intros Hne. induction m as [|[k0 v0] m IH]; cbn; [reflexivity|].
  destruct (String.eqb_spec k0 k) as [->|Hk]; cbn.
  - destruct (String.eqb_spec k k'); [congruence | reflexivity].
  - now rewrite IH.
Qed.

Lemma Map_delete_set m k v :
  Map_delete (Map_set m k v) k = Map_delete m k.
Proof.
  induction m as [|[k0 v0] m IH]; cbn.
  - now rewrite String.eqb_refl.
  - destruct (String.eqb k0 k) eqn:E; cbn; rewrite E; [reflexivity|].
    now rewrite IH.
Qed.

Lemma Map_set_length_present m k v v0 :
  Map_get m k = Some v0 -> length (Map_set m k v) = length m.
Proof.
  induction m as [|[k1 v1] m IH]; cbn; [discriminate|].
  destruct (String.eqb k1 k); cbn; auto.
Qed.

Lemma Map_set_length_absent m k v :
  Map_get m k = None -> length (Map_set m k v) = S (length m).
Proof.
  induction m as [|[k1 v1] m IH]; cbn; [reflexivity|].
  destruct (String.eqb k1 k); cbn; [discriminate | auto].
Qed.
End MapLaws.

(** [removeSample] always returns.  Afterwards the pad reads as empty and
    every other pad reads as before; removing a pad that holds nothing
    leaves the builder as it was. *)
Theorem removeSample_spec (this : Builder) (b : SP1200Bank) (p : Z) :
  reachable this ->
  let this' := snd (removeSample b p this) in
  fst (removeSample b p this) = Ok tt /\
  fst (getSample b p this') = Ok None /\
  (forall b' p', (b', p') <> (b, p) ->
                 fst (getSample b' p' this') = fst (getSample b' p' this)) /\
  (fst (getSample b p this) = Ok None -> this' = this).
Proof.
  intros Hr. apply reachable_inv in Hr as [Hnd _]. cbn.
  split; [reflexivity|]. split; [|split].
  - f_equal. now apply Map_get_delete_same.
  - intros b' p' Hne. f_equal. apply Map_get_delete_other.
    intros Hk. apply getPadKey_inj in Hk as [-> ->]. now apply Hne.
  - intros [= H]. now apply Map_delete_absent.
Qed.

(** The statement at a builder that holds A1 and B3: after removing A1,
    A1 is empty and B3 is still there. *)
Lemma removeSample_spec_witness :
  let this := builderOf [padArg "A" 1 "kick" [1; 2];
                         padArg "B" 3 "snare" [3; 4]] in
  fst (getSample A 1 (snd (removeSample A 1 this))) = Ok None /\
  fst (getSample B 3 (snd (removeSample A 1 this)))
  = fst (getSample B 3 this).
Proof.
  intros this.
  destruct (removeSample_spec this A 1 (builderOf_reachable _))
    as (_ & Hsame & Hother & _).
  split; [exact Hsame | apply Hother; discriminate].
Defined.

(** [addSample] followed by [removeSample] of the same pad leaves what
    [removeSample] alone would have left; on a pad that held nothing, the
    builder is back to what it was. *)
Theorem addSample_then_removeSample (this : Builder) (a : PadAssignmentArg)
        (b : SP1200Bank) :
  arg_bank a = bank_letter b -> 1 <= arg_padNumber a <= 8 ->
  let p := arg_padNumber a in
  fst (addSample a this) = Ok tt /\
  snd (removeSample b p (snd (addSample a this)))
  = snd (removeSample b p this) /\
  (fst (getSample b p this) = Ok None ->
   snd (removeSample b p (snd (addSample a this))) = this).
Proof.
  intros Hb Hp p. subst p.
  apply isValidBank_Some in Hb. apply isValidPad_spec in Hp.
  unfold addSample. rewrite Hb, Hp. cbn.
  split; [reflexivity|].
  rewrite Map_delete_set. split; [reflexivity|].
  intros [= H]. now apply Map_delete_absent.
Qed.

Lemma addSample_then_removeSample_witness :
  snd (removeSample B 3
         (snd (addSample (padArg "B" 3 "snare" [3; 4])
                         (builderOf [padArg "A" 1 "kick" [1; 2]]))))
  = builderOf [padArg "A" 1 "kick" [1; 2]].
Proof.
  destruct (addSample_then_removeSample
              (builderOf [padArg "A" 1 "kick" [1; 2]])
              (padArg "B" 3 "snare" [3; 4]) B) as (_ & _ & H).
  - reflexivity.
  - cbn. lia.
  - apply H. reflexivity.
Defined.

(** The pads of the machine: four banks of eight. *)
Lemma padOf_in_pads a :
  1 <= padNumber a <= 8 ->
  In (padOf a) (list_prod [A; B; C; D] [1; 2; 3; 4; 5; 6; 7; 8]).
Proof.
  intros Hp. unfold padOf. apply in_prod.
  - destruct (bank a); cbn; auto.
  - assert (padNumber a = 1 \/ padNumber a = 2 \/ padNumber a = 3 \/
            padNumber a = 4 \/ padNumber a = 5 \/ padNumber a = 6 \/
            padNumber a = 7 \/ padNumber a = 8) as H by lia.
    cbn. intuition auto.
Qed.

Lemma reachable_capacity (this : Builder) :
  reachable this ->
  (length (Map_values this) <= 32)%nat /\
  NoDup (map padOf (Map_values this)) /\
  Forall (fun a => 1 <= padNumber a <= 8) (Map_values this).
Proof.
  intros Hr. apply reachable_inv in Hr as Hinv.
  pose proof (builder_inv_one_per_key _ Hinv) as [_ Hnd].
  destruct Hinv as [_ Hok].
  assert (Hpads : Forall (fun a => 1 <= padNumber a <= 8) (Map_values this)).
  { unfold Map_values. apply Forall_map.
    eapply Forall_impl; [|exact Hok]. now intros kv [_ H]. }
  split; [|split; assumption].
  rewrite <- (length_map padOf).
  change 32%nat
    with (length (list_prod [A; B; C; D] [1; 2; 3; 4; 5; 6; 7; 8])).
  apply NoDup_incl_length; [assumption|].
  intros bp Hin. apply in_map_iff in Hin as (a & <- & Hin).
  apply padOf_in_pads. rewrite Forall_forall in Hpads. auto.
Qed.

(** A builder whose calls all had integer pad numbers never holds more
    than 32 assignments: whatever sequence of such calls produced it,
    [getPadAssignments] returns at most 32 entries, on pairwise different
    pads, each with a pad number from 1 to 8.  The integers are the
    scope of the statement: [isValidPad] compares numbers, so a call of
    [addSample] with pad 1.5 would be stored under a 33rd key, and
    pad numbers are integers in [PadAssignmentArg] as in the callers
    of the class. *)
Theorem builder_capacity (this : Builder) :
  reachable this ->
  exists l,
    fst (getPadAssignments this) = Ok l /\
    (length l <= 32)%nat /\
    NoDup (map padOf l) /\
    Forall (fun a => 1 <= padNumber a <= 8) l.
Proof.
  intros Hr. exists (Map_values this). split; [reflexivity|].
  now apply reachable_capacity.
Qed.

Lemma builder_capacity_witness :
  exists l,
    fst (getPadAssignments
           (builderOf [padArg "A" 1 "kick" [1; 2];
                       padArg "A" 1 "snare" [3; 4]])) = Ok l /\
    (length l <= 32)%nat /\
    NoDup (map padOf l) /\
    Forall (fun a => 1 <= padNumber a <= 8) l.
Proof. apply builder_capacity. apply builderOf_reachable. Defined.

(** Pad entries do not collide: the table slots of two different pads are
    different, and each 32-byte entry lies inside the pad table, which
    ends where the sample data begin at most. *)
Theorem pad_entries_disjoint (b b' : SP1200Bank) (p p' : Z) :
  1 <= p <= 8 -> 1 <= p' <= 8 -> (b, p) <> (b', p') ->
  let entry b p :=
    SP1200_PAD_TABLE_OFFSET + getPadIndex b p * SP1200_PAD_ENTRY_SIZE in
  0 <= getPadIndex b p < SP1200_MAX_PADS /\
  SP1200_PAD_TABLE_OFFSET <= entry b p /\
  entry b p + SP1200_PAD_ENTRY_SIZE <= SP1200_SAMPLE_DATA_OFFSET /\
  (entry b p + SP1200_PAD_ENTRY_SIZE <= entry b' p' \/
   entry b' p' + SP1200_PAD_ENTRY_SIZE <= entry b p).
Proof.
  intros Hp Hp' Hne.
  assert (getPadIndex b p <> getPadIndex b' p').
  { intros E. apply Hne. unfold getPadIndex in E.
    destruct b, b'; cbn [bankOffset] in E;
      first [exfalso; lia | f_equal; lia]. }
  unfold getPadIndex, SP1200_PAD_TABLE_OFFSET, SP1200_PAD_ENTRY_SIZE,
    SP1200_MAX_PADS, SP1200_SAMPLE_DATA_OFFSET in *.
  destruct b, b'; cbn [bankOffset] in *; lia.
Qed.

Lemma pad_entries_disjoint_witness :
  0x800 + getPadIndex A 8 * 32 + 32 <= 0x800 + getPadIndex B 1 * 32 \/
  0x800 + getPadIndex B 1 * 32 + 32 <= 0x800 + getPadIndex A 8 * 32.
Proof.
  destruct (pad_entries_disjoint A B 8 1) as (_ & _ & _ & H);
    [lia | lia | discriminate | exact H].
Defined.

(** A build returns a buffer of exactly 824,576 bytes or throws the
    runtime's [RangeError]; the error of its own size check, "Disk image
    exceeds maximum size", is never thrown, whatever the builder
    holds. *)
Theorem createDiskImage_size_or_RangeError (this : Builder) :
  ((exists buffer, fst (createDiskImage this) = Ok buffer /\
                   byteLength buffer = SP1200_DISK_SIZE) \/
   fst (createDiskImage this) = Throw RangeError) /\
  fst (createDiskImage this) <> Throw CapacityError.
Proof.
  split; [apply createDiskImage_outcome|].
  destruct (createDiskImage_outcome this) as [(b & -> & _)| ->]; discriminate.
Qed.

End BuilderLaws.
(** ** What [parseWavHeader] accepts and how it fails *)

Module WavLaws.
Import SP1200 Number Wav Route Props Terms JSFacts ByteFacts WavFacts.

Lemma jsstring_eqb_eq a b : jsstring_eqb a b = true <-> a = b.
Proof.
  revert b. induction a as [|x a IH]; intros [|y b]; cbn;
    try (split; [discriminate | intros [=]]); [tauto|].
  rewrite andb_true_iff, Z.eqb_eq, IH. split; [intros [-> ->] | intros [= -> ->]]; auto.
Qed.

Lemma fourCharCode_fits view off :
  0 <= off -> off + 4 <= byteLength view ->
  fourCharCode view off
  = Ok [byte view off; byte view (off + 1); byte view (off + 2);
        byte view (off + 3)].
Proof.
  intros H0 H4. unfold fourCharCode, getUint8.
  repeat (replace (in_bounds view _ 1) with true
           by (symmetry; apply in_bounds_spec; lia); cbn [bind]).
  reflexivity.
Qed.

Lemma getUint16_range b off le v :
  getUint16 b off le = Ok v -> 0 <= v < 65536.
Proof.
  unfold getUint16. destruct (in_bounds b off 2); [|discriminate].
  pose proof (byte_range b off). pose proof (byte_range b (off + 1)).
  destruct le; intros E;
    match type of E with Ok ?x = Ok _ => assert (v = x) by congruence end;
    lia.
Qed.

Lemma even_step (o n : Z) :
  Z.even o = true ->
  Z.even (if negb (n mod 2 =? 0) then o + (8 + n) + 1 else o + (8 + n))
  = true.
Proof.
  intros Ho. apply Z.even_spec in Ho as [k ->].
  destruct (Z.eqb_spec (n mod 2) 0) as [E|E]; cbn [negb];
    apply Z.even_spec.
  - exists (k + 4 + n / 2). Z.div_mod_to_equations. lia.
  - exists (k + 4 + (n + 1) / 2). Z.div_mod_to_equations. lia.
Qed.

Lemma scanChunk_inv buffer st st' :
  offset st < byteLength buffer - 8 -> scan_ok buffer st ->
  scanChunk buffer st = Ok st' -> scan_ok buffer st'.
Proof.
  intros Hlt (Ho & He & Hf & Hc & Hr & Hb & Hl & Hd) H.
  unfold scanChunk in H.
  apply bind_Ok in H as (chunkId & _ & H).
  apply bind_Ok in H as (chunkSize & Hsize & H).
  apply bind_Ok in H as (st1 & Hst1 & H).
  apply getUint32_range in Hsize.
  assert (H1 : offset st1 = offset st /\
               0 <= st_audioFormat st1 < 65536 /\
               0 <= st_channels st1 < 65536 /\
               0 <= st_sampleRate st1 < 4294967296 /\
               0 <= st_bitsPerSample st1 < 65536 /\
               0 <= st_dataLength st1 < 4294967296 /\
               (st_dataOffset st1 = 0 \/
                (20 <= st_dataOffset st1 < byteLength buffer /\
                 Z.even (st_dataOffset st1) = true))).
  { destruct (jsstring_eqb chunkId (str "fmt ")).
    - apply bind_Ok in Hst1 as (af & Haf & Hst1).
      apply bind_Ok in Hst1 as (ch & Hch & Hst1).
      apply bind_Ok in Hst1 as (sr & Hsr & Hst1).
      apply bind_Ok in Hst1 as (bits & Hbits & Hst1).
      apply Ok_inj in Hst1. subst st1. cbn.
      apply getUint16_range in Haf, Hch. apply getUint32_range in Hsr.
      assert (0 <= bits < 65536).
      { destruct (_ <=? _); [now apply getUint16_range in Hbits|].
        apply Ok_inj in Hbits. lia. }
      tauto.
    - destruct (jsstring_eqb chunkId (str "data")).
      + apply Ok_inj in Hst1. subst st1. cbn.
        split; [reflexivity|].
        repeat (split; [assumption || lia|]). right. split; [lia|].
        apply Z.even_spec in He as [k Hk]. apply Z.even_spec.
        exists (k + 4). lia.
      + apply Ok_inj in Hst1. subst st1. tauto. }
  destruct H1 as (Ho1 & Hf1 & Hc1 & Hr1 & Hb1 & Hl1 & Hd1).
  apply Ok_inj in H. subst st'. unfold scan_ok.
  cbn [offset st_audioFormat st_channels st_sampleRate st_bitsPerSample
       st_dataOffset st_dataLength].
  rewrite Ho1. split.
  - destruct (negb _); lia.
  - split; [now apply even_step | tauto].
Qed.

Lemma scanChunks_inv fuel buffer : forall st st',
  scan_ok buffer st -> scanChunks fuel buffer st = Some (Ok st') ->
  scan_ok buffer st'.
Proof.
  induction fuel as [|fuel IH]; intros st st' Hinv; cbn [scanChunks];
    destruct (Z.ltb_spec (offset st) (byteLength buffer - 8)) as [Hlt|Hge];
    try discriminate; try (intros [= <-]; assumption).
  destruct (scanChunk buffer st) as [st1|e] eqn:E; [|discriminate].
  apply IH. eapply scanChunk_inv; eauto.
Qed.

(** [parseWavHeader] fails with one of its own six errors and with
    nothing else: a read past the end of the buffer inside the chunk loop
    surfaces as "error parsing header", never as [RangeError].  The
    chunk loop itself always ends, within the fuel the definition gives
    it. *)
Theorem parseWavHeader_errors (buffer : ArrayBuffer) (e : exn) :
  parseWavHeader buffer = Throw e ->
  scanChunks (Z.to_nat (byteLength buffer)) buffer scanStart <> None /\
  exists message, e = Error message /\ In message parseWavHeader_messages.
Proof.
  intros H. split; [apply parseWavHeader_fuel|]. revert H.
  unfold parseWavHeader, parseWavHeader_messages.
  destruct (Z.ltb_spec (byteLength buffer) 44) as [Hs|Hs].
  { intros [= <-]. eexists. split; [reflexivity|]. cbn. auto. }
  rewrite fourCharCode_fits by lia. cbn [bind].
  destruct (negb _).
  { intros [= <-]. eexists. split; [reflexivity|]. cbn. auto. }
  rewrite fourCharCode_fits by lia. cbn [bind].
  destruct (negb _).
  { intros [= <-]. eexists. split; [reflexivity|]. cbn. auto. }
  destruct (scanChunks _ _ _) as [[st|e']|].
  - destruct (negb _).
    { intros [= <-]. eexists. split; [reflexivity|]. cbn. auto 7. }
    destruct (_ =? _); [|discriminate].
    intros [= <-]. eexists. split; [reflexivity|]. cbn. auto 7.
  - intros [= <-]. eexists. split; [reflexivity|]. cbn. auto 7.
  - intros [= <-]. eexists. split; [reflexivity|]. cbn. auto 7.
Qed.

(** The statement at a buffer of 44 bytes whose chunk loop is entered
    and fails: after "RIFF", four bytes and "WAVE" comes a chunk "junk"
    of 14 bytes, then at offset 34 a chunk "fmt " whose fields start at
    offset 42, two bytes before the end of the buffer.  The read of the
    channel count at offset 44 leaves the buffer, and what is thrown is
    "error parsing header". *)
Lemma parseWavHeader_errors_witness :
  parseWavHeader Terms.cutShortFmt
  = Throw (Error "Invalid WAV: error parsing header") /\
  scanChunks (Z.to_nat (byteLength Terms.cutShortFmt)) Terms.cutShortFmt
             scanStart
  = Some (Throw RangeError) /\
  In "Invalid WAV: error parsing header"%string parseWavHeader_messages.
Proof.
  assert (Hthrow : parseWavHeader Terms.cutShortFmt
                   = Throw (Error "Invalid WAV: error parsing header"))
    by (vm_compute; reflexivity).
  split; [exact Hthrow|]. split; [vm_compute; reflexivity|].
  destruct (parseWavHeader_errors Terms.cutShortFmt _ Hthrow)
    as (_ & message & Hm & Hin).
  injection Hm as <-. exact Hin.
Defined.

(** What an accepted buffer looks like and what the descriptor holds:
    the buffer has 44 bytes or more and starts with "RIFF", four bytes,
    "WAVE"; the format, channel count and depth are 16-bit values, the
    rate and the data length 32-bit values; the data offset is even and
    lies inside the buffer, 20 bytes or more from its start.  The data
    length is the chunk's own size field: nothing relates it to the
    buffer. *)
Theorem parseWavHeader_accepts (buffer : ArrayBuffer) (wav : WavHeader) :
  parseWavHeader buffer = Ok wav ->
  44 <= byteLength buffer /\
  map (byte buffer) [0; 1; 2; 3] = str "RIFF" /\
  map (byte buffer) [8; 9; 10; 11] = str "WAVE" /\
  0 <= audioFormat wav < 65536 /\ 0 <= channels wav < 65536 /\
  0 <= sampleRate wav < 4294967296 /\ 0 <= bitsPerSample wav < 65536 /\
  0 <= dataLength wav < 4294967296 /\
  20 <= dataOffset wav < byteLength buffer /\
  Z.even (dataOffset wav) = true.
Proof.
  unfold parseWavHeader.
  destruct (Z.ltb_spec (byteLength buffer) 44) as [Hs|Hs]; [discriminate|].
  rewrite fourCharCode_fits by lia. cbn [bind].
  destruct (jsstring_eqb _ (str "RIFF")) eqn:Hriff; [|discriminate].
  cbn [negb]. rewrite fourCharCode_fits by lia. cbn [bind].
  destruct (jsstring_eqb _ (str "WAVE")) eqn:Hwave; [|discriminate].
  cbn [negb].
  apply jsstring_eqb_eq in Hriff, Hwave.
  destruct (scanChunks _ _ _) as [[st|e']|] eqn:Hscan; try discriminate.
  apply scanChunks_inv in Hscan.
  2:{ unfold scan_ok. cbn. repeat split; lia. }
  destruct Hscan as (Ho & He & Hf & Hc & Hr & Hb & Hl & Hd).
  destruct (negb (foundFmt st)); [discriminate|].
  destruct (Z.eqb_spec (st_dataOffset st) 0) as [E|E]; [discriminate|].
  intros H. apply Ok_inj in H. subst wav. cbn.
  destruct Hd as [Hd|[Hd1 Hd2]]; [contradiction|].
  repeat split; assumption || lia.
Qed.

(** The statement at a generated file: 100 bytes of 8-bit silence at
    8000 Hz behind the 44-byte header. *)
Lemma parseWavHeader_accepts_witness :
  match parseWavHeader Terms.silence8000 with
  | Ok wav =>
      20 <= dataOffset wav < byteLength Terms.silence8000 /\
      Z.even (dataOffset wav) = true
  | Throw _ => False
  end.
Proof.
  destruct (parseWavHeader Terms.silence8000) as [wav|e] eqn:E;
    [|vm_compute in E; discriminate E].
  destruct (parseWavHeader_accepts _ wav E)
    as (_ & _ & _ & _ & _ & _ & _ & _ & Ho & He).
  split; assumption.
Defined.

End WavLaws.
(** ** A header written by [createWavHeader], read by [parseWavHeader] *)

Module WavRoundTrip.
Import SP1200 Number Wav Route Props Terms JSFacts ByteFacts WavFacts WavLaws.

(** The header is always written; its fields. *)
Lemma createWavHeader_Ok d r bits :
  exists h,
    createWavHeader d r bits = Ok h /\ byteLength h = 44 /\
    map (byte h) [0; 1; 2; 3] = str "RIFF" /\
    map (byte h) [8; 9; 10; 11] = str "WAVE" /\
    map (byte h) [12; 13; 14; 15] = str "fmt " /\
    map (byte h) [36; 37; 38; 39] = str "data" /\
    byte h 16 + 256 * byte h 17 + 65536 * byte h 18
    + 16777216 * byte h 19 = 16 /\
    byte h 20 + 256 * byte h 21 = 1 /\
    byte h 22 + 256 * byte h 23 = 1 /\
    byte h 24 + 256 * byte h 25 + 65536 * byte h 26
    + 16777216 * byte h 27 = r mod 4294967296 /\
    byte h 34 + 256 * byte h 35 = bits mod 65536 /\
    byte h 40 + 256 * byte h 41 + 65536 * byte h 42
    + 16777216 * byte h 43 = d mod 4294967296.
Proof.
  eexists. split.
  - cbv [createWavHeader setUint8 setUint16 setUint32 bind
         in_bounds alloc byteLength andb Z.leb Z.add Z.mul Z.compare
         Pos.compare Pos.compare_cont Pos.add Pos.succ Pos.mul Pos.add_carry].
    reflexivity.
  - split; [reflexivity|].
    cbv [map byte byteAt store Z.eqb Pos.eqb].
    repeat (split; [reflexivity|]).
    split; [apply uint32_bytes; apply Z.mod_pos_bound; lia|].
    split.
    + assert (0 <= bits mod 65536 < 65536) by (apply Z.mod_pos_bound; lia).
      Z.div_mod_to_equations. lia.
    + apply uint32_bytes. apply Z.mod_pos_bound. lia.
Qed.

(** Sums of two literal offsets, computed. *)
Ltac norm_offsets :=
  repeat match goal with
         | |- context [Z.pos ?a + Z.pos ?b] =>
             let v := eval vm_compute in (Z.pos a + Z.pos b) in
             change (Z.pos a + Z.pos b) with v
         | |- context [0 + Z.pos ?b] => change (0 + Z.pos b) with (Z.pos b)
         end.

Lemma wavFile_length h data :
  0 <= byteLength h ->
  byteLength (wavFile (Ok h) data)
  = byteLength h + Z.of_nat (length data).
Proof.
  intros H. unfold wavFile, of_bytes. cbn [byteLength].
  rewrite length_app, SndFacts.length_bytes_of. lia.
Qed.

Lemma wavFile_header_byte h data i :
  0 <= i < byteLength h -> byte (wavFile (Ok h) data) i = byte h i.
Proof.
  intros Hi. unfold wavFile, of_bytes, byte at 1. cbn [byteAt].
  replace (i <? 0) with false by (symmetry; apply Z.ltb_ge; lia).
  rewrite SndFacts.nth_bytes_of by lia.
  rewrite Z2Nat.id by lia. unfold byte. apply Z.mod_mod. lia.
Qed.

Lemma scanChunks_step fuel buffer st st' :
  offset st < byteLength buffer - 8 -> scanChunk buffer st = Ok st' ->
  scanChunks (S fuel) buffer st = scanChunks fuel buffer st'.
Proof.
  intros Hlt E. cbn [scanChunks].
  replace (offset st <? byteLength buffer - 8) with true
    by (symmetry; apply Z.ltb_lt; lia).
  now rewrite E.
Qed.

Lemma scanChunks_stop fuel buffer st :
  byteLength buffer - 8 <= offset st ->
  scanChunks fuel buffer st = Some (Ok st).
Proof.
  intros Hge. destruct fuel; cbn [scanChunks];
    now replace (offset st <? byteLength buffer - 8) with false
      by (symmetry; apply Z.ltb_ge; lia).
Qed.

(** A file made of the header [createWavHeader] writes for [d] data
    bytes and of those [d] bytes, [d] being 1 or more, is read back by
    [parseWavHeader] as PCM, mono, with the rate and depth given, the
    data at offset 44 and [d] bytes long. *)
Theorem parseWavHeader_createWavHeader (data : list Z) (r bits : Z) :
  let d := Z.of_nat (length data) in
  1 <= d < 4294967296 -> 0 <= r < 4294967296 -> 0 <= bits < 65536 ->
  parseWavHeader (wavFile (createWavHeader d r bits) data)
  = Ok {| audioFormat := 1; channels := 1; sampleRate := r;
          bitsPerSample := bits; dataOffset := 44; dataLength := d |}.
Proof.
  intros d Hd Hr Hbits.
  destruct (createWavHeader_Ok d r bits)
    as (h & -> & Hlen & Friff & Fwave & Ffmt & Fdata & F16 & Faf & Fch
        & Fr & Fbits & Fd).
  pose proof (wavFile_length h data ltac:(lia)) as Hfl.
  assert (Hb : forall i, 0 <= i < 44 ->
               byte h i = byte (wavFile (Ok h) data) i).
  { intros i Hi. symmetry. apply wavFile_header_byte. lia. }
  fold d in Hfl. rewrite Hlen in Hfl.
  cbn [map] in Friff, Fwave, Ffmt, Fdata.
  repeat match goal with
         | H : context [byte h ?i] |- _ => rewrite (Hb i) in H by lia
         end.
  rewrite Z.mod_small in Fr, Fbits, Fd by lia.
  set (file := wavFile (Ok h) data) in *. clearbody file. clear Hb.
  unfold parseWavHeader. rewrite Hfl.
  replace (44 + d <? 44) with false by (symmetry; apply Z.ltb_ge; lia).
  rewrite fourCharCode_fits by lia. cbn [bind]; norm_offsets.
  rewrite Friff. change (negb (jsstring_eqb (str "RIFF") (str "RIFF"))) with false.
  cbv iota.
  rewrite fourCharCode_fits by lia. cbn [bind]; norm_offsets.
  rewrite Fwave. change (negb (jsstring_eqb (str "WAVE") (str "WAVE"))) with false.
  cbv iota.
  replace (Z.to_nat (44 + d)) with (S (S (Z.to_nat (42 + d)))) by lia.
  (* the fmt chunk *)
  rewrite (scanChunks_step _ _ _
             {| offset := 36; foundFmt := true; st_audioFormat := 1;
                st_channels := 1; st_sampleRate := r;
                st_bitsPerSample := bits; st_dataOffset := 0;
                st_dataLength := 0 |}).
  2:{ cbn [offset scanStart]. lia. }
  2:{ unfold scanChunk. cbn [offset scanStart].
      rewrite fourCharCode_fits by lia. cbn [bind]; norm_offsets.
      rewrite Ffmt.
      rewrite getUint32_le_fits by lia. cbn [bind]; norm_offsets.
      rewrite F16.
      change (jsstring_eqb (str "fmt ") (str "fmt ")) with true. cbv iota.
      rewrite getUint16_le_fits by lia. cbn [bind]; norm_offsets.
      rewrite Faf.
      rewrite getUint16_le_fits by lia. cbn [bind]; norm_offsets.
      rewrite Fch.
      rewrite getUint32_le_fits by lia. cbn [bind]; norm_offsets.
      rewrite Fr.
      replace (36 <=? byteLength file) with true
        by (symmetry; apply Z.leb_le; lia).
      rewrite getUint16_le_fits by lia. cbn [bind]; norm_offsets.
      rewrite Fbits. reflexivity. }
  (* the data chunk *)
  rewrite (scanChunks_step _ _ _
             {| offset := if negb (d mod 2 =? 0) then 36 + (8 + d) + 1
                          else 36 + (8 + d);
                foundFmt := true; st_audioFormat := 1;
                st_channels := 1; st_sampleRate := r;
                st_bitsPerSample := bits; st_dataOffset := 44;
                st_dataLength := d |}).
  2:{ cbn [offset]. lia. }
  2:{ unfold scanChunk. cbn [offset].
      rewrite fourCharCode_fits by lia. cbn [bind]; norm_offsets.
      rewrite Fdata.
      rewrite getUint32_le_fits by lia. cbn [bind]; norm_offsets.
      rewrite Fd.
      change (jsstring_eqb (str "data") (str "fmt ")) with false.
      change (jsstring_eqb (str "data") (str "data")) with true. cbv iota.
      reflexivity. }
  rewrite scanChunks_stop by (cbn [offset]; destruct (negb _); lia).
  reflexivity.
Qed.

Lemma parseWavHeader_createWavHeader_witness :
  parseWavHeader (wavFile (createWavHeader 2 26040 16) [1; 2])
  = Ok {| audioFormat := 1; channels := 1; sampleRate := 26040;
          bitsPerSample := 16; dataOffset := 44; dataLength := 2 |}.
Proof.
  apply (parseWavHeader_createWavHeader [1; 2] 26040 16); cbn; lia.
Defined.


(** The same file with no data bytes is rejected: the chunk loop stops
    8 bytes before the end of the buffer, which is where the header of
    the empty data chunk starts, so the chunk is never seen. *)
Theorem parseWavHeader_empty_data (r bits : Z) :
  parseWavHeader (wavFile (createWavHeader 0 r bits) [])
  = Throw (Error "Invalid WAV: data chunk not found").
Proof.
  destruct (createWavHeader_Ok 0 r bits)
    as (h & -> & Hlen & Friff & Fwave & Ffmt & Fdata & F16 & Faf & Fch
        & Fr & Fbits & Fd).
  pose proof (wavFile_length h [] ltac:(lia)) as Hfl.
  assert (Hb : forall i, 0 <= i < 44 ->
               byte h i = byte (wavFile (Ok h) []) i).
  { intros i Hi. symmetry. apply wavFile_header_byte. lia. }
  rewrite Hlen in Hfl. cbn [length Z.of_nat] in Hfl.
  cbn [map] in Friff, Fwave, Ffmt, Fdata.
  repeat match goal with
         | H : context [byte h ?i] |- _ => rewrite (Hb i) in H by lia
         end.
  set (file := wavFile (Ok h) []) in *. clearbody file. clear Hb.
  unfold parseWavHeader. rewrite Hfl.
  change (44 + 0 <? 44) with false. cbv iota.
  rewrite fourCharCode_fits by lia. cbn [bind]; norm_offsets.
  rewrite Friff. change (negb (jsstring_eqb (str "RIFF") (str "RIFF"))) with false.
  cbv iota.
  rewrite fourCharCode_fits by lia. cbn [bind]; norm_offsets.
  rewrite Fwave. change (negb (jsstring_eqb (str "WAVE") (str "WAVE"))) with false.
  cbv iota.
  change (Z.to_nat (44 + 0)) with (S 43).
  rewrite (scanChunks_step _ _ _
             {| offset := 36; foundFmt := true;
                st_audioFormat := 1; st_channels := 1;
                st_sampleRate := r mod 4294967296;
                st_bitsPerSample := bits mod 65536; st_dataOffset := 0;
                st_dataLength := 0 |}).
  2:{ cbn [offset scanStart]. lia. }
  2:{ unfold scanChunk. cbn [offset scanStart].
      rewrite fourCharCode_fits by lia. cbn [bind]; norm_offsets.
      rewrite Ffmt.
      rewrite getUint32_le_fits by lia. cbn [bind]; norm_offsets.
      rewrite F16.
      change (jsstring_eqb (str "fmt ") (str "fmt ")) with true. cbv iota.
      rewrite getUint16_le_fits by lia. cbn [bind]; norm_offsets.
      rewrite Faf.
      rewrite getUint16_le_fits by lia. cbn [bind]; norm_offsets.
      rewrite Fch.
      rewrite getUint32_le_fits by lia. cbn [bind]; norm_offsets.
      rewrite Fr.
      replace (36 <=? byteLength file) with true
        by (symmetry; apply Z.leb_le; lia).
      rewrite getUint16_le_fits by lia. cbn [bind]; norm_offsets.
      rewrite Fbits. reflexivity. }
  rewrite scanChunks_stop by (cbn [offset]; lia).
  reflexivity.
Qed.

End WavRoundTrip.
(** ** What the conversion returns *)

Module ConversionLaws.
Import SP1200 Number Wav Route Props Terms JSFacts ByteFacts WavFacts
       ConvertFacts.

(** *** Reading a frame that is not wholly inside the buffer *)

(** [getSample] never throws.  For an accepted depth and channel count,
    a frame that starts before the buffer or ends after it reads as 0:
    the left channel may be there, the value is 0 all the same. *)
Theorem getSample_outside (index : Z) (view : ArrayBuffer) (wav : WavHeader) :
  bitsPerSample wav = 8 \/ bitsPerSample wav = 16 \/ bitsPerSample wav = 24 ->
  channels wav = 1 \/ channels wav = 2 ->
  let bytesPerSample := bitsPerSample wav / 8 in
  let sampleOffset :=
    dataOffset wav + index * bytesPerSample * channels wav in
  sampleOffset < 0 \/
  byteLength view < sampleOffset + bytesPerSample * channels wav ->
  getSample index view wav = of_Z 0.
Proof.
  intros Hb Hc bps off Hout. unfold getSample. fold bps. fold off.
  destruct (off >=? byteLength view); [reflexivity|].
  unfold readSample, getInt16, getUint16, getUint8.
  destruct Hb as [Hb|[Hb|Hb]]; destruct Hc as [Hc|Hc];
    subst bps; rewrite Hb, Hc in *; cbn [Z.eqb Pos.eqb] in *;
    repeat match goal with
           | |- context [in_bounds ?b ?o ?s] =>
               let E := fresh "E" in
               destruct (in_bounds b o s) eqn:E; cbn [bind];
               [apply in_bounds_spec in E | try reflexivity]
           end;
    exfalso; change (8 / 8) with 1 in *; change (16 / 8) with 2 in *;
    change (24 / 8) with 3 in *; lia.
Qed.

Lemma getSample_outside_witness :
  getSample 0 (alloc 3)
    {| audioFormat := 1; channels := 2; sampleRate := 44100;
       bitsPerSample := 16; dataOffset := 0; dataLength := 4 |}
  = of_Z 0.
Proof.
  apply getSample_outside; cbn; auto. right. lia.
Defined.


(** *** The 12-bit words *)

Lemma bitand_0x0FFF x : 0 <= bitand x 0x0FFF <= 4095.
Proof.
  unfold bitand. change (JS.ToInt32 4095) with (Z.ones 12).
  rewrite Z.land_ones by lia.
  assert (0 <= JS.ToInt32 x mod 2 ^ 12 < 2 ^ 12)
    by (apply Z.mod_pos_bound; lia).
  change (2 ^ 12) with 4096 in *.
  rewrite ToInt32_small; lia.
Qed.

Lemma sample12bit_range sample factor : 0 <= sample12bit sample factor <= 4095.
Proof. apply bitand_0x0FFF. Qed.

(** *** The cap on the number of output samples *)

Lemma digits2_pos_bound m : Z.pos m < 2 ^ Z.pos (digits2_pos m).
Proof.
  induction m as [m IH|m IH|]; cbn [digits2_pos];
    rewrite ?Pos2Z.inj_succ, ?Z.pow_succ_r by lia; lia.
Qed.

Lemma valid_mantissa_bound s m e :
  valid_binary (S754_finite s m e) = true -> Z.pos m < 2 ^ 53.
Proof.
  cbn [SpecFloat.valid_binary]. unfold bounded, canonical_mantissa, fexp.
  intros H. apply andb_true_iff in H as [H _]. apply Z.eqb_eq in H.
  pose proof (digits2_pos_bound m) as Hd.
  assert (Z.pos (digits2_pos m) <= 53) by (unfold prec in H; lia).
  eapply Z.lt_le_trans; [exact Hd|].
  apply Z.pow_le_mono_r; lia.
Qed.

Lemma maxSamples_value : Prim2SF maxSamples
                         = S754_finite false 8947275871027200 (-37).
Proof. vm_compute. reflexivity. Qed.

(** The integer part of a number below 65100 is at most 65100. *)
Lemma integer_below_maxSamples x :
  PrimFloat.ltb x maxSamples = true -> integer_of_number x <= 65100.
Proof.
  rewrite FloatAxioms.ltb_spec, maxSamples_value. unfold integer_of_number, truncate.
  pose proof (Prim2SF_valid x) as Hv.
  destruct (Prim2SF x) as [s|s| |s m e]; try (intros _; lia).
  apply valid_mantissa_bound in Hv.
  unfold SFltb, SFcompare.
  destruct s.
  - intros _. destruct (Z.leb_spec 0 e).
    + assert (0 < 2 ^ e) by (apply Z.pow_pos_nonneg; lia). nia.
    + assert (0 < 2 ^ (- e)) by (apply Z.pow_pos_nonneg; lia).
      pose proof (Z.quot_opp_l (Z.pos m) (2 ^ (- e)) ltac:(lia)) as Hq.
      change (- Z.pos m) with (Z.neg m) in Hq. rewrite Hq.
      pose proof (Z.quot_pos (Z.pos m) (2 ^ (- e)) ltac:(lia) ltac:(lia)).
      lia.
  - destruct (Z.compare_spec e (-37)) as [->|He|He]; try discriminate.
    + intros Hm.
      assert (Hlt : Z.pos m < 8947275871027200).
      { unfold Z.lt. cbn [Z.compare]. unfold Pos.compare.
        destruct (Pos.compare_cont Eq m 8947275871027200);
          congruence. }
      clear Hm.
      change (0 <=? -37) with false. cbv iota.
      change (2 ^ (- -37)) with 137438953472.
      rewrite Z.quot_div_nonneg by lia.
      apply Z.lt_succ_r. apply Z.div_lt_upper_bound; [lia|].
      change (137438953472 * Z.succ 65100) with 8947413309980672. lia.
    + intros _.
      replace (0 <=? e) with false by (symmetry; apply Z.leb_gt; lia).
      rewrite Z.quot_div_nonneg
        by (try apply Z.lt_le_incl; try apply Z.pow_pos_nonneg; lia).
      apply Z.lt_succ_r. apply Z.div_lt_upper_bound.
      * apply Z.pow_pos_nonneg; lia.
      * assert (2 ^ 38 <= 2 ^ (- e)) by (apply Z.pow_le_mono_r; lia).
        change (2 ^ 38) with 274877906944 in *.
        change (2 ^ 53) with 9007199254740992 in *. nia.
Qed.

Lemma numOutputSamples_cap pow_approx wav tuning :
  integer_of_number (numOutputSamples pow_approx wav tuning) <= 65100.
Proof.
  unfold numOutputSamples. set (x := Math_floor _). clearbody x.
  unfold Math_min.
  destruct (isNaN x || isNaN maxSamples); [vm_compute; discriminate|].
  destruct (PrimFloat.ltb x maxSamples) eqn:Hlt;
    [now apply integer_below_maxSamples|].
  destruct (PrimFloat.ltb maxSamples x); [vm_compute; discriminate|].
  unfold is_negative_zero, integer_of_number, truncate.
  destruct (Prim2SF x) as [[|]|s| |s m e] eqn:Hx; try (vm_compute; discriminate).
  rewrite Hx. lia.
Qed.


(** *** The shape of the output *)

Section Shape.
Variable pow_approx : number -> number -> number.

(** Whatever the file and the tuning, a conversion that returns gives
    whole 256-byte blocks, 509 of them at most (130,304 bytes): the
    number [n] of output samples is between 0 and 65100, the first [n]
    little-endian words are 12-bit values and every word after them,
    up to the end of the last block, is the end marker 0x8000. *)
Theorem convert_output_shape (wavBuffer : ArrayBuffer) (tuning : Z)
        (output : ArrayBuffer) :
  convertWavToSP1200Format pow_approx wavBuffer tuning = Ok output ->
  exists wav n,
    parseWavHeader wavBuffer = Ok wav /\
    isValid (validateWavFormat wav) = true /\
    n = integer_of_number (numOutputSamples pow_approx wav tuning) /\
    0 <= n <= 65100 /\
    byteLength output = SP1200_BLOCK_SIZE * ((2 * n + 255) / 256) /\
    byteLength output <= 130304 /\
    (forall i, 0 <= i < n ->
               exists w, getUint16 output (2 * i) true = Ok w /\
                         0 <= w <= 4095) /\
    (forall i, n <= i -> 2 * i < byteLength output ->
               getUint16 output (2 * i) true = Ok SP1200_END_MARKER).
Proof.
  unfold convertWavToSP1200Format. intros H.
  destruct (parseWavHeader wavBuffer) as [wav|e]; [|discriminate].
  cbn [bind] in H.
  destruct (isValid (validateWavFormat wav)) eqn:Hvalid; [|discriminate].
  cbn [negb] in H. cbv zeta in H.
  pose proof (numOutputSamples_cap pow_approx wav tuning) as Hcap.
  set (n := integer_of_number (numOutputSamples pow_approx wav tuning)) in *.
  unfold SP1200_BLOCK_SIZE in *.
  set (ob := - (- (n * 2) / 256) * 256) in *.
  destruct (_ || _) eqn:Hthrow; [discriminate|].
  apply orb_false_iff in Hthrow as [_ Hob]. apply Z.ltb_ge in Hob.
  exists wav, n. split; [reflexivity|]. split; [exact Hvalid|].
  split; [reflexivity|].
  destruct (Z_lt_le_dec n 0) as [Hneg|Hpos].
  { (* a negative count: the marker loop starts before the buffer *)
    exfalso. replace (Z.to_nat n) with 0%nat in H by lia.
    cbn [forRange bind] in H.
    assert (Hc : 1 <= (ob - n * 2 + 1) / 2)
      by (apply Z.div_le_lower_bound; lia).
    destruct (Z.to_nat ((ob - n * 2 + 1) / 2)) as [|k] eqn:Hk; [lia|].
    cbn [forRange] in H. unfold setUint16 at 1 in H.
    replace (in_bounds (alloc ob) (n * 2) 2) with false in H
      by (symmetry; unfold in_bounds; apply andb_false_iff; left;
          apply Z.leb_gt; lia).
    discriminate. }
  assert (Hob' : ob = 256 * ((2 * n + 255) / 256))
    by (subst ob; Z.div_mod_to_equations; lia).
  assert (Hfit : 2 * n <= ob < 2 * n + 256)
    by (rewrite Hob'; Z.div_mod_to_equations; lia).
  destruct (forRange_words (fun i => i * 2)
              (fun i => sample12bit
                 (element
                    (map (fun i => getSample (Z.of_nat i) wavBuffer wav)
                         (seq 0 (Z.to_nat
                            (integer_of_number
                               (numInputSamples wav)))))
                    (Math_min (inputIndex pow_approx wav tuning i)
                              (numInputSamples wav - of_Z 1)%float))
                 (if PrimFloat.ltb (of_Z 0)
                       (fold_left Math_max
                          (map Math_abs
                             (map (fun i => getSample (Z.of_nat i)
                                              wavBuffer wav)
                                (seq 0 (Z.to_nat
                                   (integer_of_number
                                      (numInputSamples wav))))))
                          neg_infinity)
                  then (of_Z 4095
                        / fold_left Math_max
                            (map Math_abs
                               (map (fun i => getSample (Z.of_nat i)
                                                wavBuffer wav)
                                  (seq 0 (Z.to_nat
                                     (integer_of_number
                                        (numInputSamples wav))))))
                            neg_infinity)%float
                  else of_Z 1))
              1 ltac:(intros; cbv beta; lia) (Z.to_nat n) (alloc ob) 0)
    as (out1 & Hrun1 & Hlen1 & Hwords1 & _).
  { lia. }
  { cbn [byteLength alloc]. lia. }
  apply bind_Ok in H as (o1 & E1 & H).
  assert (o1 = out1) by (apply Ok_inj; rewrite <- E1; exact Hrun1).
  subst o1. clear E1.
  destruct (forRange_words (fun i => i) (fun _ => SP1200_END_MARKER)
              2 ltac:(intros; cbv beta; lia)
              (Z.to_nat ((ob - n * 2 + 1) / 2)) out1 (n * 2))
    as (out2 & Hrun2 & Hlen2 & Hwords2 & Hframe2).
  { lia. }
  { rewrite Hlen1. cbn [byteLength alloc].
    rewrite Z2Nat.id by (apply Z.div_pos; lia).
    Z.div_mod_to_equations. lia. }
  assert (output = out2) by (apply Ok_inj; rewrite <- H; exact Hrun2).
  subst output. clear H.
  rewrite Hlen2, Hlen1. cbn [byteLength alloc].
  split; [lia|]. split; [exact Hob'|]. split.
  { rewrite Hob'.
    assert ((2 * n + 255) / 256 <= 509)
      by (apply Z.lt_succ_r; apply Z.div_lt_upper_bound; lia).
    lia. }
  split.
  - intros i Hi.
    rewrite (getUint16_ext out1) by (rewrite ?Hframe2 by lia; auto).
    specialize (Hwords1 i ltac:(lia)).
    replace (0 * 2 + 2 * i) with (2 * i) in Hwords1 by lia.
    rewrite Hwords1. eexists. split; [reflexivity|].
    match goal with |- 0 <= sample12bit ?s ?f mod _ <= _ =>
      pose proof (sample12bit_range s f) as Hr end.
    rewrite Z.mod_small; lia.
  - intros i Hi Hlt.
    assert (Hcount : 0 <= (ob - n * 2 + 1) / 2)
      by (apply Z.div_pos; lia).
    specialize (Hwords2 (i - n)).
    rewrite Z2Nat.id in Hwords2 by assumption.
    replace (n * 2 + 2 * (i - n)) with (2 * i) in Hwords2 by lia.
    apply Hwords2. split; [lia|].
    Z.div_mod_to_equations. lia.
Qed.
End Shape.

(** The theorem at 100 samples of 8-bit silence at 8000 Hz, which give
    325 output samples in three blocks. *)
Lemma convert_output_shape_witness :
  exists output,
    convertWavToSP1200Format (fun _ _ => NaN) silence8000 0 = Ok output /\
    byteLength output = 768 /\
    getUint16 output 0 true = Ok 2048 /\
    getUint16 output 650 true = Ok SP1200_END_MARKER.
Proof.
  assert (E : exists output,
             convertWavToSP1200Format (fun _ _ => NaN) silence8000 0
             = Ok output /\
             getUint16 output 0 true = Ok 2048)
    by (vm_compute; eexists; split; reflexivity).
  destruct E as (output & E & Hw). exists output.
  destruct (convert_output_shape _ _ _ _ E)
    as (wav & n & Hparse & _ & Hn & _ & Hlen & _ & _ & Hmark).
  assert (Hwav : parseWavHeader silence8000
                 = Ok {| audioFormat := 1; channels := 1; sampleRate := 8000;
                         bitsPerSample := 8; dataOffset := 44;
                         dataLength := 100 |})
    by (vm_compute; reflexivity).
  rewrite Hwav in Hparse. apply Ok_inj in Hparse. subst wav.
  assert (Hn' : n = 325) by (rewrite Hn; vm_compute; reflexivity).
  subst n. rewrite Hn' in *.
  split; [exact E|]. split; [exact Hlen|]. split; [exact Hw|].
  apply (Hmark 325); [lia | rewrite Hlen; cbn; lia].
Defined.

End ConversionLaws.
(** ** The layout of a built image *)

Module ImageLayout.
Import SP1200 Props Terms JSFacts BuilderFacts ByteFacts WavFacts
       BuilderLaws.

(** *** Reads depend on the bytes they cover *)

Lemma byte_ext b b' j : byteAt b' j = byteAt b j -> byte b' j = byte b j.
Proof. unfold byte. now intros ->. Qed.

Lemma getUint8_ext b b' off :
  byteLength b' = byteLength b -> byteAt b' off = byteAt b off ->
  getUint8 b' off = getUint8 b off.
Proof. intros Hl H. unfold getUint8, in_bounds, byte. now rewrite Hl, H. Qed.

Lemma getUint32_ext b b' off le :
  byteLength b' = byteLength b ->
  (forall j, off <= j < off + 4 -> byteAt b' j = byteAt b j) ->
  getUint32 b' off le = getUint32 b off le.
Proof.
  intros Hl H. unfold getUint32, in_bounds, byte.
  rewrite Hl, !H by lia. reflexivity.
Qed.

Lemma readName_ext b b' n : forall off,
  byteLength b' = byteLength b ->
  (forall j, off <= j < off + Z.of_nat n -> byteAt b' j = byteAt b j) ->
  readName b' off n = readName b off n.
Proof.
  induction n as [|n IH]; intros off Hl H; [reflexivity|].
  cbn [readName]. rewrite (getUint8_ext b b') by (auto; apply H; lia).
  destruct (getUint8 b off) as [c|e]; cbn [bind]; [|reflexivity].
  destruct (c =? 0); [reflexivity|].
  rewrite IH; auto. intros j Hj. apply H. lia.
Qed.

Lemma readBytes_ext b b' n : forall off,
  byteLength b' = byteLength b ->
  (forall j, off <= j < off + Z.of_nat n -> byteAt b' j = byteAt b j) ->
  readBytes b' off n = readBytes b off n.
Proof.
  induction n as [|n IH]; intros off Hl H; [reflexivity|].
  cbn [readBytes]. rewrite (getUint8_ext b b') by (auto; apply H; lia).
  destruct (getUint8 b off) as [c|e]; cbn [bind]; [|reflexivity].
  rewrite IH; auto. intros j Hj. apply H. lia.
Qed.

Lemma entry_reads_ext b b' a d :
  byteLength b' = byteLength b ->
  (forall j, entryOffset a <= j < entryOffset a + 32 \/
             d <= j < d + Z.of_nat (length (data a)) ->
             byteAt b' j = byteAt b j) ->
  entry_reads b a d -> entry_reads b' a d.
Proof.
  intros Hl H (Hn & Hw & Ho & Hb & Hp & Hv & Hd).
  unfold entry_reads.
  rewrite (readName_ext b b') by (auto; intros; apply H; lia).
  rewrite !(getUint32_ext b b') by (auto; intros; apply H; lia).
  rewrite !(getUint8_ext b b') by (auto; apply H; lia).
  rewrite (readBytes_ext b b') by (auto; intros; apply H; lia).
  tauto.
Qed.

(** *** One iteration of the sample loop *)

Lemma slot_range a : 1 <= padNumber a <= 8 -> 0 <= slot a < 32.
Proof. unfold slot, getPadIndex. destruct (bank a); cbn [bankOffset]; lia. Qed.

Lemma writeSample_fits buf cur s buf' cur' :
  byteLength buf = SP1200_DISK_SIZE -> cur mod 256 = 0 ->
  writeSample (buf, cur) s = Ok (buf', cur') ->
  cur + Z.of_nat (length (data s)) + 2 <= SP1200_DISK_SIZE.
Proof.
  intros Hlen Hmod H. unfold writeSample in H.
  replace (cur mod SP1200_SAMPLE_ALIGN =? 0) with true in H
    by (symmetry; apply Z.eqb_eq; exact Hmod).
  cbn [negb] in H.
  do 8 bind_inv H.
  repeat match goal with
         | E : setUint8 _ _ _ = Ok _ |- _ => apply setUint8_Ok in E
         | E : setUint16 _ _ _ _ = Ok _ |- _ => apply setUint16_Ok in E
         | E : setUint32 _ _ _ _ = Ok _ |- _ => apply setUint32_Ok in E
         | E : Uint8Array_set _ _ _ = Ok _ |- _ => apply Uint8Array_set_Ok in E
         | E : writeMetadata _ _ _ = Ok _ |- _ => apply writeMetadata_Ok in E
         end.
  lia.
Qed.

Lemma writeMetadata_facts view eo m :
  0 <= eo -> eo + 35 <= byteLength view ->
  exists view',
    writeMetadata view eo m = Ok view' /\
    byteLength view' = byteLength view /\
    (forall j, j < eo + 24 \/ eo + 35 <= j ->
               byteAt view' j = byteAt view j) /\
    byte view' (eo + 25)
    = match m with
      | Some m => orDefault (volume m) SP1200_VOLUME_MAX mod 256
      | None => SP1200_VOLUME_MAX
      end /\
    (forall j, eo + 32 <= j < eo + 35 ->
       match m with
       | Some m =>
           orDefault (truncStart m) 0 mod 65536 < 256 ->
           orDefault (truncEnd m) 0 mod 65536 = 0 ->
           byte view' j = 0
       | None => byte view' j = byte view j
       end).
Proof.
  intros H0 Hfit. unfold writeMetadata. destruct m as [m|].
  - rewrite setUint8_fits by lia. cbn [bind].
    rewrite setUint8_fits by (cbn [byteLength store]; lia). cbn [bind].
    rewrite setUint8_fits by (cbn [byteLength store]; lia). cbn [bind].
    rewrite setUint16_fits by (cbn [byteLength store]; lia). cbn [bind].
    rewrite setUint16_fits by (cbn [byteLength store]; lia). cbn [bind].
    rewrite setUint16_fits by (cbn [byteLength store]; lia). cbn [bind].
    rewrite setUint16_fits by (cbn [byteLength store]; lia).
    eexists. split; [reflexivity|]. split; [reflexivity|].
    split; [|split].
    + intros j Hj. cbn [byteAt store]. decide_ifs. reflexivity.
    + unfold byte. cbn [byteAt store]. decide_ifs.
      apply Z.mod_mod. lia.
    + intros j Hj Hs He. unfold byte. cbn [byteAt store].
      assert (0 <= orDefault (truncStart m) 0 mod 65536 < 65536)
        by (apply Z.mod_pos_bound; lia).
      assert (Hj' : j = eo + 32 \/ j = eo + 33 \/ j = eo + 34) by lia.
      destruct Hj' as [Hj'|[Hj'|Hj']]; subst j; decide_ifs; rewrite ?He.
      * rewrite Z.div_small by lia. reflexivity.
      * reflexivity.
      * reflexivity.
  - rewrite setUint8_fits by lia.
    eexists. split; [reflexivity|]. split; [reflexivity|].
    split; [|split].
    + intros j Hj. cbn [byteAt store]. decide_ifs. reflexivity.
    + unfold byte. cbn [byteAt store]. decide_ifs. reflexivity.
    + intros j Hj. unfold byte. cbn [byteAt store]. decide_ifs. reflexivity.
Qed.

Lemma writeSample_facts buf cur s buf' cur' :
  byteLength buf = SP1200_DISK_SIZE ->
  1 <= padNumber s <= 8 -> plain s ->
  SP1200_SAMPLE_DATA_OFFSET <= cur -> cur mod 256 = 0 ->
  zero_from buf (slot s) ->
  writeSample (buf, cur) s = Ok (buf', cur') ->
  byteLength buf' = SP1200_DISK_SIZE /\
  cur' = alignUp (cur + Z.of_nat (length (data s))) /\
  cur + Z.of_nat (length (data s)) + 2 <= SP1200_DISK_SIZE /\
  entry_reads buf' s cur /\
  (forall j, j < entryOffset s \/ entryOffset s + 35 <= j < cur \/
             cur + Z.of_nat (length (data s)) + 2 <= j ->
             byteAt buf' j = byteAt buf j) /\
  (forall j, entryOffset s + 32 <= j < entryOffset s + 35 ->
             byte buf' j = 0).
Proof.
  intros Hlen Hpad (Hn12 & Hascii & Hbytes & Hmeta) Hcur Hmod Hzero H.
  pose proof (writeSample_fits _ _ _ _ _ Hlen Hmod H) as Hfit.
  pose proof (slot_range s Hpad) as Hslot.
  unfold writeSample in H.
  change (SP1200_PAD_TABLE_OFFSET
          + getPadIndex (bank s) (padNumber s) * SP1200_PAD_ENTRY_SIZE)
    with (entryOffset s) in H.
  unfold zero_from in Hzero.
  change (SP1200_PAD_TABLE_OFFSET + slot s * SP1200_PAD_ENTRY_SIZE)
    with (entryOffset s) in Hzero.
  assert (Hrange : 2048 <= entryOffset s /\ entryOffset s + 32 <= 3072).
  { unfold entryOffset, SP1200_PAD_TABLE_OFFSET, SP1200_PAD_ENTRY_SIZE. lia. }
  unfold entry_reads, volumeByte.
  remember (entryOffset s) as eo eqn:Heo. clear Heo.
  unfold SP1200_DISK_SIZE, SP1200_SAMPLE_DATA_OFFSET, SP1200_SAMPLE_ALIGN,
    SP1200_END_MARKER in *.
  replace (cur mod 256 =? 0) with true in H
    by (symmetry; apply Z.eqb_eq; exact Hmod).
  cbn [negb] in H.
  unfold slice0 in H. rewrite firstn_all2 in H by lia.
  rewrite TextEncoder_encode_ascii in H by assumption.
  rewrite Uint8Array_set_fits in H by lia. cbn [bind] in H.
  rewrite setUint32_le_fits in H by (cbn [byteLength]; lia). cbn [bind] in H.
  rewrite setUint32_le_fits in H by (cbn [byteLength store]; lia).
  cbn [bind] in H.
  rewrite setUint8_fits in H by (cbn [byteLength store]; lia). cbn [bind] in H.
  rewrite setUint8_fits in H by (cbn [byteLength store]; lia). cbn [bind] in H.
  match type of H with
  | bind (writeMetadata ?b _ _) _ = _ => set (b1 := b) in H
  end.
  assert (Hl1 : byteLength b1 = 824576) by (subst b1; exact Hlen).
  destruct (writeMetadata_facts b1 eo (metadata s))
    as (b2 & E2 & Hl2 & Hf2 & Hv2 & Hs2); [lia | lia |].
  rewrite E2 in H. cbn [bind] in H.
  rewrite Hl1 in Hl2.
  rewrite Uint8Array_set_fits in H by lia. cbn [bind] in H.
  rewrite setUint16_fits in H by (cbn [byteLength]; lia). cbn [bind] in H.
  apply Ok_inj in H. injection H as Hbuf Hc. subst buf' cur'.
  assert (Hw : 0 <= Z.of_nat (length (data s)) / 2 < 4294967296).
  { split; [apply Z.div_pos; lia|].
    apply Z.div_lt_upper_bound; lia. }
  assert (Hname : forall j, 0 <= j < Z.of_nat (length (name s)) ->
                  nth (Z.to_nat j) (name s) 0 mod 256
                  = nth (Z.to_nat j) (name s) 0).
  { intros j Hj. apply (nth_byte _ _ 1); [lia | | assumption].
    eapply Forall_impl; [|exact Hascii]. cbn. lia. }
  split; [cbn [byteLength store]; exact Hl2|].
  split; [reflexivity|]. split; [exact Hfit|].
  split; [|split].
  - (* what the readers find *)
    split; [|split; [|split; [|split; [|split; [|split]]]]].
    + apply readName_spec; cbn [byteLength store]; try lia.
      * eapply Forall_impl; [|exact Hascii]. cbn. lia.
      * intros j Hj. unfold byte. cbn [byteAt store]. decide_ifs.
        rewrite Hf2 by lia. subst b1. cbn [byteAt store]. decide_ifs.
        replace (eo + j - eo) with j by lia. now apply Hname.
      * intros Hlt. unfold byte. cbn [byteAt store]. decide_ifs.
        rewrite Hf2 by lia. subst b1. cbn [byteAt store]. decide_ifs.
        apply Hzero. lia.
    + rewrite getUint32_le_fits by (cbn [byteLength store]; lia).
      unfold byte. cbn [byteAt store]. decide_ifs.
      rewrite !Hf2 by lia. subst b1. cbn [byteAt store]. decide_ifs.
      rewrite (Z.mod_small (Z.of_nat (length (data s)) / 2)) by lia.
      f_equal. apply uint32_bytes. lia.
    + rewrite getUint32_le_fits by (cbn [byteLength store]; lia).
      unfold byte. cbn [byteAt store]. decide_ifs.
      rewrite !Hf2 by lia. subst b1. cbn [byteAt store]. decide_ifs.
      rewrite (Z.mod_small cur) by lia.
      f_equal. apply uint32_bytes. lia.
    + unfold getUint8.
      replace (in_bounds _ _ 1) with true
        by (symmetry; apply in_bounds_spec; cbn [byteLength store]; lia).
      unfold byte. cbn [byteAt store]. decide_ifs.
      rewrite !Hf2 by lia. subst b1. cbn [byteAt store]. decide_ifs.
      f_equal. rewrite Z.mod_mod by lia.
      apply Z.mod_small. destruct (bank s); cbn; lia.
    + unfold getUint8.
      replace (in_bounds _ _ 1) with true
        by (symmetry; apply in_bounds_spec; cbn [byteLength store]; lia).
      unfold byte. cbn [byteAt store]. decide_ifs.
      rewrite !Hf2 by lia. subst b1. cbn [byteAt store]. decide_ifs.
      f_equal. rewrite Z.mod_mod by lia. apply Z.mod_small. lia.
    + unfold getUint8.
      replace (in_bounds _ _ 1) with true
        by (symmetry; apply in_bounds_spec; cbn [byteLength store]; lia).
      unfold byte at 1. cbn [byteAt store]. decide_ifs.
      fold (byte b2 (eo + 25)). now rewrite Hv2.
    + apply readBytes_spec; cbn [byteLength store]; try lia.
      intros j Hj. unfold byte. cbn [byteAt store]. decide_ifs.
      replace (cur + j - cur) with j by lia.
      now apply (nth_byte _ _ 0).
  - (* what is left alone *)
    intros j Hj. cbn [byteAt store].
    destruct Hj as [Hj|[Hj|Hj]]; decide_ifs;
      rewrite Hf2 by lia; subst b1; cbn [byteAt store]; decide_ifs;
      reflexivity.
  - (* the three bytes past the entry *)
    intros j Hj. unfold byte at 1. cbn [byteAt store]. decide_ifs.
    fold (byte b2 j). specialize (Hs2 j Hj).
    destruct (metadata s) as [m|].
    + destruct Hmeta. now apply Hs2.
    + rewrite Hs2. unfold byte. subst b1. cbn [byteAt store]. decide_ifs.
      apply Hzero. lia.
Qed.

(** *** The whole loop, on assignments in increasing slot order *)

Lemma alignUp_facts x :
  0 <= x <= SP1200_DISK_SIZE ->
  x <= alignUp x /\ alignUp x mod 256 = 0 /\ alignUp x < x + 256.
Proof.
  unfold SP1200_DISK_SIZE. intros Hx. rewrite alignUp_spec by lia.
  rewrite Z.mul_comm, Z_mod_mult.
  Z.div_mod_to_equations. lia.
Qed.

Lemma writeSamples_layout l : forall buf cur k buf' cur',
  byteLength buf = SP1200_DISK_SIZE ->
  SP1200_SAMPLE_DATA_OFFSET <= cur -> cur mod 256 = 0 -> 0 <= k ->
  StronglySorted (fun a b => slot a < slot b) l ->
  Forall (fun s => k <= slot s /\ 1 <= padNumber s <= 8 /\ plain s) l ->
  zero_from buf k ->
  writeSamples (buf, cur) l = Ok (buf', cur') ->
  byteLength buf' = SP1200_DISK_SIZE /\
  cur <= cur' /\ cur' mod 256 = 0 /\
  (forall j, j < 2048 + k * 32 \/ 4096 <= j < cur ->
             byteAt buf' j = byteAt buf j) /\
  Forall (fun s => exists d,
            entry_reads buf' s d /\ cur <= d /\ d mod 256 = 0 /\
            d + Z.of_nat (length (data s)) + 2 <= SP1200_DISK_SIZE /\
            d + Z.of_nat (length (data s)) <= cur') l /\
  (forall k', k <= k' < 32 -> (forall s, In s l -> slot s <> k') ->
              forall j, 0 <= j < 32 -> byte buf' (2048 + k' * 32 + j) = 0).
Proof.
  induction l as [|s rest IH];
    intros buf cur k buf' cur' Hlen Hcur Hmod Hk Hsorted Hall Hzero H.
  - cbn [writeSamples] in H. apply Ok_inj in H. injection H as <- <-.
    split; [assumption|]. split; [lia|]. split; [assumption|].
    split; [reflexivity|]. split; [constructor|].
    intros k' Hk' _ j Hj. apply Hzero.
    unfold SP1200_PAD_TABLE_OFFSET, SP1200_PAD_ENTRY_SIZE,
      SP1200_SAMPLE_DATA_OFFSET. lia.
  - cbn [writeSamples] in H.
    apply bind_Ok in H as ([b1 c1] & E1 & H).
    apply Forall_cons_iff in Hall as [(Hks & Hpad & Hplain) Hall].
    apply StronglySorted_inv in Hsorted as [Hsorted Hlt].
    pose proof (slot_range s Hpad) as Hslot.
    assert (Hz : zero_from buf (slot s)).
    { intros j Hj. apply Hzero.
      unfold SP1200_PAD_TABLE_OFFSET, SP1200_PAD_ENTRY_SIZE in *. lia. }
    destruct (writeSample_facts _ _ _ _ _ Hlen Hpad Hplain Hcur Hmod Hz E1)
      as (Hl1 & Hc1 & Hfit & Hreads & Hframe1 & Hspill).
    unfold SP1200_SAMPLE_DATA_OFFSET in *.
    destruct (alignUp_facts (cur + Z.of_nat (length (data s))))
      as (Ha1 & Ha2 & Ha3); [lia|].
    rewrite <- Hc1 in Ha1, Ha2, Ha3.
    assert (Heo : entryOffset s = 2048 + slot s * 32) by reflexivity.
    assert (Hz1 : zero_from b1 (slot s + 1)).
    { intros j Hj.
      unfold SP1200_PAD_TABLE_OFFSET, SP1200_PAD_ENTRY_SIZE,
        SP1200_SAMPLE_DATA_OFFSET in Hj.
      destruct (Z_lt_le_dec j (entryOffset s + 35)) as [Hs|Hs].
      - apply Hspill. lia.
      - rewrite (byte_ext buf) by (apply Hframe1; lia).
        apply Hzero.
        unfold SP1200_PAD_TABLE_OFFSET, SP1200_PAD_ENTRY_SIZE,
          SP1200_SAMPLE_DATA_OFFSET. lia. }
    assert (Hall1 : Forall (fun s' => slot s + 1 <= slot s' /\
                                      1 <= padNumber s' <= 8 /\ plain s')
                           rest).
    { rewrite Forall_forall in *. intros s' Hin.
      specialize (Hall s' Hin). specialize (Hlt s' Hin). cbn in Hlt.
      intuition lia. }
    destruct (IH b1 c1 (slot s + 1) buf' cur' Hl1 ltac:(lia) Ha2 ltac:(lia)
                Hsorted Hall1 Hz1 H)
      as (Hl' & Hc' & Hm' & Hframe2 & Hrest & Hzeros).
    split; [assumption|]. split; [lia|]. split; [assumption|].
    split; [|split].
    + intros j Hj. rewrite Hframe2 by lia. apply Hframe1. lia.
    + constructor.
      * exists cur. split.
        { apply (entry_reads_ext b1); [congruence | | assumption].
          intros j Hj. apply Hframe2. lia. }
        repeat split; try assumption; lia.
      * eapply Forall_impl; [|exact Hrest].
        intros s' (d & Hr & Hd1 & Hd2 & Hd3 & Hd4). exists d.
        split; [assumption|]. repeat split; try assumption; lia.
    + intros k' Hk' Hfree j Hj.
      assert (Hne : slot s <> k') by (apply Hfree; now left).
      destruct (Z_lt_le_dec k' (slot s)) as [Hlow|Hhigh].
      * rewrite (byte_ext b1) by (apply Hframe2; lia).
        rewrite (byte_ext buf) by (apply Hframe1; lia).
        apply Hzero.
        unfold SP1200_PAD_TABLE_OFFSET, SP1200_PAD_ENTRY_SIZE,
          SP1200_SAMPLE_DATA_OFFSET. lia.
      * apply Hzeros; [lia | | assumption].
        intros s' Hin. apply Hfree. now right.
Qed.

(** *** The image of a builder *)

Lemma slot_order a b :
  1 <= padNumber a <= 8 -> 1 <= padNumber b <= 8 ->
  compareAssignments a b <= 0 -> padOf a <> padOf b -> slot a < slot b.
Proof.
  intros Ha Hb Hle Hne. apply compareAssignments_le in Hle.
  assert (slot a <> slot b).
  { intros E. apply Hne. unfold padOf. unfold slot, getPadIndex in E.
    destruct (bank a), (bank b); cbn [bankOffset] in E;
      first [exfalso; lia | f_equal; lia]. }
  unfold slot, getPadIndex in *.
  destruct (bank a), (bank b); cbn [bankOffset bankIndex] in *; lia.
Qed.

Lemma sorted_slots l :
  Forall (fun a => 1 <= padNumber a <= 8) l -> NoDup (map padOf l) ->
  StronglySorted (fun a b => compareAssignments a b <= 0) l ->
  StronglySorted (fun a b => slot a < slot b) l.
Proof.
  intros Hv Hnd Hs. induction Hs as [|a l Hs IH Hall]; [constructor|].
  apply Forall_cons_iff in Hv as [Ha Hv].
  cbn [map] in Hnd. apply NoDup_cons_iff in Hnd as [Hnin Hnd].
  constructor; [auto|].
  rewrite Forall_forall in *. intros b Hin.
  apply slot_order; auto.
  intros E. apply Hnin. rewrite E. now apply in_map.
Qed.

Lemma writeHeader_facts n :
  exists b0,
    writeHeader n = Ok b0 /\ byteLength b0 = SP1200_DISK_SIZE /\
    zero_from b0 0 /\
    byte b0 0 = 0 /\ byte b0 1 = 18 /\
    byte b0 2 + 256 * byte b0 3 = n mod 65536 /\
    byte b0 4 = 0 /\ byte b0 5 = 0.
Proof.
  unfold writeHeader, SP1200_DISK_SIZE, SP1200_MAGIC,
    SP1200_PAD_TABLE_OFFSET, SP1200_MAX_PADS, SP1200_PAD_ENTRY_SIZE.
  rewrite setUint16_fits by (cbn [byteLength fill alloc]; lia). cbn [bind].
  rewrite setUint16_fits by (cbn [byteLength fill alloc store]; lia).
  cbn [bind].
  rewrite setUint16_fits by (cbn [byteLength fill alloc store]; lia).
  cbn [bind].
  eexists. split; [reflexivity|]. split; [reflexivity|].
  split; [|split; [|split; [|split; [|split]]]]; try reflexivity.
  - intros j Hj. unfold byte. cbn [byteAt fill store alloc byteLength].
    unfold SP1200_PAD_TABLE_OFFSET, SP1200_PAD_ENTRY_SIZE,
      SP1200_SAMPLE_DATA_OFFSET in Hj.
    match goal with
    | |- context [if andb ?a ?b then _ else _] => destruct (andb a b)
    end; [reflexivity|].
    decide_ifs. reflexivity.
  - unfold byte. cbn [byteAt fill store alloc byteLength].
    change (2048 <=? 2) with false. change (2048 <=? 3) with false.
    cbn [andb]. decide_ifs.
    assert (0 <= n mod 65536 < 65536) by (apply Z.mod_pos_bound; lia).
    Z.div_mod_to_equations. lia.
Qed.

(** The image a build returns, for a builder of plain assignments: the
    header, the entry and the data of every assignment, and zeros in the
    table slots of the pads that hold nothing. *)
Lemma createDiskImage_layout this image :
  reachable this -> Forall plain (Map_values this) ->
  fst (createDiskImage this) = Ok image ->
  byteLength image = SP1200_DISK_SIZE /\
  getUint16 image 0 true = Ok SP1200_MAGIC /\
  getUint16 image 2 true = Ok (Map_size this) /\
  getUint16 image 4 true = Ok 0 /\
  (forall a, In a (Map_values this) ->
     exists d, entry_reads image a d /\
               SP1200_SAMPLE_DATA_OFFSET <= d /\ d mod 256 = 0 /\
               d + Z.of_nat (length (data a)) + 2 <= SP1200_DISK_SIZE) /\
  (forall k, 0 <= k < 32 ->
     (forall a, In a (Map_values this) -> slot a <> k) ->
     forall j, 0 <= j < 32 -> byte image (2048 + k * 32 + j) = 0).
Proof.
  intros Hr Hplain H.
  destruct (reachable_capacity this Hr) as (Hcap & Hnd & Hvalid).
  unfold createDiskImage, getPadAssignments in H. cbn [fst] in H.
  destruct (writeHeader_facts (Map_size this))
    as (b0 & E0 & Hl0 & Hz0 & F0 & F1 & F2 & F4 & F5).
  rewrite E0 in H. cbn [bind] in H.
  set (sorted := sort compareAssignments (Map_values this)) in *.
  assert (Hperm : Permutation sorted (Map_values this))
    by apply sort_Permutation.
  destruct (writeSamples (b0, SP1200_SAMPLE_DATA_OFFSET) sorted)
    as [[b1 c1]|e] eqn:E1; [|discriminate].
  cbn [bind] in H. destruct (c1 >? SP1200_DISK_SIZE); [discriminate|].
  apply Ok_inj in H. subst b1.
  assert (Hsorted : StronglySorted (fun a b => slot a < slot b) sorted).
  { apply sorted_slots.
    - eapply Permutation_Forall; [symmetry; exact Hperm | exact Hvalid].
    - eapply Permutation_NoDup;
        [apply Permutation_map; symmetry; exact Hperm | exact Hnd].
    - apply sort_sorted.
      + intros x y. rewrite !compareAssignments_le. lia.
      + intros x y z. rewrite !compareAssignments_le. lia. }
  assert (Hall : Forall (fun s => 0 <= slot s /\ 1 <= padNumber s <= 8 /\
                                  plain s) sorted).
  { eapply Permutation_Forall; [symmetry; exact Hperm|].
    rewrite Forall_forall in *. intros a Hin.
    pose proof (slot_range a (Hvalid a Hin)). auto with zarith. }
  destruct (writeSamples_layout sorted b0 SP1200_SAMPLE_DATA_OFFSET 0
              image c1 Hl0 ltac:(reflexivity) ltac:(reflexivity)
              ltac:(lia) Hsorted Hall Hz0 E1)
    as (Hl & _ & _ & Hframe & Hentries & Hzeros).
  assert (Hhead : forall j, 0 <= j < 6 -> byte image j = byte b0 j).
  { intros j Hj. apply byte_ext. apply Hframe. lia. }
  split; [assumption|].
  unfold SP1200_DISK_SIZE in *.
  split; [|split; [|split; [|split]]].
  - rewrite getUint16_le_fits by lia. rewrite !Hhead by lia.
    change (0 + 1) with 1. rewrite F0, F1. reflexivity.
  - rewrite getUint16_le_fits by lia. rewrite !Hhead by lia.
    change (2 + 1) with 3. rewrite F2. f_equal. apply Z.mod_small.
    unfold Map_size. unfold Map_values in Hcap. rewrite length_map in Hcap.
    lia.
  - rewrite getUint16_le_fits by lia. rewrite !Hhead by lia.
    change (4 + 1) with 5. rewrite F4, F5. reflexivity.
  - intros a Hin. rewrite Forall_forall in Hentries.
    destruct (Hentries a) as (d & Hd & Hd1 & Hd2 & Hd3 & _).
    { eapply Permutation_in; [symmetry; exact Hperm | exact Hin]. }
    exists d. auto.
  - intros k Hk Hfree j Hj. apply Hzeros; auto.
    intros s Hin. apply Hfree.
    eapply Permutation_in; [exact Hperm | exact Hin].
Qed.

End ImageLayout.
(** ** The disk reader of the player *)

Module PlayerFacts.
Import SP1200 Number Props Terms JSFacts BuilderFacts ByteFacts WavFacts
       BuilderLaws ImageLayout DiskBuilder.

Lemma readName_total view n : forall off,
  0 <= off -> off + Z.of_nat n <= byteLength view ->
  exists name, readName view off n = Ok name.
Proof.
  induction n as [|n IH]; intros off H0 Hfit; [now exists []|].
  cbn [readName]. unfold getUint8.
  replace (in_bounds view off 1) with true
    by (symmetry; apply in_bounds_spec; lia).
  cbn [bind]. destruct (byte view off =? 0); [now exists []|].
  destruct (IH (off + 1)) as (rest & ->); try lia.
  cbn [bind]. eauto.
Qed.

Lemma readSamples_total view off n : forall i,
  0 <= off + i * 2 -> off + (i + Z.of_nat n) * 2 <= byteLength view ->
  exists l, Player.readSamples view off i n = Ok l.
Proof.
  induction n as [|n IH]; intros i H0 Hfit; [now exists []|].
  cbn [Player.readSamples]. rewrite getUint16_le_fits by lia. cbn [bind].
  destruct (IH (i + 1)) as (rest & ->); try lia.
  cbn [bind]. eauto.
Qed.

Lemma allPads_spec b p : In (b, p) Player.allPads <-> 1 <= p <= 8.
Proof.
  unfold Player.allPads. rewrite in_prod_iff. split.
  - intros [_ H]. cbn in H. intuition lia.
  - intros H. split; [destruct b; cbn; auto|].
    assert (p = 1 \/ p = 2 \/ p = 3 \/ p = 4 \/ p = 5 \/ p = 6 \/
            p = 7 \/ p = 8) as Hp by lia.
    cbn. intuition auto.
Qed.

Lemma readPad_total view b p :
  4096 <= byteLength view -> 1 <= p <= 8 ->
  exists r, Player.readPad view b p = Ok r.
Proof.
  intros Hlen Hp. unfold Player.readPad.
  assert (Hidx : 0 <= Player.getPadIndex b p < 32)
    by (unfold Player.getPadIndex; destruct b; cbn [bankOffset]; lia).
  unfold SP1200_PAD_TABLE_OFFSET, SP1200_PAD_ENTRY_SIZE.
  set (eo := 2048 + Player.getPadIndex b p * 32).
  assert (Heo : 2048 <= eo /\ eo + 32 <= 3072) by (subst eo; lia).
  clearbody eo.
  destruct (readName_total view 12 eo) as (name & ->); try lia.
  cbn [bind].
  destruct (getUint32 view (eo + 12) true) as [numWords|] eqn:E1.
  2:{ rewrite getUint32_le_fits in E1 by lia. discriminate. }
  destruct (getUint32 view (eo + 16) true) as [sampleOffset|] eqn:E2.
  2:{ rewrite getUint32_le_fits in E2 by lia. discriminate. }
  apply getUint32_range in E1, E2.
  cbn [bind]. unfold getUint8.
  replace (in_bounds view (eo + 25) 1) with true
    by (symmetry; apply in_bounds_spec; lia).
  cbn [bind].
  destruct (_ || _); [eauto|].
  destruct (Z.gtb_spec (sampleOffset + numWords * 2) (byteLength view));
    [eauto|].
  destruct (readSamples_total view sampleOffset (Z.to_nat numWords) 0)
    as (l & ->); try lia.
  cbn [bind]. eauto.
Qed.

(** *** One pad, then all of them *)

Lemma Player_getPadKey_inj b p b' p' :
  Player.getPadKey b p = Player.getPadKey b' p' -> (b, p) = (b', p').
Proof.
  intros H. change (getPadKey b p = getPadKey b' p') in H.
  apply getPadKey_inj in H as [-> ->]. reflexivity.
Qed.

Lemma loadPad_effect view b p this :
  4096 <= byteLength view -> 1 <= p <= 8 ->
  fst (Player.loadPad view b p this) = Ok tt /\
  Player.sampleInfo (snd (Player.loadPad view b p this))
  = match padSamples view b p with
    | Some _ => Map_set (Player.sampleInfo this) (Player.getPadKey b p)
                        (padInfo view b p)
    | None => Player.sampleInfo this
    end /\
  Player.samples (snd (Player.loadPad view b p this))
  = match padSamples view b p with
    | Some d => Map_set (Player.samples this) (Player.getPadKey b p) d
    | None => Player.samples this
    end.
Proof.
  intros Hlen Hp. unfold Player.loadPad, padSamples, padInfo.
  destruct (readPad_total view b p Hlen Hp) as (r & ->).
  destruct r as [[[name volume] sampleData]|]; cbn; auto.
Qed.

Lemma forEachPad_state view l : forall this,
  4096 <= byteLength view ->
  NoDup l -> Forall (fun bp => 1 <= snd bp <= 8) l ->
  let this' := snd (Player.forEachPad l (Player.loadPad view) this) in
  fst (Player.forEachPad l (Player.loadPad view) this) = Ok tt /\
  forall b p,
    (In (b, p) l -> padSamples view b p <> None ->
     Map_get (Player.sampleInfo this') (Player.getPadKey b p)
     = Some (padInfo view b p) /\
     Map_get (Player.samples this') (Player.getPadKey b p)
     = padSamples view b p) /\
    (~ In (b, p) l \/ padSamples view b p = None ->
     Map_get (Player.sampleInfo this') (Player.getPadKey b p)
     = Map_get (Player.sampleInfo this) (Player.getPadKey b p) /\
     Map_get (Player.samples this') (Player.getPadKey b p)
     = Map_get (Player.samples this) (Player.getPadKey b p)).
Proof.
  induction l as [|[b0 p0] l IH]; intros this Hlen Hnd Hv; cbn zeta.
  - cbn. split; [reflexivity|]. intros b p. split; [intros []|auto].
  - apply NoDup_cons_iff in Hnd as [Hnin Hnd].
    apply Forall_cons_iff in Hv as [Hp0 Hv]. cbn [snd] in Hp0.
    destruct (loadPad_effect view b0 p0 this Hlen Hp0) as (Hok & Hi & Hs).
    cbn [Player.forEachPad].
    destruct (Player.loadPad view b0 p0 this) as [r this1] eqn:E.
    cbn [fst snd] in Hok, Hi, Hs. subst r.
    destruct (IH this1 Hlen Hnd Hv) as (Hok' & Hget). cbn zeta in Hget.
    split; [exact Hok'|]. intros b p.
    destruct (Hget b p) as [Hin Hout].
    assert (Hkey : (b, p) <> (b0, p0) ->
                   Player.getPadKey b p <> Player.getPadKey b0 p0).
    { intros Hne Hk. apply Hne. now apply Player_getPadKey_inj. }
    split.
    + intros [[= -> ->]|Hl] Hsome.
      * destruct (Hout (or_introl Hnin)) as [-> ->].
        rewrite Hi, Hs.
        destruct (padSamples view b p); [|contradiction].
        rewrite !Map_get_set_same. auto.
      * now apply Hin.
    + intros Hcase.
      assert (Hnot : ~ In (b, p) l \/ padSamples view b p = None).
      { destruct Hcase as [Hc|Hc]; [left; intros Hl; apply Hc; now right
                                   | now right]. }
      destruct (Hout Hnot) as [-> ->]. rewrite Hi, Hs.
      destruct Hcase as [Hc|Hc].
      * assert (Hne : (b, p) <> (b0, p0))
          by (intros [= -> ->]; apply Hc; now left).
        destruct (padSamples view b0 p0); [|auto].
        rewrite !Map_get_set_other by auto. auto.
      * destruct (padSamples view b0 p0) eqn:E0; [|auto].
        assert (Hne : (b, p) <> (b0, p0)) by congruence.
        rewrite !Map_get_set_other by auto. auto.
Qed.

Lemma initializeEmptyPads_state this :
  Player.samples (Player.initializeEmptyPads this) = Player.samples this /\
  forall b p, 1 <= p <= 8 ->
    Map_get (Player.sampleInfo (Player.initializeEmptyPads this))
            (Player.getPadKey b p) = Some Player.emptyInfo.
Proof.
  unfold Player.initializeEmptyPads.
  assert (G : forall l this,
            let this' :=
              fold_left
                (fun this bp =>
                   {| Player.samples := Player.samples this;
                      Player.sampleInfo :=
                        Map_set (Player.sampleInfo this)
                          (Player.getPadKey (fst bp) (snd bp))
                          Player.emptyInfo |}) l this in
            Player.samples this' = Player.samples this /\
            forall b p,
              In (b, p) l \/
              Map_get (Player.sampleInfo this) (Player.getPadKey b p)
              = Some Player.emptyInfo ->
              Map_get (Player.sampleInfo this') (Player.getPadKey b p)
              = Some Player.emptyInfo).
  { induction l as [|[b0 p0] l IH]; intros this0; cbn zeta.
    - cbn. split; [reflexivity|]. intros b p [[]|H]. exact H.
    - cbn [fold_left].
      match goal with
      | |- context [fold_left _ l ?t] =>
          destruct (IH t) as [Hs Hg]
      end.
      cbn zeta in Hs, Hg. split; [exact Hs|].
      intros b p H. apply Hg. cbn [Player.sampleInfo fst snd].
      destruct (string_dec (Player.getPadKey b0 p0) (Player.getPadKey b p))
        as [E|E].
      + right. rewrite <- E. apply Map_get_set_same.
      + destruct H as [[[= -> ->]|H]|H]; [contradiction | now left |].
        right. rewrite Map_get_set_other by congruence. exact H. }
  destruct (G Player.allPads this) as [Hs Hg]. cbn zeta in Hs, Hg.
  split; [exact Hs|]. intros b p Hp. apply Hg. left.
  now apply allPads_spec.
Qed.

Lemma allPads_NoDup : NoDup Player.allPads.
Proof.
  unfold Player.allPads.
  repeat (constructor;
          [cbn; intuition (discriminate || congruence)|]).
  constructor.
Qed.

(** *** Loading an image *)

Lemma loadDiskImage_facts (buffer : ArrayBuffer)
        (this : Player.SP1200Player) :
  (byteLength buffer < 4096 ->
   Player.loadDiskImage buffer this
   = (Throw (Error "Invalid disk image: file too small"), this)) /\
  (4096 <= byteLength buffer ->
   getUint16 buffer 0 true <> Ok SP1200_MAGIC ->
   Player.loadDiskImage buffer this
   = (Throw (Error "Invalid disk image: wrong magic number"), this)) /\
  (4096 <= byteLength buffer ->
   getUint16 buffer 0 true = Ok SP1200_MAGIC ->
   fst (Player.loadDiskImage buffer this) = Ok tt /\
   forall b p, 1 <= p <= 8 ->
     Player.getSampleInfo b p (snd (Player.loadDiskImage buffer this))
     = Some (padInfo buffer b p) /\
     Map_get (Player.samples (snd (Player.loadDiskImage buffer this)))
             (Player.getPadKey b p)
     = padSamples buffer b p).
Proof.
  unfold Player.loadDiskImage, Player.SP1200_MIN_DISK_SIZE.
  split; [|split].
  - intros Hs.
    now replace (byteLength buffer <? 4096) with true
      by (symmetry; apply Z.ltb_lt; lia).
  - intros Hl Hm.
    replace (byteLength buffer <? 4096) with false
      by (symmetry; apply Z.ltb_ge; lia).
    rewrite getUint16_le_fits in * by lia.
    destruct (Z.eqb_spec (byte buffer 0 + 256 * byte buffer (0 + 1))
                         (bitand SP1200_MAGIC 65535)) as [E|E];
      [|reflexivity].
    exfalso. apply Hm. f_equal. exact E.
  - intros Hl Hm.
    replace (byteLength buffer <? 4096) with false
      by (symmetry; apply Z.ltb_ge; lia).
    rewrite Hm. change (negb (SP1200_MAGIC =? bitand SP1200_MAGIC 65535))
      with false. cbv iota zeta.
    set (this0 := Player.initializeEmptyPads _).
    destruct (initializeEmptyPads_state
                {| Player.samples := [];
                   Player.sampleInfo := Player.sampleInfo this |})
      as [Hs0 Hi0].
    fold this0 in Hs0, Hi0. cbn [Player.samples] in Hs0.
    destruct (forEachPad_state buffer Player.allPads this0 Hl allPads_NoDup)
      as (Hok & Hget).
    { apply Forall_forall. intros [b p] Hin. now apply allPads_spec in Hin. }
    cbn zeta in Hget. split; [exact Hok|].
    intros b p Hp. unfold Player.getSampleInfo.
    destruct (Hget b p) as [Hin Hout].
    destruct (padSamples buffer b p) as [d|] eqn:E.
    + destruct Hin as [Hi Hs]; [now apply allPads_spec | discriminate |].
      rewrite Hi, Hs. auto.
    + destruct Hout as [Hi Hs]; [now right|].
      rewrite Hi, Hs, Hi0, Hs0 by assumption. split; [|reflexivity].
      f_equal. unfold padInfo. unfold padSamples in E.
      destruct (Player.readPad buffer b p) as [[[[n v] d]|]|];
        try reflexivity. discriminate.
Qed.

(** [loadDiskImage] throws its two own errors and nothing else, and a
    rejected buffer leaves the player as it was.  A buffer of 4096 bytes
    or more that starts with the magic number always loads, whatever the
    rest of it holds: no table entry can make a read leave the buffer.
    After a load each of the 32 pads shows what its table entry of this
    buffer gives, and nothing of what the player held before. *)
Theorem loadDiskImage_spec (buffer : ArrayBuffer)
        (this : Player.SP1200Player) :
  (byteLength buffer < 4096 ->
   Player.loadDiskImage buffer this
   = (Throw (Error "Invalid disk image: file too small"), this)) /\
  (4096 <= byteLength buffer ->
   getUint16 buffer 0 true <> Ok SP1200_MAGIC ->
   Player.loadDiskImage buffer this
   = (Throw (Error "Invalid disk image: wrong magic number"), this)) /\
  (4096 <= byteLength buffer ->
   getUint16 buffer 0 true = Ok SP1200_MAGIC ->
   fst (Player.loadDiskImage buffer this) = Ok tt /\
   forall b p, 1 <= p <= 8 ->
     Player.getSampleInfo b p (snd (Player.loadDiskImage buffer this))
     = Some (padInfo buffer b p) /\
     Map_get (Player.samples (snd (Player.loadDiskImage buffer this)))
             (Player.getPadKey b p)
     = padSamples buffer b p).
Proof. apply loadDiskImage_facts. Qed.

(** The three cases at three buffers: 10 zero bytes, 4096 zero bytes, and
    4096 bytes that start with the magic number. *)
Lemma loadDiskImage_spec_witness :
  Player.loadDiskImage (alloc 10) Player.new_player
  = (Throw (Error "Invalid disk image: file too small"),
     Player.new_player) /\
  Player.loadDiskImage (alloc 4096) Player.new_player
  = (Throw (Error "Invalid disk image: wrong magic number"),
     Player.new_player) /\
  fst (Player.loadDiskImage (store (alloc 4096) 1 0x12) Player.new_player)
  = Ok tt.
Proof.
  split; [|split].
  - apply (proj1 (loadDiskImage_spec (alloc 10) Player.new_player)).
    cbn. lia.
  - apply (proj1 (proj2 (loadDiskImage_spec (alloc 4096)
                           Player.new_player))).
    + cbn. lia.
    + vm_compute. discriminate.
  - destruct (proj2 (proj2 (loadDiskImage_spec (store (alloc 4096) 1 0x12)
                              Player.new_player))) as [H _];
      [cbn; lia | vm_compute; reflexivity | exact H].
Defined.


(** *** An image built by the disk builder *)

Lemma readBytes_Ok_bytes view n : forall off l,
  readBytes view off n = Ok l ->
  length l = n /\
  forall j, 0 <= j < Z.of_nat n ->
    byte view (off + j) = nth (Z.to_nat j) l 0 /\
    0 <= off + j /\ off + j + 1 <= byteLength view.
Proof.
  induction n as [|n IH]; intros off l H.
  - cbn in H. apply Ok_inj in H. subst l. split; [reflexivity|]. lia.
  - cbn [readBytes] in H.
    apply bind_Ok in H as (x & Ex & H).
    apply bind_Ok in H as (xs & Exs & H). apply Ok_inj in H. subst l.
    apply IH in Exs as [Hlen Hb].
    unfold getUint8 in Ex.
    destruct (in_bounds view off 1) eqn:Eb; [|discriminate].
    apply in_bounds_spec in Eb. apply Ok_inj in Ex.
    split; [cbn; now rewrite Hlen|].
    intros j Hj. destruct (Z.eq_dec j 0) as [->|Hne].
    + rewrite Z.add_0_r. cbn. split; [auto | lia].
    + destruct (Hb (j - 1)) as (Hbyte & H1 & H2); [lia|].
      replace (off + 1 + (j - 1)) with (off + j) in * by lia.
      split; [|lia]. rewrite Hbyte.
      replace (Z.to_nat j) with (S (Z.to_nat (j - 1))) by lia.
      reflexivity.
Qed.

Lemma pair_induction {A} (P : list A -> Prop) :
  P [] -> (forall x, P [x]) ->
  (forall x y l, P l -> P (x :: y :: l)) ->
  forall l, P l.
Proof.
  intros H0 H1 H2 l.
  assert (G : P l /\ forall x, P (x :: l)).
  { induction l as [|a l [IH1 IH2]]; split; auto. }
  apply G.
Qed.

Lemma length_sampleWords data :
  Z.of_nat (length (sampleWords data)) = Z.of_nat (length data) / 2.
Proof.
  induction data as [|x|x y l IH] using pair_induction;
    try reflexivity.
  cbn [sampleWords length]. rewrite !Nat2Z.inj_succ, IH.
  Z.div_mod_to_equations. lia.
Qed.

Lemma readSamples_words view off : forall data i,
  0 <= off + i * 2 ->
  off + i * 2 + Z.of_nat (length data) <= byteLength view ->
  (forall j, 0 <= j < Z.of_nat (length data) ->
             byte view (off + i * 2 + j) = nth (Z.to_nat j) data 0) ->
  Player.readSamples view off i (length (sampleWords data))
  = Ok (map playerSample (sampleWords data)).
Proof.
  intros data.
  induction data as [|x|x y l IH] using pair_induction;
    intros i H0 Hfit Hb; try reflexivity.
  cbn [sampleWords length map Player.readSamples] in *.
  rewrite getUint16_le_fits by lia. cbn [bind].
  rewrite IH; try lia.
  - cbn [bind]. unfold playerSample.
    pose proof (Hb 0 ltac:(lia)) as Hx. pose proof (Hb 1 ltac:(lia)) as Hy.
    rewrite Z.add_0_r in Hx. cbn in Hx, Hy. rewrite Hx, Hy. reflexivity.
  - intros j Hj.
    replace (off + (i + 1) * 2 + j) with (off + i * 2 + (j + 2)) by lia.
    rewrite Hb by lia.
    replace (Z.to_nat (j + 2)) with (S (S (Z.to_nat j))) by lia.
    reflexivity.
Qed.

(** What the player reads for an assignment whose entry and data are in
    the image. *)
Lemma readPad_of_entry image a d :
  byteLength image = SP1200_DISK_SIZE ->
  entry_reads image a d ->
  SP1200_SAMPLE_DATA_OFFSET <= d ->
  d + Z.of_nat (length (data a)) + 2 <= SP1200_DISK_SIZE ->
  Player.readPad image (bank a) (padNumber a)
  = Ok (if 2 <=? Z.of_nat (length (data a))
        then Some (name a,
                   (of_Z (volumeByte a) / of_Z SP1200_VOLUME_MAX)%float,
                   map playerSample (sampleWords (data a)))
        else None).
Proof.
  intros Hlen (Hn & Hw & Ho & _ & _ & Hv & Hd) Hd0 Hfit.
  unfold Player.readPad.
  change (SP1200_PAD_TABLE_OFFSET
          + Player.getPadIndex (bank a) (padNumber a) * SP1200_PAD_ENTRY_SIZE)
    with (entryOffset a).
  rewrite Hn. cbn [bind]. rewrite Hw. cbn [bind]. rewrite Ho. cbn [bind].
  rewrite Hv. cbn [bind].
  unfold SP1200_SAMPLE_DATA_OFFSET, SP1200_DISK_SIZE in *.
  replace (d =? 0) with false by (symmetry; apply Z.eqb_neq; lia).
  rewrite orb_false_r.
  destruct (Z.leb_spec 2 (Z.of_nat (length (data a)))) as [H2|H2].
  - replace (Z.of_nat (length (data a)) / 2 =? 0) with false.
    2:{ symmetry. apply Z.eqb_neq. Z.div_mod_to_equations. lia. }
    replace (d + Z.of_nat (length (data a)) / 2 * 2 >? byteLength image)
      with false.
    2:{ symmetry. rewrite Z.gtb_ltb. apply Z.ltb_ge.
        Z.div_mod_to_equations. lia. }
    rewrite <- length_sampleWords, Nat2Z.id.
    apply readBytes_Ok_bytes in Hd as [_ Hb].
    rewrite (readSamples_words image d (data a) 0); try lia.
    + reflexivity.
    + intros j Hj. replace (d + 0 * 2 + j) with (d + j) by lia.
      now apply Hb.
  - replace (Z.of_nat (length (data a)) / 2 =? 0) with true.
    2:{ symmetry. apply Z.eqb_eq. apply Z.div_small. lia. }
    reflexivity.
Qed.

(** What the player reads for a pad whose table entry is zero. *)
Lemma readPad_of_zeros image b p :
  4096 <= byteLength image -> 1 <= p <= 8 ->
  (forall j, 0 <= j < 32 ->
             byte image (2048 + Player.getPadIndex b p * 32 + j) = 0) ->
  Player.readPad image b p = Ok None.
Proof.
  intros Hlen Hp Hz. unfold Player.readPad.
  assert (Hidx : 0 <= Player.getPadIndex b p < 32)
    by (unfold Player.getPadIndex; destruct b; cbn [bankOffset]; lia).
  unfold SP1200_PAD_TABLE_OFFSET, SP1200_PAD_ENTRY_SIZE.
  set (eo := 2048 + Player.getPadIndex b p * 32) in *.
  assert (Heo : 2048 <= eo /\ eo + 32 <= 3072) by (subst eo; lia).
  clearbody eo.
  cbn [readName]. unfold getUint8 at 1.
  replace (in_bounds image eo 1) with true
    by (symmetry; apply in_bounds_spec; lia).
  cbn [bind]. pose proof (Hz 0 ltac:(lia)) as H0.
  rewrite Z.add_0_r in H0. rewrite H0. cbn [Z.eqb bind].
  rewrite getUint32_le_fits by lia. cbn [bind].
  replace (eo + 12 + 1) with (eo + 13) by lia.
  replace (eo + 12 + 2) with (eo + 14) by lia.
  replace (eo + 12 + 3) with (eo + 15) by lia.
  rewrite !Hz by lia. cbn [Z.mul Z.add].
  rewrite getUint32_le_fits by lia. cbn [bind].
  unfold getUint8.
  replace (in_bounds image (eo + 25) 1) with true
    by (symmetry; apply in_bounds_spec; lia).
  reflexivity.
Qed.

Lemma getSample_Some_In this b p a :
  reachable this -> Map_get this (getPadKey b p) = Some a ->
  In a (Map_values this) /\ bank a = b /\ padNumber a = p.
Proof.
  intros Hr Hget. apply reachable_inv in Hr as [Hnd Hok].
  apply Map_get_In in Hget; [|assumption].
  rewrite Forall_forall in Hok. destruct (Hok _ Hget) as [Hk _].
  cbn [fst snd] in Hk. apply getPadKey_inj in Hk as [Hb Hpn].
  split; [|auto]. unfold Map_values.
  apply in_map_iff. now exists (getPadKey b p, a).
Qed.

Lemma getSample_None_free this b p :
  reachable this -> 1 <= p <= 8 ->
  Map_get this (getPadKey b p) = None ->
  forall a, In a (Map_values this) -> slot a <> getPadIndex b p.
Proof.
  intros Hr Hp Hget a Hin Hslot. apply reachable_inv in Hr as [Hnd Hok].
  unfold Map_values in Hin. apply in_map_iff in Hin as ([k a'] & Ha & Hin).
  cbn [snd] in Ha. subst a'.
  rewrite Forall_forall in Hok. destruct (Hok _ Hin) as [Hk Hpa].
  cbn [fst snd] in Hk, Hpa.
  assert (Hbp : bank a = b /\ padNumber a = p).
  { unfold slot, getPadIndex in Hslot.
    destruct (bank a), b; cbn [bankOffset] in Hslot;
      first [exfalso; lia | split; [reflexivity | lia]]. }
  destruct Hbp as [Hb Hpn]. rewrite Hb, Hpn in Hk. subst k.
  apply Map_get_In in Hin; [|assumption]. congruence.
Qed.

(** The player reads what the builder wrote.  Take a builder of plain
    assignments and the image it builds.  The player loads the image,
    and then for each of the 32 pads: a pad that holds an assignment of
    two data bytes or more has a sample, under the assignment's name
    (trimmed, or "Sample" and the pad when that is empty), with the
    volume byte over 255 as volume and one number per data word; every
    other pad is empty. *)
Theorem player_loads_built_image (this : Builder) (image : ArrayBuffer)
        (player : Player.SP1200Player) :
  reachable this -> Forall plain (Map_values this) ->
  fst (createDiskImage this) = Ok image ->
  fst (Player.loadDiskImage image player) = Ok tt /\
  forall b p, 1 <= p <= 8 ->
    let player' := snd (Player.loadDiskImage image player) in
    let loaded (a : SP1200PadAssignment) :=
      Player.getSampleInfo b p player'
      = Some {| Player.name := Player.displayName (name a) b p;
                Player.volume :=
                  (of_Z (volumeByte a) / of_Z SP1200_VOLUME_MAX)%float;
                Player.hasSample := true |} /\
      Map_get (Player.samples player') (Player.getPadKey b p)
      = Some (map playerSample (sampleWords (data a))) in
    let empty :=
      Player.getSampleInfo b p player' = Some Player.emptyInfo /\
      Map_get (Player.samples player') (Player.getPadKey b p) = None in
    match fst (getSample b p this) with
    | Ok (Some a) =>
        if 2 <=? Z.of_nat (length (data a)) then loaded a else empty
    | _ => empty
    end.
Proof.
  intros Hr Hplain Himage.
  destruct (createDiskImage_layout this image Hr Hplain Himage)
    as (Hlen & Hmagic & _ & _ & Hentries & Hzeros).
  destruct (loadDiskImage_facts image player) as (_ & _ & Hload).
  destruct Hload as [Hok Hpads];
    [rewrite Hlen; unfold SP1200_DISK_SIZE; lia | exact Hmagic |].
  split; [exact Hok|].
  intros b p Hp. cbn zeta. destruct (Hpads b p Hp) as [-> ->].
  unfold getSample. cbn [fst].
  unfold padInfo, padSamples.
  destruct (Map_get this (getPadKey b p)) as [a|] eqn:Hget.
  - destruct (getSample_Some_In this b p a Hr Hget) as (Hin & <- & <-).
    destruct (Hentries a Hin) as (d & Hreads & Hd0 & _ & Hfit).
    rewrite (readPad_of_entry image a d Hlen Hreads Hd0 Hfit).
    destruct (2 <=? Z.of_nat (length (data a))); auto.
  - rewrite readPad_of_zeros; auto.
    + rewrite Hlen. unfold SP1200_DISK_SIZE. lia.
    + intros j Hj. apply Hzeros; auto.
      * unfold Player.getPadIndex. destruct b; cbn [bankOffset]; lia.
      * apply getSample_None_free; auto.
Qed.

(** The theorem at the builder that holds pad B3 alone: the player finds
    "kick" on B3, with one sample, and nothing on A1. *)
Lemma player_loads_built_image_witness :
  match fst (createDiskImage (builderOf [padArg "B" 3 "kick" [1; 2]])) with
  | Ok image =>
      Player.getSampleInfo B 3
        (snd (Player.loadDiskImage image Player.new_player))
      = Some {| Player.name := str "kick";
                Player.volume := of_Z 1;
                Player.hasSample := true |} /\
      Player.getSampleInfo A 1
        (snd (Player.loadDiskImage image Player.new_player))
      = Some Player.emptyInfo
  | Throw _ => False
  end.
Proof.
  assert (Hok : match fst (createDiskImage
                             (builderOf [padArg "B" 3 "kick" [1; 2]])) with
                | Ok _ => true
                | Throw _ => false
                end = true) by (vm_compute; reflexivity).
  destruct (fst (createDiskImage (builderOf [padArg "B" 3 "kick" [1; 2]])))
    as [image|e] eqn:E; [|discriminate Hok].
  destruct (player_loads_built_image _ image Player.new_player
              (builderOf_reachable [padArg "B" 3 "kick" [1; 2]]))
    as [_ H]; [|exact E|].
  - repeat constructor; cbn; lia.
  - split.
    + exact (proj1 (H B 3 ltac:(lia))).
    + exact (proj1 (H A 1 ltac:(lia))).
Defined.

End PlayerFacts.
(** ** Built images, read back *)

Module BuiltImage.
Import SP1200 Number Props Terms JSFacts BuilderFacts ByteFacts WavFacts
       BuilderLaws ImageLayout DiskBuilder.

(** The image of a builder of plain assignments, when the build returns.
    It has the disk size; its first three little-endian words are the
    magic number 0x1200, the number of assignments and 0.  For every
    assignment the table entry of its pad holds the name, the word
    count, the offset of the data, the bank and pad bytes and the volume
    byte, and the data are at that offset, a multiple of 256 in the data
    region, with room for the end marker after them.  The entries of the
    pads that hold nothing are all zero. *)
Theorem createDiskImage_contents (this : Builder) (image : ArrayBuffer) :
  reachable this -> Forall plain (Map_values this) ->
  fst (createDiskImage this) = Ok image ->
  byteLength image = SP1200_DISK_SIZE /\
  getUint16 image 0 true = Ok SP1200_MAGIC /\
  getUint16 image 2 true = Ok (Map_size this) /\
  getUint16 image 4 true = Ok 0 /\
  (forall a, In a (Map_values this) ->
     exists d, entry_reads image a d /\
               SP1200_SAMPLE_DATA_OFFSET <= d /\ d mod 256 = 0 /\
               d + Z.of_nat (length (data a)) + 2 <= SP1200_DISK_SIZE) /\
  (forall k, 0 <= k < 32 ->
     (forall a, In a (Map_values this) -> slot a <> k) ->
     forall j, 0 <= j < 32 -> byte image (2048 + k * 32 + j) = 0).
Proof. apply createDiskImage_layout. Qed.

(** The theorem at a builder that holds B3 alone: the count is 1 and
    slot 0, the entry of pad A1, is zero. *)
Lemma createDiskImage_contents_witness :
  match fst (createDiskImage (builderOf [padArg "B" 3 "kick" [1; 2]])) with
  | Ok image =>
      getUint16 image 2 true = Ok 1 /\
      (forall j, 0 <= j < 32 -> byte image (2048 + 0 * 32 + j) = 0)
  | Throw _ => False
  end.
Proof.
  assert (Hok : match fst (createDiskImage
                             (builderOf [padArg "B" 3 "kick" [1; 2]])) with
                | Ok _ => true
                | Throw _ => false
                end = true) by (vm_compute; reflexivity).
  destruct (fst (createDiskImage (builderOf [padArg "B" 3 "kick" [1; 2]])))
    as [image|e] eqn:E; [|discriminate Hok].
  destruct (createDiskImage_contents _ image
              (builderOf_reachable [padArg "B" 3 "kick" [1; 2]]))
    as (_ & _ & Hn & _ & _ & Hz); [|exact E|].
  - repeat constructor; cbn; lia.
  - split; [exact Hn|]. apply Hz; [lia|].
    intros a [<-|[]]. discriminate.
Defined.

(** *** [parseSP1200Disk] on a builder that fills the first slots *)

Lemma sorted_length l : forall lo hi,
  StronglySorted (fun a b => slot a < slot b) l ->
  Forall (fun a => lo <= slot a < hi) l ->
  l = [] \/ Z.of_nat (length l) <= hi - lo.
Proof.
  induction l as [|a l IH]; intros lo hi Hs Hall; [now left|]. right.
  apply StronglySorted_inv in Hs as [Hs Hlt].
  apply Forall_cons_iff in Hall as [Ha Hall].
  destruct (IH (slot a + 1) hi Hs) as [->|Hlen].
  - rewrite Forall_forall in *. intros b Hin.
    specialize (Hlt b Hin). specialize (Hall b Hin). cbn in Hlt. lia.
  - cbn. lia.
  - cbn [length]. lia.
Qed.

Lemma sorted_first_slots l : forall lo,
  StronglySorted (fun a b => slot a < slot b) l ->
  Forall (fun a => lo <= slot a < lo + Z.of_nat (length l)) l ->
  map slot l = map (fun i => lo + Z.of_nat i) (seq 0 (length l)).
Proof.
  induction l as [|a l IH]; intros lo Hs Hall; [reflexivity|].
  pose proof Hs as Hs0.
  apply StronglySorted_inv in Hs as [Hs Hlt].
  apply Forall_cons_iff in Hall as [Ha Hall]. cbn [length] in *.
  assert (Hrest : Forall (fun b => slot a + 1 <= slot b
                                   < lo + Z.of_nat (S (length l))) l).
  { rewrite Forall_forall in *. intros b Hin.
    specialize (Hlt b Hin). specialize (Hall b Hin). cbn in Hlt. lia. }
  assert (Hhead : slot a = lo).
  { destruct (sorted_length l _ _ Hs Hrest) as [->|Hlen]; cbn in *; lia. }
  cbn [map seq]. rewrite Z.add_0_r. f_equal; [exact Hhead|].
  rewrite <- seq_shift, map_map.
  rewrite (IH (lo + 1)); auto.
  - apply map_ext. intros i. lia.
  - rewrite Forall_forall in *. intros b Hin. specialize (Hrest b Hin). lia.
Qed.

Lemma readBytes_prefix view n : forall off l m,
  readBytes view off n = Ok l -> (m <= n)%nat ->
  readBytes view off m = Ok (firstn m l).
Proof.
  induction n as [|n IH]; intros off l m H Hm.
  - replace m with 0%nat by lia. cbn in H. apply Ok_inj in H. now subst l.
  - cbn [readBytes] in H.
    apply bind_Ok in H as (x & Ex & H).
    apply bind_Ok in H as (xs & Exs & H). apply Ok_inj in H. subst l.
    destruct m as [|m]; [reflexivity|].
    cbn [readBytes firstn]. rewrite Ex. cbn [bind].
    rewrite (IH _ _ m Exs) by lia. reflexivity.
Qed.

Lemma parseEntry_of_entry image a d :
  1 <= padNumber a <= 8 ->
  entry_reads image a d ->
  parseEntry image (slot a) = Ok (parsedSample a).
Proof.
  intros Hp (Hn & Hw & Ho & Hb & Hpn & _ & Hd).
  unfold parseEntry.
  change (SP1200_PAD_TABLE_OFFSET + slot a * SP1200_PAD_ENTRY_SIZE)
    with (entryOffset a).
  rewrite Hn. cbn [bind]. rewrite Hw. cbn [bind]. rewrite Ho. cbn [bind].
  rewrite Hb. cbn [bind]. rewrite Hpn. cbn [bind].
  rewrite (readBytes_prefix _ _ _ _ _ Hd).
  2:{ apply Nat2Z.inj_le. rewrite Z2Nat.id by (apply Z.mul_nonneg_nonneg;
        [apply Z.div_pos|]; lia).
      Z.div_mod_to_equations. lia. }
  cbn [bind]. unfold parsedSample. f_equal. f_equal.
  - now destruct (bank a).
  - lia.
Qed.

Lemma parseEntries_sorted image l : forall i,
  Forall (fun a => 1 <= padNumber a <= 8 /\
                   exists d, entry_reads image a d) l ->
  map slot l = map (fun k => i + Z.of_nat k) (seq 0 (length l)) ->
  parseEntries image i (length l) = Ok (map parsedSample l).
Proof.
  induction l as [|a l IH]; intros i Hall Hslots; [reflexivity|].
  apply Forall_cons_iff in Hall as [(Hp & d & Hd) Hall].
  cbn [map seq length] in Hslots. injection Hslots as Ha Hrest.
  rewrite Z.add_0_r in Ha.
  cbn [length parseEntries map].
  rewrite <- Ha, (parseEntry_of_entry image a d Hp Hd). cbn [bind].
  rewrite (IH (slot a + 1) Hall); [reflexivity|].
  rewrite Hrest, <- seq_shift, map_map.
  apply map_ext. intros k. lia.
Qed.

(** When the pads a builder holds are the first ones of the table (A1,
    or A1 and A2, ...: every occupied slot is below the number of
    assignments), [parseSP1200Disk] reads the built image back: one
    sample per assignment, in pad order, with the name trimmed and the
    whole words of the data. *)
Theorem parseSP1200Disk_first_slots (this : Builder) (image : ArrayBuffer) :
  reachable this -> Forall plain (Map_values this) ->
  (forall a, In a (Map_values this) -> slot a < Map_size this) ->
  fst (createDiskImage this) = Ok image ->
  parseSP1200Disk image
  = Ok {| samples :=
            map parsedSample
                (sort compareAssignments (Map_values this));
          sequences := [] |}.
Proof.
  intros Hr Hplain Hdense Himage.
  destruct (createDiskImage_layout this image Hr Hplain Himage)
    as (Hlen & Hmagic & Hcount & Hseq & Hentries & _).
  destruct (reachable_capacity this Hr) as (Hcap & Hnd & Hvalid).
  set (sorted := sort compareAssignments (Map_values this)).
  assert (Hperm : Permutation sorted (Map_values this))
    by apply sort_Permutation.
  assert (Hsize : Map_size this = Z.of_nat (length sorted)).
  { unfold Map_size. rewrite (Permutation_length Hperm).
    unfold Map_values. now rewrite length_map. }
  assert (Hsorted : StronglySorted (fun a b => slot a < slot b) sorted).
  { apply sorted_slots.
    - eapply Permutation_Forall; [symmetry; exact Hperm | exact Hvalid].
    - eapply Permutation_NoDup;
        [apply Permutation_map; symmetry; exact Hperm | exact Hnd].
    - apply sort_sorted.
      + intros x y. rewrite !compareAssignments_le. lia.
      + intros x y z. rewrite !compareAssignments_le. lia. }
  assert (Hslots : map slot sorted
                   = map (fun k => 0 + Z.of_nat k) (seq 0 (length sorted))).
  { apply sorted_first_slots; [exact Hsorted|].
    apply Forall_forall. intros a Hin.
    assert (Hin' : In a (Map_values this))
      by (eapply Permutation_in; [exact Hperm | exact Hin]).
    rewrite Forall_forall in Hvalid.
    pose proof (slot_range a (Hvalid a Hin')).
    specialize (Hdense a Hin'). lia. }
  unfold parseSP1200Disk. rewrite Hmagic. cbn [bind].
  change (negb (SP1200_MAGIC =? bitand SP1200_MAGIC 65535)) with false.
  cbv iota. rewrite Hcount, Hseq. cbn [bind].
  rewrite Hsize, Nat2Z.id.
  rewrite (parseEntries_sorted image sorted 0); [reflexivity | | exact Hslots].
  apply Forall_forall. intros a Hin.
  assert (Hin' : In a (Map_values this))
    by (eapply Permutation_in; [exact Hperm | exact Hin]).
  rewrite Forall_forall in Hvalid. split; [auto|].
  destruct (Hentries a Hin') as (d & Hd & _). eauto.
Qed.

(** The theorem at a builder to which A2 was added before A1. *)
Lemma parseSP1200Disk_first_slots_witness :
  match fst (createDiskImage
               (builderOf [padArg "A" 2 "snare" [3; 4; 5];
                           padArg "A" 1 " kick" [1; 2]])) with
  | Ok image =>
      parseSP1200Disk image
      = Ok {| samples := [sampleOf (str "kick") A 1 [1; 2] 1;
                          sampleOf (str "snare") A 2 [3; 4] 1];
              sequences := [] |}
  | Throw _ => False
  end.
Proof.
  set (this := builderOf [padArg "A" 2 "snare" [3; 4; 5];
                          padArg "A" 1 " kick" [1; 2]]).
  assert (Hok : match fst (createDiskImage this) with
                | Ok _ => true
                | Throw _ => false
                end = true) by (vm_compute; reflexivity).
  destruct (fst (createDiskImage this)) as [image|e] eqn:E;
    [|discriminate Hok].
  apply (parseSP1200Disk_first_slots this image).
  - apply builderOf_reachable.
  - repeat constructor; cbn; lia.
  - intros a [<-|[<-|[]]]; vm_compute; reflexivity.
  - exact E.
Defined.

End BuiltImage.
(** ** What the disk parser returns *)

Module ParseFacts.
Import SP1200 Props Terms JSFacts ByteFacts WavFacts WavLaws PlayerFacts.

Lemma readName_length view n : forall off name,
  readName view off n = Ok name ->
  (length name <= n)%nat /\ Forall (fun c => 1 <= c <= 255) name.
Proof.
  induction n as [|n IH]; intros off name H.
  - cbn in H. apply Ok_inj in H. subst name. split; [cbn; lia | constructor].
  - cbn [readName] in H. apply bind_Ok in H as (c & Ec & H).
    unfold getUint8 in Ec. destruct (in_bounds view off 1); [|discriminate].
    apply Ok_inj in Ec. pose proof (byte_range view off) as Hr.
    rewrite Ec in Hr.
    destruct (Z.eqb_spec c 0) as [->|Hc].
    + apply Ok_inj in H. subst name. split; [cbn; lia | constructor].
    + apply bind_Ok in H as (rest & Er & H). apply Ok_inj in H. subst name.
      apply IH in Er as [Hl Hf]. split; [cbn; lia|].
      constructor; [lia | assumption].
Qed.

Lemma trimStart_length s : (length (trimStart s) <= length s)%nat.
Proof.
  induction s as [|c s IH]; cbn; [lia|].
  destruct (is_space c); cbn; lia.
Qed.

Lemma trim_length s : (length (trim s) <= length s)%nat.
Proof.
  unfold trim. rewrite length_rev.
  etransitivity; [apply trimStart_length|]. rewrite length_rev.
  apply trimStart_length.
Qed.

Lemma parseEntry_result view i s :
  parseEntry view i = Ok s ->
  Z.of_nat (length (s_data s)) = 2 * s_length s /\
  0 <= s_length s < 4294967296 /\
  s_sampleRate s = SP1200_SAMPLE_RATE /\ s_bitsPerSample s = 12 /\
  1 <= s_padNumber s <= 256 /\
  (length (s_name s) <= 12)%nat /\
  s_metadata s = None.
Proof.
  unfold parseEntry. intros H.
  apply bind_Ok in H as (name & En & H).
  apply bind_Ok in H as (numWords & Ew & H).
  apply bind_Ok in H as (sampleOffset & Eo & H).
  apply bind_Ok in H as (bankIndex & Eb & H).
  apply bind_Ok in H as (padByte & Ep & H).
  apply bind_Ok in H as (sampleData & Ed & H).
  apply Ok_inj in H. subst s.
  cbn [s_data s_length s_sampleRate s_bitsPerSample s_padNumber s_name
       s_metadata].
  apply getUint32_range in Ew.
  apply readBytes_Ok_bytes in Ed as [Hl _].
  apply readName_length in En as [Hn _].
  unfold getUint8 in Ep. destruct (in_bounds view _ 1); [|discriminate].
  apply Ok_inj in Ep. pose proof (byte_range view
    (SP1200_PAD_TABLE_OFFSET + i * SP1200_PAD_ENTRY_SIZE + 21)) as Hr.
  rewrite Ep in Hr.
  pose proof (trim_length name).
  repeat split; try lia.
Qed.

Lemma parseEntries_result view n : forall i l,
  parseEntries view i n = Ok l ->
  length l = n /\
  Forall (fun s => exists k, parseEntry view k = Ok s) l.
Proof.
  induction n as [|n IH]; intros i l H.
  - cbn in H. apply Ok_inj in H. subst l. split; [reflexivity|constructor].
  - cbn [parseEntries] in H.
    apply bind_Ok in H as (s & Es & H).
    apply bind_Ok in H as (rest & Er & H). apply Ok_inj in H. subst l.
    apply IH in Er as [Hl Hf]. split; [cbn; lia|].
    constructor; eauto.
Qed.

(** What a caller can rely on when [parseSP1200Disk] returns, whatever
    the buffer held: no sequences; as many samples as the count in the
    header says; for each sample twice as many data bytes as its
    [length], the native rate and depth, a name of 12 characters at
    most, no metadata, and a pad number between 1 and 256 (the pad byte
    is not checked against the eight pads). *)
Theorem parseSP1200Disk_result (diskData : ArrayBuffer) (disk : SP1200Disk) :
  parseSP1200Disk diskData = Ok disk ->
  sequences disk = [] /\
  getUint16 diskData 2 true = Ok (Z.of_nat (length (samples disk))) /\
  Forall (fun s =>
            Z.of_nat (length (s_data s)) = 2 * s_length s /\
            0 <= s_length s < 4294967296 /\
            s_sampleRate s = SP1200_SAMPLE_RATE /\ s_bitsPerSample s = 12 /\
            1 <= s_padNumber s <= 256 /\
            (length (s_name s) <= 12)%nat /\
            s_metadata s = None)
         (samples disk).
Proof.
  unfold parseSP1200Disk. intros H.
  apply bind_Ok in H as (magic & _ & H).
  destruct (negb _); [discriminate|].
  apply bind_Ok in H as (numSamples & En & H).
  apply bind_Ok in H as (numSequences & _ & H).
  apply bind_Ok in H as (l & El & H).
  apply Ok_inj in H. subst disk. cbn [sequences samples].
  apply parseEntries_result in El as [Hl Hf].
  split; [reflexivity|]. split.
  - rewrite En, Hl. f_equal. apply getUint16_range in En. lia.
  - eapply Forall_impl; [|exact Hf].
    intros s (k & Hk). now apply parseEntry_result in Hk.
Qed.

Lemma parseSP1200Disk_result_witness :
  match parseSP1200Disk
          (of_bytes ([0; 18; 1; 0; 0; 0] ++ repeat 0 4096)) with
  | Ok disk => length (samples disk) = 1%nat
  | Throw _ => False
  end.
Proof.
  destruct (parseSP1200Disk
              (of_bytes ([0; 18; 1; 0; 0; 0] ++ repeat 0 4096)))
    as [disk|e] eqn:E; [|vm_compute in E; discriminate E].
  destruct (parseSP1200Disk_result _ disk E) as (_ & Hn & _).
  assert (Hc : getUint16 (of_bytes ([0; 18; 1; 0; 0; 0] ++ repeat 0 4096))
                         2 true = Ok 1) by (vm_compute; reflexivity).
  rewrite Hc in Hn. apply Ok_inj in Hn. lia.
Defined.

End ParseFacts.
(** ** The 12-bit decoder of sp1200.ts *)

Module CodecFacts.
Import SP1200 JSFacts ByteFacts WavFacts.

Lemma Int16Array_store_length output : forall i v,
  length (SP1200Codec.Int16Array_store output i v) = length output.
Proof.
  induction output as [|x output IH]; intros [|i] v; cbn; auto.
Qed.

Lemma Int16Array_store_nth output : forall i v k,
  nth k (SP1200Codec.Int16Array_store output i v) 0 =
  if (k =? i)%nat && (i <? length output)%nat
  then SP1200Codec.ToInt16 v else nth k output 0.
Proof.
  induction output as [|x output IH]; intros i v k.
  - cbn. rewrite andb_false_r. now destruct i.
  - destruct i as [|i], k as [|k]; cbn [SP1200Codec.Int16Array_store nth];
      try reflexivity.
    rewrite IH. reflexivity.
Qed.

Lemma bitand_0xFFFF x :
  - 2 ^ 31 <= x < 2 ^ 31 -> bitand x 0xFFFF = x mod 65536.
Proof.
  intros Hx. unfold bitand. change (JS.ToInt32 65535) with (Z.ones 16).
  rewrite Z.land_ones by lia. rewrite (ToInt32_small x) by assumption.
  change (2 ^ 16) with 65536.
  assert (0 <= x mod 65536 < 65536) by (apply Z.mod_pos_bound; lia).
  apply ToInt32_small. lia.
Qed.

Lemma bitand_0x0FFF_mod x : 0 <= x < 65536 -> bitand x 0x0FFF = x mod 4096.
Proof.
  intros Hx. unfold bitand. change (JS.ToInt32 4095) with (Z.ones 12).
  rewrite Z.land_ones by lia. rewrite (ToInt32_small x) by lia.
  change (2 ^ 12) with 4096.
  assert (0 <= x mod 4096 < 4096) by (apply Z.mod_pos_bound; lia).
  apply ToInt32_small. lia.
Qed.

Lemma ToInt16_signed x :
  - 32768 <= x < 32768 -> SP1200Codec.ToInt16 (x mod 65536) = x.
Proof.
  intros Hx. unfold SP1200Codec.ToInt16. rewrite Z.mod_mod by lia.
  destruct (Z_lt_le_dec x 0).
  - rewrite <- (Z.mod_add x 1 65536) by lia.
    rewrite Z.mod_small by lia.
    destruct (Z.ltb_spec (x + 1 * 65536) 32768); lia.
  - rewrite Z.mod_small by lia.
    destruct (Z.ltb_spec x 32768); lia.
Qed.

(** The value the loop stores for the word at index [i]. *)
Lemma stored_value view i :
  let word := byte view (2 * i) + 256 * byte view (2 * i + 1) in
  SP1200Codec.ToInt16 (bitand ((bitand word 0x0FFF - 2048) * 16) 0xFFFF)
  = (word mod 4096 - 2048) * 16.
Proof.
  intros word.
  pose proof (byte_range view (2 * i)).
  pose proof (byte_range view (2 * i + 1)).
  rewrite bitand_0x0FFF_mod by (subst word; lia).
  assert (0 <= word mod 4096 < 4096) by (apply Z.mod_pos_bound; lia).
  rewrite bitand_0xFFFF by lia.
  apply ToInt16_signed. lia.
Qed.

Lemma convertWords_spec view count : forall i output,
  0 <= i -> 2 * (i + Z.of_nat count) <= byteLength view ->
  exists output',
    SP1200Codec.convertWords count i view output = Ok output' /\
    length output' = length output /\
    forall k,
      nth k output' 0 =
      if (i <=? Z.of_nat k) && (Z.of_nat k <? i + Z.of_nat count)
         && (k <? length output)%nat
      then ((byte view (2 * Z.of_nat k)
             + 256 * byte view (2 * Z.of_nat k + 1)) mod 4096 - 2048) * 16
      else nth k output 0.
Proof.
  induction count as [|count IH]; intros i output Hi Hb.
  - exists output. split; [reflexivity|]. split; [reflexivity|].
    intros k.
    replace ((i <=? Z.of_nat k) && (Z.of_nat k <? i + Z.of_nat 0)) with false
      by (symmetry; destruct (Z.leb_spec i (Z.of_nat k));
          destruct (Z.ltb_spec (Z.of_nat k) (i + Z.of_nat 0)); cbn; lia).
    reflexivity.
  - cbn [SP1200Codec.convertWords].
    replace (i * 2) with (2 * i) by lia.
    rewrite getUint16_le_fits by lia. cbn [bind].
    replace (i <? 0) with false by (symmetry; bool_lia).
    replace (2 * i + 1) with (2 * i + 1) by lia.
    destruct (IH (i + 1)
                 (SP1200Codec.Int16Array_store output (Z.to_nat i)
                    (bitand ((bitand (byte view (2 * i)
                                      + 256 * byte view (2 * i + 1)) 0x0FFF
                              - 2048) * 16) 0xFFFF)))
      as (output' & E & Hl & Hn); [lia | lia |].
    exists output'. split; [exact E|].
    rewrite Int16Array_store_length in Hl. split; [exact Hl|].
    intros k. rewrite Hn, Int16Array_store_length, Int16Array_store_nth.
    destruct (Nat.ltb_spec k (length output)) as [Hk|Hk].
    + destruct (Nat.eqb_spec k (Z.to_nat i)) as [->|Hne].
      * rewrite Z2Nat.id by lia.
        replace (i + 1 <=? i) with false by (symmetry; bool_lia).
        replace (i <=? i) with true by (symmetry; bool_lia).
        replace (i <? i + Z.of_nat (S count)) with true
          by (symmetry; bool_lia).
        replace (Z.to_nat i <? length output)%nat with true
          by (symmetry; apply Nat.ltb_lt; lia).
        cbn [andb]. apply stored_value.
      * cbn [andb].
        destruct (Z.leb_spec (i + 1) (Z.of_nat k));
          destruct (Z.leb_spec i (Z.of_nat k));
          destruct (Z.ltb_spec (Z.of_nat k) (i + 1 + Z.of_nat count));
          destruct (Z.ltb_spec (Z.of_nat k) (i + Z.of_nat (S count)));
          cbn [andb]; try reflexivity; lia.
    + rewrite !andb_false_r.
      destruct (Nat.ltb_spec (Z.to_nat i) (length output));
        rewrite ?andb_false_r, ?andb_true_r; [|reflexivity].
      destruct (Nat.eqb_spec k (Z.to_nat i)); [lia | reflexivity].
Qed.

Lemma convertWords_needs_room view count : forall i output r,
  0 <= i ->
  SP1200Codec.convertWords count i view output = r ->
  match r with
  | Ok _ => count = O \/ 2 * (i + Z.of_nat count) <= byteLength view
  | Throw e => e = RangeError
  end.
Proof.
  induction count as [|count IH]; intros i output r Hi H.
  - cbn in H. subst r. now left.
  - cbn [SP1200Codec.convertWords] in H.
    unfold getUint16 in H at 1.
    destruct (in_bounds view (i * 2) 2) eqn:Eb.
    + cbn [bind] in H. apply IH in H; [|lia].
      destruct r as [o|e]; [|exact H]. right.
      apply in_bounds_spec in Eb. lia.
    + cbn [bind] in H. subst r. reflexivity.
Qed.

(** On a view of even length the decoder returns one 16-bit value per
    word: the low 12 bits of the little-endian word, less the bias 2048,
    times 16, so a multiple of 16 from -32768 to 32752.  The words are
    those at the start of the underlying buffer: the view's own offset
    into it is not used. *)
Theorem convert12BitTo16Bit_values (data : SP1200Codec.Uint8Array) :
  0 <= SP1200Codec.length data ->
  Z.even (SP1200Codec.length data) = true ->
  SP1200Codec.length data <= byteLength (SP1200Codec.buffer data) ->
  exists output,
    SP1200Codec.convert12BitTo16Bit data = Ok output /\
    Z.of_nat (length output) = SP1200Codec.length data / 2 /\
    forall i, 0 <= i < SP1200Codec.length data / 2 ->
      let word := byte (SP1200Codec.buffer data) (2 * i)
                  + 256 * byte (SP1200Codec.buffer data) (2 * i + 1) in
      nth (Z.to_nat i) output 0 = (word mod 4096 - 2048) * 16 /\
      - 32768 <= nth (Z.to_nat i) output 0 <= 32752.
Proof.
  intros H0 He Hb. unfold SP1200Codec.convert12BitTo16Bit.
  apply Z.even_spec in He as [h Hh].
  assert (E1 : (SP1200Codec.length data + 1) / 2 = h).
  { rewrite Hh. replace (2 * h + 1) with (1 + h * 2) by lia.
    rewrite Z.div_add by lia. reflexivity. }
  assert (E2 : SP1200Codec.length data / 2 = h).
  { rewrite Hh. replace (2 * h) with (h * 2) by lia.
    apply Z.div_mul. lia. }
  rewrite E1, E2.
  destruct (convertWords_spec (SP1200Codec.buffer data) (Z.to_nat h) 0
              (repeat 0 (Z.to_nat h))) as (output & E & Hl & Hn);
    [lia | lia |].
  exists output. split; [exact E|].
  rewrite repeat_length in Hl. split; [lia|].
  intros i Hi.
  set (word := byte (SP1200Codec.buffer data) (2 * i)
               + 256 * byte (SP1200Codec.buffer data) (2 * i + 1)).
  rewrite Hn, repeat_length.
  rewrite Z2Nat.id by lia.
  replace (0 <=? i) with true by (symmetry; bool_lia).
  replace (i <? 0 + Z.of_nat (Z.to_nat h)) with true by (symmetry; bool_lia).
  replace (Z.to_nat i <? Z.to_nat h)%nat with true
    by (symmetry; apply Nat.ltb_lt; lia).
  cbn [andb]. split; [reflexivity|].
  assert (0 <= word mod 4096 < 4096) by (apply Z.mod_pos_bound; lia).
  fold word. lia.
Qed.

Lemma convert12BitTo16Bit_values_witness :
  exists output,
    SP1200Codec.convert12BitTo16Bit
      {| SP1200Codec.buffer := of_bytes [0x00; 0x08; 0xFF; 0xFF];
         SP1200Codec.byteOffset := 0;
         SP1200Codec.length := 4 |} = Ok output /\
    nth 0 output 0 = 0 /\ nth 1 output 0 = 32752.
Proof.
  destruct (convert12BitTo16Bit_values
              {| SP1200Codec.buffer := of_bytes [0x00; 0x08; 0xFF; 0xFF];
                 SP1200Codec.byteOffset := 0;
                 SP1200Codec.length := 4 |})
    as (output & E & _ & Hn); [cbn; lia | reflexivity | cbn; lia |].
  exists output. split; [exact E|]. split.
  - destruct (Hn 0) as [H _]; [cbn; lia|]. exact H.
  - destruct (Hn 1) as [H _]; [cbn; lia|]. exact H.
Defined.

(** A [Uint8Array] of odd length that fills its buffer is not decoded:
    the loop makes one iteration for the last, single byte and its
    16-bit read runs off the end of the buffer, which throws
    [RangeError]. *)
Theorem convert12BitTo16Bit_odd_length (data : SP1200Codec.Uint8Array) :
  0 <= SP1200Codec.length data ->
  Z.odd (SP1200Codec.length data) = true ->
  byteLength (SP1200Codec.buffer data) <= SP1200Codec.length data ->
  SP1200Codec.convert12BitTo16Bit data = Throw RangeError.
Proof.
  intros H0 Ho Hb. unfold SP1200Codec.convert12BitTo16Bit.
  apply Z.odd_spec in Ho as [h Hh].
  assert (E1 : (SP1200Codec.length data + 1) / 2 = h + 1).
  { rewrite Hh. replace (2 * h + 1 + 1) with ((h + 1) * 2) by lia.
    apply Z.div_mul. lia. }
  rewrite E1.
  pose proof (convertWords_needs_room (SP1200Codec.buffer data)
                (Z.to_nat (h + 1)) 0
                (repeat 0 (Z.to_nat (SP1200Codec.length data / 2)))
                _ (Z.le_refl 0) eq_refl) as H.
  destruct (SP1200Codec.convertWords _ _ _ _) as [o|e].
  - destruct H as [H|H]; lia.
  - now subst e.
Qed.

Lemma convert12BitTo16Bit_odd_length_witness :
  SP1200Codec.convert12BitTo16Bit
    {| SP1200Codec.buffer := of_bytes [1; 2; 3];
       SP1200Codec.byteOffset := 0;
       SP1200Codec.length := 3 |} = Throw RangeError.
Proof.
  apply convert12BitTo16Bit_odd_length; [cbn; lia | reflexivity | cbn; lia].
Defined.

End CodecFacts.
(** ** The helpers of the conversion route *)

Module RouteFacts.
Import SP1200 Terms JSFacts ByteFacts WavFacts Wav Route WavLaws
       WavRoundTrip RouteHelpers.

Lemma utf8_of_code_point_length c :
  (length (utf8_of_code_point c) <= 4)%nat.
Proof.
  unfold utf8_of_code_point.
  destruct (c <? 128), (c <? 2048), (c <? 65536); cbn; lia.
Qed.

Lemma TextEncoder_encode_cons c rest :
  TextEncoder_encode (c :: rest) =
  if is_high_surrogate c then
    match rest with
    | d :: rest' =>
        if is_low_surrogate d
        then utf8_of_code_point (65536 + (c - 55296) * 1024 + (d - 56320))
             ++ TextEncoder_encode rest'
        else utf8_of_code_point 65533 ++ TextEncoder_encode rest
    | [] => utf8_of_code_point 65533
    end
  else if is_low_surrogate c
       then utf8_of_code_point 65533 ++ TextEncoder_encode rest
       else utf8_of_code_point c ++ TextEncoder_encode rest.
Proof. reflexivity. Qed.

Lemma TextEncoder_encode_length s :
  (length (TextEncoder_encode s) <= 4 * length s)%nat.
Proof.
  enough (H : (length (TextEncoder_encode s) <= 4 * length s)%nat /\
              forall c, (length (TextEncoder_encode (c :: s))
                         <= 4 * length (c :: s))%nat) by apply H.
  induction s as [|d s [IH1 IH2]].
  - split; [cbn; lia|]. intros c. cbn [TextEncoder_encode].
    pose proof (utf8_of_code_point_length 65533).
    pose proof (utf8_of_code_point_length c).
    destruct (is_high_surrogate c); [cbn [length]; lia|].
    destruct (is_low_surrogate c); rewrite length_app; cbn [length]; lia.
  - split; [apply IH2|]. intros c.
    rewrite TextEncoder_encode_cons.
    pose proof (utf8_of_code_point_length 65533).
    pose proof (utf8_of_code_point_length c).
    pose proof (utf8_of_code_point_length
                  (65536 + (c - 55296) * 1024 + (d - 56320))).
    specialize (IH2 d). cbn [length] in *.
    destruct (is_high_surrogate c).
    + destruct (is_low_surrogate d); rewrite length_app; lia.
    + destruct (is_low_surrogate c); rewrite length_app; lia.
Qed.

Lemma slice0_length n s : (length (slice0 n s) <= n)%nat.
Proof. unfold slice0. apply firstn_le_length. Qed.

(** [createSP1200Header] always returns a 128-byte header: the magic
    0x1200, the length as a 32-bit value, the rate 26040, the depth 12
    and the channel count 1 in their fields, all little-endian.  The
    UTF-8 bytes of the first 12 characters of the name start at offset 6;
    those that reach offset 20 are overwritten by the rate, depth and
    channel fields.  Every other byte is 0. *)
Theorem createSP1200Header_layout (sampleName : jsstring) (sampleLength : Z) :
  exists header,
    createSP1200Header sampleName sampleLength = Ok header /\
    byteLength header = 128 /\
    getUint16 header 0 true = Ok 0x1200 /\
    getUint32 header 2 true = Ok (sampleLength mod 4294967296) /\
    getUint32 header 20 true = Ok 26040 /\
    getUint16 header 24 true = Ok 12 /\
    getUint16 header 26 true = Ok 1 /\
    (forall j, 0 <= j < Z.of_nat (length (TextEncoder_encode
                                            (slice0 12 sampleName))) ->
               6 + j < 20 \/ 28 <= 6 + j ->
               byte header (6 + j)
               = nth (Z.to_nat j)
                     (TextEncoder_encode (slice0 12 sampleName)) 0 mod 256) /\
    (forall i, 6 + Z.of_nat (length (TextEncoder_encode
                                       (slice0 12 sampleName))) <= i < 128 ->
               i < 20 \/ 28 <= i -> byte header i = 0).
Proof.
  pose proof (TextEncoder_encode_length (slice0 12 sampleName)) as Hl.
  pose proof (slice0_length 12 sampleName) as Hs.
  unfold createSP1200Header, SP1200_HEADER_SIZE, RouteHelpers.SP1200_MAGIC,
    RouteHelpers.SP1200_SAMPLE_RATE.
  set (nameBytes := TextEncoder_encode (slice0 12 sampleName)) in *.
  rewrite setUint16_fits by (cbn [byteLength store fill alloc]; lia).
  cbn [bind].
  rewrite setUint32_le_fits by (cbn [byteLength store fill alloc]; lia).
  cbn [bind].
  rewrite Uint8Array_set_fits by (cbn [byteLength store fill alloc]; lia).
  cbn [bind].
  rewrite setUint32_le_fits by (cbn [byteLength store fill alloc]; lia).
  cbn [bind].
  rewrite setUint16_fits by (cbn [byteLength store fill alloc]; lia).
  cbn [bind].
  rewrite setUint16_fits by (cbn [byteLength store fill alloc]; lia).
  eexists. split; [reflexivity|].
  match goal with |- byteLength ?b = _ /\ _ => set (header := b) end.
  assert (Hbl : byteLength header = 128) by reflexivity.
  split; [exact Hbl|].
  assert (0 <= sampleLength mod 4294967296 < 4294967296)
    by (apply Z.mod_pos_bound; lia).
  refine (conj _ (conj _ (conj _ (conj _ (conj _ (conj _ _)))))).
  - rewrite getUint16_le_fits by lia. apply f_equal.
    unfold byte. subst header. cbn [byteAt store fill alloc byteLength].
    decide_ifs. reflexivity.
  - rewrite getUint32_le_fits by lia. apply f_equal.
    unfold byte. subst header. cbn [byteAt store fill alloc byteLength].
    decide_ifs. apply uint32_bytes. assumption.
  - rewrite getUint32_le_fits by lia. apply f_equal.
    unfold byte. subst header. cbn [byteAt store fill alloc byteLength].
    decide_ifs. reflexivity.
  - rewrite getUint16_le_fits by lia. apply f_equal.
    unfold byte. subst header. cbn [byteAt store fill alloc byteLength].
    decide_ifs. reflexivity.
  - rewrite getUint16_le_fits by lia. apply f_equal.
    unfold byte. subst header. cbn [byteAt store fill alloc byteLength].
    decide_ifs. reflexivity.
  - intros j Hj Hout. unfold byte. subst header.
    cbn [byteAt store fill alloc byteLength].
    destruct Hout; decide_ifs;
      replace (6 + j - 6) with j by lia; reflexivity.
  - intros i Hi Hout. unfold byte. subst header.
    cbn [byteAt store fill alloc byteLength].
    destruct Hout; decide_ifs; reflexivity.
Qed.

(** *** [findWavDataChunk] *)

Lemma fourCharCode_outcome view off r :
  fourCharCode view off = r ->
  match r with
  | Ok id => 0 <= off /\ off + 4 <= byteLength view /\
             id = [byte view off; byte view (off + 1); byte view (off + 2);
                   byte view (off + 3)]
  | Throw e => e = RangeError
  end.
Proof.
  intros <-. unfold fourCharCode, getUint8.
  destruct (in_bounds view off 1) eqn:E0; [|reflexivity].
  destruct (in_bounds view (off + 1) 1) eqn:E1; [|reflexivity].
  destruct (in_bounds view (off + 2) 1) eqn:E2; [|reflexivity].
  destruct (in_bounds view (off + 3) 1) eqn:E3; [|reflexivity].
  cbn [bind]. apply in_bounds_spec in E0, E3.
  repeat split; lia || reflexivity.
Qed.

Lemma getUint32_outcome view off r :
  getUint32 view off true = r ->
  match r with
  | Ok v => 0 <= off /\ off + 4 <= byteLength view /\ 0 <= v < 4294967296
  | Throw e => e = RangeError
  end.
Proof.
  intros <-. destruct (getUint32 view off true) as [v|e] eqn:E.
  - pose proof (getUint32_range _ _ _ _ E). unfold getUint32 in E.
    destruct (in_bounds view off 4) eqn:Eb; [|discriminate].
    apply in_bounds_spec in Eb. lia.
  - unfold getUint32 in E. destruct (in_bounds view off 4); congruence.
Qed.

Lemma findChunk_outcome view fuel : forall offset,
  0 <= offset -> Z.even offset = true ->
  byteLength view - offset <= 8 * Z.of_nat fuel ->
  exists r, findChunk fuel view offset = Some r /\
            chunk_outcome view offset r.
Proof.
  induction fuel as [|fuel IH]; intros offset H0 He Hfuel.
  - cbn [findChunk].
    replace (offset <? byteLength view) with false by (symmetry; bool_lia).
    eexists. split; reflexivity.
  - cbn [findChunk].
    destruct (Z.ltb_spec offset (byteLength view)) as [Hlt|Hge];
      [|eexists; split; reflexivity].
    pose proof (fourCharCode_outcome view offset _ eq_refl) as Hid.
    destruct (fourCharCode view offset) as [chunkId|e]; cbn [bind].
    2:{ subst e. eexists. split; [reflexivity | exact Hlt]. }
    destruct Hid as (_ & Hfit & Hid).
    pose proof (getUint32_outcome view (offset + 4) _ eq_refl) as Hsz.
    destruct (getUint32 view (offset + 4) true) as [chunkSize|e] eqn:Esz;
      cbn [bind].
    2:{ subst e. eexists. split; [reflexivity | exact Hlt]. }
    destruct Hsz as (_ & Hfit8 & Hsz).
    destruct (jsstring_eqb chunkId (str "data")) eqn:Edata.
    + eexists. split; [reflexivity|].
      apply jsstring_eqb_eq in Edata.
      cbn [chunk_outcome RouteHelpers.dataOffset RouteHelpers.dataLength map].
      split; [lia|]. split.
      { rewrite Z.even_add, He. reflexivity. }
      split.
      { rewrite <- Edata, Hid.
        replace (offset + 8 - 8) with offset by lia.
        replace (offset + 8 - 7) with (offset + 1) by lia.
        replace (offset + 8 - 6) with (offset + 2) by lia.
        replace (offset + 8 - 5) with (offset + 3) by lia.
        reflexivity. }
      rewrite <- Esz. f_equal. lia.
    + set (next := if negb ((offset + (8 + chunkSize)) mod 2 =? 0)
                   then offset + (8 + chunkSize) + 1
                   else offset + (8 + chunkSize)).
      assert (Hnext : offset + 8 <= next /\ Z.even next = true).
      { subst next.
        destruct (Z.eqb_spec ((offset + (8 + chunkSize)) mod 2) 0) as [E|E];
          cbn [negb]; (split; [lia|]); apply Z.even_spec.
        - exists ((offset + (8 + chunkSize)) / 2).
          Z.div_mod_to_equations. lia.
        - exists ((offset + (8 + chunkSize) + 1) / 2).
          Z.div_mod_to_equations. lia. }
      destruct Hnext as [Hn1 Hn2].
      destruct (IH next) as (r & Er & Hr); [lia | exact Hn2 | lia |].
      exists r. split; [exact Er|].
      destruct r as [c|[|message]]; cbn [chunk_outcome] in *.
      * destruct Hr as (Ho & Hr). split; [lia | exact Hr].
      * lia.
      * exact Hr.
Qed.

(** [findWavDataChunk] ends on every buffer: its loop returns or throws
    within the fuel the definition gives it.  When it returns, the data
    offset is even, 20 or more, and at most the length of the buffer;
    the eight bytes before it are "data" and the little-endian length
    that is returned, which nothing relates to the size of the buffer.
    Otherwise it throws its own error, "No data chunk found in WAV
    file", or the [RangeError] of a read that leaves the buffer, which
    takes a buffer of more than 12 bytes. *)
Theorem findWavDataChunk_outcome (buffer : ArrayBuffer) :
  findChunk (Z.to_nat (byteLength buffer)) buffer 12
  = Some (findWavDataChunk buffer) /\
  match findWavDataChunk buffer with
  | Ok c =>
      20 <= RouteHelpers.dataOffset c <= byteLength buffer /\
      Z.even (RouteHelpers.dataOffset c) = true /\
      map (byte buffer)
          [RouteHelpers.dataOffset c - 8; RouteHelpers.dataOffset c - 7;
           RouteHelpers.dataOffset c - 6; RouteHelpers.dataOffset c - 5]
      = str "data" /\
      getUint32 buffer (RouteHelpers.dataOffset c - 4) true
      = Ok (RouteHelpers.dataLength c)
  | Throw RangeError => 12 < byteLength buffer
  | Throw (Error message) =>
      message = "No data chunk found in WAV file"%string
  end.
Proof.
  unfold findWavDataChunk.
  destruct (Z_lt_le_dec 12 (byteLength buffer)) as [Hl|Hs].
  - destruct (findChunk_outcome buffer (Z.to_nat (byteLength buffer)) 12)
      as (r & -> & Hr); [lia | reflexivity | lia |].
    split; [reflexivity|].
    destruct r as [c|[|message]]; cbn [chunk_outcome] in Hr; exact Hr.
  - destruct (Z.to_nat (byteLength buffer)); cbn [findChunk];
      replace (12 <? byteLength buffer) with false
        by (symmetry; bool_lia); split; reflexivity.
Qed.

Lemma findChunk_ext b b' fuel : forall offset,
  byteLength b = byteLength b' ->
  (forall i, 12 <= i -> byte b i = byte b' i) ->
  12 <= offset ->
  findChunk fuel b offset = findChunk fuel b' offset.
Proof.
  induction fuel as [|fuel IH]; intros offset Hl Hb Ho.
  - cbn [findChunk]. now rewrite Hl.
  - cbn [findChunk]. rewrite Hl.
    destruct (offset <? byteLength b'); [|reflexivity].
    assert (E4 : fourCharCode b offset = fourCharCode b' offset).
    { unfold fourCharCode, getUint8, in_bounds. rewrite Hl.
      rewrite !Hb by lia. reflexivity. }
    assert (E32 : getUint32 b (offset + 4) true
                  = getUint32 b' (offset + 4) true).
    { unfold getUint32, in_bounds. rewrite Hl.
      rewrite !Hb by lia. reflexivity. }
    rewrite E4, E32.
    destruct (fourCharCode b' offset) as [chunkId|e]; [|reflexivity].
    cbn [bind].
    pose proof (getUint32_outcome b' (offset + 4) _ eq_refl) as Hsz.
    destruct (getUint32 b' (offset + 4) true) as [chunkSize|e];
      [|reflexivity].
    cbn [bind].
    destruct (jsstring_eqb chunkId (str "data")); [reflexivity|].
    apply IH; try assumption.
    destruct (negb _); lia.
Qed.

(** The result depends on the length of the buffer and on the bytes from
    offset 12 on only: whether the buffer starts with "RIFF" and "WAVE"
    makes no difference. *)
Theorem findWavDataChunk_ignores_riff_header (b b' : ArrayBuffer) :
  byteLength b = byteLength b' ->
  (forall i, 12 <= i -> byte b i = byte b' i) ->
  findWavDataChunk b = findWavDataChunk b'.
Proof.
  intros Hl Hb. unfold findWavDataChunk. rewrite Hl.
  now rewrite (findChunk_ext b b') by (assumption || lia).
Qed.

(** A file made of the header [createWavHeader] writes for [d] data
    bytes and of those bytes: the chunk is found at offset 44 with
    length [d], also when there are no data bytes at all. *)
Theorem findWavDataChunk_createWavHeader (data : list Z) (r bits : Z) :
  let d := Z.of_nat (length data) in
  d < 4294967296 ->
  findWavDataChunk (wavFile (createWavHeader d r bits) data)
  = Ok {| RouteHelpers.dataOffset := 44; RouteHelpers.dataLength := d |}.
Proof.
  intros d Hd.
  destruct (createWavHeader_Ok d r bits)
    as (h & -> & Hlen & Friff & Fwave & Ffmt & Fdata & F16 & Faf & Fch
        & Fr & Fbits & Fd).
  pose proof (wavFile_length h data ltac:(lia)) as Hfl.
  assert (Hb : forall i, 0 <= i < 44 ->
               byte h i = byte (wavFile (Ok h) data) i).
  { intros i Hi. symmetry. apply wavFile_header_byte. lia. }
  fold d in Hfl. rewrite Hlen in Hfl.
  cbn [map] in Ffmt, Fdata.
  repeat match goal with
         | H : context [byte h ?i] |- _ => rewrite (Hb i) in H by lia
         end.
  rewrite Z.mod_small in Fd by lia.
  set (file := wavFile (Ok h) data) in *. clearbody file. clear Hb.
  unfold findWavDataChunk. rewrite Hfl.
  replace (Z.to_nat (44 + d)) with (S (S (Z.to_nat (42 + d)))) by lia.
  cbn [findChunk]. rewrite Hfl.
  replace (12 <? 44 + d) with true by (symmetry; bool_lia).
  rewrite fourCharCode_fits by lia. cbn [bind]; norm_offsets.
  rewrite Ffmt.
  rewrite getUint32_le_fits by lia. cbn [bind]; norm_offsets.
  rewrite F16.
  change (jsstring_eqb (str "fmt ") (str "data")) with false. cbv iota.
  change (negb ((12 + (8 + 16)) mod 2 =? 0)) with false. cbv iota.
  norm_offsets.
  replace (36 <? 44 + d) with true by (symmetry; bool_lia).
  rewrite fourCharCode_fits by lia. cbn [bind]; norm_offsets.
  rewrite Fdata.
  rewrite getUint32_le_fits by lia. cbn [bind]; norm_offsets.
  rewrite Fd.
  change (jsstring_eqb (str "data") (str "data")) with true. cbv iota.
  reflexivity.
Qed.

Lemma findWavDataChunk_createWavHeader_witness :
  findWavDataChunk (wavFile (createWavHeader 0 26040 16) [])
  = Ok {| RouteHelpers.dataOffset := 44; RouteHelpers.dataLength := 0 |}.
Proof.
  apply (findWavDataChunk_createWavHeader [] 26040 16). cbn. lia.
Defined.

Lemma findWavDataChunk_ignores_riff_header_witness :
  findWavDataChunk (of_bytes (repeat 0 12 ++ str "data" ++ [2; 0; 0; 0; 7; 7]))
  = findWavDataChunk
      (of_bytes (str "RIFF" ++ [14; 0; 0; 0] ++ str "WAVE" ++ str "data"
                 ++ [2; 0; 0; 0; 7; 7])).
Proof.
  apply findWavDataChunk_ignores_riff_header; [reflexivity|].
  intros i Hi. unfold byte, of_bytes. cbn [byteAt].
  replace (i <? 0) with false by (symmetry; apply Z.ltb_ge; lia).
  replace (Z.to_nat i) with (12 + Z.to_nat (i - 12))%nat by lia.
  reflexivity.
Defined.

End RouteFacts.
(** ** The packed 12-bit decoder of the conversion route *)

Module PackedFacts.
Import SP1200 Terms JSFacts ByteFacts WavFacts RouteHelpers.

Lemma Uint8Array_store_length output : forall j v,
  length (Uint8Array_store output j v) = length output.
Proof.
  induction output as [|x output IH]; intros [|j] v; cbn; auto.
Qed.

Lemma Uint8Array_store_nth output : forall j v k,
  nth k (Uint8Array_store output j v) 0 =
  if (k =? j)%nat && (j <? length output)%nat
  then v mod 256 else nth k output 0.
Proof.
  induction output as [|x output IH]; intros j v k.
  - cbn. rewrite andb_false_r. now destruct j.
  - destruct j as [|j], k as [|k]; cbn [Uint8Array_store nth];
      try reflexivity.
    rewrite IH. reflexivity.
Qed.

(** *** The bit operators on bytes *)

Lemma lor_disjoint hi lo n :
  0 <= n -> 0 <= lo < 2 ^ n -> Z.lor (hi * 2 ^ n) lo = hi * 2 ^ n + lo.
Proof.
  intros Hn Hlo.
  assert (Hland : Z.land (hi * 2 ^ n) lo = 0);
    [|now rewrite Z.add_nocarry_lxor, Z.lxor_lor by exact Hland].
  apply Z.bits_inj'. intros i Hi. rewrite Z.land_spec, Z.bits_0.
  destruct (Z_lt_le_dec i n).
  - rewrite Z.mul_pow2_bits_low by lia. reflexivity.
  - rewrite <- (Z.mod_small lo (2 ^ n)) by lia.
    rewrite Z.mod_pow2_bits_high by lia. apply andb_false_r.
Qed.

Lemma bitand_mask x n :
  - 2 ^ 31 <= x < 2 ^ 31 -> 0 <= n <= 16 ->
  bitand x (Z.ones n) = x mod 2 ^ n.
Proof.
  intros Hx Hn. unfold bitand.
  assert (0 < 2 ^ n <= 2 ^ 16)
    by (split; [apply Z.pow_pos_nonneg; lia
               | apply Z.pow_le_mono_r; lia]).
  assert (Z.ones n = 2 ^ n - 1)
    by (rewrite Z.ones_equiv; lia).
  rewrite (ToInt32_small (Z.ones n)) by lia.
  rewrite (ToInt32_small x) by assumption.
  rewrite Z.land_ones by lia.
  assert (0 <= x mod 2 ^ n < 2 ^ n) by (apply Z.mod_pos_bound; lia).
  apply ToInt32_small. lia.
Qed.

Lemma sar_div x n :
  - 2 ^ 31 <= x < 2 ^ 31 -> 0 <= n < 32 -> sar x n = x / 2 ^ n.
Proof.
  intros Hx Hn. unfold sar. rewrite ToInt32_small by assumption.
  rewrite Z.mod_small by lia. apply Z.shiftr_div_pow2. lia.
Qed.

Lemma shl_mul x n :
  0 <= x < 4096 -> 0 <= n <= 8 -> shl x n = x * 2 ^ n.
Proof.
  intros Hx Hn. unfold shl. rewrite (ToInt32_small x) by lia.
  rewrite Z.mod_small by lia. rewrite Z.shiftl_mul_pow2 by lia.
  assert (0 < 2 ^ n <= 2 ^ 8)
    by (split; [apply Z.pow_pos_nonneg; lia
               | apply Z.pow_le_mono_r; lia]).
  apply ToInt32_small. nia.
Qed.

Lemma sample1_value byte1 byte2 :
  0 <= byte1 < 256 -> 0 <= byte2 < 256 ->
  bitor (shl (bitand byte2 0x0F) 8) byte1 = byte1 + 256 * (byte2 mod 16).
Proof.
  intros H1 H2.
  change 15 with (Z.ones 4). rewrite bitand_mask by lia.
  change (2 ^ 4) with 16.
  assert (0 <= byte2 mod 16 < 16) by (apply Z.mod_pos_bound; lia).
  rewrite shl_mul by lia. change (2 ^ 8) with 256.
  unfold bitor.
  rewrite (ToInt32_small (byte2 mod 16 * 256)), (ToInt32_small byte1) by lia.
  change 256 with (2 ^ 8) at 1. rewrite lor_disjoint by lia.
  change (2 ^ 8) with 256. rewrite ToInt32_small; lia.
Qed.

Lemma sample2_value byte2 byte3 :
  0 <= byte2 < 256 -> 0 <= byte3 < 256 ->
  bitor (shl byte3 4) (sar byte2 4) = 16 * byte3 + byte2 / 16.
Proof.
  intros H2 H3.
  rewrite shl_mul by lia. rewrite sar_div by lia. change (2 ^ 4) with 16.
  assert (0 <= byte2 / 16 < 16) by (Z.div_mod_to_equations; lia).
  unfold bitor.
  rewrite (ToInt32_small (byte3 * 16)), (ToInt32_small (byte2 / 16)) by lia.
  change 16 with (2 ^ 4) at 1. rewrite lor_disjoint by lia.
  change (2 ^ 4) with 16. rewrite ToInt32_small; lia.
Qed.

Lemma low_byte v :
  - 32768 <= v < 32768 -> bitand v 0xFF mod 256 = v mod 256.
Proof.
  intros Hv. change 255 with (Z.ones 8). rewrite bitand_mask by lia.
  change (2 ^ 8) with 256. apply Z.mod_mod. lia.
Qed.

Lemma high_byte v :
  - 32768 <= v < 32768 ->
  bitand (sar v 8) 0xFF mod 256 = (v / 256) mod 256.
Proof.
  intros Hv. rewrite sar_div by lia. change (2 ^ 8) with 256.
  assert (- 128 <= v / 256 < 128) by (Z.div_mod_to_equations; lia).
  change 255 with (Z.ones 8). rewrite bitand_mask by lia.
  change (2 ^ 8) with 256. apply Z.mod_mod. lia.
Qed.

Lemma int16_of_le_bytes v :
  - 32768 <= v < 32768 ->
  AkaiSnd.int16_of_bytes true (v mod 256) ((v / 256) mod 256) = v.
Proof.
  intros Hv. unfold AkaiSnd.int16_of_bytes.
  destruct (Z.ltb_spec (v mod 256 + 256 * ((v / 256) mod 256)) 32768);
    Z.div_mod_to_equations; lia.
Qed.

(** *** The loop *)

Lemma nth_byte_range (data : list Z) k :
  Forall (fun b => 0 <= b < 256) data -> (k < length data)%nat ->
  0 <= nth k data 0 < 256.
Proof.
  intros Hall Hk. rewrite Forall_forall in Hall. apply Hall.
  now apply nth_In.
Qed.

Lemma unpackTriple_spec data output t :
  Forall (fun b => 0 <= b < 256) data ->
  (3 * t + 2 < length data)%nat -> (4 * t + 3 < length output)%nat ->
  length (unpackTriple data (3 * t) output) = length output /\
  (forall j, (j < 4 * t \/ 4 * t + 4 <= j)%nat ->
             nth j (unpackTriple data (3 * t) output) 0 = nth j output 0) /\
  quad data (unpackTriple data (3 * t) output) t.
Proof.
  intros Hall Hd Ho.
  pose proof (nth_byte_range data (3 * t) Hall ltac:(lia)) as H1.
  pose proof (nth_byte_range data (3 * t + 1) Hall ltac:(lia)) as H2.
  pose proof (nth_byte_range data (3 * t + 2) Hall ltac:(lia)) as H3.
  unfold unpackTriple, quad.
  replace (3 * t / 3 * 4)%nat with (4 * t)%nat
    by (rewrite (Nat.mul_comm 3 t), Nat.div_mul; lia).
  rewrite sample1_value, sample2_value by assumption.
  set (v1 := (nth (3 * t) data 0 + 256 * (nth (3 * t + 1) data 0 mod 16)
              - 2048) * 16).
  set (v2 := (16 * nth (3 * t + 2) data 0 + nth (3 * t + 1) data 0 / 16
              - 2048) * 16).
  assert (Hv1 : - 32768 <= v1 < 32768)
    by (subst v1; Z.div_mod_to_equations; lia).
  assert (Hv2 : - 32768 <= v2 < 32768)
    by (subst v2; Z.div_mod_to_equations; lia).
  split; [now rewrite !Uint8Array_store_length|].
  split.
  - intros j Hj. rewrite !Uint8Array_store_nth.
    repeat match goal with
           | |- context [(j =? ?k)%nat] =>
               replace (j =? k)%nat with false
                 by (symmetry; apply Nat.eqb_neq; lia)
           end.
    reflexivity.
  - cbv zeta. rewrite !Uint8Array_store_nth, !Uint8Array_store_length.
    repeat match goal with
           | |- context [(?a <? length output)%nat] =>
               replace (a <? length output)%nat with true
                 by (symmetry; apply Nat.ltb_lt; lia)
           end.
    repeat match goal with
           | |- context [(?a =? ?b)%nat] =>
               first [ replace (a =? b)%nat with true
                         by (symmetry; apply Nat.eqb_eq; lia)
                     | replace (a =? b)%nat with false
                         by (symmetry; apply Nat.eqb_neq; lia) ]
           end.
    cbn [andb].
    rewrite (low_byte v1), (low_byte v2), (high_byte v1), (high_byte v2)
      by assumption.
    auto.
Qed.

Lemma quad_ext data output output' t :
  (forall j, (4 * t <= j < 4 * t + 4)%nat ->
             nth j output' 0 = nth j output 0) ->
  quad data output t -> quad data output' t.
Proof.
  intros Hext (Q0 & Q1 & Q2 & Q3). unfold quad.
  rewrite !Hext by lia. auto.
Qed.

Lemma unpackFrom_spec data count : forall t0 output,
  Forall (fun b => 0 <= b < 256) data ->
  (3 * (t0 + count) <= length data)%nat ->
  (4 * (t0 + count) <= length output)%nat ->
  length (unpackFrom count (3 * t0) data output) = length output /\
  (forall j, (j < 4 * t0 \/ 4 * (t0 + count) <= j)%nat ->
             nth j (unpackFrom count (3 * t0) data output) 0
             = nth j output 0) /\
  (forall t, (t0 <= t < t0 + count)%nat ->
             quad data (unpackFrom count (3 * t0) data output) t).
Proof.
  induction count as [|count IH]; intros t0 output Hall Hd Ho.
  - cbn [unpackFrom]. split; [reflexivity|]. split; [reflexivity|].
    intros t Ht. lia.
  - cbn [unpackFrom].
    destruct (unpackTriple_spec data output t0 Hall) as (Tl & Tframe & Tq);
      [lia | lia |].
    replace (3 * t0 + 3)%nat with (3 * S t0)%nat by lia.
    destruct (IH (S t0) (unpackTriple data (3 * t0) output) Hall)
      as (Rl & Rframe & Rq); [lia | lia |].
    split; [lia|]. split.
    + intros j Hj. rewrite Rframe by lia. apply Tframe. lia.
    + intros t Ht. destruct (Nat.eq_dec t t0) as [->|Hne].
      * eapply quad_ext; [|exact Tq].
        intros j Hj. apply Rframe. lia.
      * apply Rq. lia.
Qed.

Lemma repeat_nth_0 n j : nth j (repeat 0 n) 0 = 0.
Proof.
  revert j. induction n as [|n IH]; intros [|j]; cbn; auto.
Qed.

(** The packed decoder, on bytes.  The output has two bytes for each of
    the [floor (2n/3)] samples of an input of [n] bytes.  Each complete
    group of three bytes gives two 16-bit little-endian values: the
    12-bit samples [byte1 + 256 * (low half of byte2)] and
    [16 * byte3 + high half of byte2], less 2048, times 16.  When two
    bytes are left over at the end they are not decoded, and the output
    bytes counted for them stay 0. *)
Theorem convert12BitTo16Bit_samples (data : list Z) :
  Forall (fun b => 0 <= b < 256) data ->
  let output := RouteHelpers.convert12BitTo16Bit data in
  length output = (2 * (length data * 2 / 3))%nat /\
  (forall t, (3 * t + 2 < length data)%nat ->
     let byte1 := nth (3 * t) data 0 in
     let byte2 := nth (3 * t + 1) data 0 in
     let byte3 := nth (3 * t + 2) data 0 in
     AkaiSnd.int16_of_bytes true (nth (4 * t) output 0)
                                 (nth (4 * t + 1) output 0)
     = (byte1 + 256 * (byte2 mod 16) - 2048) * 16 /\
     AkaiSnd.int16_of_bytes true (nth (4 * t + 2) output 0)
                                 (nth (4 * t + 3) output 0)
     = (16 * byte3 + byte2 / 16 - 2048) * 16) /\
  (forall j, (4 * (length data / 3) <= j)%nat -> nth j output 0 = 0).
Proof.
  intros Hall output. subst output. unfold RouteHelpers.convert12BitTo16Bit.
  pose proof (Nat.div_mod_eq (length data) 3) as Hq.
  pose proof (Nat.mod_upper_bound (length data) 3 ltac:(lia)) as Hr.
  pose proof (Nat.div_mod_eq (length data * 2) 3) as Hq2.
  pose proof (Nat.mod_upper_bound (length data * 2) 3 ltac:(lia)) as Hr2.
  destruct (unpackFrom_spec data (length data / 3) 0
              (repeat 0 (length data * 2 / 3 * 2)) Hall)
    as (Rl & Rframe & Rq).
  { lia. }
  { rewrite repeat_length. lia. }
  change (3 * 0)%nat with 0%nat in *.
  rewrite repeat_length in Rl.
  split; [lia|]. split.
  - intros t Ht.
    pose proof (nth_byte_range data (3 * t) Hall ltac:(lia)) as H1.
    pose proof (nth_byte_range data (3 * t + 1) Hall ltac:(lia)) as H2.
    pose proof (nth_byte_range data (3 * t + 2) Hall ltac:(lia)) as H3.
    destruct (Rq t) as (Q0 & Q1 & Q2 & Q3); [lia|].
    cbv zeta. rewrite Q0, Q1, Q2, Q3.
    split; apply int16_of_le_bytes; Z.div_mod_to_equations; lia.
  - intros j Hj. rewrite Rframe by lia. apply repeat_nth_0.
Qed.

Lemma convert12BitTo16Bit_samples_witness :
  let output := RouteHelpers.convert12BitTo16Bit [0x00; 0xF8; 0xFF; 1; 2] in
  length output = 6%nat /\
  AkaiSnd.int16_of_bytes true (nth 0 output 0) (nth 1 output 0) = 0 /\
  AkaiSnd.int16_of_bytes true (nth 2 output 0) (nth 3 output 0) = 32752 /\
  nth 4 output 0 = 0 /\ nth 5 output 0 = 0.
Proof.
  destruct (convert12BitTo16Bit_samples [0x00; 0xF8; 0xFF; 1; 2])
    as (Hl & Hs & Hz).
  - repeat constructor; lia.
  - intros output. split; [exact Hl|].
    destruct (Hs 0%nat) as [H1 H2]; [cbn; lia|].
    split; [exact H1|]. split; [exact H2|].
    split; apply Hz; cbn; lia.
Defined.

End PackedFacts.
(** ** The 24-byte SND container of akaiSnd.ts *)

Module AkaiSndFacts.
Import JSFacts ByteFacts WavFacts Snd AkaiSnd.

Lemma map_seq_nth (f : nat -> Z) (l : list Z) :
  (forall i, (i < length l)%nat -> f i = nth i l 0) ->
  map f (seq 0 (length l)) = l.
Proof.
  intros H. apply (nth_ext _ _ 0 0).
  - now rewrite length_map, length_seq.
  - intros i Hi. rewrite length_map, length_seq in Hi.
    rewrite (nth_indep _ 0 (f 0%nat)) by (now rewrite length_map, length_seq).
    rewrite map_nth, seq_nth by assumption. now apply H.
Qed.

Lemma Int16Array_bytes_range le v :
  Forall (fun b => 0 <= b < 256) (Int16Array_bytes le v).
Proof.
  unfold Int16Array_bytes.
  assert (0 <= v mod 65536 < 65536) by (apply Z.mod_pos_bound; lia).
  destruct le; repeat constructor; Z.div_mod_to_equations; lia.
Qed.

Lemma flat_Int16Array_bytes_range le data :
  Forall (fun b => 0 <= b < 256) (flat_map (Int16Array_bytes le) data).
Proof.
  induction data as [|v data IH]; [constructor|].
  cbn [flat_map]. apply Forall_app. split; [apply Int16Array_bytes_range|].
  exact IH.
Qed.

Lemma int16_elements_bytes le data :
  Forall (fun v => - 32768 <= v < 32768) data ->
  int16_elements le (flat_map (Int16Array_bytes le) data) = data.
Proof.
  induction 1 as [|v data Hv Hall IH]; [reflexivity|].
  cbn [flat_map]. unfold Int16Array_bytes at 1.
  destruct le; cbn [app int16_elements]; rewrite IH; f_equal;
    unfold int16_of_bytes;
    match goal with
    | |- context [if ?c <? 32768 then _ else _] =>
        destruct (Z.ltb_spec c 32768)
    end; Z.div_mod_to_equations; lia.
Qed.

(** Comparisons between literal offsets, computed. *)
Ltac literal_ifs :=
  repeat match goal with
         | |- context [Z.pos ?a + Z.pos ?b] =>
             let v := eval vm_compute in (Z.pos a + Z.pos b) in
             change (Z.pos a + Z.pos b) with v
         | |- context [0 + Z.pos ?b] => change (0 + Z.pos b) with (Z.pos b)
         | |- context [?a =? ?b] =>
             lazymatch a with 0 => idtac | Z.pos _ => idtac end;
             lazymatch b with 0 => idtac | Z.pos _ => idtac end;
             let v := eval vm_compute in (a =? b) in
             change (a =? b) with v
         | |- context [?a <=? ?b] =>
             lazymatch a with 0 => idtac | Z.pos _ => idtac end;
             lazymatch b with 0 => idtac | Z.pos _ => idtac end;
             let v := eval vm_compute in (a <=? b) in
             change (a <=? b) with v
         end;
  cbn [andb]; cbv iota.

Lemma even_double n : Nat.even (2 * n) = true.
Proof. rewrite Nat.even_mul. reflexivity. Qed.

(** A sample written by [createSndFile] is read back by [parseSndFile]
    on the same host: the same samples, the rate and the channel count
    as 32-bit values, and the depth 16 when it was 16 and 8 otherwise.
    The name is not stored: what is read back is called "sample". *)
Theorem parseSndFile_createSndFile (hostLittleEndian : bool)
        (sample : SndSample) :
  Forall (fun v => - 32768 <= v < 32768) (data sample) ->
  2 * Z.of_nat (length (data sample)) < 4294967296 ->
  bind (createSndFile hostLittleEndian sample)
       (parseSndFile hostLittleEndian)
  = Ok {| AkaiSnd.name := str "sample";
          AkaiSnd.sampleRate := AkaiSnd.sampleRate sample mod 4294967296;
          bitDepth := if bitDepth sample =? 16 then 16 else 8;
          channels := channels sample mod 4294967296;
          data := data sample |}.
Proof.
  intros Hdata Hsize.
  pose proof (SndFacts.length_Int16Array_bytes hostLittleEndian
                (data sample)) as Hlb.
  pose proof (flat_Int16Array_bytes_range hostLittleEndian (data sample))
    as Hrange.
  unfold createSndFile.
  set (bytes := flat_map (Int16Array_bytes hostLittleEndian) (data sample))
    in *.
  set (n := Z.of_nat (length (data sample))) in *.
  assert (Hn : 0 <= n) by (subst n; lia).
  rewrite setUint32_be_fits by (cbn [byteLength store alloc]; lia).
  cbn [bind].
  rewrite setUint32_be_fits by (cbn [byteLength store alloc]; lia).
  cbn [bind].
  rewrite setUint32_be_fits by (cbn [byteLength store alloc]; lia).
  cbn [bind].
  rewrite setUint32_be_fits by (cbn [byteLength store alloc]; lia).
  cbn [bind].
  rewrite setUint32_be_fits by (cbn [byteLength store alloc]; lia).
  cbn [bind].
  rewrite setUint32_be_fits by (cbn [byteLength store alloc]; lia).
  cbn [bind].
  rewrite Uint8Array_set_fits by (cbn [byteLength store alloc]; lia).
  cbn [bind].
  match goal with |- parseSndFile _ ?b = _ => set (buffer := b) end.
  assert (Hbl : byteLength buffer = 24 + 2 * n) by reflexivity.
  assert (Hmagic : 16777216 * byte buffer 0 + 65536 * byte buffer (0 + 1)
                   + 256 * byte buffer (0 + 2) + byte buffer (0 + 3)
                   = 0x2E736E64).
  { unfold byte. subst buffer. cbn [byteAt store alloc byteLength].
    literal_ifs. reflexivity. }
  assert (Hhs : 16777216 * byte buffer 4 + 65536 * byte buffer (4 + 1)
                + 256 * byte buffer (4 + 2) + byte buffer (4 + 3) = 24).
  { unfold byte. subst buffer. cbn [byteAt store alloc byteLength].
    literal_ifs. reflexivity. }
  assert (Hds : 16777216 * byte buffer 8 + 65536 * byte buffer (8 + 1)
                + 256 * byte buffer (8 + 2) + byte buffer (8 + 3) = 2 * n).
  { unfold byte. subst buffer. cbn [byteAt store alloc byteLength].
    literal_ifs. rewrite (Z.mod_small (2 * n)) by lia.
    apply uint32_bytes_be. lia. }
  assert (Hfmt : 16777216 * byte buffer 12 + 65536 * byte buffer (12 + 1)
                 + 256 * byte buffer (12 + 2) + byte buffer (12 + 3)
                 = if bitDepth sample =? 16 then 1 else 0).
  { unfold byte. subst buffer. cbn [byteAt store alloc byteLength].
    literal_ifs. destruct (bitDepth sample =? 16); reflexivity. }
  assert (Hsr : 16777216 * byte buffer 16 + 65536 * byte buffer (16 + 1)
                + 256 * byte buffer (16 + 2) + byte buffer (16 + 3)
                = AkaiSnd.sampleRate sample mod 4294967296).
  { unfold byte. subst buffer. cbn [byteAt store alloc byteLength].
    literal_ifs. apply uint32_bytes_be. apply Z.mod_pos_bound. lia. }
  assert (Hch : 16777216 * byte buffer 20 + 65536 * byte buffer (20 + 1)
                + 256 * byte buffer (20 + 2) + byte buffer (20 + 3)
                = channels sample mod 4294967296).
  { unfold byte. subst buffer. cbn [byteAt store alloc byteLength].
    literal_ifs. apply uint32_bytes_be. apply Z.mod_pos_bound. lia. }
  assert (Hbytes : forall j, 0 <= j < 2 * n ->
            byte buffer (24 + j) = nth (Z.to_nat j) bytes 0).
  { intros j Hj. unfold byte. subst buffer.
    cbn [byteAt store alloc byteLength]. decide_ifs.
    replace (24 + j - 24) with j by lia.
    apply (nth_byte _ _ 0); [lia | assumption | lia]. }
  clearbody buffer.
  unfold parseSndFile.
  rewrite getUint32_be_fits, Hmagic by lia. cbn [bind].
  change (negb (779316836 =? 779316836)) with false. cbv iota.
  rewrite getUint32_be_fits, Hhs by lia. cbn [bind].
  rewrite getUint32_be_fits, Hds by lia. cbn [bind].
  rewrite getUint32_be_fits, Hfmt by lia. cbn [bind].
  rewrite getUint32_be_fits, Hsr by lia. cbn [bind].
  rewrite getUint32_be_fits, Hch by lia. cbn [bind].
  assert (Hslice : slice buffer 24 (24 + 2 * n) = bytes).
  { unfold slice. rewrite Hbl.
    rewrite (Z.min_l 24) by lia. rewrite Z.min_id.
    replace (Z.to_nat (24 + 2 * n - 24)) with (length bytes) by lia.
    apply map_seq_nth. intros i Hi.
    rewrite Hbytes by lia. now rewrite Nat2Z.id. }
  rewrite Hslice. unfold Int16Array_of. rewrite Hlb, even_double.
  cbn [bind]. subst bytes. rewrite int16_elements_bytes by assumption.
  f_equal. f_equal.
  destruct (bitDepth sample =? 16); reflexivity.
Qed.

Lemma parseSndFile_createSndFile_witness :
  bind (createSndFile true
          {| AkaiSnd.name := str "kick"; AkaiSnd.sampleRate := 44100;
             bitDepth := 16; channels := 1; data := [-1; 32767] |})
       (parseSndFile true)
  = Ok {| AkaiSnd.name := str "sample"; AkaiSnd.sampleRate := 44100;
          bitDepth := 16; channels := 1; data := [-1; 32767] |}.
Proof.
  apply (parseSndFile_createSndFile true
           {| AkaiSnd.name := str "kick"; AkaiSnd.sampleRate := 44100;
              bitDepth := 16; channels := 1; data := [-1; 32767] |}).
  - repeat constructor; cbn; lia.
  - cbn. lia.
Defined.




End AkaiSndFacts.
(** ** The SND header, and the player that reads it *)

Module SndHeaderFacts.
Import Number Snd Route Props Terms JSFacts ByteFacts WavFacts SndFacts
       AkaiSndFacts.

Lemma filename_length fileName :
  length (padEnd 12 (slice0 12 (removeExtension fileName))) = 12%nat.
Proof.
  unfold padEnd, slice0. rewrite length_app, repeat_length.
  pose proof (firstn_le_length 12 (removeExtension fileName)). lia.
Qed.

(** One read of a byte of the header, decided store by store. *)
Ltac read_store :=
  repeat match goal with
         | |- context [if ?j =? ?k then _ else _] =>
             destruct (Z.eqb_spec j k);
             [first [reflexivity | exfalso; lia]|]
         end.

Lemma sndHeader_layout fileName audioBuffer n :
  exists header,
    sndHeader fileName audioBuffer n = Ok header /\
    byteLength header = 192 /\
    byte header 1 = (if sampleRate audioBuffer =? 44100 then 1 else 0) /\
    byte header 2 = 60 /\
    (forall i, 0 <= i < 12 ->
               byte header (3 + i)
               = nth (Z.to_nat i)
                     (padEnd 12 (slice0 12 (removeExtension fileName))) 0
                 mod 256) /\
    16777216 * byte header 34 + 65536 * byte header 35
    + 256 * byte header 36 + byte header 37 = n mod 4294967296 /\
    byte header 184 = 255 /\ byte header 185 = 255 /\
    256 * byte header 186 + byte header 187
    = sampleRate audioBuffer mod 65536 /\
    (forall j, 16 <= j <= 18 \/ 20 <= j <= 22 \/ j = 25 \/ 30 <= j < 34 \/
               38 <= j < 184 \/ 188 <= j < 192 ->
               byte header j = 0).
Proof.
  eexists. split.
  - cbv [sndHeader setInt8 setUint8 setUint16 setUint32 forEach bind
         in_bounds alloc byteLength andb Z.leb Z.add Z.mul Z.compare
         Pos.compare Pos.compare_cont Pos.add Pos.succ Pos.mul Pos.add_carry].
    reflexivity.
  - split; [reflexivity|].
    split.
    { destruct (sampleRate audioBuffer =? 44100); reflexivity. }
    split; [reflexivity|].
    split.
    { intros i Hi.
      assert (Hc : i = 0 \/ i = 1 \/ i = 2 \/ i = 3 \/ i = 4 \/ i = 5 \/
                   i = 6 \/ i = 7 \/ i = 8 \/ i = 9 \/ i = 10 \/ i = 11)
        by lia.
      repeat (destruct Hc as [->|Hc]; [apply Z.mod_mod; lia|]).
      subst i. apply Z.mod_mod. lia. }
    split.
    { cbv [byte byteAt store Z.eqb Pos.eqb].
      apply uint32_bytes_be. apply Z.mod_pos_bound. lia. }
    split; [reflexivity|]. split; [reflexivity|].
    split.
    { cbv [byte byteAt store Z.eqb Pos.eqb].
      assert (0 <= sampleRate audioBuffer mod 65536 < 65536)
        by (apply Z.mod_pos_bound; lia).
      Z.div_mod_to_equations. lia. }
    intros j Hj. cbv [byte byteAt store]. read_store. reflexivity.
Qed.

Lemma ToInt16_range x : - 32768 <= ToInt16 x < 32768.
Proof.
  unfold ToInt16. destruct (truncate x) as [z|]; [|lia].
  assert (0 <= z mod 65536 < 65536) by (apply Z.mod_pos_bound; lia).
  cbv zeta. destruct (Z.ltb_spec (z mod 65536) 32768); lia.
Qed.

Lemma pcmData_range audioBuffer :
  Forall (fun v => - 32768 <= v < 32768) (pcmData audioBuffer).
Proof.
  unfold pcmData. apply Forall_map, Forall_forall. intros s _.
  apply ToInt16_range.
Qed.

(** The bytes of a converted file, as a buffer. *)
Lemma converted_bytes header pcm le :
  byteLength header = 192 ->
  let file := of_bytes (bytes_of header
                        ++ flat_map (Int16Array_bytes le) pcm) in
  byteLength file = 192 + 2 * Z.of_nat (length pcm) /\
  (forall k, 0 <= k < 192 -> byte file k = byte header k) /\
  (forall j, 0 <= j < 2 * Z.of_nat (length pcm) ->
             byte file (192 + j)
             = nth (Z.to_nat j) (flat_map (Int16Array_bytes le) pcm) 0).
Proof.
  intros Hlen file. subst file.
  pose proof (length_bytes_of header) as Hl. rewrite Hlen in Hl.
  pose proof (length_Int16Array_bytes le pcm) as Hp.
  unfold of_bytes. cbn [byteLength]. split; [|split].
  - rewrite length_app, Hl, Hp. lia.
  - intros k Hk. unfold byte at 1. cbn [byteAt].
    replace (k <? 0) with false by (symmetry; apply Z.ltb_ge; lia).
    rewrite nth_bytes_of by lia. rewrite Z2Nat.id by lia.
    unfold byte. apply Z.mod_mod. lia.
  - intros j Hj. unfold byte at 1. cbn [byteAt].
    replace (192 + j <? 0) with false by (symmetry; apply Z.ltb_ge; lia).
    rewrite app_nth2 by lia.
    replace (Z.to_nat (192 + j) - length (bytes_of header))%nat
      with (Z.to_nat j) by lia.
    apply (nth_byte _ _ 0); [lia | apply flat_Int16Array_bytes_range | lia].
Qed.

(** The variable fields of the header and its zero bytes, read off the
    file [convertToSnd] returns: byte 1 is 1 for a 44.1 kHz
    buffer and 0 for any other rate, byte 2 is 60, bytes 3 to 14 are the
    first 12 characters of the file name without its extension, padded
    with spaces, each modulo 256; bytes 34 to 37 repeat the sample count,
    bytes 184 and 185 are 255, bytes 186 and 187 are the rate modulo
    65536 as a big-endian number, and every header byte not named here
    or in the fixed fields is 0. *)
Theorem convertToSnd_header_fields (hostLittleEndian : bool)
        (fileName : jsstring) (audioBuffer : AudioBuffer) :
  exists out,
    convertToSnd hostLittleEndian fileName audioBuffer = Ok out /\
    nth 1 out 0 = (if sampleRate audioBuffer =? 44100 then 1 else 0) /\
    nth 2 out 0 = 60 /\
    (forall i, (i < 12)%nat ->
       nth (3 + i) out 0
       = nth i (padEnd 12 (slice0 12 (removeExtension fileName))) 0
         mod 256) /\
    16777216 * nth 34 out 0 + 65536 * nth 35 out 0
    + 256 * nth 36 out 0 + nth 37 out 0
    = Z.of_nat (length (pcmData audioBuffer)) mod 4294967296 /\
    nth 184 out 0 = 255 /\ nth 185 out 0 = 255 /\
    256 * nth 186 out 0 + nth 187 out 0
    = sampleRate audioBuffer mod 65536 /\
    (forall j, (16 <= j <= 18 \/ 20 <= j <= 22 \/ j = 25 \/ 30 <= j < 34 \/
                38 <= j < 184 \/ 188 <= j < 192)%nat ->
               nth j out 0 = 0).
Proof.
  destruct (sndHeader_layout fileName audioBuffer
              (Z.of_nat (length (pcmData audioBuffer))))
    as (header & Hh & Hlen & H1 & H2 & Hname & Hend & H184 & H185 & Hrate
        & Hzero).
  assert (Hnth : forall k, (k < 192)%nat ->
            nth k (bytes_of header
                   ++ flat_map (Int16Array_bytes hostLittleEndian)
                               (pcmData audioBuffer)) 0
            = byte header (Z.of_nat k)).
  { intros k Hk. apply nth_bytes_of. rewrite Hlen. lia. }
  eexists. unfold convertToSnd. rewrite Hh. cbn [bind].
  split; [reflexivity|].
  rewrite !Hnth by lia.
  split; [exact H1|]. split; [exact H2|]. split.
  { intros i Hi. rewrite Hnth by lia.
    replace (Z.of_nat (3 + i)) with (3 + Z.of_nat i) by lia.
    rewrite Hname by lia. now rewrite Nat2Z.id. }
  split; [exact Hend|]. split; [exact H184|]. split; [exact H185|].
  split; [exact Hrate|].
  intros j Hj. rewrite Hnth by lia. apply Hzero. lia.
Qed.

Lemma byteSwap32_bytes b0 b1 b2 b3 w :
  0 <= b0 < 256 -> 0 <= b1 < 256 -> 0 <= b2 < 256 -> 0 <= b3 < 256 ->
  16777216 * b0 + 65536 * b1 + 256 * b2 + b3 = w ->
  b0 + 256 * b1 + 65536 * b2 + 16777216 * b3 = byteSwap32 w.
Proof.
  intros H0 H1 H2 H3 <-. unfold byteSwap32.
  Z.div_mod_to_equations. lia.
Qed.

(** What the player decodes from a file [convertToSnd] wrote on the
    same host.  The samples are the PCM values that were written.  The
    rate is 44100 when the buffer was at 44.1 kHz and 22050 for every
    other rate.  The name is read with its padding, less any character
    that is 0 modulo 256.  The sample count is read little-endian from
    the four bytes that were written big-endian, so it is the count with
    its bytes in the opposite order. *)
Theorem loadSndFile_of_converted (hostLittleEndian : bool)
        (fileName : jsstring) (audioBuffer : AudioBuffer) :
  exists out,
    convertToSnd hostLittleEndian fileName audioBuffer = Ok out /\
    SndPlayer.loadSndFile hostLittleEndian (of_bytes out)
    = Ok ({| SndPlayer.format := 3;
             SndPlayer.sampleRateFlag :=
               if sampleRate audioBuffer =? 44100 then 1 else 0;
             SndPlayer.midiRootNote := 60;
             SndPlayer.filename :=
               filter (fun c => negb (c =? 0))
                      (map (fun c => c mod 256)
                           (padEnd 12
                              (slice0 12 (removeExtension fileName))));
             SndPlayer.numSamples :=
               byteSwap32 (Z.of_nat (length (pcmData audioBuffer))
                           mod 4294967296);
             SndPlayer.sampleRate :=
               if sampleRate audioBuffer =? 44100 then 44100 else 22050 |},
          pcmData audioBuffer).
Proof.
  destruct (sndHeader_Ok fileName audioBuffer
              (Z.of_nat (length (pcmData audioBuffer))))
    as (header & Hh & Hlen & H0 & _ & _ & _ & _ & _ & _ & Hn).
  destruct (sndHeader_layout fileName audioBuffer
              (Z.of_nat (length (pcmData audioBuffer))))
    as (header' & Hh' & _ & H1 & H2 & Hname & _).
  assert (header' = header) by congruence. subst header'. clear Hh'.
  eexists. unfold convertToSnd. rewrite Hh. cbn [bind].
  split; [reflexivity|].
  destruct (converted_bytes header (pcmData audioBuffer) hostLittleEndian
              Hlen) as (Hbl & Hhead & Hpcm).
  set (file := of_bytes _) in *. clearbody file.
  pose proof (length_Int16Array_bytes hostLittleEndian
                (pcmData audioBuffer)) as Hlb.
  unfold SndPlayer.loadSndFile, getUint8.
  replace (in_bounds file 0 1) with true
    by (symmetry; apply in_bounds_spec; lia).
  replace (in_bounds file 1 1) with true
    by (symmetry; apply in_bounds_spec; lia).
  replace (in_bounds file 2 1) with true
    by (symmetry; apply in_bounds_spec; lia).
  cbn [bind]. rewrite getUint32_le_fits by lia. cbn [bind].
  rewrite !Hhead by lia. rewrite H0, H1, H2.
  assert (Hslice : AkaiSnd.slice file 192 (byteLength file)
                   = flat_map (Int16Array_bytes hostLittleEndian)
                              (pcmData audioBuffer)).
  { unfold AkaiSnd.slice. rewrite Z.min_id, Hbl, Z.min_l by lia.
    replace (Z.to_nat (192 + 2 * Z.of_nat (length (pcmData audioBuffer))
                       - 192))
      with (length (flat_map (Int16Array_bytes hostLittleEndian)
                             (pcmData audioBuffer))) by lia.
    apply map_seq_nth. intros i Hi.
    rewrite Hpcm by lia. now rewrite Nat2Z.id. }
  rewrite Hslice. unfold AkaiSnd.Int16Array_of.
  rewrite Hlb, even_double. cbn [bind].
  rewrite int16_elements_bytes by apply pcmData_range.
  assert (Hfile : AkaiSnd.slice file 3 15
                  = map (fun c => c mod 256)
                        (padEnd 12 (slice0 12 (removeExtension fileName)))).
  { unfold AkaiSnd.slice. rewrite Hbl, !Z.min_l by lia.
    pose proof (filename_length fileName) as Hfl.
    change (Z.to_nat (15 - 3)) with 12%nat.
    rewrite <- (length_map (fun c => c mod 256)) in Hfl.
    rewrite <- Hfl at 1.
    apply map_seq_nth. intros i Hi. rewrite Hfl in Hi.
    rewrite Hhead, Hname by lia. rewrite Nat2Z.id. symmetry.
    exact (map_nth (fun c => c mod 256)
                   (padEnd 12 (slice0 12 (removeExtension fileName))) 0 i). }
  rewrite Hfile.
  change (26 + 1) with 27. change (26 + 2) with 28. change (26 + 3) with 29.
  rewrite (byteSwap32_bytes _ _ _ _ _ (byte_range header 26)
             (byte_range header 27) (byte_range header 28)
             (byte_range header 29) Hn).
  destruct (sampleRate audioBuffer =? 44100); reflexivity.
Qed.

End SndHeaderFacts.
(** ** MPC 3000 program files *)

Module PgmFacts.
Import JSFacts ByteFacts AkaiPgm.

Lemma stripStart_split l :
  exists blank, l = blank ++ stripStart l /\
                Forall (fun b => is_pad_byte b = true) blank.
Proof.
  induction l as [|b l (blank & E & Hb)]; [exists []; split; auto|].
  cbn [stripStart]. destruct (is_pad_byte b) eqn:Eb.
  - exists (b :: blank). split; [cbn; now f_equal | now constructor].
  - exists []. split; auto.
Qed.

Lemma stripStart_head l b rest :
  stripStart l = b :: rest -> is_pad_byte b = false.
Proof.
  induction l as [|c l IH]; [discriminate|].
  cbn [stripStart]. destruct (is_pad_byte c) eqn:Ec; [exact IH|].
  now intros [= <- _].
Qed.

Lemma stripStart_blank l :
  stripStart l = [] <-> Forall (fun b => is_pad_byte b = true) l.
Proof.
  induction l as [|c l IH]; [split; auto|].
  cbn [stripStart]. destruct (is_pad_byte c) eqn:Ec.
  - rewrite IH. split; [now constructor | now inversion 1].
  - split; [discriminate|]. inversion 1. congruence.
Qed.

Lemma stripStart_length l : (length (stripStart l) <= length l)%nat.
Proof.
  induction l as [|c l IH]; [cbn; lia|].
  cbn [stripStart]. destruct (is_pad_byte c); cbn [length]; lia.
Qed.

Lemma stripEnd_split l :
  exists blank, l = stripEnd l ++ blank /\
                Forall (fun b => is_pad_byte b = true) blank.
Proof.
  unfold stripEnd. destruct (stripStart_split (rev l)) as (blank & E & Hb).
  exists (rev blank). split.
  - rewrite <- rev_app_distr, <- E. symmetry. apply rev_involutive.
  - now apply Forall_rev.
Qed.

Lemma stripEnd_last l :
  stripEnd l <> [] -> is_pad_byte (last (stripEnd l) 0) = false.
Proof.
  unfold stripEnd. destruct (stripStart (rev l)) as [|b rest] eqn:E;
    [now intros H|].
  intros _. cbn [rev]. rewrite last_last.
  eapply stripStart_head. exact E.
Qed.

Lemma stripEnd_length l : (length (stripEnd l) <= length l)%nat.
Proof.
  unfold stripEnd. rewrite length_rev.
  etransitivity; [apply stripStart_length|]. now rewrite length_rev.
Qed.

(** The trimmed bytes of a slot are empty exactly when every byte of
    the slot is NUL or space. *)
Lemma trimmed_blank l :
  stripEnd (stripStart l) = [] <->
  Forall (fun b => is_pad_byte b = true) l.
Proof.
  split.
  - intros E. destruct (stripEnd_split (stripStart l)) as (blank & E2 & Hb).
    rewrite E in E2. cbn in E2.
    destruct (stripStart_split l) as (blank' & E3 & Hb').
    rewrite E3, E2. apply Forall_app. now split.
  - intros H. apply stripStart_blank in H. rewrite H. reflexivity.
Qed.

Lemma trimmed_head l b rest :
  stripEnd (stripStart l) = b :: rest -> is_pad_byte b = false.
Proof.
  intros E. destruct (stripEnd_split (stripStart l)) as (blank & E2 & _).
  rewrite E in E2. cbn in E2. eapply stripStart_head. exact E2.
Qed.

Lemma decode_char_blank b :
  0 <= b < 256 ->
  is_pad_byte (if (0x80 <=? b) && (b <=? 0x9F) then windows1252 b else b)
  = is_pad_byte b.
Proof.
  intros Hb.
  destruct (Z.leb_spec 0x80 b); [|reflexivity].
  destruct (Z.leb_spec b 0x9F); [|reflexivity]. cbn [andb].
  assert (Hk : exists k, (k < 32)%nat /\ b = 0x80 + Z.of_nat k)
    by (exists (Z.to_nat (b - 0x80)); lia).
  destruct Hk as (k & Hk & ->).
  do 32 (destruct k as [|k]; [reflexivity|]). lia.
Qed.

Lemma decode_length l : length (decode l) = length l.
Proof. apply length_map. Qed.

Lemma hd_decode l :
  Forall (fun b => 0 <= b < 256) l -> l <> [] ->
  is_pad_byte (hd 0 (decode l)) = is_pad_byte (hd 0 l).
Proof.
  intros Hall Hne. destruct l as [|b l]; [contradiction|].
  inversion Hall; subst. cbn [decode map hd]. now apply decode_char_blank.
Qed.

Lemma last_decode l :
  Forall (fun b => 0 <= b < 256) l -> l <> [] ->
  is_pad_byte (last (decode l) 0) = is_pad_byte (last l 0).
Proof.
  intros Hall Hne.
  destruct (exists_last Hne) as (l' & b & ->).
  unfold decode. rewrite map_app. cbn [map]. rewrite !last_last.
  apply decode_char_blank.
  apply Forall_app in Hall as [_ Hb]. now inversion Hb.
Qed.

Lemma Forall_firstn_skipn {A} (P : A -> Prop) l n m :
  Forall P l -> Forall P (firstn n (skipn m l)).
Proof.
  intros H. rewrite Forall_forall in *. intros x Hx.
  apply H. rewrite <- (firstn_skipn m l). apply in_or_app. right.
  rewrite <- (firstn_skipn n (skipn m l)). apply in_or_app. now left.
Qed.

Lemma Forall_stripStart (P : Z -> Prop) l :
  Forall P l -> Forall P (stripStart l).
Proof.
  intros H. destruct (stripStart_split l) as (blank & E & _).
  rewrite E in H. now apply Forall_app in H.
Qed.

Lemma Forall_stripEnd (P : Z -> Prop) l :
  Forall P l -> Forall P (stripEnd l).
Proof.
  intros H. destruct (stripEnd_split l) as (blank & E & _).
  rewrite E in H. now apply Forall_app in H.
Qed.

Lemma at_index_Some bytes i :
  Forall (fun b => 0 <= b < 256) bytes ->
  0 <= i < Z.of_nat (length bytes) ->
  exists b, at_index bytes i = Some b /\ 0 <= b < 256.
Proof.
  intros Hall Hi. unfold at_index.
  replace (i <? 0) with false by (symmetry; apply Z.ltb_ge; lia).
  destruct (nth_error bytes (Z.to_nat i)) as [b|] eqn:E.
  - exists b. split; [reflexivity|].
    rewrite Forall_forall in Hall. apply Hall.
    eapply nth_error_In. exact E.
  - apply nth_error_None in E. lia.
Qed.

Lemma StronglySorted_filter {A} (R : A -> A -> Prop) (p : A -> bool) l :
  StronglySorted R l -> StronglySorted R (filter p l).
Proof.
  induction 1 as [|a l Hs IH Hall]; [constructor|].
  cbn [filter]. destruct (p a); [|exact IH].
  constructor; [exact IH|].
  rewrite Forall_forall in *. intros x Hx.
  apply Hall. now apply filter_In in Hx.
Qed.

Lemma parsePad_sorted bytes offset n : forall a,
  StronglySorted (fun p q => padNumber p < padNumber q)
    (map (fun i => parsePad bytes offset (Z.of_nat i)) (seq a n)).
Proof.
  induction n as [|n IH]; intros a; [constructor|].
  cbn [seq map]. constructor; [apply IH|].
  rewrite Forall_forall. intros q Hq.
  apply in_map_iff in Hq as (i & <- & Hi). apply in_seq in Hi.
  cbn [parsePad padNumber]. lia.
Qed.

(** What [parsePgmFile] returns for a buffer of bytes.  The program is
    called "MPC3000 Program".  A pad is listed exactly when its 16-byte
    name slot holds a byte other than NUL and space; the slots start at
    offset 2 when the first two bytes are below 0x20 and at offset 0
    otherwise.  The pads come in increasing pad number, from 1 to 32;
    each name has 1 to 16 characters and neither starts nor ends with
    NUL or space.  In a buffer of 642 bytes or more every pad has its
    tuning, volume and pan bytes; in a shorter one they can be
    missing. *)
Theorem parsePgmFile_pads (buffer : list Z) :
  Forall (fun b => 0 <= b < 256) buffer ->
  let program := parsePgmFile buffer in
  let offset :=
    if below_0x20 (at_index buffer 0) && below_0x20 (at_index buffer 1)
    then 2 else 0 in
  AkaiPgm.name program = str "MPC3000 Program" /\
  StronglySorted (fun p q => padNumber p < padNumber q) (pads program) /\
  (forall i, (i < 32)%nat ->
     (exists pad, In pad (pads program) /\ padNumber pad = Z.of_nat i + 1)
     <->
     Exists (fun b => b <> 0 /\ b <> 0x20)
            (firstn 16 (skipn (Z.to_nat (offset + Z.of_nat i * 16))
                              buffer))) /\
  Forall (fun pad =>
            1 <= padNumber pad <= 32 /\
            (1 <= length (sampleName pad) <= 16)%nat /\
            is_pad_byte (hd 0 (sampleName pad)) = false /\
            is_pad_byte (last (sampleName pad) 0) = false /\
            (642 <= Z.of_nat (length buffer) ->
             exists t v p,
               tuning pad = Some t /\ volume pad = Some v /\
               pan pad = Some p /\
               0 <= t < 256 /\ 0 <= v < 256 /\ 0 <= p < 256))
         (pads program).
Proof.
  intros Hbytes program offset. subst program. unfold parsePgmFile.
  fold offset. cbn [AkaiPgm.name pads].
  assert (Hoff : 0 <= offset <= 2) by (subst offset; destruct (_ && _); lia).
  split; [reflexivity|]. split.
  { apply StronglySorted_filter. apply parsePad_sorted. }
  split.
  - intros i Hi.
    set (slot := firstn 16 (skipn (Z.to_nat (offset + Z.of_nat i * 16))
                                  buffer)).
    assert (Hname : sampleName (parsePad buffer offset (Z.of_nat i))
                    = decode (stripEnd (stripStart slot))) by reflexivity.
    assert (Hblank : Forall (fun b => is_pad_byte b = true) slot <->
                     ~ Exists (fun b => b <> 0 /\ b <> 0x20) slot).
    { rewrite <- Forall_Exists_neg. split; apply Forall_impl; intros b;
        unfold is_pad_byte;
        destruct (Z.eqb_spec b 0), (Z.eqb_spec b 0x20); cbn; intros H;
        try tauto; try discriminate; try lia. }
    split.
    + intros (pad & Hin & Hnum).
      apply filter_In in Hin as [Hin Hlen].
      apply in_map_iff in Hin as (k & <- & Hk).
      cbn [parsePad padNumber] in Hnum.
      assert (k = i) by lia. subst k.
      rewrite Hname, decode_length in Hlen.
      destruct (Exists_dec (fun b => b <> 0 /\ b <> 0x20) slot) as [H|H];
        [|exact H|].
      { intros b. destruct (Z.eq_dec b 0), (Z.eq_dec b 0x20);
          [right|right|right|left]; tauto. }
      apply Hblank, trimmed_blank in H. rewrite H in Hlen. discriminate.
    + intros Hex.
      exists (parsePad buffer offset (Z.of_nat i)). split; [|reflexivity].
      apply filter_In. split.
      * apply in_map_iff. exists i. split; [reflexivity|].
        apply in_seq. lia.
      * rewrite Hname, decode_length.
        destruct (stripEnd (stripStart slot)) eqn:E; [|reflexivity].
        apply trimmed_blank, Hblank in E. contradiction.
  - rewrite Forall_forall. intros pad Hin.
    apply filter_In in Hin as [Hin Hlen].
    apply in_map_iff in Hin as (i & <- & Hi). apply in_seq in Hi.
    set (slot := firstn 16 (skipn (Z.to_nat (offset + Z.of_nat i * 16))
                                  buffer)).
    assert (Hname : sampleName (parsePad buffer offset (Z.of_nat i))
                    = decode (stripEnd (stripStart slot))) by reflexivity.
    rewrite Hname in *. rewrite decode_length in *.
    assert (Hslot : Forall (fun b => 0 <= b < 256) slot)
      by (now apply Forall_firstn_skipn).
    assert (Htr : Forall (fun b => 0 <= b < 256)
                         (stripEnd (stripStart slot)))
      by (now apply Forall_stripEnd, Forall_stripStart).
    assert (Hne : stripEnd (stripStart slot) <> [])
      by (intros E; rewrite E in Hlen; discriminate).
    split; [cbn [parsePad padNumber]; lia|]. split.
    { split.
      - destruct (stripEnd (stripStart slot)); [contradiction | cbn; lia].
      - etransitivity; [apply stripEnd_length|].
        etransitivity; [apply stripStart_length|].
        subst slot. apply firstn_le_length. }
    split.
    { rewrite hd_decode by assumption.
      destruct (stripEnd (stripStart slot)) as [|b rest] eqn:E;
        [contradiction|].
      cbn [hd]. eapply trimmed_head. exact E. }
    split.
    { rewrite last_decode by assumption. now apply stripEnd_last. }
    intros Hlong. cbn [parsePad tuning volume pan].
    destruct (at_index_Some buffer (offset + 32 * 16 + Z.of_nat i * 4)
                Hbytes) as (t & Et & Ht); [lia|].
    destruct (at_index_Some buffer (offset + 32 * 16 + Z.of_nat i * 4 + 1)
                Hbytes) as (v & Ev & Hv); [lia|].
    destruct (at_index_Some buffer
                (offset + 32 * 16 + Z.of_nat i * 4 + 1 + 1) Hbytes)
      as (p & Ep & Hp); [lia|].
    exists t, v, p. auto 10.
Qed.

Lemma parsePgmFile_pads_witness :
  let buffer := [1; 0] ++ repeat 0x20 16 ++ str " KICK" ++ repeat 0 700 in
  exists pad, In pad (pads (parsePgmFile buffer)) /\ padNumber pad = 2.
Proof.
  intros buffer.
  destruct (parsePgmFile_pads buffer) as (_ & _ & Hlisted & _).
  - subst buffer. repeat (apply Forall_app; split).
    + repeat constructor; lia.
    + apply Forall_forall. intros b Hb. apply repeat_spec in Hb. lia.
    + repeat constructor; cbn; lia.
    + apply Forall_forall. intros b Hb. apply repeat_spec in Hb. lia.
  - apply (Hlisted 1%nat); [lia|].
    apply Exists_cons_tl. apply Exists_cons_hd. cbn. lia.
Defined.

End PgmFacts.
(** ** File names for the sampler *)

Module FileUtilsFacts.
Import JSFacts FileUtils.

Lemma lastDot_None s :
  Forall (fun c => c <> 46) s -> Snd.lastDot s = None.
Proof.
  induction 1 as [|c s Hc Hall IH]; [reflexivity|].
  cbn [Snd.lastDot]. rewrite IH.
  destruct (Z.eqb_spec c 46); [contradiction | reflexivity].
Qed.

Lemma safe_char_fixed c :
  isUpperAlnum c = true \/ c = 95 ->
  (if isUpperAlnum c then c else 95) = c.
Proof. intros [->| ->]; reflexivity. Qed.

Lemma safe_char_not_dot c : isUpperAlnum c = true \/ c = 95 -> c <> 46.
Proof.
  unfold isUpperAlnum. intros [H| ->]; [|lia].
  intros ->. discriminate H.
Qed.

Section SanitizeFileName.
Variable toUpperCase : jsstring -> jsstring.

Lemma sanitizeFileName_chars (name : jsstring) :
  (1 <= length (sanitizeFileName toUpperCase name) <= 12)%nat /\
  Forall (fun c => isUpperAlnum c = true \/ c = 95)
         (sanitizeFileName toUpperCase name).
Proof.
  unfold sanitizeFileName.
  set (sanitized := map (fun c => if isUpperAlnum c then c else 95)
                        (toUpperCase (Snd.removeExtension name))).
  assert (Hs : Forall (fun c => isUpperAlnum c = true \/ c = 95)
                      sanitized).
  { subst sanitized. apply Forall_map, Forall_forall. intros c _.
    destruct (isUpperAlnum c) eqn:E; auto. }
  assert (Hl : (length (slice0 12 sanitized) <= 12)%nat)
    by apply firstn_le_length.
  assert (Ht : Forall (fun c => isUpperAlnum c = true \/ c = 95)
                      (slice0 12 sanitized)).
  { unfold slice0. rewrite <- (firstn_skipn 12 sanitized) in Hs.
    now apply Forall_app in Hs. }
  destruct (slice0 12 sanitized) as [|c rest] eqn:E.
  - split; [cbn; lia|]. repeat constructor; left; reflexivity.
  - split; [cbn [length] in *; lia | assumption].
Qed.


Hypothesis toUpperCase_fixed : forall s,
  Forall (fun c => isUpperAlnum c = true \/ c = 95) s ->
  toUpperCase s = s.

(** Sanitizing twice changes nothing more, given that [toUpperCase]
    leaves a string of capital letters, digits and underscores as it
    is. *)
Theorem sanitizeFileName_idempotent (name : jsstring) :
  sanitizeFileName toUpperCase (sanitizeFileName toUpperCase name)
  = sanitizeFileName toUpperCase name.
Proof.
  destruct (sanitizeFileName_chars name) as [Hl Hs].
  set (r := sanitizeFileName toUpperCase name) in *. clearbody r.
  unfold sanitizeFileName.
  assert (Hbase : Snd.removeExtension r = r).
  { unfold Snd.removeExtension. rewrite lastDot_None; [reflexivity|].
    eapply Forall_impl; [|exact Hs]. apply safe_char_not_dot. }
  rewrite Hbase, toUpperCase_fixed by assumption.
  assert (Hmap : map (fun c => if isUpperAlnum c then c else 95) r = r).
  { clear Hl Hbase. induction Hs as [|c s Hc Hs IH]; [reflexivity|].
    cbn [map]. now rewrite IH, safe_char_fixed. }
  rewrite Hmap. unfold slice0. rewrite firstn_all2 by lia.
  destruct r; [cbn in Hl; lia | reflexivity].
Qed.
End SanitizeFileName.

Lemma asciiUpper_fixed s :
  Forall (fun c => isUpperAlnum c = true \/ c = 95) s ->
  Terms.asciiUpper s = s.
Proof.
  induction 1 as [|c s Hc Hs IH]; [reflexivity|].
  cbn [Terms.asciiUpper map]. fold (Terms.asciiUpper s). rewrite IH.
  f_equal. unfold isUpperAlnum in Hc.
  destruct (Z.leb_spec 97 c); [|reflexivity].
  destruct (Z.leb_spec c 122); [|reflexivity].
  destruct Hc as [Hc| ->]; [|lia].
  destruct (Z.leb_spec 65 c), (Z.leb_spec c 90), (Z.leb_spec 48 c),
    (Z.leb_spec c 57); cbn in Hc; try discriminate; lia.
Qed.

Lemma sanitizeFileName_idempotent_witness :
  sanitizeFileName Terms.asciiUpper
    (sanitizeFileName Terms.asciiUpper (str "my kick.v2.wav"))
  = sanitizeFileName Terms.asciiUpper (str "my kick.v2.wav").
Proof.
  apply sanitizeFileName_idempotent. exact asciiUpper_fixed.
Defined.

End FileUtilsFacts.
(** ** The end markers of a built image *)

Module EndMarkers.
Import SP1200 Number Props Terms JSFacts BuilderFacts ByteFacts WavFacts
       BuilderLaws ImageLayout DiskBuilder.

Lemma getUint16_of_setUint16 b off v b' :
  setUint16 b off v true = Ok b' ->
  getUint16 b' off true = Ok (v mod 65536).
Proof.
  intros H. pose proof (setUint16_Ok _ _ _ _ _ H) as (Hl & H0 & H2).
  rewrite setUint16_fits in H by assumption. apply Ok_inj in H. subst b'.
  rewrite getUint16_le_fits by (cbn [byteLength store]; lia).
  f_equal. unfold byte. cbn [byteAt store].
  replace (off =? off + 1) with false by (symmetry; bool_lia).
  rewrite !Z.eqb_refl.
  assert (0 <= v mod 65536 < 65536) by (apply Z.mod_pos_bound; lia).
  Z.div_mod_to_equations. lia.
Qed.

Lemma writeSample_marker buf cur s buf' cur' :
  cur mod 256 = 0 ->
  writeSample (buf, cur) s = Ok (buf', cur') ->
  getUint16 buf' (cur + Z.of_nat (length (data s))) true
  = Ok SP1200_END_MARKER.
Proof.
  intros Hmod H. unfold writeSample in H.
  replace (cur mod SP1200_SAMPLE_ALIGN =? 0) with true in H
    by (symmetry; apply Z.eqb_eq; exact Hmod).
  cbn [negb] in H.
  do 8 bind_inv H. apply Ok_inj in H. injection H as <- _.
  match goal with
  | E : setUint16 _ _ SP1200_END_MARKER true = Ok _ |- _ =>
      apply getUint16_of_setUint16 in E; exact E
  end.
Qed.

Lemma getUint16_unchanged b b' off :
  byteLength b' = byteLength b ->
  (forall j, off <= j < off + 2 -> byteAt b' j = byteAt b j) ->
  getUint16 b' off true = getUint16 b off true.
Proof.
  intros Hl H. unfold getUint16, in_bounds, byte. rewrite Hl.
  rewrite !H by lia. reflexivity.
Qed.

Lemma writeSamples_markers l : forall buf cur k buf' cur',
  byteLength buf = SP1200_DISK_SIZE ->
  SP1200_SAMPLE_DATA_OFFSET <= cur -> cur mod 256 = 0 -> 0 <= k ->
  StronglySorted (fun a b => slot a < slot b) l ->
  Forall (fun s => k <= slot s /\ 1 <= padNumber s <= 8 /\ plain s) l ->
  zero_from buf k ->
  writeSamples (buf, cur) l = Ok (buf', cur') ->
  Forall (fun s => exists d,
            getUint32 buf' (entryOffset s + 0x10) true = Ok d /\
            ((Z.of_nat (length (data s)) mod 256 <> 0 /\
              Z.of_nat (length (data s)) mod 256 <> 255) \/
             Forall (fun s' => slot s' <= slot s) l ->
             getUint16 buf' (d + Z.of_nat (length (data s))) true
             = Ok SP1200_END_MARKER)) l.
Proof.
  induction l as [|s rest IH];
    intros buf cur k buf' cur' Hlen Hcur Hmod Hk Hsorted Hall Hzero H;
    [constructor|].
  cbn [writeSamples] in H.
  apply bind_Ok in H as ([b1 c1] & E1 & H).
  apply Forall_cons_iff in Hall as [(Hks & Hpad & Hplain) Hall].
  apply StronglySorted_inv in Hsorted as [Hsorted Hlt].
  pose proof (slot_range s Hpad) as Hslot.
  assert (Hz : zero_from buf (slot s)).
  { intros j Hj. apply Hzero.
    unfold SP1200_PAD_TABLE_OFFSET, SP1200_PAD_ENTRY_SIZE in *. lia. }
  destruct (writeSample_facts _ _ _ _ _ Hlen Hpad Hplain Hcur Hmod Hz E1)
    as (Hl1 & Hc1 & Hfit & Hreads & Hframe1 & Hspill).
  pose proof (writeSample_marker _ _ _ _ _ Hmod E1) as Hmark.
  unfold SP1200_SAMPLE_DATA_OFFSET in *.
  destruct (alignUp_facts (cur + Z.of_nat (length (data s))))
    as (Ha1 & Ha2 & Ha3); [lia|].
  rewrite <- Hc1 in Ha1, Ha2, Ha3.
  assert (Heo : entryOffset s = 2048 + slot s * 32) by reflexivity.
  assert (Hz1 : zero_from b1 (slot s + 1)).
  { intros j Hj.
    unfold SP1200_PAD_TABLE_OFFSET, SP1200_PAD_ENTRY_SIZE,
      SP1200_SAMPLE_DATA_OFFSET in Hj.
    destruct (Z_lt_le_dec j (entryOffset s + 35)) as [Hs|Hs].
    - apply Hspill. lia.
    - rewrite (byte_ext buf) by (apply Hframe1; lia).
      apply Hzero.
      unfold SP1200_PAD_TABLE_OFFSET, SP1200_PAD_ENTRY_SIZE,
        SP1200_SAMPLE_DATA_OFFSET. lia. }
  assert (Hall1 : Forall (fun s' => slot s + 1 <= slot s' /\
                                    1 <= padNumber s' <= 8 /\ plain s')
                         rest).
  { rewrite Forall_forall in *. intros s' Hin.
    specialize (Hall s' Hin). specialize (Hlt s' Hin). cbn in Hlt.
    intuition lia. }
  destruct (writeSamples_layout rest b1 c1 (slot s + 1) buf' cur' Hl1
              ltac:(unfold SP1200_SAMPLE_DATA_OFFSET; lia) Ha2 ltac:(lia)
              Hsorted Hall1 Hz1 H)
    as (Hl' & Hc' & Hm' & Hframe2 & _ & _).
  specialize (IH b1 c1 (slot s + 1) buf' cur' Hl1 ltac:(lia) Ha2 ltac:(lia)
                 Hsorted Hall1 Hz1 H).
  constructor.
  - exists cur. split.
    + destruct Hreads as (_ & _ & Hoff & _).
      rewrite <- Hoff. apply getUint32_ext; [congruence|].
      intros j Hj. apply Hframe2. lia.
    + intros [[Hn0 Hn255]|Hlast].
      * rewrite <- Hmark. apply getUint16_unchanged; [congruence|].
        intros j Hj. apply Hframe2. right.
        subst c1. rewrite alignUp_spec in * by (unfold SP1200_DISK_SIZE in *; lia).
        Z.div_mod_to_equations. lia.
      * destruct rest as [|s' rest'].
        { cbn [writeSamples] in H. apply Ok_inj in H.
          injection H as <- _. exact Hmark. }
        exfalso. apply Forall_inv_tail, Forall_inv in Hlast.
        apply Forall_inv in Hlt. lia.
  - eapply Forall_impl; [|exact IH].
    intros s' (d & Hd & Hm). exists d. split; [exact Hd|].
    intros [Hmid|Hlast]; apply Hm; [now left | right].
    now apply Forall_inv_tail in Hlast.
Qed.

(** Where the end markers are.  In the image of a builder of plain
    assignments, the word 0x8000 follows the data of an assignment when
    the number of its data bytes is neither 0 nor 255 modulo 256, and,
    whatever that number, for the assignment on the last occupied pad.
    (For the others the marker is where the next sample starts.) *)
Theorem createDiskImage_end_markers (this : Builder) (image : ArrayBuffer) :
  reachable this -> Forall plain (Map_values this) ->
  fst (createDiskImage this) = Ok image ->
  forall a, In a (Map_values this) ->
    exists d,
      getUint32 image (entryOffset a + 0x10) true = Ok d /\
      ((Z.of_nat (length (data a)) mod 256 <> 0 /\
        Z.of_nat (length (data a)) mod 256 <> 255) \/
       (forall a', In a' (Map_values this) -> slot a' <= slot a) ->
       getUint16 image (d + Z.of_nat (length (data a))) true
       = Ok SP1200_END_MARKER).
Proof.
  intros Hr Hplain H a Hin.
  destruct (reachable_capacity this Hr) as (Hcap & Hnd & Hvalid).
  unfold createDiskImage, getPadAssignments in H. cbn [fst] in H.
  destruct (writeHeader_facts (Map_size this))
    as (b0 & E0 & Hl0 & Hz0 & _).
  rewrite E0 in H. cbn [bind] in H.
  set (sorted := sort compareAssignments (Map_values this)) in *.
  assert (Hperm : Permutation sorted (Map_values this))
    by apply sort_Permutation.
  destruct (writeSamples (b0, SP1200_SAMPLE_DATA_OFFSET) sorted)
    as [[b1 c1]|e] eqn:E1; [|discriminate].
  cbn [bind] in H. destruct (c1 >? SP1200_DISK_SIZE); [discriminate|].
  apply Ok_inj in H. subst b1.
  assert (Hsorted : StronglySorted (fun a b => slot a < slot b) sorted).
  { apply sorted_slots.
    - eapply Permutation_Forall; [symmetry; exact Hperm | exact Hvalid].
    - eapply Permutation_NoDup;
        [apply Permutation_map; symmetry; exact Hperm | exact Hnd].
    - apply sort_sorted.
      + intros x y. rewrite !compareAssignments_le. lia.
      + intros x y z. rewrite !compareAssignments_le. lia. }
  assert (Hall : Forall (fun s => 0 <= slot s /\ 1 <= padNumber s <= 8 /\
                                  plain s) sorted).
  { eapply Permutation_Forall; [symmetry; exact Hperm|].
    rewrite Forall_forall in *. intros x Hx.
    pose proof (slot_range x (Hvalid x Hx)). auto with zarith. }
  pose proof (writeSamples_markers sorted b0 SP1200_SAMPLE_DATA_OFFSET 0
                image c1 Hl0 ltac:(reflexivity) ltac:(reflexivity)
                ltac:(lia) Hsorted Hall Hz0 E1) as Hmarks.
  rewrite Forall_forall in Hmarks.
  destruct (Hmarks a) as (d & Hd & Hm).
  { eapply Permutation_in; [symmetry; exact Hperm | exact Hin]. }
  exists d. split; [exact Hd|].
  intros [Hmid|Hlast]; apply Hm; [now left | right].
  apply Forall_forall. intros a' Ha'. apply Hlast.
  eapply Permutation_in; [exact Hperm | exact Ha'].
Qed.

(** Pads A1 (three data bytes) and A2 (256 data bytes): both markers are
    in the image, at 0x1003 and at 0x1200. *)
Lemma createDiskImage_end_markers_witness :
  match fst (createDiskImage
               (builderOf [padArg "A" 1 "one" [1; 2; 3];
                           padArg "A" 2 "two" (repeat 17 256)])) with
  | Ok image =>
      getUint16 image (0x1000 + 3) true = Ok SP1200_END_MARKER /\
      getUint16 image (0x1100 + 256) true = Ok SP1200_END_MARKER
  | Throw _ => False
  end.
Proof.
  set (args := [padArg "A" 1 "one" [1; 2; 3];
                padArg "A" 2 "two" (repeat 17 256)]).
  assert (Hok : match fst (createDiskImage (builderOf args)) with
                | Ok image =>
                    match getUint32 image (0x800 + 0x10) true,
                          getUint32 image (0x800 + 32 + 0x10) true with
                    | Ok d1, Ok d2 => (d1 =? 0x1000) && (d2 =? 0x1100)
                    | _, _ => false
                    end
                | Throw _ => false
                end = true) by (vm_compute; reflexivity).
  destruct (fst (createDiskImage (builderOf args))) as [image|e] eqn:E;
    [|discriminate Hok].
  destruct (getUint32 image (0x800 + 0x10) true) as [d1|] eqn:E1;
    [|discriminate Hok].
  destruct (getUint32 image (0x800 + 32 + 0x10) true) as [d2|] eqn:E2;
    [|discriminate Hok].
  apply andb_true_iff in Hok as [H1 H2].
  apply Z.eqb_eq in H1, H2. subst d1 d2.
  assert (Hplain : Forall plain (Map_values (builderOf args))).
  { repeat constructor; cbn; try lia.
    all: apply Forall_forall; intros b Hb; apply repeat_spec in Hb; lia. }
  pose proof (createDiskImage_end_markers (builderOf args) image
                (builderOf_reachable args) Hplain E) as Hm.
  split.
  - destruct (Hm {| bank := A; padNumber := 1; name := str "one";
                    data := [1; 2; 3]; metadata := None |})
      as (d & Hd & Hmark).
    + cbn. auto.
    + change (entryOffset _ + 16) with (0x800 + 0x10) in Hd.
      rewrite E1 in Hd. apply Ok_inj in Hd. subst d.
      apply Hmark. left. cbn. lia.
  - destruct (Hm {| bank := A; padNumber := 2; name := str "two";
                    data := repeat 17 256; metadata := None |})
      as (d & Hd & Hmark).
    + cbn. auto.
    + change (entryOffset _ + 16) with (0x800 + 32 + 0x10) in Hd.
      rewrite E2 in Hd. apply Ok_inj in Hd. subst d.
      apply Hmark. right. intros a' [<-|[<-|[]]]; cbn; lia.
Defined.

End EndMarkers.

(** ** The sample-count test of [validateWavFormat] *)

Module SampleCount.
Import SP1200 Number Wav Route Props Terms JSFacts WavFacts WavLaws.
Import ConversionLaws SampleCountDefs.

Lemma at_least_2pow_mono k k' x :
  k <= k' -> at_least_2pow k' x -> at_least_2pow k x.
Proof. intros Hk. destruct x as [s|[]| |[] m e]; cbn; auto. lia. Qed.

Lemma digits2_pos_lower m : 2 ^ (Z.pos (digits2_pos m) - 1) <= Z.pos m.
Proof.
  induction m as [m IH|m IH|]; cbn [digits2_pos];
    rewrite ?Pos2Z.inj_succ;
    try (replace (Z.succ (Z.pos (digits2_pos m)) - 1)
           with (Z.succ (Z.pos (digits2_pos m) - 1)) by lia;
         rewrite Z.pow_succ_r by lia);
    try lia.
Qed.

Lemma digits2_pos_between m k :
  2 ^ (k - 1) <= Z.pos m < 2 ^ (k + 1) ->
  Z.pos (digits2_pos m) = k \/ Z.pos (digits2_pos m) = k + 1.
Proof.
  intros [Hlo Hhi].
  pose proof (digits2_pos_lower m) as Hl.
  pose proof (digits2_pos_bound m) as Hu.
  destruct (Z_lt_le_dec (Z.pos (digits2_pos m)) k) as [H|H].
  - assert (2 ^ Z.pos (digits2_pos m) <= 2 ^ (k - 1))
      by (apply Z.pow_le_mono_r; lia). lia.
  - destruct (Z_lt_le_dec (k + 1) (Z.pos (digits2_pos m))) as [H'|H'].
    + assert (2 ^ (k + 1) <= 2 ^ (Z.pos (digits2_pos m) - 1))
        by (apply Z.pow_le_mono_r; lia). lia.
    + lia.
Qed.

Lemma digits2_pos_succ m :
  digits2_pos (Pos.succ m) = digits2_pos m \/
  digits2_pos (Pos.succ m) = Pos.succ (digits2_pos m).
Proof.
  induction m as [m IH|m IH|]; cbn [Pos.succ digits2_pos]; auto.
  destruct IH as [-> | ->]; auto.
Qed.

Lemma digits2_pos_iter_xO m n :
  Z.pos (digits2_pos (Pos.iter xO m n)) = Z.pos (digits2_pos m) + Z.pos n.
Proof.
  induction n as [|n IH] using Pos.peano_ind.
  - cbn. lia.
  - rewrite Pos.iter_succ. cbn [digits2_pos]. lia.
Qed.

(** The shift of [binary_round_aux] at a mantissa of 53 or 54 digits:
    none or one place, and 53 digits are left. *)
Lemma shr_fexp_normal p e l :
  -1074 <= e ->
  Z.pos (digits2_pos p) = 53 \/ Z.pos (digits2_pos p) = 54 ->
  exists mrs e' p',
    shr_fexp prec emax (Z.pos p) e l = (mrs, e') /\
    shr_m mrs = Z.pos p' /\ e <= e' /\ Z.pos (digits2_pos p') = 53.
Proof.
  intros He [Hd|Hd];
    unfold shr_fexp, fexp, SpecFloat.emin, Zdigits2, prec, emax; rewrite Hd.
  - replace (Z.max (53 + e - 53) (3 - 1024 - 53) - e) with 0 by lia.
    cbn [shr]. eexists _, _, p. split; [reflexivity|].
    split; [destruct l as [|[]]; reflexivity|]. split; [lia|assumption].
  - replace (Z.max (54 + e - 53) (3 - 1024 - 53) - e) with 1 by lia.
    cbn [shr iter_pos].
    destruct p as [p|p|]; cbn [digits2_pos] in Hd;
      [exists (shr_1 (shr_record_of_loc (Z.pos p~1) l)), (e + 1), p
      |exists (shr_1 (shr_record_of_loc (Z.pos p~0) l)), (e + 1), p
      |discriminate];
      (split; [reflexivity|]);
      (split; [destruct l as [|[]]; reflexivity|]); split; lia.
Qed.

Lemma round_nearest_even_normal p l :
  Z.pos (digits2_pos p) = 53 ->
  exists p', round_nearest_even (Z.pos p) l = Z.pos p' /\
             (Z.pos (digits2_pos p') = 53 \/ Z.pos (digits2_pos p') = 54).
Proof.
  intros Hd.
  assert (Hs : exists p', Z.pos p + 1 = Z.pos p' /\
             (Z.pos (digits2_pos p') = 53 \/ Z.pos (digits2_pos p') = 54)).
  { exists (Pos.succ p). split; [lia|].
    destruct (digits2_pos_succ p) as [-> | ->]; lia. }
  unfold round_nearest_even.
  destruct l as [|[]]; try (exists p; split; [reflexivity | auto]);
    try exact Hs.
  destruct (Z.even (Z.pos p)); [exists p; auto | exact Hs].
Qed.

(** Rounding a positive mantissa of 53 or 54 digits does not lower the
    exponent. *)
Lemma binary_round_aux_at_least p e l :
  -1074 <= e ->
  Z.pos (digits2_pos p) = 53 \/ Z.pos (digits2_pos p) = 54 ->
  at_least_2pow e (binary_round_aux prec emax false (Z.pos p) e l).
Proof.
  intros He Hd. unfold binary_round_aux.
  destruct (shr_fexp_normal p e l He Hd) as (mrs & e' & p' & -> & Hm & He' & Hd').
  rewrite Hm.
  destruct (round_nearest_even_normal p' (loc_of_shr_record mrs) Hd')
    as (p2 & -> & Hd2).
  destruct (shr_fexp_normal p2 e' loc_Exact ltac:(lia) Hd2)
    as (mrs2 & e2 & p3 & -> & Hm2 & He2 & _).
  rewrite Hm2. destruct (e2 <=? emax - prec); cbn; lia.
Qed.

Lemma valid_normal m e :
  valid_binary (S754_finite false m e) = true -> -1074 < e ->
  Z.pos (digits2_pos m) = 53.
Proof.
  cbn [SpecFloat.valid_binary]. unfold bounded, canonical_mantissa, fexp, SpecFloat.emin.
  intros H. apply andb_true_iff in H as [H _]. apply Z.eqb_eq in H.
  unfold prec, emax in *. lia.
Qed.

(** Dividing by a positive normal number [m2 * 2^e2] lowers the bound on
    the exponent by [e2 + 53]. *)
Lemma SFdiv_at_least k x m2 e2 :
  valid_binary x = true -> at_least_2pow k x -> -1074 < k ->
  Z.pos (digits2_pos m2) = 53 -> -1074 <= k - e2 - 53 ->
  at_least_2pow (k - e2 - 53) (SFdiv prec emax x (S754_finite false m2 e2)).
Proof.
  intros Hv Hx Hk Hd2 Hk'.
  destruct x as [s|[]| |[] m1 e1]; cbn in Hx; try contradiction;
    [exact I|].
  assert (Hd1 : Z.pos (digits2_pos m1) = 53) by (apply (valid_normal m1 e1); [assumption|lia]).
  unfold SFdiv, SFdiv_core_binary, Zdigits2. rewrite Hd1, Hd2.
  unfold fexp, SpecFloat.emin, prec, emax. cbv zeta.
  replace (Z.min (Z.max (53 + e1 - (53 + e2) - 53) (3 - 1024 - 53)) (e1 - e2))
    with (e1 - e2 - 53) by lia.
  replace (e1 - e2 - (e1 - e2 - 53)) with 53 by lia.
  rewrite Z.shiftl_mul_pow2 by lia.
  pose proof (digits2_pos_lower m1) as Hl1. pose proof (digits2_pos_bound m1) as Hu1.
  pose proof (digits2_pos_lower m2) as Hl2. pose proof (digits2_pos_bound m2) as Hu2.
  rewrite Hd1 in Hl1, Hu1. rewrite Hd2 in Hl2, Hu2.
  change (2 ^ (53 - 1)) with 4503599627370496 in *.
  change (2 ^ 53) with 9007199254740992 in *.
  destruct (Z.div_eucl (Z.pos m1 * 9007199254740992) (Z.pos m2)) as [q r] eqn:E.
  assert (Hq : q = Z.pos m1 * 9007199254740992 / Z.pos m2)
    by (unfold Z.div; now rewrite E).
  assert (Hlo : 2 ^ (53 - 1) <= q).
  { rewrite Hq. apply Z.div_le_lower_bound; [lia|].
    change (2 ^ (53 - 1)) with 4503599627370496. lia. }
  assert (Hhi : q < 2 ^ (53 + 1)).
  { rewrite Hq. apply Z.div_lt_upper_bound; [lia|].
    change (2 ^ (53 + 1)) with 18014398509481984. lia. }
  destruct q as [|pq|pq]; try (change (2 ^ (53 - 1)) with 4503599627370496 in Hlo; lia).
  apply (at_least_2pow_mono _ (e1 - e2 - 53)); [lia|].
  apply binary_round_aux_at_least; [lia|].
  apply (digits2_pos_between pq 53). split; assumption.
Qed.

(** The number of a data length of 2048 bytes or more. *)
Lemma of_Z_at_least d :
  2048 <= d < 4294967296 -> at_least_2pow (-41) (Prim2SF (of_Z d)).
Proof.
  intros Hd. unfold of_Z. destruct (Z.ltb_spec d 0); [lia|].
  rewrite FloatAxioms.of_uint63_spec, Uint63.of_Z_spec.
  rewrite Z.mod_small by (change Uint63.wB with 9223372036854775808; lia).
  destruct d as [|p|p]; try lia.
  unfold binary_normalize, binary_round.
  pose proof (digits2_pos_lower p) as Hl.
  pose proof (digits2_pos_bound p) as Hu.
  assert (Hdg : 12 <= Z.pos (digits2_pos p) <= 32).
  { split.
    - destruct (Z_lt_le_dec (Z.pos (digits2_pos p)) 12) as [H'|H']; [|lia].
      assert (2 ^ Z.pos (digits2_pos p) <= 2 ^ 11)
        by (apply Z.pow_le_mono_r; lia).
      change (2 ^ 11) with 2048 in *. lia.
    - destruct (Z_lt_le_dec 32 (Z.pos (digits2_pos p))) as [H'|H']; [|lia].
      assert (2 ^ 32 <= 2 ^ (Z.pos (digits2_pos p) - 1))
        by (apply Z.pow_le_mono_r; lia).
      change (2 ^ 32) with 4294967296 in *. lia. }
  unfold shl_align, fexp, SpecFloat.emin, prec, emax.
  replace (Z.max (Z.pos (digits2_pos p) + 0 - 53) (3 - 1024 - 53))
    with (Z.pos (digits2_pos p) - 53) by lia.
  replace (Z.pos (digits2_pos p) - 53 - 0)
    with (Z.pos (digits2_pos p) - 53) by lia.
  destruct (Z.pos (digits2_pos p) - 53) as [|n|n] eqn:En; try lia.
  apply (at_least_2pow_mono _ (Z.neg n)); [lia|].
  apply binary_round_aux_at_least; [lia|].
  left. rewrite digits2_pos_iter_xO. lia.
Qed.

(** The numbers the count is divided by, and the threshold. *)
Lemma divisors :
  Prim2SF (of_Z 8 / of_Z 8) = S754_finite false 4503599627370496 (-52) /\
  Prim2SF (of_Z 16 / of_Z 8) = S754_finite false 4503599627370496 (-51) /\
  Prim2SF (of_Z 24 / of_Z 8) = S754_finite false 6755399441055744 (-51) /\
  Prim2SF (of_Z 1) = S754_finite false 4503599627370496 (-52) /\
  Prim2SF (of_Z 2) = S754_finite false 4503599627370496 (-51) /\
  Prim2SF (of_Z 100) = S754_finite false 7036874417766400 (-46).
Proof. vm_compute. repeat split. Qed.

(** A file of 2048 data bytes or more holds 100 samples or more,
    whatever its accepted depth and channel count. *)
Lemma sampleCount_large wav :
  bitsPerSample wav = 8 \/ bitsPerSample wav = 16 \/ bitsPerSample wav = 24 ->
  channels wav = 1 \/ channels wav = 2 ->
  2048 <= dataLength wav < 4294967296 ->
  PrimFloat.ltb (sampleCount wav) (of_Z 100) = false.
Proof.
  intros Hb Hc Hd. unfold sampleCount.
  destruct divisors as (D8 & D16 & D24 & C1 & C2 & C100).
  set (x := (of_Z (dataLength wav) / (of_Z (bitsPerSample wav) / of_Z 8))%float).
  assert (Hx : at_least_2pow (-43) (Prim2SF x)).
  { unfold x. rewrite FloatAxioms.div_spec.
    pose proof (of_Z_at_least _ Hd) as H0.
    pose proof (FloatAxioms.Prim2SF_valid (of_Z (dataLength wav))) as Hv.
    destruct Hb as [-> | [-> | ->]];
      [rewrite D8 | rewrite D16 | rewrite D24];
      (eapply at_least_2pow_mono;
       [|apply SFdiv_at_least;
         [exact Hv | exact H0 | lia | reflexivity | lia]]); lia. }
  assert (Hy : at_least_2pow (-45)
                 (Prim2SF (x / of_Z (channels wav)))).
  { rewrite FloatAxioms.div_spec.
    pose proof (FloatAxioms.Prim2SF_valid x) as Hv.
    destruct Hc as [-> | ->]; [rewrite C1 | rewrite C2];
      (eapply at_least_2pow_mono;
       [|apply SFdiv_at_least;
         [exact Hv | exact Hx | lia | reflexivity | lia]]); lia. }
  rewrite FloatAxioms.ltb_spec, C100.
  destruct (Prim2SF (x / of_Z (channels wav))) as [s|[]| |[] m e];
    cbn in Hy; try contradiction; [reflexivity|].
  unfold SFltb, SFcompare.
  destruct (Z.compare_spec e (-46)); try reflexivity; lia.
Qed.

(** Where the sample-count test falls, for every data length below 2048
    bytes at each accepted depth and channel count. *)
Lemma sampleCount_small :
  forallb (fun bits =>
    forallb (fun chans =>
      forallb (fun len =>
        Bool.eqb
          (PrimFloat.ltb
             (sampleCount {| audioFormat := 1; channels := chans;
                             sampleRate := 44100; bitsPerSample := bits;
                             dataOffset := 44;
                             dataLength := Z.of_nat len |})
             (of_Z 100))
          (Z.of_nat len <? 100 * (bits / 8) * chans))
        (seq 0 2048))
      [1; 2])
    [8; 16; 24] = true.
Proof. vm_compute. reflexivity. Qed.

(** The test [numSamples < minSamples] of [validateWavFormat], on
    numbers, decides [dataLength < 100 * (bitsPerSample / 8) * channels]
    on integers. *)
Lemma sampleCount_below wav :
  bitsPerSample wav = 8 \/ bitsPerSample wav = 16 \/ bitsPerSample wav = 24 ->
  channels wav = 1 \/ channels wav = 2 ->
  0 <= dataLength wav < 4294967296 ->
  PrimFloat.ltb (sampleCount wav) (of_Z 100)
  = (dataLength wav <? 100 * (bitsPerSample wav / 8) * channels wav).
Proof.
  intros Hb Hc Hd.
  destruct (Z_lt_le_dec (dataLength wav) 2048) as [Hs|Hs].
  - pose proof sampleCount_small as T.
    rewrite forallb_forall in T.
    assert (Hbin : In (bitsPerSample wav) [8; 16; 24])
      by (destruct Hb as [E | [E | E]]; rewrite E; cbn; auto).
    specialize (T _ Hbin). rewrite forallb_forall in T.
    assert (Hcin : In (channels wav) [1; 2])
      by (destruct Hc as [E | E]; rewrite E; cbn; auto).
    specialize (T _ Hcin). rewrite forallb_forall in T.
    specialize (T (Z.to_nat (dataLength wav))
                  ltac:(apply in_seq; lia)).
    apply eqb_prop in T. rewrite Z2Nat.id in T by lia.
    exact T.
  - rewrite sampleCount_large by (assumption || lia).
    symmetry. apply Z.ltb_ge.
    destruct Hb as [-> | [-> | ->]]; destruct Hc as [-> | ->];
      cbn; lia.
Qed.

(** The same threshold on the exact count. *)
Lemma exactSampleCount_ge wav :
  bitsPerSample wav = 8 \/ bitsPerSample wav = 16 \/ bitsPerSample wav = 24 ->
  channels wav = 1 \/ channels wav = 2 ->
  (QArith_base.Qle (QArith_base.inject_Z 100) (exactSampleCount wav)
   <-> 100 * (bitsPerSample wav / 8) * channels wav <= dataLength wav).
Proof.
  intros Hb Hc. unfold exactSampleCount.
  destruct Hb as [-> | [-> | ->]]; destruct Hc as [-> | ->];
    unfold QArith_base.Qle, QArith_base.Qdiv, QArith_base.Qmult,
      QArith_base.Qinv, QArith_base.inject_Z;
    cbn; lia.
Qed.

Lemma parseWavHeader_dataLength buffer wav :
  parseWavHeader buffer = Ok wav -> 0 <= dataLength wav < 4294967296.
Proof.
  unfold parseWavHeader.
  destruct (byteLength buffer <? 44); [discriminate|].
  destruct (fourCharCode buffer 0) as [riff|]; [|discriminate]. cbn [bind].
  destruct (negb (jsstring_eqb riff (str "RIFF"))); [discriminate|].
  destruct (fourCharCode buffer 8) as [wave|]; [|discriminate]. cbn [bind].
  destruct (negb (jsstring_eqb wave (str "WAVE"))); [discriminate|].
  destruct (scanChunks _ _ _) as [[st|e']|] eqn:Hscan; try discriminate.
  apply scanChunks_inv in Hscan.
  2:{ unfold scan_ok. cbn. repeat split; lia. }
  destruct Hscan as (Ho & He & Hf & Hc & Hr & Hb & Hl & Hd).
  destruct (negb (foundFmt st)); [discriminate|].
  destruct (st_dataOffset st =? 0); [discriminate|].
  intros H. apply Ok_inj in H. subst wav. cbn. assumption.
Qed.

(** C4.  For the descriptor of a buffer that [parseWavHeader] accepts,
    [validateWavFormat] answers valid exactly when the format is 1, the
    channel count is 1 or 2, the depth is 8, 16 or 24, the rate is
    between 8000 and 192000 and the sample count
    [dataLength / (bitsPerSample / 8) / channels], taken as an exact
    quotient, is 100 or more.  A verdict is valid with no error or
    invalid with a reason; it is a function of the descriptor alone,
    which it returns no new version of. *)
Theorem validateWavFormat_spec (buffer : ArrayBuffer) (wav : WavHeader) :
  parseWavHeader buffer = Ok wav ->
  (isValid (validateWavFormat wav) = true <->
   audioFormat wav = 1 /\
   (channels wav = 1 \/ channels wav = 2) /\
   (bitsPerSample wav = 8 \/ bitsPerSample wav = 16 \/
    bitsPerSample wav = 24) /\
   8000 <= sampleRate wav <= 192000 /\
   QArith_base.Qle (QArith_base.inject_Z 100) (exactSampleCount wav)) /\
  (validateWavFormat wav = {| isValid := true; error := None |} \/
   exists reason,
     validateWavFormat wav = {| isValid := false; error := Some reason |}).
Proof.
  intros Hparse.
  destruct (validateWavFormat_tests buffer wav Hparse) as [Hiff Hverdict].
  split; [|exact Hverdict].
  apply parseWavHeader_dataLength in Hparse.
  rewrite Hiff. split.
  - intros (Hf & Hc & Hb & Hr & Hn).
    rewrite (sampleCount_below wav Hb Hc Hparse) in Hn.
    apply Z.ltb_ge in Hn.
    repeat (split; [assumption|]).
    now apply exactSampleCount_ge.
  - intros (Hf & Hc & Hb & Hr & Hn).
    repeat (split; [assumption|]).
    rewrite (sampleCount_below wav Hb Hc Hparse).
    apply Z.ltb_ge. now apply exactSampleCount_ge.
Qed.

(** The statement at one second of 16-bit silence, 44100 samples in
    88200 bytes, which is accepted. *)
Lemma validateWavFormat_spec_witness :
  parseWavHeader silence44100
  = Ok {| audioFormat := 1; channels := 1; sampleRate := 44100;
          bitsPerSample := 16; dataOffset := 44; dataLength := 88200 |} /\
  isValid (validateWavFormat
             {| audioFormat := 1; channels := 1; sampleRate := 44100;
                bitsPerSample := 16; dataOffset := 44;
                dataLength := 88200 |}) = true.
Proof.
  assert (Hparse : parseWavHeader silence44100
                   = Ok {| audioFormat := 1; channels := 1;
                           sampleRate := 44100; bitsPerSample := 16;
                           dataOffset := 44; dataLength := 88200 |})
    by (vm_compute; reflexivity).
  split; [exact Hparse|].
  destruct (validateWavFormat_spec silence44100 _ Hparse) as [[_ Hiff] _].
  apply Hiff. cbn [audioFormat channels bitsPerSample sampleRate].
  split; [reflexivity|]. split; [now left|]. split; [auto|].
  split; [lia|]. unfold QArith_base.Qle. cbn. lia.
Defined.

End SampleCount.

(** ** The disk builder on the heap: what a build leaves untouched *)

Module HeapFacts.
Import SP1200 Props JSFacts Heap HeapProps.
Local Open Scope heap_scope.

Lemma bindM_Ok {A B} (m : M A) (k : A -> M B) h a h' :
  m h = (Ok a, h') -> bindM m k h = k a h'.
Proof. unfold bindM. now intros ->. Qed.

Lemma bindM_Throw {A B} (m : M A) (k : A -> M B) h e h' :
  m h = (Throw e, h') -> bindM m k h = (Throw e, h').
Proof. unfold bindM. now intros ->. Qed.

Lemma nth_error_before {A} (l1 l2 : list A) r o :
  nth_error l1 r = Some o -> nth_error (l1 ++ l2) r = Some o.
Proof.
  intros H. rewrite nth_error_app1; [assumption|].
  apply nth_error_Some. congruence.
Qed.

Lemma replace_at before o o' after :
  replace (before ++ o :: after) (length before) o' = before ++ o' :: after.
Proof. induction before as [|x l IH]; cbn; [reflexivity | now rewrite IH]. Qed.

Lemma replace_next before x o o' after :
  replace (before ++ x :: o :: after) (S (length before)) o'
  = before ++ x :: o' :: after.
Proof. induction before as [|y l IH]; cbn; [reflexivity | now rewrite IH]. Qed.

Section During.
Variables (before after : list object) (pa : Map ref).

Lemma deref_before r o b :
  nth_error before r = Some o ->
  deref r (during before after b pa) = (Ok o, during before after b pa).
Proof.
  intros H. unfold deref, during. cbn [objects].
  now rewrite (nth_error_before _ _ _ _ H).
Qed.

Lemma assignmentOf_before r s b :
  nth_error before r = Some (Assignment s) ->
  assignmentOf r (during before after b pa)
  = (Ok s, during before after b pa).
Proof.
  intros H. unfold assignmentOf.
  now rewrite (bindM_Ok _ _ _ _ _ (deref_before _ _ b H)).
Qed.

Lemma elementsOf_before r l b :
  nth_error before r = Some (Uint8Array l) ->
  elementsOf r (during before after b pa)
  = (Ok l, during before after b pa).
Proof.
  intros H. unfold elementsOf.
  now rewrite (bindM_Ok _ _ _ _ _ (deref_before _ _ b H)).
Qed.

Lemma metadataOf_before r m b :
  nth_error before r = Some (Metadata m) ->
  metadataOf r (during before after b pa)
  = (Ok m, during before after b pa).
Proof.
  intros H. unfold metadataOf.
  now rewrite (bindM_Ok _ _ _ _ _ (deref_before _ _ b H)).
Qed.

Lemma bufferOf_during b :
  bufferOf (length before) (during before after b pa)
  = (Ok b, during before after b pa).
Proof.
  unfold bufferOf, bindM, deref, during. cbn [objects].
  rewrite nth_error_app2, Nat.sub_diag by lia. reflexivity.
Qed.

(** A write through a view changes the buffer of the build and
    nothing else. *)
Lemma through_during write b :
  through (length before) write (during before after b pa)
  = andThen (write b) (fun b' => (Ok tt, during before after b' pa))
            (during before after b pa).
Proof.
  unfold through. rewrite (bindM_Ok _ _ _ _ _ (bufferOf_during b)).
  unfold andThen. destruct (write b) as [b'|e]; [|reflexivity].
  unfold assign, during. cbn [objects padAssignments].
  now rewrite replace_at.
Qed.

Lemma bind_through {A} write (k : unit -> M A) b :
  bindM (through (length before) write) k (during before after b pa)
  = andThen (write b) (fun b' => k tt (during before after b' pa))
            (during before after b pa).
Proof.
  unfold bindM. rewrite through_during. unfold andThen.
  now destruct (write b).
Qed.

Lemma bind_bytes_set {A} src l off (k : unit -> M A) b :
  nth_error before src = Some (Uint8Array l) ->
  bindM (bytes_set (length before) src off) k (during before after b pa)
  = andThen (Uint8Array_set b l off)
            (fun b' => k tt (during before after b' pa))
            (during before after b pa).
Proof.
  intros H. unfold bytes_set, bytes_set_elements. unfold bindM at 1.
  rewrite (bindM_Ok _ _ _ _ _ (elementsOf_before _ _ b H)).
  rewrite through_during. unfold andThen.
  now destruct (Uint8Array_set b l off).
Qed.
End During.

Ltac through_step :=
  first [rewrite bind_through | rewrite through_during]; cbv beta;
  match goal with
  | |- context [andThen ?r _ _] =>
      let E := fresh "E" in
      destruct r eqn:E; unfold andThen; cbn [bind];
      [|solve [eexists; split; [reflexivity | intros ? ? [=]]]]
  end.

Ltac header_step :=
  rewrite bind_through; cbv beta;
  match goal with
  | |- context [andThen ?r _ _] =>
      let E := fresh "E" in
      destruct r eqn:E; unfold andThen at 1; cbn [bind];
      [|solve [eexists _, _; split; [reflexivity | intros ? [=]]]]
  end.

Lemma writeMetadata_during before after pa b off (m : option ref) md :
  match m with
  | Some r => exists fields, nth_error before r = Some (Metadata fields) /\
                             md = Some fields
  | None => md = None
  end ->
  exists b',
    Heap.writeMetadata (length before) off m (during before after b pa)
    = (match SP1200.writeMetadata b off md with
       | Ok _ => Ok tt
       | Throw e => Throw e
       end, during before after b' pa) /\
    forall b1, SP1200.writeMetadata b off md = Ok b1 -> b' = b1.
Proof.
  assert (Hfinal : forall b0 (r : result ArrayBuffer),
    exists b', andThen r (fun b' => (Ok tt, during before after b' pa))
                       (during before after b0 pa)
               = (match r with Ok _ => Ok tt | Throw e => Throw e end,
                  during before after b' pa) /\
               forall b1, r = Ok b1 -> b' = b1).
  { intros b0 [b1|e]; cbn; eexists; (split; [reflexivity|]); congruence. }
  intros Hm. unfold Heap.writeMetadata, SP1200.writeMetadata.
  destruct m as [r|].
  - destruct Hm as (fields & Hr & ->).
    rewrite (bindM_Ok _ _ _ _ _ (metadataOf_before _ _ _ _ _ _ Hr)).
    cbv zeta.
    unfold view_setUint8, view_setUint16.
    do 6 (rewrite bind_through; cbv beta;
          match goal with
          | |- context [andThen ?r _ _] =>
              let E := fresh "E" in
              destruct r eqn:E; unfold andThen at 1; cbn [bind];
              [|solve [eexists; split; [reflexivity | intros ? [=]]]]
          end).
    rewrite through_during. apply Hfinal.
  - subst md. unfold view_setUint8. rewrite through_during. apply Hfinal.
Qed.

(** An iteration of the loop writes what the value-passing
    [SP1200.writeSample] writes, into the buffer of the build, and
    writes nothing else. *)
Lemma writeSample_during before after pa b cur sample a :
  denotes before sample a ->
  exists b',
    Heap.writeSample (length before) cur sample (during before after b pa)
    = (match SP1200.writeSample (b, cur) a with
       | Ok (_, cur') => Ok cur'
       | Throw e => Throw e
       end, during before after b' pa) /\
    forall b1 cur1, SP1200.writeSample (b, cur) a = Ok (b1, cur1) -> b' = b1.
Proof.
  intros (s & Hs & Hbank & Hpad & Hname & Hdata & Hmeta).
  destruct a as [abank apad aname adata ameta].
  cbn [bank padNumber name data metadata] in *. subst abank apad aname.
  unfold Heap.writeSample, SP1200.writeSample.
  cbn [bank padNumber name data metadata].
  rewrite (bindM_Ok _ _ _ _ _ (assignmentOf_before _ _ _ _ _ _ Hs)).
  cbv zeta. unfold bytes_set_elements, view_setUint32, view_setUint8.
  through_step.
  rewrite (bindM_Ok _ _ _ _ _ (elementsOf_before _ _ _ _ _ _ Hdata)).
  do 4 through_step.
  destruct (writeMetadata_during before after pa a3
              (SP1200_PAD_TABLE_OFFSET
               + getPadIndex (o_bank s) (o_padNumber s) * SP1200_PAD_ENTRY_SIZE)
              (o_metadata s) ameta) as (bm & Hrun & Hbm).
  { destruct (o_metadata s); assumption. }
  destruct (SP1200.writeMetadata a3 _ ameta) as [b5|e] eqn:E5.
  2:{ rewrite (bindM_Throw _ _ _ _ _ Hrun). cbn [bind].
      eexists; split; [reflexivity | intros ? ? [=]]. }
  rewrite (bindM_Ok _ _ _ _ _ Hrun). cbn [bind].
  rewrite (Hbm b5 eq_refl).
  unfold view_setUint16.
  rewrite (bind_bytes_set _ _ _ _ _ _ _ _ Hdata).
  match goal with
  | |- context [andThen ?r _ _] =>
      let E := fresh "E" in
      destruct r eqn:E; unfold andThen; cbn [bind];
      [|solve [eexists; split; [reflexivity | intros ? ? [=]]]]
  end.
  rewrite (bindM_Ok _ _ _ _ _ (elementsOf_before _ _ _ _ _ _ Hdata)).
  through_step.
  eexists; split; [reflexivity|]. now intros ? ? [= <- _].
Qed.

Lemma writeSamples_during before after pa samples assignments :
  Forall2 (denotes before) samples assignments ->
  forall b cur,
  exists b',
    Heap.writeSamples (length before) cur samples (during before after b pa)
    = (match SP1200.writeSamples (b, cur) assignments with
       | Ok (_, cur') => Ok cur'
       | Throw e => Throw e
       end, during before after b' pa) /\
    forall b1 cur1,
      SP1200.writeSamples (b, cur) assignments = Ok (b1, cur1) -> b' = b1.
Proof.
  induction 1 as [|sample a samples assignments Ha _ IH]; intros b cur.
  - cbn. exists b. split; [reflexivity|]. now intros ? ? [= <- _].
  - cbn [Heap.writeSamples SP1200.writeSamples].
    destruct (writeSample_during before after pa b cur sample a Ha)
      as (b1 & Hrun & Hb1).
    destruct (SP1200.writeSample (b, cur) a) as [[b2 cur2]|e] eqn:E.
    + rewrite (bindM_Ok _ _ _ _ _ Hrun). cbn [bind].
      rewrite (Hb1 b2 cur2 eq_refl). apply IH.
    + rewrite (bindM_Throw _ _ _ _ _ Hrun). cbn [bind].
      eexists; split; [reflexivity | intros ? ? [=]].
Qed.

(** *** The sort *)

Lemma insert_related {A B} (R : A -> B -> Prop) c1 c2 :
  (forall x x' y y', R x x' -> R y y' -> c1 x y = c2 x' y') ->
  forall x x' l l',
    R x x' -> Forall2 R l l' -> Forall2 R (insert c1 x l) (insert c2 x' l').
Proof.
  intros Hc x x' l l' Hx Hl.
  induction Hl as [|y y' l l' Hy Hl IH]; cbn [insert].
  - constructor; [assumption | constructor].
  - rewrite (Hc _ _ _ _ Hx Hy).
    destruct (c2 x' y' <=? 0); constructor; auto.
Qed.

Lemma sort_related {A B} (R : A -> B -> Prop) c1 c2 :
  (forall x x' y y', R x x' -> R y y' -> c1 x y = c2 x' y') ->
  forall l l', Forall2 R l l' -> Forall2 R (sort c1 l) (sort c2 l').
Proof.
  intros Hc l l' Hl. induction Hl; cbn; [constructor|].
  now apply insert_related.
Qed.

(** The operands that [sort] hands to the comparator. *)
Lemma operands_during before after pa b elements assignments :
  Forall2 (denotes before) elements assignments ->
  exists operands,
    mapM (fun r => a <- assignmentOf r ;; ret (r, a)) elements
         (during before after b pa)
    = (Ok operands, during before after b pa) /\
    Forall2 (fun ro a => nth_error before (fst ro) = Some (Assignment (snd ro))
                         /\ holds before (snd ro) a)
            operands assignments.
Proof.
  induction 1 as [|r a elements assignments (s & Hs & Ha) _ (ops & Hrun & Hops)].
  - exists []. split; [reflexivity | constructor].
  - exists ((r, s) :: ops). split.
    + cbn [mapM].
      rewrite (bindM_Ok _ _ (during before after b pa) (r, s)
                 (during before after b pa)).
      * now rewrite (bindM_Ok _ _ _ _ _ Hrun).
      * now rewrite (bindM_Ok _ _ _ _ _ (assignmentOf_before _ _ _ _ _ _ Hs)).
    + constructor; [split; assumption | assumption].
Qed.

Lemma operands_denote before operands assignments :
  Forall2 (fun ro a => nth_error before (fst ro) = Some (Assignment (snd ro))
                       /\ holds before (snd ro) a)
          operands assignments ->
  Forall2 (denotes before) (map fst operands) assignments.
Proof.
  induction 1 as [|[r s] a l l' [Hr Ha] _ IH]; cbn [map fst].
  - constructor.
  - constructor; [exists s; split; assumption | assumption].
Qed.

Lemma compareAssignments_holds before s1 a1 s2 a2 :
  holds before s1 a1 -> holds before s2 a2 ->
  Heap.compareAssignments s1 s2 = SP1200.compareAssignments a1 a2.
Proof.
  intros (Hb1 & Hp1 & _) (Hb2 & Hp2 & _).
  unfold Heap.compareAssignments, SP1200.compareAssignments.
  now rewrite Hb1, Hp1, Hb2, Hp2.
Qed.

(** [getPadAssignments] followed by [sort], during a build: a new array
    comes to stand behind the buffer, sorted where it is; its elements
    stand for the sorted assignments. *)
Lemma sorted_during before pa b assignments :
  Forall2 (denotes before) (Map_values pa) assignments ->
  exists sorted,
    bindM Heap.getPadAssignments
          (fun array => Array_sort array Heap.compareAssignments)
          (during before [] b pa)
    = (Ok (S (length before)), during before [Array sorted] b pa) /\
    Forall2 (denotes before) sorted
            (sort SP1200.compareAssignments assignments).
Proof.
  intros Hd.
  destruct (operands_during before [Array (Map_values pa)] pa b _ _ Hd)
    as (ops & Hrun & Hops).
  exists (map fst (sort (fun x y => Heap.compareAssignments (snd x) (snd y)) ops)).
  split.
  - assert (Hnew : Heap.getPadAssignments (during before [] b pa)
                   = (Ok (S (length before)),
                      during before [Array (Map_values pa)] b pa)).
    { unfold Heap.getPadAssignments, allocate, during.
      cbn [objects padAssignments].
      rewrite length_app, <- app_assoc. cbn [length app].
      now rewrite Nat.add_1_r. }
    rewrite (bindM_Ok _ _ _ _ _ Hnew). unfold Array_sort.
    assert (Hget : arrayOf (S (length before))
                     (during before [Array (Map_values pa)] b pa)
                   = (Ok (Map_values pa),
                      during before [Array (Map_values pa)] b pa)).
    { unfold arrayOf, bindM, deref, during. cbn [objects].
      rewrite nth_error_app2 by lia.
      replace (S (length before) - length before)%nat with 1%nat by lia.
      reflexivity. }
    rewrite (bindM_Ok _ _ _ _ _ Hget), (bindM_Ok _ _ _ _ _ Hrun).
    unfold bindM, assign, ret, during. cbn [objects padAssignments].
    now rewrite replace_next.
  - assert (Hs := sort_related _
               (fun x y => Heap.compareAssignments (snd x) (snd y))
               SP1200.compareAssignments
               (fun x x' y y' Hx Hy =>
                  compareAssignments_holds before _ _ _ _ (proj2 Hx) (proj2 Hy))
               _ _ Hops).
    now apply operands_denote.
Qed.

Lemma abstracts_values h this :
  abstracts h this ->
  Forall2 (denotes (objects h)) (Map_values (padAssignments h))
          (Map_values this) /\
  Map_size (padAssignments h) = Map_size this.
Proof.
  unfold abstracts, Map_values, Map_size.
  induction 1 as [|[k r] [k' a] l l' [_ Hd] _ [IH1 IH2]]; cbn [map snd length].
  - split; [constructor | reflexivity].
  - split; [constructor; assumption | lia].
Qed.

(** A build on the heap and the value-passing [SP1200.createDiskImage]:
    the same outcome, the image (or what was written of it when the
    build threw) in a new place behind the objects that were there, and
    after it at most the array that was sorted. *)
Lemma createDiskImage_during h this :
  abstracts h this ->
  exists image rest,
    Heap.createDiskImage h
    = (match fst (SP1200.createDiskImage this) with
       | Ok _ => Ok (length (objects h))
       | Throw e => Throw e
       end, during (objects h) rest image (padAssignments h)) /\
    forall built, fst (SP1200.createDiskImage this) = Ok built -> image = built.
Proof.
  intros Habs. apply abstracts_values in Habs as [Hvals Hsize].
  destruct h as [before pa]. cbn [objects padAssignments] in *.
  unfold Heap.createDiskImage, SP1200.createDiskImage,
    SP1200.getPadAssignments, writeHeader.
  cbn [fst snd]. cbv zeta.
  assert (Hnew : allocate (Buffer (alloc SP1200_DISK_SIZE))
                   {| objects := before; padAssignments := pa |}
                 = (Ok (length before),
                    during before [] (alloc SP1200_DISK_SIZE) pa))
    by reflexivity.
  rewrite (bindM_Ok _ _ _ _ _ Hnew).
  unfold bytes_fill_all, bytes_fill, view_setUint16.
  rewrite bind_through. cbv beta. unfold andThen at 1.
  header_step.
  unfold size at 1. unfold bindM at 1. cbn [padAssignments during].
  fold (during before [] a pa). rewrite Hsize.
  do 2 header_step.
  rewrite bind_through. cbv beta. unfold andThen at 1.
  set (b0 := fill a1 0 SP1200_PAD_TABLE_OFFSET _).
  destruct (sorted_during before pa b0 _ Hvals) as (sorted & Hsort & Hsorted).
  unfold bindM at 1 2.
  unfold bindM in Hsort.
  destruct (Heap.getPadAssignments (during before [] b0 pa)) as [[array|e] h1];
    [|discriminate Hsort].
  rewrite Hsort.
  assert (Hget : arrayOf (S (length before))
                   (during before [Array sorted] b0 pa)
                 = (Ok sorted, during before [Array sorted] b0 pa)).
  { unfold arrayOf, bindM, deref, during. cbn [objects].
    rewrite nth_error_app2 by lia.
    replace (S (length before) - length before)%nat with 1%nat by lia.
    reflexivity. }
  rewrite (bindM_Ok _ _ _ _ _ Hget).
  destruct (writeSamples_during before [Array sorted] pa _ _ Hsorted b0
              SP1200_SAMPLE_DATA_OFFSET) as (b1 & Hrun & Hb1).
  destruct (SP1200.writeSamples (b0, SP1200_SAMPLE_DATA_OFFSET) _)
    as [[b2 cur]|e] eqn:E2.
  - rewrite (bindM_Ok _ _ _ _ _ Hrun). cbn [bind].
    rewrite (Hb1 b2 cur eq_refl).
    destruct (cur >? SP1200_DISK_SIZE).
    + eexists _, _. split; [reflexivity | intros ? [=]].
    + eexists _, _. split; [reflexivity | now intros ? [= <-]].
  - rewrite (bindM_Throw _ _ _ _ _ Hrun). cbn [bind].
    eexists _, _. split; [reflexivity | intros ? [=]].
Qed.

Lemma holds_before before more s a :
  holds before s a -> holds (before ++ more) s a.
Proof.
  intros (Hb & Hp & Hn & Hd & Hm). repeat (split; [assumption|]).
  split; [now apply nth_error_before|].
  destruct (o_metadata s); [|assumption].
  destruct Hm as (fields & Hr & Ha). exists fields.
  split; [now apply nth_error_before | assumption].
Qed.

Lemma denotes_before before more r a :
  denotes before r a -> denotes (before ++ more) r a.
Proof.
  intros (s & Hs & Ha). exists s.
  split; [now apply nth_error_before | now apply holds_before].
Qed.

Lemma returnedAssignments_values h :
  returnedAssignments h = Some (Map_values (padAssignments h)).
Proof.
  unfold returnedAssignments, Heap.getPadAssignments, allocate.
  cbn [objects]. now rewrite nth_error_app2, Nat.sub_diag by lia.
Qed.

(** *** The other methods

    The stores that the methods of the class produce stay stores of a
    builder: each method does on the heap what its value-passing
    version does to the value. *)

Lemma abstracts_before h more (pa : Map ref) (this : Builder) :
  Forall2 (fun kr ka => fst kr = fst ka /\
                        denotes (objects h) (snd kr) (snd ka)) pa this ->
  Forall2 (fun kr ka => fst kr = fst ka /\
                        denotes (objects h ++ more) (snd kr) (snd ka)) pa this.
Proof.
  apply Forall2_impl. intros kr ka [Hk Hd].
  split; [assumption | now apply denotes_before].
Qed.

Lemma Map_set_related {V W} (R : V -> W -> Prop) (m : Map V) (m' : Map W)
      k v w :
  Forall2 (fun kv kw => fst kv = fst kw /\ R (snd kv) (snd kw)) m m' ->
  R v w ->
  Forall2 (fun kv kw => fst kv = fst kw /\ R (snd kv) (snd kw))
          (Map_set m k v) (Map_set m' k w).
Proof.
  intros Hm Hv.
  induction Hm as [|[k1 v1] [k2 w1] m m' [Hk Hr] Hm IH]; cbn [Map_set].
  - constructor; [split; [reflexivity | assumption] | constructor].
  - cbn [fst snd] in Hk, Hr. subst k2.
    destruct (String.eqb k1 k); constructor; auto.
Qed.

Lemma Map_delete_related {V W} (R : V -> W -> Prop) (m : Map V) (m' : Map W)
      k :
  Forall2 (fun kv kw => fst kv = fst kw /\ R (snd kv) (snd kw)) m m' ->
  Forall2 (fun kv kw => fst kv = fst kw /\ R (snd kv) (snd kw))
          (Map_delete m k) (Map_delete m' k).
Proof.
  intros Hm.
  induction Hm as [|[k1 v1] [k2 w1] m m' [Hk Hr] Hm IH]; cbn [Map_delete].
  - constructor.
  - cbn [fst snd] in Hk, Hr. subst k2.
    destruct (String.eqb k1 k); [assumption | constructor; auto].
Qed.

Lemma addSample_abstracts h this bank pad name data elements metadata fields :
  abstracts h this ->
  nth_error (objects h) data = Some (Uint8Array elements) ->
  match metadata with
  | Some m => exists f, nth_error (objects h) m = Some (Metadata f) /\
                        fields = Some f
  | None => fields = None
  end ->
  let assignment :=
    {| arg_bank := bank; arg_padNumber := pad; arg_name := name;
       arg_data := elements; arg_metadata := fields |} in
  fst (Heap.addSample bank pad name data metadata h)
  = fst (SP1200.addSample assignment this) /\
  abstracts (snd (Heap.addSample bank pad name data metadata h))
            (snd (SP1200.addSample assignment this)).
Proof.
  intros Habs Hdata Hmeta assignment. subst assignment.
  unfold Heap.addSample, SP1200.addSample.
  cbn [arg_bank arg_padNumber arg_name arg_data arg_metadata].
  destruct (isValidBank bank) as [b|]; [|split; [reflexivity | assumption]].
  destruct (negb (isValidPad pad)); [split; [reflexivity | assumption]|].
  cbn. split; [reflexivity|].
  unfold abstracts. cbn [objects padAssignments].
  apply Map_set_related; [now apply abstracts_before|].
  eexists. split; [now rewrite nth_error_app2, Nat.sub_diag by lia|].
  unfold holds. cbn.
  repeat (split; [reflexivity|]).
  split; [now apply nth_error_before|].
  destruct metadata as [m|]; [|assumption].
  destruct Hmeta as (f & Hm & ->). exists f.
  split; [now apply nth_error_before | reflexivity].
Qed.

Lemma removeSample_abstracts h this bank pad :
  abstracts h this ->
  abstracts (snd (Heap.removeSample bank pad h))
            (snd (SP1200.removeSample bank pad this)).
Proof. intros Habs. now apply Map_delete_related. Qed.

Lemma clear_abstracts h this :
  abstracts (snd (Heap.clear h)) (snd (SP1200.clear this)).
Proof. constructor. Qed.

(** C10.  [createDiskImage] leaves the builder and everything it refers
    to as it found them, whether it returns or throws.  For a store [h]
    whose builder holds the assignments [this]: after the call the [Map]
    is the same, every object that was in the store is the same object
    (the assignment objects, their [data] arrays and [metadata] objects
    among them), so the builder holds the same assignments;
    [getSample] returns the same reference for every bank and pad and
    [getPadAssignments] an array of the same references in the same
    order.  The call returns a buffer that was not there before, with
    the bytes that [SP1200.createDiskImage] computes, or throws the same
    error; and a second call right after the first returns another
    buffer with the same bytes, the first buffer still being as it was
    returned, or throws the same error again. *)
Theorem createDiskImage_does_not_mutate (h : heap) (this : Builder) :
  abstracts h this ->
  let built := fst (Heap.createDiskImage h) in
  let h' := snd (Heap.createDiskImage h) in
  let built' := fst (Heap.createDiskImage h') in
  let h'' := snd (Heap.createDiskImage h') in
  padAssignments h' = padAssignments h /\
  (forall r o, nth_error (objects h) r = Some o ->
               nth_error (objects h') r = Some o) /\
  abstracts h' this /\
  (forall bank pad, fst (Heap.getSample bank pad h')
                    = fst (Heap.getSample bank pad h)) /\
  returnedAssignments h' = returnedAssignments h /\
  match fst (SP1200.createDiskImage this) with
  | Ok image =>
      exists buffer,
        built = Ok buffer /\
        nth_error (objects h) buffer = None /\
        nth_error (objects h') buffer = Some (Buffer image)
  | Throw e => built = Throw e
  end /\
  match built, built' with
  | Ok buffer, Ok buffer' =>
      buffer <> buffer' /\
      exists image,
        nth_error (objects h') buffer = Some (Buffer image) /\
        nth_error (objects h'') buffer = Some (Buffer image) /\
        nth_error (objects h'') buffer' = Some (Buffer image)
  | Throw e, Throw e' => e = e'
  | _, _ => False
  end.
Proof.
  intros Habs built h' built' h''.
  destruct (createDiskImage_during h this Habs) as (image & rest & Hrun & Himage).
  assert (Hh' : h' = during (objects h) rest image (padAssignments h))
    by (subst h'; now rewrite Hrun).
  assert (Hbuilt : built = match fst (SP1200.createDiskImage this) with
                           | Ok _ => Ok (length (objects h))
                           | Throw e => Throw e
                           end)
    by (subst built; now rewrite Hrun).
  assert (Habs' : abstracts h' this).
  { rewrite Hh'. unfold abstracts, during in *. cbn [objects padAssignments].
    eapply Forall2_impl; [|exact Habs].
    intros kr ka [Hk Hd]. split; [assumption | now apply denotes_before]. }
  destruct (createDiskImage_during h' this Habs')
    as (image' & rest' & Hrun' & Himage').
  assert (Hh'' : h'' = during (objects h') rest' image' (padAssignments h'))
    by (subst h''; now rewrite Hrun').
  assert (Hbuilt' : built' = match fst (SP1200.createDiskImage this) with
                             | Ok _ => Ok (length (objects h'))
                             | Throw e => Throw e
                             end)
    by (subst built'; now rewrite Hrun').
  clearbody built h' built' h''. clear Hrun Hrun'.
  assert (Hat : nth_error (objects h') (length (objects h))
                = Some (Buffer image)).
  { rewrite Hh'. unfold during. cbn [objects].
    now rewrite nth_error_app2, Nat.sub_diag by lia. }
  split; [now rewrite Hh'|].
  split.
  { intros r o Hr. rewrite Hh'. unfold during. cbn [objects].
    now apply nth_error_before. }
  split; [assumption|].
  split; [intros bank pad; unfold Heap.getSample; now rewrite Hh'|].
  split.
  { rewrite !returnedAssignments_values. now rewrite Hh'. }
  split.
  - destruct (fst (SP1200.createDiskImage this)) as [built0|e];
      [|assumption].
    exists (length (objects h)). split; [assumption|].
    split; [now apply nth_error_None|].
    now rewrite <- (Himage built0 eq_refl).
  - rewrite Hbuilt, Hbuilt'.
    destruct (fst (SP1200.createDiskImage this)) as [built0|e];
      [|reflexivity].
    assert (Hlen : (length (objects h) < length (objects h'))%nat)
      by (apply nth_error_Some; congruence).
    split; [lia|]. exists image.
    split; [assumption|]. rewrite Hh''. unfold during. cbn [objects].
    split; [now apply nth_error_before|].
    rewrite nth_error_app2, Nat.sub_diag by lia. cbn [nth_error].
    now rewrite (Himage built0 eq_refl), (Himage' built0 eq_refl).
Qed.

(** The statement at a store of three objects: one [data] array, and two
    assignments, on B3 and on A1, that share it.  The build returns, the
    [Map] is as before and [getPadAssignments] still lists B3 before
    A1, the order in which they were added. *)
Lemma createDiskImage_does_not_mutate_witness :
  abstracts HeapTerms.sharedData HeapTerms.sharedDataBuilder /\
  padAssignments (snd (Heap.createDiskImage HeapTerms.sharedData))
  = padAssignments HeapTerms.sharedData /\
  returnedAssignments (snd (Heap.createDiskImage HeapTerms.sharedData))
  = Some [2%nat; 1%nat].
Proof.
  assert (Habs : abstracts HeapTerms.sharedData HeapTerms.sharedDataBuilder).
  { unfold abstracts. repeat constructor; eexists;
      (split; [reflexivity|]); repeat split. }
  split; [exact Habs|].
  destruct (createDiskImage_does_not_mutate _ _ Habs)
    as (Hmap & _ & _ & _ & Hreturned & _).
  split; [exact Hmap|]. rewrite Hreturned. reflexivity.
Defined.

End HeapFacts.
